(* ===== verification/_CoqProject ===== *)
-Q . S2P
Prelude.v
Effects.v
GoLib.v
Kube.v
Interfaces.v
Paths.v
TextLaws.v
Unquote.v
Json.v
JsonLaws.v
OciSpec.v
HostOps.v
HostRestore.v
HostInstances.v
OciLaws.v
HostLaws.v
HostRestoreLaws.v
HostBootLaws.v
Holder.v
Calls.v
Timeout.v
Eligibility.v
Classifier.v
Engine.v
PodUtil.v
JobBase.v
Assignment.v
ActiveMigration.v
Fence.v
Budget.v
Instances.v
BudgetLaws.v
AssignmentLaws.v
Spawn.v
Watches.v
IndexLaws.v
Admission.v
FenceWebhook.v
StatusWebhook.v
PodGate.v
PodGateLaws.v
GateWebhook.v
EvictionGate.v
EvictionLaws.v
GKEProvider.v
GKEProviderLaws.v
PolicyLookup.v
NodePreemption.v
NodePreemptionLaws.v
JobPhases.v
Restore.v
Invariants.v
InvariantEngine.v
InvariantLaws.v
JobLogic.v
JobReconcile.v
SafetySpec.v
JobSafety.v
PassSafety.v
Sha256.v
MigrationConfig.v
MigrationConfigLaws.v
Md5.v
CriuContract.v
CodecLaws.v
CriuEngine.v
Gcs.v
GcsLaws.v
CriuNode.v
CriuInstances.v
CriuLaws.v
CriuRestoreLaws.v
CriuEngineLaws.v
HolderLaws.v
Continuity.v
ContinuityLaws.v
Profiler.v
Reconstruct.v
ProfilerRun.v
ProfilerLaws.v
