(* ===== verification/Prelude.v ===== *)
(** * Verification of the pod-migration controller

    The controller (Go, under src/controller) migrates Kubernetes pods: it
    checkpoints a running pod, evicts it, and has its replacement restored from
    the checkpoint.  One migration is a PodMigrationJob, whose phases are
    Pending, Snapshotting, Evicting, Restoring and Succeeded, Failed or
    SucceededWithoutRestore.  This library models the controller's decisions and
    proves what makes them safe.

    ** How the program is modelled

    A reconciler or webhook is a program ([Effects.prog]) that makes calls, and
    whose continuation takes the environment's answers; [Interfaces.Ev] lists
    the calls (reads of the cache or of the API server, writes, evictions, calls
    of the snapshot engine, metrics and events) and [Interfaces.resp] the types
    of their answers.  A theorem about [exec] holds for every answer: stale
    reads, failing writes, objects that others changed between two calls.  A
    handler's early returns and its mutation of the object its pointers reach
    are the monad [gom] over an explicit state.  A safety theorem is proved with
    a monitor ([wp], [wpg]): what a call needs of the calls and answers before
    it.  Programs are trees of finite depth, so every pass terminates
    ([Effects.exec_total]).  Fuel: [GoLib.parse_elements] (time.ParseDuration) and
    [Unquote.unquote_chars] have the length of the text, of which every turn
    consumes a byte; [Json.first_value] has twice that, and more changes nothing
    ([JsonLaws.first_value_fuel]); the loops that poll until a deadline
    ([HostRestore.awaitHolder], [Holder.decideAction]) answer [None] when their
    polls run out, and on a clock that runs ([Effects.ticks]) 122 and 902 polls are
    enough.  Durations and counters are 64-bit integers as Z, wrapped
    ([GoLib.i64]) where the code can overflow.

    ** The parts, and where they are modelled (paths under
    src/controller/internal unless they start with api)

    - Kube: the API objects (api/v1alpha1, core/v1 as far as read).
      Interfaces: errors, results, the calls, and [KubeLib], the laws of the
      condition and finalizer helpers.  Calls: calls that change nothing.  GoLib:
      the functions of strings, strconv, time and sort used; TextLaws: decimals and
      RFC 3339 times read back.  Json: encoding/json, encoder, scanner and decoder;
      JsonLaws: what is printed is scanned and decoded.
    - Timeout (util/timeout.go), PodUtil (util/preemption.go: predicates),
      Eligibility (eligibility/runtimeclass.go), Classifier (restore/), Engine
      (engine/: interface, routes, registry, the GKE engine), ActiveMigration
      (util/podmigration.go).
    - The reconciler of a job, controller/podmigrationjob_controller.go and
      restore_verdict.go: JobBase (configuration, state, helpers), JobPhases
      (Pending, Snapshotting, Evicting), Restore (Restoring and its verdicts),
      JobReconcile (the prologue, timeouts, garbage collection, [Reconcile]).
      It calls Fence (controller/fence.go), Budget (controller/budget_*.go) and
      the engine it got from Engine's registry.
    - Assignment (util/assignment.go): which job a new pod takes over; Spawn
      (util/preemption.go, controller/indexers.go): what a trigger records on a
      new job.  Both sides of the parent-workload labels.
    - PodGate (controller/pod_gate_controller.go): holds the replacement, orders
      its restore, records it as the job's consumer.
    - Admission, EvictionGate, GateWebhook, FenceWebhook, StatusWebhook
      (webhook/): the eviction that starts a migration, the gate on a new pod,
      the fence's Ready condition, the completion of a migrating Job's pod.
    - NodePreemption (controller/node_preemption_controller.go): migrations off a
      dying node, within a memory budget.  PolicyLookup (util/preemption.go):
      the pod's PodSnapshotPolicy, and the GKE engine's ResolvePolicy.
    - Watches (controller/indexers.go and the set-up functions): the cache's indexes
      and which changes wake which objects.
    - MigrationConfig (controller/podmigration_controller.go): the storage and
      policy objects of a namespace, rendered, synced, and deleted once no
      migration needs them; their names are SHA-256 hashes (Sha256).
    - GKEProvider (snapshot/): triggers, snapshots and restore marks behind the
      GKE engine, over calls of its own ([GKEProvider.PEv]).  The reconcilers'
      models take the engine's answers as answers of the calls, so they hold for
      every engine.
    - The second engine, CRIU (src/engines/criu): CriuContract (psengine/contract:
      its objects, and its calls [XEv]), CriuEngine (psmt_reconciler.go,
      psp_reconciler.go, preflight.go, restore_webhook.go), CriuNode (pipeline.go,
      restore_node.go, the uploads of gcs.go); the digests of gcs.go are Sha256 and
      Md5, its HTTP transport Gcs, over calls of its own.
    - CRIU's node agent (internal/node): OciSpec (ocispec.go, the version gate of
      capability.go) over Paths (package path), HostOps (the agent's calls [HEv];
      checkpoint.go, psengine_glue.go, findContainer of restore.go), HostRestore
      (restore.go, node.go, capability.go); HostInstances is a node to run on.
    - CRIU's holder (cmd/holder): Holder, a process over its own calls [WEv], with
      strconv's Unquote in full in Unquote.
    - The write-continuity check (tools/pmprofiler/internal/continuity): Continuity,
      over the calls [KEv] of the probe.
    - The profiler's analysis (tools/pmprofiler/internal/analyze): Profiler (what the
      records say), Reconstruct (one migration), ProfilerRun (the run, its statistics
      and its assertions).
    - Invariants (invariants/rules.go): rules I1 to I12 on what a reconciler saw;
      InvariantEngine (invariants/engine.go): the debounced verdict.

    The parts meet in the objects of the API server: the eviction webhook
    creates the job (its labels by Spawn), the job's reconciler moves it, the
    replacement webhook and the gate read its labels, phase and snapshot and
    write its consumer, which the job's reconciler then waits for.

    ** What is proved

    - PassSafety (from the contract SafetySpec, handler by handler in JobSafety,
      with the rules of JobLogic): a pass of [Reconcile] follows the phase
      machine; terminal phases stay; Evicting needs a Ready snapshot, Restoring a
      gone source and detached volumes, Succeeded a Ready and never restarted
      replacement with an accepted verdict; a checkpoint is triggered only on a
      fenced source; only the source is evicted, only a crashed replacement and a
      collectable job are deleted.  The one assumption on the server is
      [SafetySpec.honest].
    - PodGateLaws: a gate is opened only with an order for the runtime; a job is
      consumed once; a gated pod is retried.  The engines enter through the class
      [LawfulOrderer], which the GKE engine satisfies.
    - AssignmentLaws, Spawn, GateWebhook: a pod is assigned only a job it may
      take over; of contending pods one wins; the job a trigger creates is the
      one its pod's replacement finds; a new pod starts cold only when the live
      lists hold no job for it.
    - EvictionLaws, FenceWebhook, StatusWebhook: when an eviction goes through
      and when it starts a migration; Ready stays False through every status
      write; a completion caused by migration becomes a failure.
    - MigrationConfigLaws: objects outlive the migrations that need them, Ready
      means synced, and a deleted PodMigration's pass ends in an error, a retry
      or its release.
    - IndexLaws: on a store that does not change, the index-backed search for a new
      pod's job is a plain scan, and a snapshot's change wakes the jobs that record it.
    - NodePreemptionLaws, PolicyLookup, GKEProviderLaws: the preempted pods
      chosen are the most the budget can save; the policy found is the newest
      that applies; a trigger follows the source's cold-start order; the scan of
      a snapshot's conditions against its declarative reading; a restore is
      marked once.
    - CriuLaws, CriuRestoreLaws, CriuEngineLaws (runs in CriuInstances): a source is
      stopped only after its archive is durable, a process is restored only into the
      pod its job is bound to, what was archived can be restored, and the statuses
      the engine writes are read by GKEProvider as what they mean, with one
      exception that is proved: a refusal that a node agent overtakes.
    - CodecLaws: the fence's baseline and an archive's manifest decode to what was
      encoded, so the fence recognises the source it fenced.
    - GcsLaws: a request to the object store names one object and carries a live token.
    - OciLaws, HostLaws, HostRestoreLaws, HostBootLaws: mounts and security settings
      of a restored container are those of its destination, a tar unpacks below its
      directory, runc restores only an adapted spec into the target's sandbox, the
      wait for the holder ends (122 polls cover its 30 s), and a node is announced
      only after its checks.
    - HolderLaws: an injected container (InjectHolder of CriuEngine) runs its own
      command unless its restore was confirmed; 902 polls cover its 2 s and 90 s.
    - ContinuityLaws: the write-continuity check passes exactly the healthy traces,
      and two ways in which the probe's traces look healthy though writes were lost.
    - ProfilerLaws: what the latency assertion, the loop check and the verdict check
      guarantee when they pass, the tally of a run, and that a job's migration counts
      as restored only on an engine's or the job's word.
    - BudgetLaws: admissions never overcommit a disruption budget.
    - InvariantLaws: the engine's verdict refines a definition over the history
      of samples; I1 is exact.
    - Engine, Eligibility, Classifier, Timeout, ActiveMigration: routing,
      round trips of the flag syntaxes, soundness of the crash classes, bounds of
      the timeout (and [Timeout.migration_timeout_overflow], an overflow), the
      election.

    Instances holds concrete instances of the library classes and sample
    objects; the witnesses run the handlers on them.

    ** Not modelled, and why

    - Log lines, contexts and their deadlines (a call past its deadline is a
      call that fails), the set-up of managers, flags.
    - The informer cache as such: a cached read answers anything.  Mutexes: each
      operation of the registry, the budget checker and the invariant engine is
      one step.
    - runc, criu, containerd and the kubelet are behind the calls of the node agent.
    - The profiler's counters of invariant violations (they parse floats from text) and
      the decoding of its lines; its report.
    - The commands' set-up of managers and flags, the rest of the tools (src/tools),
      the verification suite and the manifests.
*)
From stdpp Require Export base option list strings gmap pretty.
From Stdlib Require Export ZArith Lia Bool.
From Stdlib Require Import String Ascii.

#[export] Set Warnings "-clear-no-such-hyp".
#[global] Open Scope string_scope.
#[global] Open Scope list_scope.
#[global] Open Scope Z_scope.

(** ** Notations *)

Declare Scope go_scope.
Delimit Scope go_scope with go.
#[global] Open Scope go_scope.

(** Go's [==] and [!=] on strings. *)
Notation "s ==s t" := (String.eqb s t) (at level 70, no associativity) : go_scope.
Notation "s !=s t" := (negb (String.eqb s t)) (at level 70, no associativity) : go_scope.

(** Go's concatenation of strings. *)
Notation "s +s t" := (String.append s t) (at level 60, right associativity) : go_scope.

(** [m[k]] on a [map[string]string]: the zero value when the key is absent. *)
Definition sget (m : gmap string string) (k : string) : string := default "" (m !! k).

(** ** Tactics *)

(** Case analysis on the scrutinee of a [match] or [if] of the goal or of a hypothesis. *)
Ltac dmatch :=
  match goal with
  | |- context [match ?x with _ => _ end] => destruct x eqn:?
  | H : context [match ?x with _ => _ end] |- _ => destruct x eqn:?
  end.

(** Turns the boolean tests of the code into propositions. *)
Ltac bool_props :=
  repeat match goal with
  | H : _ && _ = true |- _ => apply andb_true_iff in H; destruct H
  | H : _ || _ = false |- _ => apply orb_false_iff in H; destruct H
  | H : negb _ = true |- _ => apply negb_true_iff in H
  | H : negb _ = false |- _ => apply negb_false_iff in H
  | H : String.eqb _ _ = true |- _ => apply String.eqb_eq in H
  | H : String.eqb _ _ = false |- _ => apply String.eqb_neq in H
  | H : (_ =? _)%Z = true |- _ => apply Z.eqb_eq in H
  | H : (_ =? _)%Z = false |- _ => apply Z.eqb_neq in H
  | H : (_ <? _)%Z = true |- _ => apply Z.ltb_lt in H
  | H : (_ <? _)%Z = false |- _ => apply Z.ltb_ge in H
  | H : (_ <=? _)%Z = true |- _ => apply Z.leb_le in H
  | H : (_ <=? _)%Z = false |- _ => apply Z.leb_gt in H
  end.

Create HintDb podmig discriminated.
#[export] Hint Resolve String.eqb_refl Z.eqb_refl : podmig.

(** ** Generic lemmas *)

Lemma seqb_refl (s : string) : (s ==s s) = true.
Proof. apply String.eqb_refl. Qed.

Lemma seqb_true (s t : string) : (s ==s t) = true <-> s = t.
Proof. apply String.eqb_eq. Qed.

Lemma seqb_false (s t : string) : (s ==s t) = false <-> s <> t.
Proof. apply String.eqb_neq. Qed.

Lemma sget_insert_eq (m : gmap string string) k v : sget (<[k:=v]> m) k = v.
Proof. unfold sget. by rewrite lookup_insert_eq. Qed.

Lemma sget_insert_ne (m : gmap string string) k k' v :
  k <> k' -> sget (<[k:=v]> m) k' = sget m k'.
Proof. intros H. unfold sget. by rewrite lookup_insert_ne. Qed.

Lemma sget_delete_eq (m : gmap string string) k : sget (delete k m) k = "".
Proof. unfold sget. by rewrite lookup_delete_eq. Qed.

Lemma find_some_existsb {A} (f : A -> bool) (l : list A) :
  existsb f l = true <-> exists x, In x l /\ f x = true.
Proof. apply existsb_exists. Qed.

Lemma existsb_false {A} (f : A -> bool) (l : list A) :
  existsb f l = false <-> forall x, In x l -> f x = false.
Proof.
  induction l as [|a l IH]; simpl; [naive_solver|].
  rewrite orb_false_iff, IH. split; [intros [? ?] x [->|?]; auto|auto].
Qed.

Create Rewrite HintDb podmig.
#[export] Hint Rewrite seqb_refl sget_insert_eq sget_delete_eq : podmig.
