(* ===== verification/Effects.v ===== *)
(** * Effects: programs that call an environment

    The controller talks to the API server, the snapshot engine, the event
    recorder and its own in-memory tables.  Every such call is an event of a
    signature ([E], [resp]); a program is a tree of events whose continuation
    takes the environment's answer.  A theorem about [exec] quantifies over
    every answer: stale caches, failing writes, objects changed by other
    actors between two calls.

    - [prog], [pbind]: programs and their sequencing;
    - [exec p t a]: [p] can run with the event trace [t] and return [a];
    - [run]: a deterministic run against a concrete environment (witnesses);
    - [wp]: weakest precondition of a program under a monitor;
    - [gom]: Go functions as programs with a mutable state and early return. *)
From Stdlib Require Import Eqdep.
From S2P Require Import Prelude.

Section Programs.
Context {E : Type} (resp : E -> Type).

Inductive prog (A : Type) : Type :=
| Done (a : A)
| Call (e : E) (k : resp e -> prog A).

End Programs.
Arguments Done {E resp A} a.
Arguments Call {E resp A} e k.

Section Semantics.
Context {E : Type} {resp : E -> Type}.

Fixpoint pbind {A B} (p : prog resp A) (f : A -> prog resp B) : prog resp B :=
  match p with
  | Done a => f a
  | Call e k => Call e (fun x => pbind (k x) f)
  end.

(** A call and the environment's answer. *)
Definition step : Type := { e : E & resp e }.
Definition trace := list step.
Definition called (s : step) : E := projT1 s.

Inductive exec {A} : prog resp A -> trace -> A -> Prop :=
| exec_done a : exec (Done a) [] a
| exec_call e k x t a : exec (k x) t a -> exec (Call e k) (existT e x :: t) a.

(** A deterministic run against an environment with state [S]. *)
Fixpoint run {S A} (env : S -> forall e, S * resp e) (s : S) (p : prog resp A) : S * trace * A :=
  match p with
  | Done a => (s, [], a)
  | Call e k =>
      let '(s', x) := env s e in
      let '(s'', t, a) := run env s' (k x) in
      (s'', existT e x :: t, a)
  end.

Lemma run_exec {S A} (env : S -> forall e, S * resp e) (s : S) (p : prog resp A) :
  exec p (snd (fst (run env s p))) (snd (run env s p)).
Proof.
  revert s; induction p as [a|e k IH]; intros s; simpl; [constructor|].
  destruct (env s e) as [s' x]. specialize (IH x s').
  destruct (run env s' (k x)) as [[s'' t] a]; simpl in *. by constructor.
Qed.

(** Every program terminates, whatever the environment answers. *)
Lemma exec_total {A} (p : prog resp A) (answer : forall e, resp e) : exists t a, exec p t a.
Proof.
  pose proof (run_exec (fun (_ : unit) e => (tt, answer e)) tt p) as H.
  by eexists _, _.
Qed.

(** Inversion of a run, by the program's head. *)
Lemma exec_inv {A} (p : prog resp A) t a :
  exec p t a ->
  match p with
  | Done a' => t = [] /\ a = a'
  | Call e k => exists x t', t = existT e x :: t' /\ exec (k x) t' a
  end.
Proof. destruct 1; [done|]. by eexists _, _. Qed.

(** A call whose answer is known. *)
Lemma exec_answered {A} e (k : resp e -> prog resp A) x t a :
  exec (Call e k) (existT e x :: t) a -> exec (k x) t a.
Proof.
  intros H. apply exec_inv in H as (x' & t' & Ht & H). injection Ht as Hx ->.
  by apply inj_pair2 in Hx as ->.
Qed.

Lemma exec_pbind {A B} (p : prog resp A) (f : A -> prog resp B) t b :
  exec (pbind p f) t b -> exists t1 t2 a, t = t1 ++ t2 /\ exec p t1 a /\ exec (f a) t2 b.
Proof.
  revert t; induction p as [a|e k IH]; simpl; intros t H.
  - exists [], t, a. by repeat constructor.
  - apply exec_inv in H as (x & t' & -> & Hx).
    destruct (IH x t' Hx) as (t1 & t2 & a & -> & H1 & H2).
    exists (existT e x :: t1), t2, a. by repeat constructor.
Qed.

(** ** Monitors

    A monitor says, given the calls made so far (newest first), whether the
    program may make a call now ([allows]), and what is relied on of the
    environment's answers ([relies]; [open] relies on nothing). *)
Record monitor := mkMonitor {
  allows : trace -> E -> Prop;
  relies : forall e, resp e -> Prop }.

Definition open (allowed : trace -> E -> Prop) : monitor := mkMonitor allowed (fun _ _ => True).

(** The environment answered every call of [t] as [M] relies on. *)
Definition fair (M : monitor) (t : trace) : Prop := Forall (fun s => relies M (projT1 s) (projT2 s)) t.

Lemma fair_open A t : fair (open A) t.
Proof. by apply Forall_forall. Qed.

Fixpoint obeys (M : monitor) (h t : trace) : Prop :=
  match t with
  | [] => True
  | s :: t' => allows M h (called s) /\ obeys M (s :: h) t'
  end.

Lemma obeys_app (M : monitor) (h t1 t2 : trace) :
  obeys M h (t1 ++ t2) <-> obeys M h t1 /\ obeys M (rev t1 ++ h) t2.
Proof.
  revert h; induction t1 as [|s t1 IH]; simpl; intros h; [tauto|].
  rewrite IH, <- app_assoc. simpl. tauto.
Qed.

(** A monitored trace: at every call, the monitor holds of the calls before it. *)
Lemma obeys_at (M : monitor) (t1 t2 : trace) (s : step) :
  obeys M [] (t1 ++ s :: t2) -> allows M (rev t1) (called s).
Proof. rewrite obeys_app; simpl. rewrite app_nil_r. tauto. Qed.

Fixpoint wp {A} (M : monitor) (p : prog resp A) (h : trace) (Q : trace -> A -> Prop) : Prop :=
  match p with
  | Done a => Q h a
  | Call e k => allows M h e /\ forall x, relies M e x -> wp M (k x) (existT e x :: h) Q
  end.

Lemma wp_sound {A} (M : monitor) (p : prog resp A) h Q t a :
  wp M p h Q -> exec p t a -> fair M t -> obeys M h t /\ Q (rev t ++ h) a.
Proof.
  intros Hwp Hex Hf; revert h Hwp.
  induction Hex as [a|e k x t a Hex IH]; simpl; intros h Hwp; [done|].
  destruct Hwp as [HM Hk]. apply Forall_cons in Hf as [Hx Hf].
  destruct (IH Hf _ (Hk x Hx)) as [Hob HQ].
  rewrite <- app_assoc. by repeat split.
Qed.

Lemma wp_pbind {A B} (M : monitor) (p : prog resp A) (f : A -> prog resp B) h Q :
  wp M (pbind p f) h Q <-> wp M p h (fun h' a => wp M (f a) h' Q).
Proof.
  revert h; induction p as [a|e k IH]; simpl; intros h; [done|]. split.
  - intros [HM Hk]. split; [done|]. intros x Hx. by apply IH, Hk.
  - intros [HM Hk]. split; [done|]. intros x Hx. by apply IH, Hk.
Qed.

(** An environment that answers as relied on. *)
Lemma run_fair {S A} (M : monitor) (env : S -> forall e, S * resp e) (s : S) (p : prog resp A) :
  (forall s e, relies M e (snd (env s e))) -> fair M (snd (fst (run env s p))).
Proof.
  intros Hr. revert s. induction p as [a|e k IH]; intros s; simpl; [constructor|].
  specialize (Hr s e). destruct (env s e) as [s' x]. specialize (IH x s'). destruct (run env s' (k x)) as [[s'' t] a]. by constructor.
Qed.

(** A monitor that allows more and relies on more. *)
Definition weaker (M M' : monitor) : Prop :=
  (forall h e, allows M h e -> allows M' h e) /\ (forall e x, relies M' e x -> relies M e x).

Lemma wp_mono {A} (M M' : monitor) (p : prog resp A) h Q Q' :
  weaker M M' -> (forall h a, Q h a -> Q' h a) -> wp M p h Q -> wp M' p h Q'.
Proof.
  intros [HM HR] HQ; revert h; induction p as [a|e k IH]; simpl; intros h Hwp; [auto|].
  destruct Hwp as [H1 H2]. split; [auto|]. intros x Hx. by apply IH, H2, HR.
Qed.

Lemma wp_conseq {A} (M : monitor) (p : prog resp A) h Q Q' :
  wp M p h Q -> (forall h a, Q h a -> Q' h a) -> wp M p h Q'.
Proof. intros Hwp HQ. eapply wp_mono; [|exact HQ|exact Hwp]. by split. Qed.

Lemma wp_and {A} (M : monitor) (p : prog resp A) h Q Q' :
  wp M p h Q -> wp M p h Q' -> wp M p h (fun h a => Q h a /\ Q' h a).
Proof.
  revert h; induction p as [a|e k IH]; simpl; intros h; [done|].
  intros [HM H1] [_ H2]. split; [done|]. intros x Hx. by apply IH; auto.
Qed.

End Semantics.

(** ** Go functions

    A Go function body over a mutable state [S] (the objects its pointers
    reach) that returns [R]: [inl r] is an executed [return], [inr a] the value
    of a statement that fell through. *)
Definition gom {E} (resp : E -> Type) (S R A : Type) : Type := S -> prog resp (S * (R + A)).
(** A whole function: it always returns. *)
Definition fn {E} (resp : E -> Type) (S R : Type) : Type := S -> prog resp (S * R).

Section Go.
Context {E : Type} {resp : E -> Type} {S : Type}.

Definition gret {R A} (a : A) : gom resp S R A := fun s => Done (s, inr a).
Definition greturn {R A} (r : R) : gom resp S R A := fun s => Done (s, inl r).
Definition gbind {R A B} (m : gom resp S R A) (f : A -> gom resp S R B) : gom resp S R B :=
  fun s => pbind (m s) (fun '(s', x) =>
    match x with inl r => Done (s', inl r) | inr a => f a s' end).
Definition gcall {R} (e : E) : gom resp S R (resp e) := fun s => Call e (fun x => Done (s, inr x)).
Definition gget {R} : gom resp S R S := fun s => Done (s, inr s).
Definition gmodify {R} (f : S -> S) : gom resp S R unit := fun s => Done (f s, inr tt).
(** [if b { m }] *)
Definition gwhen {R} (b : bool) (m : gom resp S R unit) : gom resp S R unit :=
  if b then m else gret tt.
(** Calling a function. *)
Definition ginvoke {R A} (f : fn resp S A) : gom resp S R A :=
  fun s => pbind (f s) (fun '(s', a) => Done (s', inr a)).
(** The function of a body whose last statement is a [return]. *)
Definition gfun {R} (m : gom resp S R R) : fn resp S R :=
  fun s => pbind (m s) (fun '(s', x) => Done (s', match x with inl r => r | inr r => r end)).
(** [for _, x := range l { body }] *)
Fixpoint giter {R A} (l : list A) (body : A -> gom resp S R unit) : gom resp S R unit :=
  match l with
  | [] => gret tt
  | x :: l' => gbind (body x) (fun _ => giter l' body)
  end.

(** Weakest precondition of a body: [Qr] for an executed [return], [Q] for falling through. *)
Definition wpg {R A} (M : monitor) (m : gom resp S R A) (h : trace) (s : S)
    (Qr : trace -> S -> R -> Prop) (Q : trace -> S -> A -> Prop) : Prop :=
  wp M (m s) h (fun h' '(s', x) => match x with inl r => Qr h' s' r | inr a => Q h' s' a end).

Definition wpf {R} (M : monitor) (f : fn resp S R) (h : trace) (s : S)
    (Q : trace -> S -> R -> Prop) : Prop :=
  wp M (f s) h (fun h' '(s', r) => Q h' s' r).

Context (M : @monitor E resp).

Lemma wpg_ret {R A} (a : A) h s (Qr : trace -> S -> R -> Prop) Q :
  Q h s a -> wpg M (gret a) h s Qr Q.
Proof. done. Qed.

Lemma wpg_return {R A} (r : R) h s (Qr : trace -> S -> R -> Prop) (Q : trace -> S -> A -> Prop) :
  Qr h s r -> wpg M (greturn r) h s Qr Q.
Proof. done. Qed.

Lemma wpg_call {R} (e : E) h s (Qr : trace -> S -> R -> Prop) Q :
  allows M h e -> (forall x, relies M e x -> Q (existT e x :: h) s x) -> wpg M (gcall e) h s Qr Q.
Proof. intros HM HQ. by split. Qed.

Lemma wpg_get {R} h s (Qr : trace -> S -> R -> Prop) Q : Q h s s -> wpg M gget h s Qr Q.
Proof. done. Qed.

Lemma wpg_modify {R} f h s (Qr : trace -> S -> R -> Prop) Q :
  Q h (f s) tt -> wpg M (gmodify f) h s Qr Q.
Proof. done. Qed.

Lemma wpg_conseq {R A} (m : gom resp S R A) h s Qr Q Qr' Q' :
  wpg M m h s Qr' Q' -> (forall h s r, Qr' h s r -> Qr h s r) ->
  (forall h s a, Q' h s a -> Q h s a) -> wpg M m h s Qr Q.
Proof.
  unfold wpg. intros Hm Hr Hq. eapply wp_conseq; [exact Hm|].
  intros h' [s' [r|a]]; naive_solver.
Qed.

(** A body that keeps the same returns. *)
Lemma wpg_weaken {R A} (m : gom resp S R A) h s Qr (Q' Q : trace -> S -> A -> Prop) :
  wpg M m h s Qr Q' -> (forall h s a, Q' h s a -> Q h s a) -> wpg M m h s Qr Q.
Proof. intros Hm HQ. by eapply wpg_conseq. Qed.

Lemma wpg_and {R A} (m : gom resp S R A) h s Qr (Q Q' : trace -> S -> A -> Prop) :
  wpg M m h s Qr Q -> wpg M m h s Qr Q' -> wpg M m h s Qr (fun h s a => Q h s a /\ Q' h s a).
Proof.
  unfold wpg. intros H1 H2. eapply wp_conseq; [exact (wp_and _ _ _ _ _ H1 H2)|].
  intros h' [s' [r|a]]; naive_solver.
Qed.

Lemma wpg_bind {R A B} (m : gom resp S R A) (f : A -> gom resp S R B) h s Qr Q :
  wpg M m h s Qr (fun h' s' a => wpg M (f a) h' s' Qr Q) -> wpg M (gbind m f) h s Qr Q.
Proof.
  unfold wpg, gbind. rewrite wp_pbind. intros Hm.
  eapply wp_conseq; [exact Hm|]. intros h' [s' [r|a]]; simpl; auto.
Qed.

Lemma wpg_when {R} (b : bool) (m : gom resp S R unit) h s Qr Q :
  (b = true -> wpg M m h s Qr Q) -> (b = false -> Q h s tt) -> wpg M (gwhen b m) h s Qr Q.
Proof. intros H1 H2. destruct b; simpl; [by apply H1|]. by apply wpg_ret, H2. Qed.

Lemma wpg_invoke {R A} (f : fn resp S A) h s (Qr : trace -> S -> R -> Prop) Q :
  wpf M f h s Q -> wpg M (ginvoke f) h s Qr Q.
Proof.
  unfold wpg, wpf, ginvoke. rewrite wp_pbind. intros Hf.
  eapply wp_conseq; [exact Hf|]. by intros h' [s' a].
Qed.

Lemma wpf_fun {R} (m : gom resp S R R) h s (Q : trace -> S -> R -> Prop) :
  wpg M m h s Q Q -> wpf M (gfun m) h s Q.
Proof.
  unfold wpg, wpf, gfun. rewrite wp_pbind. intros Hm.
  eapply wp_conseq; [exact Hm|]. by intros h' [s' [r|r]].
Qed.

Lemma wpf_conseq {R} (f : fn resp S R) h s (Q Q' : trace -> S -> R -> Prop) :
  wpf M f h s Q' -> (forall h s r, Q' h s r -> Q h s r) -> wpf M f h s Q.
Proof.
  unfold wpf. intros Hf HQ. eapply wp_conseq; [exact Hf|]. intros h' [s' r]; auto.
Qed.

Lemma wpf_and {R} (f : fn resp S R) h s (Q Q' : trace -> S -> R -> Prop) :
  wpf M f h s Q -> wpf M f h s Q' -> wpf M f h s (fun h s r => Q h s r /\ Q' h s r).
Proof.
  unfold wpf. intros H1 H2. eapply wp_conseq; [exact (wp_and _ _ _ _ _ H1 H2)|]. by intros h' [s' r].
Qed.

(** A loop that keeps [I] and whose body may return. *)
Lemma wpg_iter {R A} (l : list A) (body : A -> gom resp S R unit) (I : trace -> S -> Prop) h s Qr :
  I h s ->
  (forall x h s, In x l -> I h s -> wpg M (body x) h s Qr (fun h' s' _ => I h' s')) ->
  wpg M (giter l body) h s Qr (fun h' s' _ => I h' s').
Proof.
  revert h s; induction l as [|x l IH]; intros h s HI Hb; simpl.
  - by apply wpg_ret.
  - apply wpg_bind. eapply wpg_conseq; [apply Hb; [by left|done]|done|].
    intros h' s' [] HI'. apply IH; [done|]. intros y h'' s'' Hy. apply Hb. by right.
Qed.

(** From the precondition of a function to its runs. *)
Lemma wpf_exec {R} (f : fn resp S R) s Q t s' r :
  wpf M f [] s Q -> exec (f s) t (s', r) -> fair M t -> obeys M [] t /\ Q (rev t) s' r.
Proof.
  intros Hf Hx Ht. destruct (wp_sound _ _ _ _ _ _ Hf Hx Ht) as [H1 H2].
  by rewrite app_nil_r in H2.
Qed.

End Go.

(** ** Histories

    Facts about the calls made so far that no later call takes back. *)
Section Histories.
Context {E : Type} {resp : E -> Type}.
Implicit Types h : @trace E resp.

(** The call [e] was made and answered [x]. *)
Definition seen h (e : E) (x : resp e) : Prop := In (existT e x) h.
(** [h'] is [h] with more calls. *)
Definition continues h h' : Prop := exists t, h' = (t ++ h)%list.
Definition stays (P : @trace E resp -> Prop) : Prop := forall h h', continues h h' -> P h -> P h'.

Lemma continues_refl h : continues h h.
Proof. by exists []. Qed.
Lemma continues_cons s h h' : continues h h' -> continues h (s :: h').
Proof. intros (t & ->). by exists (s :: t). Qed.
Lemma continues_trans h1 h2 h3 : continues h1 h2 -> continues h2 h3 -> continues h1 h3.
Proof. intros (t1 & ->) (t2 & ->). exists (t2 ++ t1)%list. by rewrite app_assoc. Qed.
Lemma seen_now h e x : seen (existT e x :: h) e x.
Proof. by left. Qed.
Lemma seen_continues h h' e x : continues h h' -> seen h e x -> seen h' e x.
Proof. intros (t & ->) Hin. apply in_or_app. by right. Qed.
Lemma stays_all {A} (P : A -> @trace E resp -> Prop) l :
  (forall x, stays (P x)) -> stays (fun h => Forall (fun x => P x h) l).
Proof. intros HP h h' Hh Hl. eapply Forall_impl; [exact Hl|]. intros x Hx. by eapply HP. Qed.
End Histories.

Create HintDb history discriminated.
#[export] Hint Resolve continues_refl continues_cons seen_now seen_continues : history.

(** ** The clock *)

(** The calls that read the clock, and those that sleep. *)
Class Clocked {E : Type} (resp : E -> Type) := { reading : forall e, resp e -> option Z; slept : E -> Z }.

Section Clock.
Context {E : Type} {resp : E -> Type} `{!Clocked resp}.

(** The time, at least: what the clock last said, and the sleeps since. *)
Fixpoint time_of (start : Z) (h : @trace E resp) : Z :=
  match h with
  | [] => start
  | existT e x :: h => match reading e x with Some now => now | None => time_of start h + Z.max 0 (slept e) end
  end.

(** A clock that never goes back, and runs while the program sleeps. *)
Fixpoint ticks (start : Z) (h : @trace E resp) : Prop :=
  match h with
  | [] => True
  | existT e x :: h => ticks start h /\ match reading e x with Some now => time_of start h <= now | None => True end
  end.

Lemma ticks_continues start h h' : continues h h' -> ticks start h' -> ticks start h /\ time_of start h <= time_of start h'.
Proof.
  intros (l & ->). induction l as [|[e x] l IH]; simpl; [by split|]. intros [Hl Hx]. destruct (IH Hl) as [Hh Hle]. split; [done|].
  destruct (reading e x); lia.
Qed.
End Clock.

(** ** Programs that make harmless calls only *)
Section Only.
Context {E : Type} {resp : E -> Type} (P : E -> Prop).

(** Every call is a [P], and the result a [Q]. *)
Fixpoint only {A} (Q : A -> Prop) (p : prog resp A) : Prop :=
  match p with Done a => Q a | Call e k => P e /\ forall x, only Q (k x) end.

(** A body whose executed [return]s are of [Qr], and a function. *)
Definition gonly {S R A} (Qr : R -> Prop) (m : gom resp S R A) : Prop :=
  forall s, only (fun '(_, x) => match x with inl r => Qr r | inr _ => True end) (m s).
Definition fonly {S R} (f : fn resp S R) : Prop := forall s, only (fun _ => True) (f s).

Lemma only_pbind {A B} (Q : A -> Prop) (Q' : B -> Prop) (p : prog resp A) (f : A -> prog resp B) :
  only Q p -> (forall a, Q a -> only Q' (f a)) -> only Q' (pbind p f).
Proof. induction p as [a|e k IH]; simpl; [auto|]. intros [? ?] ?. auto. Qed.

Lemma wp_only {A} (M : monitor) (Q' : A -> Prop) (p : prog resp A) h Q :
  (forall h e, P e -> allows M h e) -> only Q' p -> (forall h' a, continues h h' -> Q' a -> Q h' a) -> wp M p h Q.
Proof.
  intros HM. revert h. induction p as [a|e k IH]; simpl; intros h Hp HQ; [apply HQ; [apply continues_refl|done]|].
  destruct Hp as [He Hk]. split; [by apply HM|]. intros x _. apply IH; [done|]. intros h' a Hh. apply HQ.
  eapply continues_trans; [|exact Hh]. apply continues_cons, continues_refl.
Qed.

Context {S : Type}.
Lemma gonly_ret {R A} (Qr : R -> Prop) (a : A) : gonly Qr (gret a : gom resp S R A).
Proof. by intros s. Qed.
Lemma gonly_return {R A} (Qr : R -> Prop) (r : R) : Qr r -> gonly Qr (greturn r : gom resp S R A).
Proof. by intros ? s. Qed.
Lemma gonly_call {R} (Qr : R -> Prop) e : P e -> gonly Qr (gcall e : gom resp S R (resp e)).
Proof. by split. Qed.
Lemma gonly_get {R} (Qr : R -> Prop) : gonly Qr (gget : gom resp S R S).
Proof. by intros s. Qed.
Lemma gonly_modify {R} (Qr : R -> Prop) f : gonly Qr (gmodify f : gom resp S R unit).
Proof. by intros s. Qed.
Lemma gonly_bind {R A B} (Qr : R -> Prop) (m : gom resp S R A) (f : A -> gom resp S R B) :
  gonly Qr m -> (forall a, gonly Qr (f a)) -> gonly Qr (gbind m f).
Proof. intros Hm Hf s. eapply only_pbind; [apply Hm|]. intros [s' [r|a]] Hr; [done|apply Hf]. Qed.
Lemma gonly_invoke {R A} (Qr : R -> Prop) (f : fn resp S A) : fonly f -> gonly Qr (ginvoke f : gom resp S R A).
Proof. intros Hf s. eapply only_pbind; [apply Hf|]. by intros [s' a]. Qed.
Lemma fonly_fun {R} (m : gom resp S R R) : gonly (fun _ => True) m -> fonly (gfun m).
Proof. intros Hm s. eapply only_pbind; [apply Hm|]. by intros [s' [r|r]]. Qed.

Lemma wpg_only {R A} (M : monitor) (Qr' : R -> Prop) (m : gom resp S R A) h s (Qr : trace -> S -> R -> Prop) Q :
  gonly Qr' m -> (forall h e, P e -> allows M h e) ->
  (forall h' s' r, continues h h' -> Qr' r -> Qr h' s' r) -> (forall h' s' a, continues h h' -> Q h' s' a) -> wpg M m h s Qr Q.
Proof. intros Hm HM Hr HQ. eapply wp_only; [done|apply Hm|]. intros h' [s' [r|a]]; auto. Qed.

Lemma wpf_only {R} (M : monitor) (f : fn resp S R) h s (Q : trace -> S -> R -> Prop) :
  fonly f -> (forall h e, P e -> allows M h e) -> (forall h' s' r, continues h h' -> Q h' s' r) -> wpf M f h s Q.
Proof. intros Hf HM HQ. eapply wp_only; [done|apply Hf|]. intros h' [s' r] Hh _. by apply HQ. Qed.
End Only.

(** Decomposes a [gonly] goal down to its calls. *)
Ltac gonly_step :=
  lazymatch goal with
  | |- fonly _ (gfun _) => apply fonly_fun
  | |- gonly _ _ (gbind _ _) => apply gonly_bind; [|intros ?]
  | |- gonly _ _ (gret _) => apply gonly_ret
  | |- gonly _ _ (greturn _) => apply gonly_return
  | |- gonly _ _ gget => apply gonly_get
  | |- gonly _ _ (gmodify _) => apply gonly_modify
  | |- gonly _ _ (gcall _) => apply gonly_call
  | |- gonly _ _ (ginvoke _) => apply gonly_invoke
  | |- gonly _ _ (if ?b then _ else _) => destruct b
  | |- gonly _ _ (match ?b with _ => _ end) => destruct b
  | |- gonly _ _ (let _ := _ in _) => cbv zeta
  end.

(** Notations of the bodies. *)
Notation "'let*' x := c 'in' k" := (gbind c (fun x => k))
  (at level 10, x name, c at level 200, k at level 200,
   format "'[v' 'let*'  x  :=  c  'in' '//' k ']'") : go_scope.
Notation "'do*' c 'in' k" := (gbind c (fun _ => k))
  (at level 10, c at level 200, k at level 200,
   format "'[v' 'do*'  c  'in' '//' k ']'") : go_scope.

(** ** Symbolic execution

    [gstep] moves a [wpg] goal past the head of the body; [gsteps] runs it to
    the leaves, splitting on every test, and leaves the monitor's conditions
    and the postconditions. *)
Ltac gstep :=
  lazymatch goal with
  | |- wpf _ (gfun _) _ _ _ => apply wpf_fun
  | |- wpg _ (gbind _ _) _ _ _ _ => apply wpg_bind
  | |- wpg _ (gret _) _ _ _ _ => apply wpg_ret
  | |- wpg _ (greturn _) _ _ _ _ => apply wpg_return
  | |- wpg _ (gget) _ _ _ _ => apply wpg_get
  | |- wpg _ (gmodify _) _ _ _ _ => apply wpg_modify
  | |- wpg _ (gcall _) _ _ _ _ => apply wpg_call; [|intros ? ?]
  | |- wpg _ (gwhen _ _) _ _ _ _ => apply wpg_when; intros ?
  | |- wpg _ (if ?b then _ else _) _ _ _ _ => destruct b eqn:?
  | |- wpg _ (match ?b with _ => _ end) _ _ _ _ => destruct b eqn:?
  | |- wpg _ (let _ := _ in _) _ _ _ _ => cbv zeta
  end.
