(* ===== verification/GoLib.v ===== *)
(** * The parts of Go's standard library the controller uses

    Strings are byte strings; [ToLower] and [TrimSpace] act on their ASCII
    part.  A [time.Time] is its number of nanoseconds since the Unix epoch, a
    [time.Duration] a signed 64-bit number of nanoseconds. *)
From S2P Require Import Prelude.
From Stdlib Require Import String Ascii SpecFloat Sorting.Permutation Sorting.Sorted.

(** ** Machine integers *)

Definition int64_min : Z := - 2 ^ 63.
Definition int64_max : Z := 2 ^ 63 - 1.
(** Two's complement wrap-around of a 64-bit and of a 32-bit result. *)
Definition i64 (x : Z) : Z := (x + 2 ^ 63) mod 2 ^ 64 - 2 ^ 63.
Definition i32 (x : Z) : Z := (x + 2 ^ 31) mod 2 ^ 32 - 2 ^ 31.
Definition is_int64 (x : Z) : Prop := int64_min <= x <= int64_max.

Lemma i64_id x : is_int64 x -> i64 x = x.
Proof. unfold is_int64, int64_min, int64_max, i64. intros H. rewrite Z.mod_small; lia. Qed.

Lemma i64_range x : is_int64 (i64 x).
Proof.
  unfold is_int64, int64_min, int64_max, i64.
  pose proof (Z.mod_pos_bound (x + 2 ^ 63) (2 ^ 64)). lia.
Qed.

(** ** package strings *)

Definition is_space (c : ascii) : bool :=
  let n := nat_of_ascii c in (Nat.eqb n 32 || (Nat.leb 9 n && Nat.leb n 13))%bool.

Definition is_digit (c : ascii) : bool :=
  let n := nat_of_ascii c in (Nat.leb 48 n && Nat.leb n 57)%bool.

Definition digit_val (c : ascii) : Z := Z.of_nat (nat_of_ascii c) - 48.

Definition lower_ascii (c : ascii) : ascii :=
  let n := nat_of_ascii c in
  if (Nat.leb 65 n && Nat.leb n 90)%bool then ascii_of_nat (n + 32) else c.

Fixpoint ToLower (s : string) : string :=
  match s with
  | EmptyString => EmptyString
  | String c s' => String (lower_ascii c) (ToLower s')
  end.

Definition HasPrefix (s p : string) : bool := String.prefix p s.

Fixpoint Contains (s sub : string) : bool :=
  String.prefix sub s ||
  match s with EmptyString => false | String _ s' => Contains s' sub end.

Fixpoint drop_str (n : nat) (s : string) : string :=
  match n, s with
  | O, _ => s
  | S n', String _ s' => drop_str n' s'
  | S _, EmptyString => EmptyString
  end.

Definition TrimPrefix (s p : string) : string :=
  if HasPrefix s p then drop_str (String.length p) s else s.

(** What follows the first occurrence of [sub] in [s], at [strings.Index(s, sub)]. *)
Fixpoint after_first (s sub : string) : option string :=
  if HasPrefix s sub then Some (drop_str (String.length sub) s)
  else match s with EmptyString => None | String _ t => after_first t sub end.

Fixpoint trim_left (s : string) : string :=
  match s with
  | String c s' => if is_space c then trim_left s' else s
  | EmptyString => EmptyString
  end.

Fixpoint trim_right (s : string) : string :=
  match s with
  | EmptyString => EmptyString
  | String c s' =>
      match trim_right s' with
      | EmptyString => if is_space c then EmptyString else String c EmptyString
      | r => String c r
      end
  end.

Definition TrimSpace (s : string) : string := trim_right (trim_left s).

(** [strings.Cut(s, sep)] for a one-byte separator: before, after, found. *)
Fixpoint Cut (s : string) (sep : ascii) : string * string * bool :=
  match s with
  | EmptyString => ("", "", false)
  | String c s' =>
      if Ascii.eqb c sep then ("", s', true)
      else let '(b, a, ok) := Cut s' sep in (String c b, a, ok)
  end.

(** [strings.Split(s, sep)] for a one-byte separator: never empty. *)
Fixpoint Split (s : string) (sep : ascii) : list string :=
  match s with
  | EmptyString => [""]
  | String c s' =>
      if Ascii.eqb c sep then "" :: Split s' sep
      else match Split s' sep with
           | w :: ws => String c w :: ws
           | [] => [String c ""]
           end
  end.

Definition Join (l : list string) (sep : string) : string := String.concat sep l.

(** [strings.CutPrefix] *)
Definition CutPrefix (s p : string) : option string := if HasPrefix s p then Some (drop_str (String.length p) s) else None.

(** [strings.ReplaceAll(s, old, new)] for an [old] that is not empty; [skip] bytes
    of a match are still to be passed over. *)
Fixpoint replace_from (skip : nat) (s old new : string) : string :=
  match s with
  | EmptyString => ""
  | String c t =>
      match skip with
      | S k => replace_from k t old new
      | O => if HasPrefix s old then new +s replace_from (String.length old - 1) t old new else String c (replace_from 0 t old new)
      end
  end.
Definition ReplaceAll (s old new : string) : string := replace_from 0 s old new.

(** Everything after the last [sep], if [sep] occurs. *)
Fixpoint after_last (s : string) (sep : ascii) : option string :=
  match s with
  | EmptyString => None
  | String c s' =>
      match after_last s' sep with
      | Some r => Some r
      | None => if Ascii.eqb c sep then Some s' else None
      end
  end.

Definition EqualFold (s t : string) : bool := ToLower s ==s ToLower t.

(** [fmt]'s %q of a printable string. *)
Fixpoint quote_body (s : string) : string :=
  match s with
  | EmptyString => EmptyString
  | String c s' =>
      let n := nat_of_ascii c in
      if (Nat.eqb n 34 || Nat.eqb n 92)%bool then String (ascii_of_nat 92) (String c (quote_body s'))
      else String c (quote_body s')
  end.
Definition dquote : string := String (ascii_of_nat 34) EmptyString.
Definition Quote (s : string) : string := dquote +s quote_body s +s dquote.

(** ** package strconv *)

Fixpoint digits_val (s : string) (acc : Z) : option Z :=
  match s with
  | EmptyString => Some acc
  | String c s' => if is_digit c then digits_val s' (acc * 10 + digit_val c) else None
  end.

(** [strconv.Atoi] on a 64-bit platform. *)
Definition Atoi (s : string) : option Z :=
  let '(neg, body) :=
    match s with
    | String c s' =>
        if Ascii.eqb c "-" then (true, s') else if Ascii.eqb c "+" then (false, s') else (false, s)
    | EmptyString => (false, s)
    end in
  match body with
  | EmptyString => None
  | _ =>
      match digits_val body 0 with
      | None => None
      | Some v =>
          let v := if neg : bool then - v else v in
          if (v <? int64_min) || (int64_max <? v) then None else Some v
      end
  end.

(** ** package time: durations *)

Definition Nanosecond : Z := 1.
Definition Microsecond : Z := 1000.
Definition Millisecond : Z := 1000000.
Definition Second : Z := 1000000000.
Definition Minute : Z := 60 * Second.
Definition Hour : Z := 60 * Minute.

(** [t.Sub(u)] saturates at the ends of the 64-bit range. *)
Definition Sub (t u : Z) : Z := Z.max int64_min (Z.min int64_max (t - u)).

Lemma Sub_range t u : is_int64 (Sub t u).
Proof. unfold is_int64, Sub, int64_min, int64_max. lia. Qed.

(** The zero [time.Time]: January 1, year 1, 00:00:00 UTC. *)
Definition zero_time : Z := -62135596800 * Second.
Definition IsZero (t : Z) : bool := t =? zero_time.
Definition After (t u : Z) : bool := u <? t.
Definition Before (t u : Z) : bool := t <? u.

(** [float64] arithmetic of [time.ParseDuration]: IEEE 754 binary64. *)
Definition f64_of_Z (z : Z) : spec_float := binary_normalize 53 1024 z 0 false.
Definition f64_trunc (x : spec_float) : Z :=
  match x with
  | S754_finite s m e =>
      let v := if e <? 0 then Z.pos m / 2 ^ (- e) else Z.pos m * 2 ^ e in
      if s then - v else v
  | _ => 0
  end.
Definition f64_mul := SFmul 53 1024.
Definition f64_div := SFdiv 53 1024.

(** [leadingInt]: the value and the rest, or an overflow. *)
Fixpoint leadingInt (s : string) (x : Z) : option (Z * string) :=
  match s with
  | EmptyString => Some (x, s)
  | String c s' =>
      if is_digit c then
        if 2 ^ 63 / 10 <? x then None
        else let x' := x * 10 + digit_val c in
             if 2 ^ 63 <? x' then None else leadingInt s' x'
      else Some (x, s)
  end.

Fixpoint leadingFraction (s : string) (x : Z) (scale : spec_float) (overflow : bool)
    : Z * spec_float * string :=
  match s with
  | EmptyString => (x, scale, s)
  | String c s' =>
      if is_digit c then
        if overflow then leadingFraction s' x scale true
        else if (2 ^ 63 - 1) / 10 <? x then leadingFraction s' x scale true
        else let y := x * 10 + digit_val c in
             if 2 ^ 63 <? y then leadingFraction s' x scale true
             else leadingFraction s' y (f64_mul scale (f64_of_Z 10)) false
      else (x, scale, s)
  end.

(** The unit: the longest prefix without a digit or a period. *)
Fixpoint unit_prefix (s : string) : string * string :=
  match s with
  | EmptyString => ("", "")
  | String c s' =>
      if (Ascii.eqb c "." || is_digit c)%bool then ("", s)
      else let '(u, r) := unit_prefix s' in (String c u, r)
  end.

Definition micro_sign : string := String (ascii_of_nat 194) (String (ascii_of_nat 181) "s").
Definition greek_mu : string := String (ascii_of_nat 206) (String (ascii_of_nat 188) "s").

Definition unitMap (u : string) : option Z :=
  if u ==s "ns" then Some Nanosecond
  else if u ==s "us" then Some Microsecond
  else if u ==s micro_sign then Some Microsecond
  else if u ==s greek_mu then Some Microsecond
  else if u ==s "ms" then Some Millisecond
  else if u ==s "s" then Some Second
  else if u ==s "m" then Some Minute
  else if u ==s "h" then Some Hour
  else None.

(** The loop of [time.ParseDuration]; [n] bounds the number of elements, each
    of which consumes at least one byte. *)
Fixpoint parse_elements (n : nat) (s : string) (d : Z) : option Z :=
  match s with
  | EmptyString => Some d
  | String c0 _ =>
      match n with
      | O => None
      | S n' =>
          if negb (Ascii.eqb c0 "." || is_digit c0) then None
          else
            match leadingInt s 0 with
            | None => None
            | Some (v, s1) =>
                let pre := negb (Nat.eqb (String.length s1) (String.length s)) in
                let '(f, scale, s2, post) :=
                  match s1 with
                  | String c1 s1' =>
                      if Ascii.eqb c1 "." then
                        let '(f, scale, r) := leadingFraction s1' 0 (f64_of_Z 1) false in
                        (f, scale, r, negb (Nat.eqb (String.length r) (String.length s1')))
                      else (0, f64_of_Z 1, s1, false)
                  | EmptyString => (0, f64_of_Z 1, s1, false)
                  end in
                if negb pre && negb post then None
                else
                  let '(u, s3) := unit_prefix s2 in
                  match u, unitMap u with
                  | EmptyString, _ => None
                  | _, None => None
                  | _, Some unit =>
                      if 2 ^ 63 / unit <? v then None
                      else
                        let v := v * unit in
                        let v := if 0 <? f
                                 then v + f64_trunc (f64_mul (f64_of_Z f) (f64_div (f64_of_Z unit) scale))
                                 else v in
                        if 2 ^ 63 <? v then None
                        else
                          let d := d + v in
                          if 2 ^ 63 <? d then None else parse_elements n' s3 d
                  end
            end
      end
  end.

Definition ParseDuration (s : string) : option Z :=
  let '(neg, s) :=
    match s with
    | String c s' => if Ascii.eqb c "-" then (true, s') else if Ascii.eqb c "+" then (false, s') else (false, s)
    | EmptyString => (false, s)
    end in
  if s ==s "0" then Some 0
  else if s ==s "" then None
  else
    match parse_elements (String.length s) s 0 with
    | None => None
    | Some d => if neg : bool then Some (i64 (- d)) else if 2 ^ 63 - 1 <? d then None else Some d
    end.

(** A parsed duration fits in 64 bits. *)
Lemma ParseDuration_pos_range s d : ParseDuration s = Some d -> 0 < d -> is_int64 d.
Proof.
  unfold ParseDuration, is_int64, int64_min, int64_max. intros H Hd.
  repeat dmatch; simplify_eq; bool_props; try lia.
  all: pose proof (i64_range (- z)) as Hr; unfold is_int64, int64_min, int64_max in Hr; lia.
Qed.

(** The decimal fraction of [v / 10^prec], without trailing zeros. *)
Fixpoint frac_digits (prec : nat) (v : Z) (acc : string) (print : bool) : Z * string * bool :=
  match prec with
  | O => (v, acc, print)
  | S p =>
      let digit := v mod 10 in
      let print := print || negb (digit =? 0) in
      let acc := if print then String (ascii_of_nat (Z.to_nat digit + 48)) acc else acc in
      frac_digits p (v / 10) acc print
  end.

(** [Duration.String]. *)
Definition DurationString (d : Z) : string :=
  let neg := d <? 0 in
  let u := Z.abs d in
  let body :=
    if u =? 0 then "0s"
    else if u <? Second then
      let '(prec, unit) :=
        if u <? Microsecond then (0%nat, "ns")
        else if u <? Millisecond then (3%nat, micro_sign) else (6%nat, "ms") in
      let '(v, fr, p) := frac_digits prec u "" false in
      pretty v +s (if p : bool then "." +s fr else "") +s unit
    else
      let '(v, fr, p) := frac_digits 9 u "" false in
      let secs := pretty (v mod 60) +s (if p : bool then "." +s fr else "") +s "s" in
      let m := v / 60 in
      if m =? 0 then secs
      else
        let mins := pretty (m mod 60) +s "m" +s secs in
        let h := m / 60 in
        if h =? 0 then mins else pretty h +s "h" +s mins in
  if neg && negb (u =? 0) then "-" +s body else body.

Example parse_1h30m : ParseDuration "1h30m" = Some (90 * Minute).
Proof. reflexivity. Qed.
Example parse_frac : ParseDuration "1.5h" = Some (90 * Minute).
Proof. reflexivity. Qed.
Example parse_neg : ParseDuration "-10s" = Some (-10 * Second).
Proof. reflexivity. Qed.
Example parse_bad : ParseDuration "15" = None.
Proof. reflexivity. Qed.
Example print_1h30m : DurationString (90 * Minute + 1500 * Millisecond) = "1h30m1.5s".
Proof. reflexivity. Qed.

(** ** package time: RFC 3339 *)

(** Days since the Unix epoch of a date of the proleptic Gregorian calendar. *)
Definition days_from_civil (y m d : Z) : Z :=
  let y := if m <=? 2 then y - 1 else y in
  let era := y / 400 in
  let yoe := y - era * 400 in
  let mp := (m + 9) mod 12 in
  let doy := (153 * mp + 2) / 5 + d - 1 in
  let doe := yoe * 365 + yoe / 4 - yoe / 100 + doy in
  era * 146097 + doe - 719468.

Definition civil_from_days (z : Z) : Z * Z * Z :=
  let z := z + 719468 in
  let era := z / 146097 in
  let doe := z - era * 146097 in
  let yoe := (doe - doe / 1460 + doe / 36524 - doe / 146096) / 365 in
  let doy := doe - (365 * yoe + yoe / 4 - yoe / 100) in
  let mp := (5 * doy + 2) / 153 in
  let d := doy - (153 * mp + 2) / 5 + 1 in
  let m := if mp <? 10 then mp + 3 else mp - 9 in
  ((yoe + era * 400) + (if m <=? 2 then 1 else 0), m, d).

Definition is_leap (y : Z) : bool :=
  (y mod 4 =? 0) && (negb (y mod 100 =? 0) || (y mod 400 =? 0)).
Definition days_in (m y : Z) : Z :=
  if m =? 2 then (if is_leap y then 29 else 28)
  else if (m =? 4) || (m =? 6) || (m =? 9) || (m =? 11) then 30 else 31.

(** Exactly [n] digits. *)
Fixpoint take_digits (n : nat) (s : string) (acc : Z) : option (Z * string) :=
  match n with
  | O => Some (acc, s)
  | S n' =>
      match s with
      | String c s' => if is_digit c then take_digits n' s' (acc * 10 + digit_val c) else None
      | EmptyString => None
      end
  end.

(** The hour: two digits, or a single one. *)
Definition take_hour (s : string) : option (Z * string) :=
  match take_digits 2 s 0 with
  | Some r => Some r
  | None => take_digits 1 s 0
  end.

Definition take_char (c : ascii) (s : string) : option string :=
  match s with
  | String c' s' => if Ascii.eqb c c' then Some s' else None
  | EmptyString => None
  end.

(** Digits of a fraction: the first nine count, the others are skipped. *)
Fixpoint take_frac (s : string) (left : nat) (acc : Z) : Z * string :=
  match s with
  | String c s' =>
      if is_digit c then
        match left with
        | O => take_frac s' O acc
        | S l => take_frac s' l (acc * 10 + digit_val c)
        end
      else (acc * 10 ^ Z.of_nat left, s)
  | EmptyString => (acc * 10 ^ Z.of_nat left, s)
  end.

Definition take_opt_frac (s : string) : Z * string :=
  match s with
  | String c (String d _ as s') =>
      if (Ascii.eqb c "." || Ascii.eqb c ",") && is_digit d then take_frac s' 9 0 else (0, s)
  | _ => (0, s)
  end.

(** [Z] or [+hh:mm] or [-hh:mm]: the offset in seconds. *)
Definition take_zone (s : string) : option Z :=
  match s with
  | String c s' =>
      if Ascii.eqb c "Z" then match s' with EmptyString => Some 0 | _ => None end
      else if Ascii.eqb c "+" || Ascii.eqb c "-" then
        '(hh, s1) ← take_digits 2 s' 0;
        s2 ← take_char ":" s1;
        '(mm, s3) ← take_digits 2 s2 0;
        if (24 <? hh) || (60 <? mm) then None
        else match s3 with
             | EmptyString => Some ((if Ascii.eqb c "-" then -1 else 1) * (hh * 3600 + mm * 60))
             | _ => None
             end
      else None
  | EmptyString => None
  end.

(** [time.Parse(time.RFC3339, s)]; [time.RFC3339Nano] accepts the same strings. *)
Definition ParseRFC3339 (s : string) : option Z :=
  '(y, s) ← take_digits 4 s 0; s ← take_char "-" s;
  '(mo, s) ← take_digits 2 s 0; s ← take_char "-" s;
  '(d, s) ← take_digits 2 s 0; s ← take_char "T" s;
  '(h, s) ← take_hour s; s ← take_char ":" s;
  '(mi, s) ← take_digits 2 s 0; s ← take_char ":" s;
  '(se, s) ← take_digits 2 s 0;
  let '(ns, s) := take_opt_frac s in
  off ← take_zone s;
  if (mo <? 1) || (12 <? mo) || (d <? 1) || (days_in mo y <? d) ||
     (24 <=? h) || (60 <=? mi) || (60 <=? se) then None
  else Some ((days_from_civil y mo d * 86400 + h * 3600 + mi * 60 + se - off) * Second + ns).

Definition pad (n : nat) (z : Z) : string :=
  let s := pretty z in
  String.concat "" (repeat "0" (n - String.length s)) +s s.

Definition format_utc (frac : string) (t : Z) : string :=
  let s := t / Second in
  let '(y, m, d) := civil_from_days (s / 86400) in
  let r := s mod 86400 in
  pad 4 y +s "-" +s pad 2 m +s "-" +s pad 2 d +s "T" +s
  pad 2 (r / 3600) +s ":" +s pad 2 (r / 60 mod 60) +s ":" +s pad 2 (r mod 60) +s frac +s "Z".

(** The year a time falls in. *)
Definition year (t : Z) : Z := fst (fst (civil_from_days (t / Second / 86400))).

(** [t.UTC().Format(time.RFC3339)] and [time.RFC3339Nano]. *)
Definition FormatRFC3339 (t : Z) : string := format_utc "" t.
Definition FormatRFC3339Nano (t : Z) : string :=
  let '(_, fr, p) := frac_digits 9 (t mod Second) "" false in
  format_utc (if p : bool then "." +s fr else "") t.

Example rfc_epoch : ParseRFC3339 "1970-01-01T00:00:00Z" = Some 0.
Proof. reflexivity. Qed.
Example rfc_round : FormatRFC3339Nano 1767323045120000000 = "2026-01-02T03:04:05.12Z" /\
  ParseRFC3339 "2026-01-02T03:04:05.12Z" = Some 1767323045120000000 /\
  ParseRFC3339 "2026-01-02T05:04:05.12+02:00" = Some 1767323045120000000.
Proof. by vm_compute. Qed.

(** ** package sort *)

Section StableSort.
Context {A : Type} (less : A -> A -> bool).

(** The result of [sort.SliceStable]: an element moves before those it is less
    than, and stays behind its equals. *)
Fixpoint insert_stable (x : A) (l : list A) : list A :=
  match l with
  | [] => [x]
  | y :: l' => if less y x then y :: insert_stable x l' else x :: l
  end.
Fixpoint SliceStable (l : list A) : list A :=
  match l with [] => [] | x :: l' => insert_stable x (SliceStable l') end.

Lemma insert_stable_perm x l : Permutation (x :: l) (insert_stable x l).
Proof.
  induction l as [|y l IH]; simpl; [done|]. destruct (less y x); [|done].
  rewrite perm_swap. by constructor.
Qed.

Lemma SliceStable_perm l : Permutation l (SliceStable l).
Proof.
  induction l as [|x l IH]; simpl; [done|].
  rewrite <- insert_stable_perm. by constructor.
Qed.

Lemma SliceStable_In x l : In x (SliceStable l) <-> In x l.
Proof. split; apply Permutation_in; [symmetry|]; apply SliceStable_perm. Qed.

(** For a strict weak order, no element is less than one before it. *)
Definition not_after (x y : A) : Prop := less y x = false.

Context (less_irrefl : forall x, less x x = false).
Context (less_asym : forall x y, less x y = true -> less y x = false).
Context (le_trans : forall x y z, less y x = false -> less z y = false -> less z x = false).

Lemma insert_stable_sorted x l :
  StronglySorted not_after l -> StronglySorted not_after (insert_stable x l).
Proof.
  induction 1 as [|y l Hs IH Hall]; simpl.
  - by repeat constructor.
  - destruct (less y x) eqn:Hyx.
    + constructor; [done|].
      eapply Permutation_Forall; [apply insert_stable_perm|].
      constructor; [|done]. by apply less_asym.
    + constructor; [by constructor|]. constructor; [done|].
      eapply Forall_impl; [exact Hall|]. intros z Hz. by apply (le_trans x y z).
Qed.

Lemma SliceStable_sorted l : StronglySorted not_after (SliceStable l).
Proof. induction l; simpl; [constructor|by apply insert_stable_sorted]. Qed.

End StableSort.

(** ** The order of strings *)

Lemma ascii_compare_lt a b : Ascii.compare a b = Lt <-> (N_of_ascii a < N_of_ascii b)%N.
Proof. apply N.compare_lt_iff. Qed.

Lemma ascii_compare_eq a b : Ascii.compare a b = Eq <-> a = b.
Proof.
  unfold Ascii.compare. rewrite N.compare_eq_iff. split; [|congruence].
  intros He. by rewrite <- (ascii_N_embedding a), He, ascii_N_embedding.
Qed.

Lemma string_ltb_spec s t : String.ltb s t = true <-> String.compare s t = Lt.
Proof. unfold String.ltb. by destruct (String.compare s t). Qed.

Lemma string_compare_refl s : String.compare s s = Eq.
Proof. induction s as [|a s IH]; simpl; [done|]. by rewrite (proj2 (ascii_compare_eq a a) eq_refl). Qed.

Lemma string_ltb_irrefl s : String.ltb s s = false.
Proof. unfold String.ltb. by rewrite string_compare_refl. Qed.

Lemma string_ltb_trans s t u : String.ltb s t = true -> String.ltb t u = true -> String.ltb s u = true.
Proof.
  rewrite !string_ltb_spec. revert t u. induction s as [|a s IH]; intros [|b t] [|c u]; simpl; try done.
  destruct (Ascii.compare a b) eqn:Hab; try done; destruct (Ascii.compare b c) eqn:Hbc; try done; intros H1 H2.
  - apply ascii_compare_eq in Hab as ->. rewrite Hbc. by eapply IH.
  - apply ascii_compare_eq in Hab as ->. by rewrite Hbc.
  - apply ascii_compare_eq in Hbc as ->. by rewrite Hab.
  - rewrite ascii_compare_lt in Hab, Hbc. by rewrite (proj2 (ascii_compare_lt a c) (N.lt_trans _ _ _ Hab Hbc)).
Qed.

Lemma string_ltb_total s t : String.ltb s t = false -> String.ltb t s = false -> s = t.
Proof.
  unfold String.ltb. intros H1 H2. apply String.compare_eq_iff. rewrite String.compare_antisym in H2.
  by destruct (String.compare s t).
Qed.

Lemma string_ltb_asym s t : String.ltb s t = true -> String.ltb t s = false.
Proof.
  intros H1. destruct (String.ltb t s) eqn:H2; [|done].
  pose proof (string_ltb_trans _ _ _ H1 H2) as H3. by rewrite string_ltb_irrefl in H3.
Qed.

(** ** Lists up to order *)

Lemma filter_perm {A} (f : A -> bool) l l' : Permutation l l' -> Permutation (List.filter f l) (List.filter f l').
Proof.
  induction 1; simpl; repeat match goal with |- context [f ?x] => destruct (f x) end; eauto using Permutation.
Qed.

Lemma NoDup_map_inj {A B} (f : A -> B) l x y : NoDup (map f l) -> In x l -> In y l -> f x = f y -> x = y.
Proof.
  induction l as [|z l IH]; simpl; [done|]. intros [Hz Hn]%NoDup_cons Hx Hy Hf.
  rewrite list_elem_of_In, in_map_iff in Hz.
  destruct Hx as [->|Hx], Hy as [->|Hy]; [done| | |by apply IH]; exfalso; apply Hz; eauto.
Qed.

Lemma NoDup_map_filter {A B} (f : A -> B) (g : A -> bool) l : NoDup (map f l) -> NoDup (map f (List.filter g l)).
Proof.
  induction l as [|x l IH]; simpl; [done|]. intros [Hx Hn]%NoDup_cons. destruct (g x); [|by apply IH].
  simpl. apply NoDup_cons. split; [|by apply IH]. intros Hf. apply Hx.
  apply list_elem_of_In, in_map_iff in Hf as (y & Hy & Hin). apply filter_In in Hin as [Hin _].
  apply list_elem_of_In, in_map_iff. by exists y.
Qed.

(** ** Creation order *)

(** By time, then by name: a strict order, total on distinct names. *)
Definition time_name_less (t1 : Z) (n1 : string) (t2 : Z) (n2 : string) : bool :=
  if t1 =? t2 then String.ltb n1 n2 else Before t1 t2.

Lemma time_name_irrefl t n : time_name_less t n t n = false.
Proof. unfold time_name_less. by rewrite Z.eqb_refl, string_ltb_irrefl. Qed.

Lemma time_name_trans t1 n1 t2 n2 t3 n3 :
  time_name_less t1 n1 t2 n2 = true -> time_name_less t2 n2 t3 n3 = true -> time_name_less t1 n1 t3 n3 = true.
Proof.
  unfold time_name_less, Before. intros H1 H2.
  destruct (t1 =? t2) eqn:H12, (t2 =? t3) eqn:H23, (t1 =? t3) eqn:H13; bool_props; try lia.
  all: try (by eapply string_ltb_trans). all: apply Z.ltb_lt; lia.
Qed.

Lemma time_name_total t1 n1 t2 n2 :
  time_name_less t1 n1 t2 n2 = false -> time_name_less t2 n2 t1 n1 = false -> t1 = t2 /\ n1 = n2.
Proof.
  unfold time_name_less, Before. rewrite (Z.eqb_sym t2 t1). destruct (t1 =? t2) eqn:H12; intros H1 H2; bool_props; [|lia].
  split; [done|by apply string_ltb_total].
Qed.

Lemma time_name_asym t1 n1 t2 n2 : time_name_less t1 n1 t2 n2 = true -> time_name_less t2 n2 t1 n1 = false.
Proof.
  intros H1. destruct (time_name_less t2 n2 t1 n1) eqn:H2; [|done].
  pose proof (time_name_trans _ _ _ _ _ _ H1 H2) as H3. by rewrite time_name_irrefl in H3.
Qed.

Lemma time_name_le_trans t1 n1 t2 n2 t3 n3 :
  time_name_less t2 n2 t1 n1 = false -> time_name_less t3 n3 t2 n2 = false -> time_name_less t3 n3 t1 n1 = false.
Proof.
  intros H21 H32. destruct (time_name_less t3 n3 t1 n1) eqn:H31; [|done].
  destruct (time_name_less t1 n1 t2 n2) eqn:H12.
  - by rewrite (time_name_trans _ _ _ _ _ _ H31 H12) in H32.
  - destruct (time_name_total _ _ _ _ H12 H21) as [-> ->]. congruence.
Qed.

(** [sort.Strings] *)
Definition SortStrings (l : list string) : list string := SliceStable String.ltb l.

(** ** Splitting and joining *)

Lemma sapp_assoc s t u : (s +s t) +s u = s +s (t +s u).
Proof. induction s as [|c s IH]; [done|]. exact (f_equal (String c) IH). Qed.
Lemma sapp_nil s : s +s "" = s.
Proof. induction s as [|c s IH]; [done|]. exact (f_equal (String c) IH). Qed.

(** Every byte of [s] satisfies [f]. *)
Fixpoint all_chars (f : ascii -> bool) (s : string) : bool :=
  match s with EmptyString => true | String c s' => f c && all_chars f s' end.

Definition no_char (c : ascii) (s : string) : bool := all_chars (fun d => negb (Ascii.eqb d c)) s.
Definition no_space (s : string) : bool := all_chars (fun d => negb (is_space d)) s.

Lemma all_chars_impl (f g : ascii -> bool) s :
  (forall c, f c = true -> g c = true) -> all_chars f s = true -> all_chars g s = true.
Proof.
  intros H. induction s as [|c s IH]; simpl; [done|]. rewrite !andb_true_iff. intros [? ?]. auto.
Qed.

Lemma all_chars_app f s t : all_chars f (s +s t) = all_chars f s && all_chars f t.
Proof. induction s as [|c s IH]; simpl; [done|]. by rewrite IH, andb_assoc. Qed.

Lemma Split_no_sep s c : no_char c s = true -> Split s c = [s].
Proof.
  unfold no_char, no_space in *. induction s as [|d s IH]; simpl; [done|]. rewrite andb_true_iff, negb_true_iff. intros [-> Hs].
  by rewrite IH.
Qed.

Lemma Split_app s c t : no_char c s = true -> Split (s +s String c t) c = s :: Split t c.
Proof.
  unfold no_char, no_space in *. induction s as [|d s IH]; simpl; [by rewrite Ascii.eqb_refl|].
  rewrite andb_true_iff, negb_true_iff. intros [-> Hs]. by rewrite IH.
Qed.

(** [strings.Split] undoes [strings.Join] on elements without the separator. *)
Lemma Split_Join (l : list string) c :
  l <> [] -> Forall (fun s => no_char c s = true) l -> Split (Join l (String c "")) c = l.
Proof.
  intros Hne Hl. unfold Join. induction Hl as [|s l Hs Hl IH]; [done|].
  destruct l as [|s' l']; [by apply Split_no_sep|].
  change (Split (s +s String c (String.concat (String c "") (s' :: l'))) c = s :: s' :: l').
  rewrite Split_app by done. f_equal. by apply IH.
Qed.

Lemma trim_left_no_space s : no_space s = true -> trim_left s = s.
Proof.
  unfold no_char, no_space in *. destruct s as [|c s]; simpl; [done|]. rewrite andb_true_iff, negb_true_iff. by intros [-> _].
Qed.

Lemma trim_right_no_space s : no_space s = true -> trim_right s = s.
Proof.
  unfold no_char, no_space in *. induction s as [|c s IH]; simpl; [done|]. rewrite andb_true_iff, negb_true_iff. intros [Hc Hs].
  rewrite IH by done. destruct s; by rewrite ?Hc.
Qed.

Lemma TrimSpace_no_space s : no_space s = true -> TrimSpace s = s.
Proof. intros H. unfold TrimSpace. rewrite trim_left_no_space by done. by apply trim_right_no_space. Qed.

Lemma Cut_app s c t : no_char c s = true -> Cut (s +s String c t) c = (s, t, true).
Proof.
  unfold no_char, no_space in *. induction s as [|d s IH]; simpl; [by rewrite Ascii.eqb_refl|].
  rewrite andb_true_iff, negb_true_iff. intros [-> Hs]. by rewrite IH.
Qed.

Lemma no_char_Contains s c : no_char c s = true -> Contains s (String c "") = false.
Proof.
  unfold no_char, no_space in *. induction s as [|d s IH]; simpl; [done|]. rewrite andb_true_iff, negb_true_iff. intros [Hd Hs].
  rewrite IH by done. destruct (ascii_dec c d) as [->|]; [by rewrite Ascii.eqb_refl in Hd|done].
Qed.
