(* ===== verification/Kube.v ===== *)
(** * Kubernetes objects, the job resource and the calls to the environment

    The fields of the API objects the controller reads or writes, the
    [PodMigrationJob] resource of api/v1alpha1, and the event signature of the
    calls that leave the process.  Objects are values: a read hands out the
    state the answering side (the informer cache or the API server) has, and
    nothing relates two answers. *)
From S2P Require Import Prelude Effects GoLib.

(** ** Metadata *)

Record OwnerReference := mkOwnerReference {
  or_kind : string; or_name : string; or_uid : string; or_controller : bool; or_apiVersion : string }.

Record ObjectMeta := mkMeta {
  m_name : string;
  m_namespace : string;
  m_generateName : string;
  m_uid : string;
  m_resourceVersion : string;
  m_generation : Z;
  m_labels : gmap string string;
  m_annotations : gmap string string;
  m_creationTimestamp : Z;
  m_deletionTimestamp : option Z;
  m_deletionGracePeriodSeconds : option Z;
  m_owners : list OwnerReference;
  m_finalizers : list string }.

Definition meta_named (ns name uid : string) : ObjectMeta :=
  mkMeta name ns "" uid "" 0 ∅ ∅ zero_time None None [] [].

Definition with_labels (l : gmap string string) (m : ObjectMeta) : ObjectMeta :=
  mkMeta (m_name m) (m_namespace m) (m_generateName m) (m_uid m) (m_resourceVersion m) (m_generation m)
    l (m_annotations m) (m_creationTimestamp m) (m_deletionTimestamp m)
    (m_deletionGracePeriodSeconds m) (m_owners m) (m_finalizers m).
Definition with_annotations (a : gmap string string) (m : ObjectMeta) : ObjectMeta :=
  mkMeta (m_name m) (m_namespace m) (m_generateName m) (m_uid m) (m_resourceVersion m) (m_generation m)
    (m_labels m) a (m_creationTimestamp m) (m_deletionTimestamp m)
    (m_deletionGracePeriodSeconds m) (m_owners m) (m_finalizers m).
Definition with_finalizers (f : list string) (m : ObjectMeta) : ObjectMeta :=
  mkMeta (m_name m) (m_namespace m) (m_generateName m) (m_uid m) (m_resourceVersion m) (m_generation m)
    (m_labels m) (m_annotations m) (m_creationTimestamp m) (m_deletionTimestamp m)
    (m_deletionGracePeriodSeconds m) (m_owners m) f.

(** [metav1.Condition]; [corev1.PodCondition] uses the same fields. *)
Record Condition := mkCond {
  c_type : string; c_status : string; c_reason : string; c_message : string;
  c_observedGeneration : Z; c_lastTransitionTime : Z }.

#[export] Instance OwnerReference_eq_dec : EqDecision OwnerReference.
Proof. solve_decision. Defined.
#[export] Instance ObjectMeta_eq_dec : EqDecision ObjectMeta.
Proof. solve_decision. Defined.
#[export] Instance Condition_eq_dec : EqDecision Condition.
Proof. solve_decision. Defined.

(** ** Pods *)

Inductive PodPhase := PodPending | PodRunning | PodSucceeded | PodFailed | PodUnknown.
#[export] Instance PodPhase_eq_dec : EqDecision PodPhase.
Proof. solve_decision. Defined.

Record Container := mkContainer {
  ct_name : string;
  (** [resources.requests["memory"]] in bytes, if set. *)
  ct_memory : option Z;
  (** [resources.limits["memory"]] in bytes, if set. *)
  ct_memoryLimit : option Z;
  (** [restartPolicy] of an init container, if set. *)
  ct_restartPolicy : option string }.

Record Waiting := mkWaiting { w_reason : string; w_message : string }.
Record Terminated := mkTerminated { t_reason : string; t_exitCode : Z; t_message : string }.

(** [corev1.ContainerState]: three optional members. *)
Record ContainerState := mkState {
  st_waiting : option Waiting;
  st_running : bool;
  st_terminated : option Terminated }.

Record ContainerStatus := mkCS {
  cs_name : string;
  cs_state : ContainerState;
  cs_lastTermination : option Terminated;
  cs_restartCount : Z;
  cs_containerID : string }.

#[export] Instance Container_eq_dec : EqDecision Container.
Proof. solve_decision. Defined.
#[export] Instance Waiting_eq_dec : EqDecision Waiting.
Proof. solve_decision. Defined.
#[export] Instance Terminated_eq_dec : EqDecision Terminated.
Proof. solve_decision. Defined.
#[export] Instance ContainerState_eq_dec : EqDecision ContainerState.
Proof. solve_decision. Defined.
#[export] Instance ContainerStatus_eq_dec : EqDecision ContainerStatus.
Proof. solve_decision. Defined.

Record Pod := mkPod {
  p_meta : ObjectMeta;
  p_nodeName : string;
  p_runtimeClassName : option string;
  p_containers : list Container;
  p_initContainers : list Container;
  p_schedulingGates : list string;
  p_readinessGates : list string;
  (** The claim names of the volumes that use a PersistentVolumeClaim. *)
  p_claims : list string;
  p_phase : PodPhase;
  p_reason : string;
  p_message : string;
  p_conditions : list Condition;
  p_containerStatuses : list ContainerStatus;
  p_initContainerStatuses : list ContainerStatus }.

#[export] Instance Pod_eq_dec : EqDecision Pod.
Proof. solve_decision. Defined.

Definition p_name (p : Pod) := m_name (p_meta p).
Definition p_namespace (p : Pod) := m_namespace (p_meta p).
Definition p_uid (p : Pod) := m_uid (p_meta p).
Definition p_labels (p : Pod) := m_labels (p_meta p).
Definition p_annotations (p : Pod) := m_annotations (p_meta p).
(** [!pod.DeletionTimestamp.IsZero()], and [pod.DeletionTimestamp != nil]. *)
Definition p_deleting (p : Pod) : bool :=
  match m_deletionTimestamp (p_meta p) with Some _ => true | None => false end.

Definition empty_pod (m : ObjectMeta) : Pod := mkPod m "" None [] [] [] [] [] PodUnknown "" "" [] [] [].

Definition with_p_meta (m : ObjectMeta) (p : Pod) : Pod :=
  mkPod m (p_nodeName p) (p_runtimeClassName p) (p_containers p) (p_initContainers p)
    (p_schedulingGates p) (p_readinessGates p) (p_claims p) (p_phase p) (p_reason p) (p_message p)
    (p_conditions p) (p_containerStatuses p) (p_initContainerStatuses p).
Definition with_p_labels (l : gmap string string) (p : Pod) : Pod := with_p_meta (with_labels l (p_meta p)) p.
Definition with_p_annotations (a : gmap string string) (p : Pod) : Pod :=
  with_p_meta (with_annotations a (p_meta p)) p.
Definition with_p_gates (g : list string) (p : Pod) : Pod :=
  mkPod (p_meta p) (p_nodeName p) (p_runtimeClassName p) (p_containers p) (p_initContainers p)
    g (p_readinessGates p) (p_claims p) (p_phase p) (p_reason p) (p_message p)
    (p_conditions p) (p_containerStatuses p) (p_initContainerStatuses p).
Definition with_p_readinessGates (g : list string) (p : Pod) : Pod :=
  mkPod (p_meta p) (p_nodeName p) (p_runtimeClassName p) (p_containers p) (p_initContainers p)
    (p_schedulingGates p) g (p_claims p) (p_phase p) (p_reason p) (p_message p)
    (p_conditions p) (p_containerStatuses p) (p_initContainerStatuses p).
Definition with_p_status (ph : PodPhase) (conds : list Condition) (css : list ContainerStatus) (p : Pod) : Pod :=
  mkPod (p_meta p) (p_nodeName p) (p_runtimeClassName p) (p_containers p) (p_initContainers p)
    (p_schedulingGates p) (p_readinessGates p) (p_claims p) ph (p_reason p) (p_message p)
    conds css (p_initContainerStatuses p).

(** ** Other objects *)

Record Node := mkNode {
  n_meta : ObjectMeta;
  n_conditions : list Condition;
  (** (key, effect) of [spec.taints] *)
  n_taints : list (string * string);
  n_unschedulable : bool }.

Record PVC := mkPVC { pvc_name : string; pvc_volumeName : string }.

(** A VolumeAttachment: the volume, the node, and whether it is being deleted. *)
Record VolumeAttachment := mkVA { va_pv : option string; va_nodeName : string; va_attached : bool }.

Definition Selector := list (string * string).

(** Deployments, ReplicaSets and StatefulSets as far as they are read. *)
Record Workload := mkWorkload {
  wl_meta : ObjectMeta;
  wl_replicas : option Z;
  wl_selector : option Selector;
  wl_ordinalsStart : option Z }.

Record PodDisruptionBudget := mkPDB {
  pdb_meta : ObjectMeta;
  pdb_selector : option Selector;
  pdb_disruptionsAllowed : Z;
  pdb_desiredHealthy : Z;
  pdb_currentHealthy : Z;
  pdb_observedGeneration : Z;
  pdb_unhealthyPodEvictionPolicy : option string }.

(** A Kubernetes Event. *)
Record KEvent := mkKEvent {
  ev_type : string; ev_reason : string; ev_message : string; ev_involvedUID : string;
  ev_lastTimestamp : Z }.

(** The PodMigration configuration of a namespace (api/v1alpha1/podmigration_types.go). *)
Record PodMigration := mkPodMigration {
  pm_meta : ObjectMeta; pm_location : string; pm_conditions : list Condition }.
#[export] Instance PodMigration_eq_dec : EqDecision PodMigration.
Proof. solve_decision. Defined.

(** ** The PodMigrationJob resource *)

Inductive JobPhase :=
| PhaseEmpty
| Pending
| Snapshotting
| Evicting
| Restoring
| Succeeded
| SucceededWithoutRestore
| Failed.
#[export] Instance JobPhase_eq_dec : EqDecision JobPhase.
Proof. solve_decision. Defined.

Definition phase_eqb (p q : JobPhase) : bool := bool_decide (p = q).
Notation "p ==p q" := (phase_eqb p q) (at level 70, no associativity) : go_scope.

Definition phase_string (p : JobPhase) : string :=
  match p with
  | PhaseEmpty => "" | Pending => "Pending" | Snapshotting => "Snapshotting"
  | Evicting => "Evicting" | Restoring => "Restoring" | Succeeded => "Succeeded"
  | SucceededWithoutRestore => "SucceededWithoutRestore" | Failed => "Failed"
  end.

Record JobSpec := mkJobSpec { podRef : string; targetPodUID : string }.

Record JobStatus := mkJobStatus {
  phase : JobPhase;
  snapshotRef : string;
  pvsToDetach : list string;
  originNodeName : string;
  completionTime : option Z;
  snapshottingStartTime : option Z;
  evictingStartTime : option Z;
  restoringStartTime : option Z;
  consumed : bool;
  restoredPodUID : string;
  restoredPodName : string;
  gateReleased : bool;
  conditions : list Condition }.

Record PodMigrationJob := mkJob { j_meta : ObjectMeta; j_spec : JobSpec; j_status : JobStatus }.

#[export] Instance JobSpec_eq_dec : EqDecision JobSpec.
Proof. solve_decision. Defined.
#[export] Instance JobStatus_eq_dec : EqDecision JobStatus.
Proof. solve_decision. Defined.
#[export] Instance PodMigrationJob_eq_dec : EqDecision PodMigrationJob.
Proof. solve_decision. Defined.

Definition empty_status : JobStatus :=
  mkJobStatus PhaseEmpty "" [] "" None None None None false "" "" false [].

Definition j_name (j : PodMigrationJob) := m_name (j_meta j).
Definition j_namespace (j : PodMigrationJob) := m_namespace (j_meta j).
Definition j_uid (j : PodMigrationJob) := m_uid (j_meta j).
Definition j_labels (j : PodMigrationJob) := m_labels (j_meta j).
Definition j_annotations (j : PodMigrationJob) := m_annotations (j_meta j).
Definition j_generation (j : PodMigrationJob) := m_generation (j_meta j).
Definition j_created (j : PodMigrationJob) := m_creationTimestamp (j_meta j).
Definition j_deleting (j : PodMigrationJob) : bool :=
  match m_deletionTimestamp (j_meta j) with Some _ => true | None => false end.
Definition j_phase (j : PodMigrationJob) := phase (j_status j).
Definition j_podName (j : PodMigrationJob) := podRef (j_spec j).
Definition j_targetUID (j : PodMigrationJob) := targetPodUID (j_spec j).
Definition j_conditions (j : PodMigrationJob) := conditions (j_status j).
Definition j_snapshotRef (j : PodMigrationJob) := snapshotRef (j_status j).
Definition j_restoredPodName (j : PodMigrationJob) := restoredPodName (j_status j).
Definition j_restoredPodUID (j : PodMigrationJob) := restoredPodUID (j_status j).

(** Assignments to the fields of [job.Status] and [job.ObjectMeta]. *)
Definition with_status (f : JobStatus -> JobStatus) (j : PodMigrationJob) : PodMigrationJob :=
  mkJob (j_meta j) (j_spec j) (f (j_status j)).
Definition with_j_meta (f : ObjectMeta -> ObjectMeta) (j : PodMigrationJob) : PodMigrationJob :=
  mkJob (f (j_meta j)) (j_spec j) (j_status j).

Definition set_phase (p : JobPhase) : PodMigrationJob -> PodMigrationJob := with_status (fun s =>
  mkJobStatus p (snapshotRef s) (pvsToDetach s) (originNodeName s) (completionTime s)
    (snapshottingStartTime s) (evictingStartTime s) (restoringStartTime s) (consumed s)
    (restoredPodUID s) (restoredPodName s) (gateReleased s) (conditions s)).
Definition set_snapshotRef (r : string) : PodMigrationJob -> PodMigrationJob := with_status (fun s =>
  mkJobStatus (phase s) r (pvsToDetach s) (originNodeName s) (completionTime s)
    (snapshottingStartTime s) (evictingStartTime s) (restoringStartTime s) (consumed s)
    (restoredPodUID s) (restoredPodName s) (gateReleased s) (conditions s)).
Definition set_pvsToDetach (l : list string) : PodMigrationJob -> PodMigrationJob := with_status (fun s =>
  mkJobStatus (phase s) (snapshotRef s) l (originNodeName s) (completionTime s)
    (snapshottingStartTime s) (evictingStartTime s) (restoringStartTime s) (consumed s)
    (restoredPodUID s) (restoredPodName s) (gateReleased s) (conditions s)).
Definition set_originNodeName (n : string) : PodMigrationJob -> PodMigrationJob := with_status (fun s =>
  mkJobStatus (phase s) (snapshotRef s) (pvsToDetach s) n (completionTime s)
    (snapshottingStartTime s) (evictingStartTime s) (restoringStartTime s) (consumed s)
    (restoredPodUID s) (restoredPodName s) (gateReleased s) (conditions s)).
Definition set_completionTime (t : option Z) : PodMigrationJob -> PodMigrationJob := with_status (fun s =>
  mkJobStatus (phase s) (snapshotRef s) (pvsToDetach s) (originNodeName s) t
    (snapshottingStartTime s) (evictingStartTime s) (restoringStartTime s) (consumed s)
    (restoredPodUID s) (restoredPodName s) (gateReleased s) (conditions s)).
Definition set_snapshottingStartTime (t : option Z) : PodMigrationJob -> PodMigrationJob := with_status (fun s =>
  mkJobStatus (phase s) (snapshotRef s) (pvsToDetach s) (originNodeName s) (completionTime s)
    t (evictingStartTime s) (restoringStartTime s) (consumed s)
    (restoredPodUID s) (restoredPodName s) (gateReleased s) (conditions s)).
Definition set_evictingStartTime (t : option Z) : PodMigrationJob -> PodMigrationJob := with_status (fun s =>
  mkJobStatus (phase s) (snapshotRef s) (pvsToDetach s) (originNodeName s) (completionTime s)
    (snapshottingStartTime s) t (restoringStartTime s) (consumed s)
    (restoredPodUID s) (restoredPodName s) (gateReleased s) (conditions s)).
Definition set_restoringStartTime (t : option Z) : PodMigrationJob -> PodMigrationJob := with_status (fun s =>
  mkJobStatus (phase s) (snapshotRef s) (pvsToDetach s) (originNodeName s) (completionTime s)
    (snapshottingStartTime s) (evictingStartTime s) t (consumed s)
    (restoredPodUID s) (restoredPodName s) (gateReleased s) (conditions s)).
Definition set_consumed (b : bool) : PodMigrationJob -> PodMigrationJob := with_status (fun s =>
  mkJobStatus (phase s) (snapshotRef s) (pvsToDetach s) (originNodeName s) (completionTime s)
    (snapshottingStartTime s) (evictingStartTime s) (restoringStartTime s) b
    (restoredPodUID s) (restoredPodName s) (gateReleased s) (conditions s)).
Definition set_restoredPodUID (u : string) : PodMigrationJob -> PodMigrationJob := with_status (fun s =>
  mkJobStatus (phase s) (snapshotRef s) (pvsToDetach s) (originNodeName s) (completionTime s)
    (snapshottingStartTime s) (evictingStartTime s) (restoringStartTime s) (consumed s)
    u (restoredPodName s) (gateReleased s) (conditions s)).
Definition set_restoredPodName (n : string) : PodMigrationJob -> PodMigrationJob := with_status (fun s =>
  mkJobStatus (phase s) (snapshotRef s) (pvsToDetach s) (originNodeName s) (completionTime s)
    (snapshottingStartTime s) (evictingStartTime s) (restoringStartTime s) (consumed s)
    (restoredPodUID s) n (gateReleased s) (conditions s)).
Definition set_gateReleased (b : bool) : PodMigrationJob -> PodMigrationJob := with_status (fun s =>
  mkJobStatus (phase s) (snapshotRef s) (pvsToDetach s) (originNodeName s) (completionTime s)
    (snapshottingStartTime s) (evictingStartTime s) (restoringStartTime s) (consumed s)
    (restoredPodUID s) (restoredPodName s) b (conditions s)).
Definition set_conditions (l : list Condition) : PodMigrationJob -> PodMigrationJob := with_status (fun s =>
  mkJobStatus (phase s) (snapshotRef s) (pvsToDetach s) (originNodeName s) (completionTime s)
    (snapshottingStartTime s) (evictingStartTime s) (restoringStartTime s) (consumed s)
    (restoredPodUID s) (restoredPodName s) (gateReleased s) l).
Definition set_j_annotations (a : gmap string string) : PodMigrationJob -> PodMigrationJob :=
  with_j_meta (with_annotations a).
Definition set_j_labels (l : gmap string string) : PodMigrationJob -> PodMigrationJob :=
  with_j_meta (with_labels l).
Definition set_j_finalizers (l : list string) : PodMigrationJob -> PodMigrationJob :=
  with_j_meta (with_finalizers l).
