(* ===== verification/Interfaces.v ===== *)
(** * Interfaces: library code, errors, and the calls that leave the process

    - [KubeLib]: the helpers of k8s.io/apimachinery and controller-runtime the
      controller calls, with the laws their documentation states, and a
      concrete instance [kube_ref];
    - [ApiErr], [Result]: API errors and [ctrl.Result];
    - [Ev], [resp]: every call to the API server, the informer cache, a snapshot
      provider, the event recorder, the metrics registry, the invariant engine
      and the in-memory probe table, with the type of its answer. *)
From S2P Require Import Prelude Effects GoLib Kube.

(** ** Library helpers *)

Class KubeLib := {
  (** [meta.SetStatusCondition], with the time it stamps: the new list, and
      whether it changed. *)
  SetStatusCondition : Z -> Condition -> list Condition -> list Condition * bool;
  FindStatusCondition : list Condition -> string -> option Condition;
  IsStatusConditionTrue : list Condition -> string -> bool;
  (** [metav1.GetControllerOf] *)
  GetControllerOf : ObjectMeta -> option OwnerReference;
  (** [controllerutil] *)
  ContainsFinalizer : list string -> string -> bool;
  AddFinalizer : list string -> string -> list string;
  RemoveFinalizer : list string -> string -> list string;

  find_type : forall l t c, FindStatusCondition l t = Some c -> c_type c = t /\ In c l;
  find_set_same : forall now c l, exists c',
    FindStatusCondition (fst (SetStatusCondition now c l)) (c_type c) = Some c' /\
    c_type c' = c_type c /\ c_status c' = c_status c /\ c_reason c' = c_reason c /\
    c_message c' = c_message c;
  find_set_other : forall now c l t, t <> c_type c ->
    FindStatusCondition (fst (SetStatusCondition now c l)) t = FindStatusCondition l t;
  set_same_status : forall now c l c0 c',
    FindStatusCondition l (c_type c) = Some c0 -> c_status c0 = c_status c ->
    FindStatusCondition (fst (SetStatusCondition now c l)) (c_type c) = Some c' ->
    c_lastTransitionTime c' = c_lastTransitionTime c0;
  set_unchanged : forall now c l, snd (SetStatusCondition now c l) = false ->
    fst (SetStatusCondition now c l) = l;
  (** On a list with one condition of each type: the new one replaces the one of
      its type, and the others stay. *)
  set_members : forall now c l, NoDup (map c_type l) ->
    NoDup (map c_type (fst (SetStatusCondition now c l))) /\
    exists c', c_type c' = c_type c /\ c_status c' = c_status c /\ c_reason c' = c_reason c /\ c_message c' = c_message c /\
      forall d, In d (fst (SetStatusCondition now c l)) <-> d = c' \/ (In d l /\ c_type d <> c_type c);
  is_true_find : forall l t, IsStatusConditionTrue l t = true <->
    exists c, FindStatusCondition l t = Some c /\ c_status c = "True";
  contains_in : forall l f, ContainsFinalizer l f = true <-> In f l;
  add_in : forall l f, In f (AddFinalizer l f);
  remove_in : forall l f g, In g (RemoveFinalizer l f) <-> In g l /\ g <> f
}.

(** An instance that satisfies the laws, for concrete runs. *)
Module KubeRef.
Definition same_type (t : string) (c : Condition) : bool := c_type c ==s t.

Definition find_cond (l : list Condition) (t : string) : option Condition := List.find (same_type t) l.

Definition stamp (now : Z) (old : option Condition) (c : Condition) : Condition :=
  let ltt := match old with
             | Some o => if c_status o ==s c_status c then c_lastTransitionTime o else now
             | None => now
             end in
  mkCond (c_type c) (c_status c) (c_reason c) (c_message c) (c_observedGeneration c) ltt.

Fixpoint replace_cond (c : Condition) (l : list Condition) : list Condition :=
  match l with
  | [] => [c]
  | o :: l' => if same_type (c_type c) o then c :: l' else o :: replace_cond c l'
  end.

Definition set_cond (now : Z) (c : Condition) (l : list Condition) : list Condition * bool :=
  let c' := stamp now (find_cond l (c_type c)) c in
  if bool_decide (find_cond l (c_type c) = Some c') then (l, false) else (replace_cond c' l, true).

Lemma find_replace_same c l : find_cond (replace_cond c l) (c_type c) = Some c.
Proof.
  unfold find_cond. induction l as [|o l IH]; simpl; unfold same_type in *.
  - by rewrite seqb_refl.
  - destruct (c_type o ==s c_type c) eqn:Ho; simpl; [by rewrite seqb_refl|by rewrite Ho].
Qed.

Lemma find_replace_other c l t : t <> c_type c -> find_cond (replace_cond c l) t = find_cond l t.
Proof.
  intros Ht. unfold find_cond. induction l as [|o l IH]; simpl; unfold same_type in *.
  - replace (c_type c ==s t) with false; [done|]. symmetry. apply seqb_false. congruence.
  - destruct (c_type o ==s c_type c) eqn:Ho; simpl.
    + apply seqb_true in Ho. rewrite Ho.
      replace (c_type c ==s t) with false; [done|]. symmetry. apply seqb_false. congruence.
    + by rewrite IH.
Qed.

Lemma find_set_same_ref now c l :
  find_cond (fst (set_cond now c l)) (c_type c) = Some (stamp now (find_cond l (c_type c)) c).
Proof.
  unfold set_cond. case_bool_decide as H; simpl; [done|].
  apply (find_replace_same (stamp now (find_cond l (c_type c)) c)).
Qed.

Lemma replace_types c l t : In t (map c_type (replace_cond c l)) <-> t = c_type c \/ In t (map c_type l).
Proof.
  induction l as [|o l IH]; simpl; [naive_solver|]. unfold same_type. destruct (c_type o ==s c_type c) eqn:Ho; simpl.
  - apply seqb_true in Ho. rewrite Ho. naive_solver.
  - rewrite IH. naive_solver.
Qed.

Lemma replace_members c l : NoDup (map c_type l) ->
  NoDup (map c_type (replace_cond c l)) /\ forall d, In d (replace_cond c l) <-> d = c \/ (In d l /\ c_type d <> c_type c).
Proof.
  induction l as [|o l IH]; simpl; intros Hn.
  - split; [repeat constructor; by intros ?%elem_of_nil|naive_solver].
  - apply NoDup_cons in Hn as [Ho Hn]. rewrite list_elem_of_In in Ho. destruct (IH Hn) as [IH1 IH2]. unfold same_type.
    destruct (c_type o ==s c_type c) eqn:Hoc; simpl.
    + apply seqb_true in Hoc. split.
      * apply NoDup_cons. split; [by rewrite list_elem_of_In, <- Hoc|done].
      * intros d. split; [intros [<-|Hd]; [by left|right]|intros [->|[[<-|Hd] Ht]]; [by left|done|by right]].
        split; [by right|]. intros Ht. apply Ho. rewrite Hoc, <- Ht. by apply in_map.
    + apply seqb_false in Hoc. split.
      * apply NoDup_cons. split; [|done]. rewrite list_elem_of_In, replace_types. naive_solver.
      * intros d. rewrite IH2. naive_solver.
Qed.

Lemma find_unique c l : NoDup (map c_type l) -> In c l -> find_cond l (c_type c) = Some c.
Proof.
  unfold find_cond. induction l as [|o l IH]; simpl; [done|]. intros [Ho Hn]%NoDup_cons [->|Hc]; unfold same_type.
  - by rewrite seqb_refl.
  - rewrite list_elem_of_In in Ho. destruct (c_type o ==s c_type c) eqn:Hoc; [|by apply IH].
    apply seqb_true in Hoc. destruct Ho. rewrite Hoc. by apply in_map.
Qed.

Lemma set_cond_members now c l : NoDup (map c_type l) ->
  NoDup (map c_type (fst (set_cond now c l))) /\
  exists c', c_type c' = c_type c /\ c_status c' = c_status c /\ c_reason c' = c_reason c /\ c_message c' = c_message c /\
    forall d, In d (fst (set_cond now c l)) <-> d = c' \/ (In d l /\ c_type d <> c_type c).
Proof.
  intros Hn. unfold set_cond. set (c' := stamp now (find_cond l (c_type c)) c).
  case_bool_decide as Hf; simpl.
  - split; [done|]. exists c'. repeat (split; [done|]). intros d. split.
    + intros Hd. destruct (decide (c_type d = c_type c)) as [Ht|Ht]; [left|by right].
      pose proof (find_unique _ _ Hn Hd) as Hd'. rewrite Ht in Hd'. congruence.
    + intros [->|[Hd _]]; [|done]. by apply List.find_some in Hf as [? _].
  - destruct (replace_members c' _ Hn) as [H1 H2]. split; [done|]. exists c'. by repeat (split; [done|]).
Qed.

#[refine] Instance kube_ref : KubeLib := {|
  SetStatusCondition := set_cond;
  FindStatusCondition := find_cond;
  IsStatusConditionTrue l t := match find_cond l t with Some c => c_status c ==s "True" | None => false end;
  GetControllerOf m := List.find or_controller (m_owners m);
  ContainsFinalizer l f := existsb (String.eqb f) l;
  AddFinalizer l f := if existsb (String.eqb f) l then l else (l ++ [f])%list;
  RemoveFinalizer l f := List.filter (fun g => negb (String.eqb f g)) l |}.
Proof.
  - intros l t c H. apply List.find_some in H as [Hin Ht]. unfold same_type in Ht. bool_props. done.
  - intros now c l. eexists. rewrite find_set_same_ref. by repeat split.
  - intros now c l t Ht. unfold set_cond. case_bool_decide; simpl; [done|].
    by apply find_replace_other.
  - intros now c l c0 c' Hf Hs. rewrite find_set_same_ref, Hf. intros [= <-]. simpl.
    by rewrite Hs, seqb_refl.
  - intros now c l. unfold set_cond. by case_bool_decide.
  - apply set_cond_members.
  - intros l t. destruct (find_cond l t) as [c|].
    + rewrite seqb_true. split; [by eexists|]. intros (c' & Hc & Hs). by simplify_eq.
    + split; [done|]. by intros (c & [=] & _).
  - intros l f. rewrite existsb_exists. split.
    + intros (x & Hx & He). bool_props. congruence.
    + intros Hf. exists f. by rewrite seqb_refl.
  - intros l f. destruct (existsb (String.eqb f) l) eqn:He.
    + apply existsb_exists in He as (x & Hx & He). bool_props. congruence.
    + apply in_or_app. right. by left.
  - intros l f g. rewrite filter_In, negb_true_iff, String.eqb_neq.
    split; intros [? ?]; split; congruence.
Defined.
End KubeRef.

(** ** Errors and results *)

Inductive ErrKind :=
| NotFound | Conflict | AlreadyExists
(** 429, with the message of its DisruptionBudget status cause, if it has one. *)
| TooManyRequests (cause : option string)
| InternalError | Forbidden | Invalid | BadRequest | NoMatch | EngineNotRegistered | OtherErr.
#[export] Instance ErrKind_eq_dec : EqDecision ErrKind.
Proof. solve_decision. Defined.

(** An error: what [apierrors.IsX] and [errors.Is] see of it, and its text.
    [fmt.Errorf] with %w keeps the kind. *)
Record ApiErr := mkErr { e_kind : ErrKind; e_msg : string }.
Definition wrapf (prefix : string) (e : ApiErr) : ApiErr := mkErr (e_kind e) (prefix +s e_msg e).

Definition IsNotFound (e : ApiErr) : bool := bool_decide (e_kind e = NotFound).
Definition IsConflict (e : ApiErr) : bool := bool_decide (e_kind e = Conflict).
Definition IsAlreadyExists (e : ApiErr) : bool := bool_decide (e_kind e = AlreadyExists).
Definition IsTooManyRequests (e : ApiErr) : bool :=
  match e_kind e with TooManyRequests _ => true | _ => false end.
Definition IsInternalError (e : ApiErr) : bool := bool_decide (e_kind e = InternalError).
Definition IsForbidden (e : ApiErr) : bool := bool_decide (e_kind e = Forbidden).
Definition IsInvalid (e : ApiErr) : bool := bool_decide (e_kind e = Invalid).
Definition IsBadRequest (e : ApiErr) : bool := bool_decide (e_kind e = BadRequest).
Definition IsNoMatchError (e : ApiErr) : bool := bool_decide (e_kind e = NoMatch).

(** [apierrors.StatusCause(err, policyv1.DisruptionBudgetCause)] *)
Definition budget_cause (e : ApiErr) : option string :=
  match e_kind e with TooManyRequests c => c | _ => None end.

(** A call that answers a value or an error. *)
Definition res (A : Type) : Type := ApiErr + A.

(** [ctrl.Result] *)
Record Result := mkResult { r_requeue : bool; r_requeueAfter : Z }.
Definition NoRequeue : Result := mkResult false 0.
Definition Requeue : Result := mkResult true 0.
Definition RequeueAfter (d : Z) : Result := mkResult false d.

(** A handler's [(ctrl.Result, error)]. *)
Definition Outcome : Type := Result * option ApiErr.

(** ** Snapshot providers and engines, as the controller sees their answers *)

Inductive SnapPhase := PhaseInProgress | PhaseReady | PhaseFailed | PhaseRefused.
#[export] Instance SnapPhase_eq_dec : EqDecision SnapPhase.
Proof. solve_decision. Defined.

Record SnapStatus := mkSnapStatus {
  ss_phase : SnapPhase; ss_ref : string; ss_reason : string; ss_message : string; ss_lastProgress : Z }.

Record CheckpointState := mkCheckpointState { cp_settled : bool; cp_completed : bool }.

Inductive RestoreOutcome := RestoreInProgress | Restored | ColdStart | RestoreFailed.
#[export] Instance RestoreOutcome_eq_dec : EqDecision RestoreOutcome.
Proof. solve_decision. Defined.

Record RestoreVerdict := mkRestoreVerdict {
  rv_outcome : RestoreOutcome; rv_reason : string; rv_evidence : string; rv_confirmed : bool }.

Record PolicyRef := mkPolicyRef { pr_group : string; pr_kind : string; pr_name : string }.

(** ** Calls *)

Inductive Source := Cache | Live.
#[export] Instance Source_eq_dec : EqDecision Source.
Proof. solve_decision. Defined.

Inductive PodQuery :=
| AllPods
| PodsAssignedTo (pmj : string)
| PodsOnNode (node : string)
| PodsMatching (sel : option Selector).

Inductive JobQuery := AllJobs | JobsWithSnapshot (ref : string) | JobsWithParent (key : string).

(** Options of an eviction. *)
Record EvictOpts := mkEvictOpts { ev_grace : option Z; ev_uid : option string; ev_dryRun : bool }.

(** What the invariant check reads of a PodSnapshotManualTrigger. *)
Record TriggerView := mkTriggerView { tv_deleting : bool; tv_snapshotCreated : option string }.

(** An element of an unstructured [status.conditions]: the string members that
    are strings. [None] for an element that is not an object. *)
Record RawCondition := mkRawCondition {
  rc_type : option string; rc_status : option string; rc_reason : option string;
  rc_message : option string; rc_ltt : option string }.

(** What the invariant rules see (internal/invariants/snapshot.go): the objects
    under reconciliation and the namespace, as the reconciler read them. *)
Record ReconcileSnapshot := mkSnapshot {
  sn_now : Z;
  sn_reconciler : string;
  sn_pmj : option PodMigrationJob;
  sn_pod : option Pod;
  sn_migration : option PodMigration;
  sn_pmjs : list PodMigrationJob;
  sn_pods : list Pod;
  sn_targeting : list PodMigrationJob;
  sn_podListFailed : bool;
  sn_pmjListFailed : bool;
  sn_orphanedTrigger : bool;
  sn_restoreCrash : bool;
  sn_snapshotConditions : list Condition;
  (** [RestoreOrders]: snapshot reference, cold-start bypass, present *)
  sn_restoreOrders : option (string -> Pod -> string * bool * bool) }.

Record Violation := mkViolation {
  v_id : string; v_name : string; v_reason : string; v_message : string;
  v_namespace : string; v_pmj : string; v_pod : string;
  v_consecutive : Z; v_duration : Z }.

(** Whose event the recorder emits. *)
Record EventTarget := mkEventTarget { et_kind : string; et_namespace : string; et_name : string; et_uid : string }.
Definition about_pod (p : Pod) : EventTarget := mkEventTarget "Pod" (p_namespace p) (p_name p) (p_uid p).
Definition about_job (j : PodMigrationJob) : EventTarget :=
  mkEventTarget "PodMigrationJob" (j_namespace j) (j_name j) (j_uid j).

Inductive Ev :=
(* reads *)
| EGetJob (src : Source) (ns name : string)
| EGetPod (src : Source) (ns name : string)
| EGetNode (name : string)
| EGetPVC (ns name : string)
| EGetWorkload (kind ns name : string)
| EListReplicaSets (ns hash : string)
| EListPods (ns : string) (q : PodQuery)
| EListPodsLive (ns : string)
| EListJobs (ns : string) (q : JobQuery)
| EListVolumeAttachments (pv : string)
| EListPDBs (ns : string)
| EListEvents (ns uid : string)
| EListPodMigrations (ns : string)
| EGetTrigger (ns name : string)
| EGetSnapshotConditions (ns name : string)
(* writes to jobs *)
| EPatchJobStatus (orig new : PodMigrationJob)
| EUpdateJobStatus (job : PodMigrationJob)
| EPatchJob (lock : bool) (before new : PodMigrationJob)
| EUpdateJob (job : PodMigrationJob)
| ECreateJob (job : PodMigrationJob)
| EDeleteJob (job : PodMigrationJob) (uid : option string)
(* writes to pods *)
| EUpdatePod (pod : Pod)
| EPatchPodLabel (ns name : string) (uid : string) (key : string) (value : option string)
| EPatchPodReady (ns name : string) (uid : string) (status reason message : string)
| EDeletePod (pod : Pod) (uid : option string)
| EEvict (ns name : string) (opts : EvictOpts)
(* snapshot provider and engine, by the engine's name *)
| EEnsureTrigger (eng : string) (job : PodMigrationJob) (pod : string)
| ECheckStatus (eng : string) (job : PodMigrationJob) (pod : string)
| ECleanup (eng : string) (job : PodMigrationJob) (pod : string)
| ECheckpointState (eng : string) (job : PodMigrationJob) (pod : string)
| ECompleteRestore (eng : string) (job : PodMigrationJob) (pod uid : string)
| EVerifyRestore (eng : string) (job : PodMigrationJob) (pod : Pod)
| EResolvePolicy (eng : string) (pod : Pod)
| EBudgetCheck (job : PodMigrationJob) (pod : string)
(* in-process *)
| EProbeLoad (key : string)
| EProbeStore (key : string) (t : Z)
| EProbeDelete (key : string)
| EEvent (target : EventTarget) (type reason message : string)
| EMetric (name : string) (labels : list string) (value : Z)
| EInvariants (snapshot : ReconcileSnapshot)
| EForget (key : string).

Definition resp (e : Ev) : Type :=
  match e with
  | EGetJob _ _ _ => res PodMigrationJob
  | EGetPod _ _ _ => res Pod
  | EGetNode _ => res Node
  | EGetPVC _ _ => res PVC
  | EGetWorkload _ _ _ => res Workload
  | EListReplicaSets _ _ => res (list Workload)
  | EListPods _ _ | EListPodsLive _ => res (list Pod)
  | EListJobs _ _ => res (list PodMigrationJob)
  | EListVolumeAttachments _ => res (list VolumeAttachment)
  | EListPDBs _ => res (list PodDisruptionBudget)
  | EListEvents _ _ => res (list KEvent)
  | EListPodMigrations _ => res (list PodMigration)
  | EGetTrigger _ _ => res TriggerView
  | EGetSnapshotConditions _ _ => res (option (list (option RawCondition)))
  (* a write that succeeds answers the object as the server now has it *)
  | EPatchJobStatus _ _ | EUpdateJobStatus _ | EPatchJob _ _ _ | EUpdateJob _ | ECreateJob _ => res PodMigrationJob
  | EDeleteJob _ _ => option ApiErr
  | EUpdatePod _ => res Pod
  | EPatchPodLabel _ _ _ _ _ | EPatchPodReady _ _ _ _ _ _ | EDeletePod _ _ | EEvict _ _ _ => option ApiErr
  | EEnsureTrigger _ _ _ => res Result
  | ECheckStatus _ _ _ => res (option SnapStatus)
  | ECleanup _ _ _ => option ApiErr
  | ECheckpointState _ _ _ => res CheckpointState
  | ECompleteRestore _ _ _ _ => option ApiErr
  | EVerifyRestore _ _ _ => res RestoreVerdict
  | EResolvePolicy _ _ => res (option PolicyRef)
  | EBudgetCheck _ _ => string * option ApiErr
  | EProbeLoad _ => option Z
  | EProbeStore _ _ | EProbeDelete _ | EEvent _ _ _ _ | EMetric _ _ _ | EForget _ => unit
  | EInvariants _ => list Violation * bool
  end.

(** An environment without objects: reads find nothing, writes are refused. *)
Definition answer_fail (e : Ev) : resp e :=
  match e with
  | EDeleteJob _ _ | EPatchPodLabel _ _ _ _ _ | EPatchPodReady _ _ _ _ _ _ | EDeletePod _ _ | EEvict _ _ _
  | ECleanup _ _ _ | ECompleteRestore _ _ _ _ => Some (mkErr NotFound "not found")
  | EProbeLoad _ => None
  | EProbeStore _ _ | EProbeDelete _ | EEvent _ _ _ _ | EMetric _ _ _ | EForget _ => tt
  | EInvariants _ => ([], false)
  | EBudgetCheck _ _ => ("", None)
  | _ => inl (mkErr NotFound "not found")
  end.

(** Calls of this signature. *)
Definition ecall {S R : Type} (e : Ev) : gom resp S R (resp e) := gcall e.
