(* ===== verification/Paths.v ===== *)
(** * Slash-separated paths (the path and path/filepath packages of Go)

    [path.Clean], [path.Join] and [path.Dir], with what confinement arguments need
    of them: a cleaned absolute path is a list of proper elements, and joining a
    cleaned local name to a directory stays inside it. *)
From Stdlib Require Import Ascii.
From S2P Require Import Prelude GoLib.

Definition slash : ascii := "/"%char.

(** One element onto the reversed list of elements. *)
Definition clean_step (rooted : bool) (stack : list string) (elem : string) : list string :=
  if (elem ==s "") || (elem ==s ".") then stack
  else if elem ==s ".." then
    match stack with
    | [] => if rooted then [] else [".."]
    | top :: rest => if top ==s ".." then ".." :: stack else rest
    end
  else elem :: stack.

Definition path_Clean (p : string) : string :=
  if p ==s "" then "."
  else
    let rooted := HasPrefix p "/" in
    let out := Join (rev (fold_left (clean_step rooted) (Split p slash) [])) "/" in
    if rooted then "/" +s out else if out ==s "" then "." else out.

Definition path_Join (elems : list string) : string :=
  match List.filter (fun e => e !=s "") elems with
  | [] => ""
  | l => path_Clean (Join l "/")
  end.

(** Everything up to the last slash, cleaned. *)
Definition path_Dir (p : string) : string :=
  match rev (Split p slash) with
  | [] | [_] => "."
  | _ :: rest => path_Clean (Join (rev rest) "/" +s "/")
  end.

(** The last element, without trailing slashes. *)
Definition path_Base (p : string) : string :=
  if p ==s "" then "."
  else match List.filter (fun e => e !=s "") (Split p slash) with
       | [] => "/"
       | l => List.last l ""
       end.

Definition IsAbs (p : string) : bool := HasPrefix p "/".

Example path_join_prefix : path_Join [""; "ps-web-1"] = "ps-web-1" /\ path_Join ["a//b/../c/"; "x"] = "a/c/x" /\ path_Join ["/"; ".."] = "/".
Proof. by vm_compute. Qed.
Example path_dirs : path_Dir "kubepods/pod1/cri" = "kubepods/pod1" /\ path_Dir "a" = "." /\ path_Dir "/a" = "/" /\ path_Base "/a/b/" = "b".
Proof. by vm_compute. Qed.

(** ** Elements *)

(** An element of a cleaned path. *)
Definition proper (e : string) : Prop := e <> "" /\ e <> "." /\ e <> ".." /\ no_char slash e = true.

Lemma Split_elems s c : Forall (fun e => no_char c e = true) (Split s c).
Proof.
  induction s as [|d s IH]; simpl; [by repeat constructor|]. destruct (Ascii.eqb d c) eqn:Hd; [by constructor|].
  destruct (Split s c) as [|w ws]; [constructor; [|constructor]|]; unfold no_char in *; simpl.
  - by rewrite Hd.
  - apply Forall_cons in IH as [Hw Hws]. constructor; [|done]. simpl. by rewrite Hd, Hw.
Qed.

Lemma Split_nonempty s c : Split s c <> [].
Proof. destruct s as [|d s]; simpl; [done|]. destruct (Ascii.eqb d c); [done|]. by destruct (Split s c). Qed.

Lemma Split_concat s c t : Split (s +s String c t) c = (Split s c ++ Split t c)%list.
Proof.
  induction s as [|d s IH]; simpl; [by rewrite Ascii.eqb_refl|]. destruct (Ascii.eqb d c); [by rewrite IH|].
  rewrite IH. pose proof (Split_nonempty s c). by destruct (Split s c).
Qed.

Lemma clean_proper r l st : Forall proper l -> fold_left (clean_step r) l st = (rev l ++ st)%list.
Proof.
  revert st. induction l as [|e l IH]; simpl; intros st Hl; [done|]. apply Forall_cons in Hl as [(H1 & H2 & H3 & _) Hl].
  unfold clean_step at 2. rewrite (proj2 (seqb_false _ _) H1), (proj2 (seqb_false _ _) H2), (proj2 (seqb_false _ _) H3). simpl.
  rewrite IH by done. by rewrite <- app_assoc.
Qed.

(** What the reversed list holds: proper elements over, in a relative path, some [..]. *)
Definition stack_ok (rooted : bool) (st : list string) : Prop :=
  exists l n, st = (l ++ repeat ".." n)%list /\ Forall proper l /\ (rooted = true -> n = 0%nat).

Lemma clean_step_ok r st e : no_char slash e = true -> stack_ok r st -> stack_ok r (clean_step r st e).
Proof.
  intros He (l & n & -> & Hl & Hn). unfold clean_step. destruct ((e ==s "") || (e ==s ".")) eqn:H1; [by exists l, n|]. bool_props.
  destruct (e ==s "..") eqn:H2; bool_props.
  - destruct l as [|top l]; simpl.
    + destruct n as [|n]; simpl; [|exists [], (S (S n)); split; [done|]; split; [constructor|]; intros Hr; specialize (Hn Hr); lia].
      destruct r; [exists [], 0%nat|exists [], 1%nat]; (split; [done|split; [constructor|done]]).
    + apply Forall_cons in Hl as [(_ & _ & Htop & _) Hl]. rewrite (proj2 (seqb_false _ _) Htop). by exists l, n.
  - exists (e :: l), n. split; [done|]. split; [|done]. by constructor.
Qed.

Lemma clean_fold_ok r p : stack_ok r (fold_left (clean_step r) (Split p slash) []).
Proof.
  assert (forall l st, Forall (fun e => no_char slash e = true) l -> stack_ok r st -> stack_ok r (fold_left (clean_step r) l st)) as H.
  { induction l as [|e l IH]; simpl; intros st Hl Hst; [done|]. apply Forall_cons in Hl as [He Hl]. by apply IH, clean_step_ok. }
  apply H; [apply Split_elems|]. exists [], 0%nat. by repeat constructor.
Qed.

(** ** Prefixes *)


Lemma prefix_app s t : HasPrefix (s +s t) s = true.
Proof. unfold HasPrefix. induction s as [|c s IH]; simpl; [by destruct t|]. by destruct (ascii_dec c c). Qed.

Lemma prefix_longer s t p : HasPrefix s p = true -> HasPrefix (s +s t) p = true.
Proof.
  unfold HasPrefix. revert p. induction s as [|c s IH]; intros [|d p]; simpl; try done; [by destruct t|].
  destruct (ascii_dec d c); [apply IH|done].
Qed.

(** ** Cleaned paths *)

(** The absolute and the relative path of a list of elements. *)
Definition abs_path (l : list string) : string := "/" +s Join l "/".
Definition rel_path (l : list string) : string := match l with [] => "." | _ => Join l "/" end.

(** The elements of a cleaned absolute path. *)
Lemma clean_abs p : IsAbs p = true -> exists l, Forall proper l /\ fold_left (clean_step true) (Split p slash) [] = rev l /\ path_Clean p = abs_path l.
Proof.
  intros Hp. destruct (clean_fold_ok true p) as (l & n & Hst & Hl & Hn). rewrite (Hn eq_refl), app_nil_r in Hst.
  exists (rev l). split; [by apply Forall_rev|]. split; [by rewrite rev_involutive|]. unfold path_Clean.
  unfold IsAbs in Hp. destruct (p ==s "") eqn:He; [bool_props; by subst p|]. cbv zeta. rewrite Hp, Hst. done.
Qed.

Lemma Join_nonempty l : l <> [] -> Forall (fun e => e <> "") l -> Join l "/" <> "".
Proof. destruct l as [|e l]; [done|]. intros _ He%Forall_inv. unfold Join. destruct l; simpl; by destruct e. Qed.

(** A cleaned relative path that does not start with [..] has proper elements only. *)
Lemma clean_local p : path_Clean p <> "" -> IsAbs (path_Clean p) = false -> HasPrefix (path_Clean p) ".." = false ->
  exists l, Forall proper l /\ path_Clean p = rel_path l.
Proof.
  unfold path_Clean, IsAbs. destruct (p ==s "") eqn:Hp; [intros _ _ _; by exists []|]. cbv zeta.
  destruct (clean_fold_ok (HasPrefix p "/") p) as (l & n & -> & Hl & _). destruct (HasPrefix p "/") eqn:Habs; [intros _ Hf; by destruct (Join _ _) in Hf|].
  rewrite rev_app_distr. destruct n as [|n]; simpl.
  - intros _ _ _. exists (rev l). split; [by apply Forall_rev|]. destruct (rev l) as [|e l'] eqn:Hr; [done|].
    assert (Forall proper (rev l)) as Hl' by (by apply Forall_rev). rewrite Hr in Hl'.
    unfold rel_path. rewrite (proj2 (seqb_false _ _)); [done|]. apply Join_nonempty; [done|]. eapply Forall_impl; [exact Hl'|]. by intros x (? & _).
  - intros _ _ Hpre. exfalso.
    assert (rev (repeat ".." n) ++ [".."] = ".." :: rev (repeat ".." n))%list as Hrep
      by (change (rev (".." :: repeat ".." n) = ".." :: rev (repeat ".." n)); by rewrite repeat_cons, rev_app_distr).
    rewrite Hrep in Hpre. simpl in Hpre. unfold Join in Hpre. destruct (rev (repeat ".." n) ++ rev l)%list; discriminate Hpre.
Qed.

Lemma clean_local_nonempty p : path_Clean p <> "".
Proof.
  unfold path_Clean. destruct (p ==s ""); [done|]. cbv zeta. destruct (HasPrefix p "/"); [done|].
  destruct (Join _ _ ==s "") eqn:Hj; [done|]. by bool_props.
Qed.

(** A cleaned path inside a directory, which is cleaned and absolute. *)
Definition within (dir p : string) : Prop :=
  exists d l, Forall proper (d ++ l) /\ dir = abs_path d /\ p = abs_path (d ++ l)%list.

Lemma Split_rel l : Forall proper l -> fold_left (clean_step true) (Split (rel_path l) slash) = fold_left (clean_step true) l.
Proof.
  intros Hl. destruct l as [|e l]; [done|]. unfold rel_path. change "/" with (String slash ""). rewrite (Split_Join (e :: l) slash); [done|done|].
  eapply Forall_impl; [exact Hl|]. by intros x (_ & _ & _ & ?).
Qed.

(** Joining a cleaned local name to a directory. *)
Lemma join_within dst name :
  IsAbs dst = true -> IsAbs (path_Clean name) = false -> HasPrefix (path_Clean name) ".." = false ->
  within (path_Clean dst) (path_Join [dst; path_Clean name]).
Proof.
  intros Hd Hn Hp. destruct (clean_local name (clean_local_nonempty _) Hn Hp) as (l & Hl & ->).
  destruct (clean_abs dst Hd) as (d & Hdp & Hst & ->). exists d, l. split; [by apply Forall_app|]. split; [done|].
  unfold path_Join. assert (dst <> "") as Hne by (intros ->; done).
  assert (rel_path l <> "") as Hne'.
  { unfold rel_path. destruct l; [done|]. apply Join_nonempty; [done|]. eapply Forall_impl; [exact Hl|]. by intros x (? & _). }
  simpl. rewrite (proj2 (seqb_false _ _) Hne), (proj2 (seqb_false _ _) Hne'). simpl.
  change (path_Clean (dst +s String slash (rel_path l)) = abs_path (d ++ l)%list).
  destruct (clean_abs (dst +s String slash (rel_path l))) as (m & Hm & Hst' & ->).
  { by apply prefix_longer. }
  rewrite (Split_concat dst slash (rel_path l)), fold_left_app, Hst, (Split_rel l Hl), (clean_proper true l (rev d) Hl), <- rev_app_distr in Hst'.
  f_equal. by apply (f_equal (@rev string)) in Hst'; rewrite !rev_involutive in Hst'.
Qed.

Lemma Join_app d l : d <> [] -> l <> [] -> Join (d ++ l) "/" = Join d "/" +s "/" +s Join l "/".
Proof.
  intros Hd Hl. unfold Join. induction d as [|e d IH]; [done|]. destruct d as [|e' d]; [simpl; by destruct l|].
  change (e +s "/" +s String.concat "/" ((e' :: d) ++ l)%list = (e +s "/" +s String.concat "/" (e' :: d)) +s "/" +s String.concat "/" l).
  rewrite IH by done. by rewrite !sapp_assoc.
Qed.

(** Inside a directory other than the root: the directory, or its name and a slash first. *)
Lemma within_prefix dir p : within dir p -> dir <> "/" -> p = dir \/ HasPrefix p (dir +s "/") = true.
Proof.
  intros (d & l & Hdl & -> & ->) Hr. destruct l as [|e l]; [left; by rewrite app_nil_r|right].
  destruct d as [|f d]; [done|]. unfold abs_path. rewrite Join_app by done. 
  change (HasPrefix ("/" +s Join (f :: d) "/" +s "/" +s Join (e :: l) "/") (("/" +s Join (f :: d) "/") +s "/") = true).
  rewrite <- !sapp_assoc, (sapp_assoc _ "/" (Join (e :: l) "/")), <- sapp_assoc. apply prefix_app.
Qed.

(** The parent of a cleaned absolute path. *)
Lemma Split_abs m : Forall proper m -> m <> [] -> Split (abs_path m) slash = "" :: m.
Proof.
  intros Hm Hne. change (abs_path m) with ("" +s String slash (Join m "/")). rewrite Split_concat. simpl. f_equal.
  apply (Split_Join m slash); [done|]. eapply Forall_impl; [exact Hm|]. by intros x (_ & _ & _ & ?).
Qed.

Lemma clean_abs_path m : Forall proper m -> path_Clean (abs_path m +s "/") = abs_path m /\ path_Clean (abs_path m) = abs_path m.
Proof.
  intros Hm. destruct m as [|e m]; [by vm_compute|].
  assert (forall tail, fold_left (clean_step true) (Split (abs_path (e :: m)) slash ++ tail) [] = rev (e :: m) -> forall s,
    Split s slash = (Split (abs_path (e :: m)) slash ++ tail)%list -> IsAbs s = true -> path_Clean s = abs_path (e :: m)) as H.
  { intros tail Hf s Hs Habs. destruct (clean_abs s Habs) as (l & _ & Hl & ->). rewrite Hs, Hf in Hl.
    apply (f_equal (@rev string)) in Hl. by rewrite !rev_involutive in Hl; subst l. }
  assert (fold_left (clean_step true) (Split (abs_path (e :: m)) slash) [] = rev (e :: m)) as Hf.
  { rewrite Split_abs by done. simpl fold_left at 1. change (clean_step true [] "") with (@nil string).
    change (fold_left (clean_step true) (e :: m) [] = rev (e :: m)). by rewrite clean_proper, app_nil_r. }
  split.
  - apply (H [""]); [rewrite fold_left_app, Hf; reflexivity|apply (Split_concat _ slash "")|by apply prefix_longer, prefix_app].
  - apply (H []); [by rewrite app_nil_r|by rewrite app_nil_r|apply prefix_app].
Qed.

Lemma path_Dir_abs m e : Forall proper (m ++ [e]) -> path_Dir (abs_path (m ++ [e])%list) = abs_path m.
Proof.
  intros Hm. unfold path_Dir. rewrite Split_abs by (done || by destruct m). rewrite app_comm_cons, rev_app_distr. simpl rev at 1.
  cbn [app]. apply Forall_app in Hm as [Hm _]. destruct (rev ("" :: m)) as [|x l] eqn:Hr; [by destruct (app_cons_not_nil (rev m) [] "" (eq_sym Hr))|].
  rewrite <- Hr, rev_involutive. destruct m as [|f m]; [by vm_compute|].
  change (Join ("" :: f :: m) "/") with (abs_path (f :: m)). by apply clean_abs_path.
Qed.

Lemma within_parent dir p : within dir p -> p = dir \/ within dir (path_Dir p).
Proof.
  intros (d & l & Hdl & -> & ->). destruct l as [|e l _] using rev_ind; [left; by rewrite app_nil_r|right].
  rewrite app_assoc in Hdl |- *. rewrite path_Dir_abs by done. exists d, l. split; [by apply Forall_app in Hdl as [? _]|done].
Qed.
