(* ===== verification/TextLaws.v ===== *)
(** * Numbers and times read back

    A decimal that is printed is read back as the same number, and a time that is
    printed in RFC 3339 is read back to the nanosecond. *)
From Stdlib Require Import Ascii NArith.
From S2P Require Import Prelude GoLib.

(** ** Decimals *)

Lemma digits_val_app s c acc : digits_val (s +s String c "") acc = v ← digits_val s acc; digits_val (String c "") v.
Proof. revert acc. induction s as [|d s IH]; intros acc; [done|]. simpl. destruct (is_digit d); [apply IH|done]. Qed.

Lemma digit_char x : (x < 10)%N -> is_digit (pretty_N_char x) = true /\ digit_val (pretty_N_char x) = Z.of_N x.
Proof.
  intros H. assert (x = 0 \/ x = 1 \/ x = 2 \/ x = 3 \/ x = 4 \/ x = 5 \/ x = 6 \/ x = 7 \/ x = 8 \/ x = 9)%N as Hx by lia.
  by repeat destruct Hx as [->|Hx]; subst.
Qed.

(** The digits of a number: they do not start with a zero, and say its value. *)
Lemma pretty_digits x : (0 < x)%N -> exists c ds, is_digit c = true /\ Ascii.eqb c "0" = false /\ all_chars is_digit ds = true /\
  digits_val (String c ds) 0 = Some (Z.of_N x) /\ forall s, pretty_N_go x s = String c ds +s s.
Proof.
  induction (N.lt_wf_0 x) as [x _ IH]. intros Hx. destruct (decide (x < 10)%N) as [Hlt|Hge].
  - destruct (digit_char x Hlt) as [Hd Hv]. exists (pretty_N_char x), "". split_and!; [done| |done| |].
    + assert (x = 1 \/ x = 2 \/ x = 3 \/ x = 4 \/ x = 5 \/ x = 6 \/ x = 7 \/ x = 8 \/ x = 9)%N as Hc by lia.
      by repeat destruct Hc as [->|Hc]; subst.
    + cbn [digits_val]. rewrite Hd. simpl. by rewrite Hv.
    + intros s. rewrite pretty_N_go_step, N.div_small, N.mod_small by done. apply pretty_N_go_0.
  - assert (0 < x / 10)%N as Hq by (apply N.div_str_pos; lia).
    destruct (IH (x / 10)%N) as (c & ds & Hc & H0 & Hds & Hv & Hp); [by apply N.div_lt|done|].
    destruct (digit_char (x mod 10)%N) as [Hd Hdv]; [by apply N.mod_lt|].
    exists c, (ds +s String (pretty_N_char (x mod 10)) ""). split_and!; [done..| | |].
    + rewrite all_chars_app, Hds. simpl. by rewrite Hd.
    + change (String c (ds +s ?t)) with (String c ds +s t). rewrite digits_val_app, Hv. cbn -[pretty_N_char Z.of_N N.div N.modulo Z.mul].
      rewrite Hd. f_equal. rewrite Hdv. pose proof (N.div_mod x 10 ltac:(lia)). lia.
    + intros s. rewrite pretty_N_go_step, Hp by done. change (String c (ds +s ?t)) with (String c ds +s t). by rewrite sapp_assoc.
Qed.

Lemma pretty_pos p : exists c ds, is_digit c = true /\ Ascii.eqb c "0" = false /\ all_chars is_digit ds = true /\
  digits_val (String c ds) 0 = Some (Zpos p) /\ pretty (Zpos p) = String c ds /\ pretty (Zneg p) = String "-" (String c ds).
Proof.
  destruct (pretty_digits (Npos p)) as (c & ds & Hc & H0 & Hds & Hv & Hp); [done|]. exists c, ds.
  assert (pretty (N.pos p) = String c ds) as He by (unfold pretty, pretty_N; simpl; by rewrite Hp, sapp_nil).
  split_and!; [done..|exact He|]. change (pretty (Zneg p)) with ("-" +s pretty (N.pos p)). by rewrite He.
Qed.

Lemma digit_no_sign c : is_digit c = true -> Ascii.eqb c "-" = false /\ Ascii.eqb c "+" = false.
Proof.
  unfold is_digit. intros H. split; apply Ascii.eqb_neq; intros ->; discriminate H.
Qed.

Lemma Atoi_pretty z : is_int64 z -> Atoi (pretty z) = Some z.
Proof.
  intros [Hlo Hhi]. destruct z as [|p|p]; [done| |];
    destruct (pretty_pos p) as (c & ds & Hc & H0 & Hds & Hv & Hp & Hn); unfold Atoi; rewrite ?Hp, ?Hn.
  - destruct (digit_no_sign c Hc) as [-> ->]. rewrite Hv. destruct (_ || _) eqn:Hb; [exfalso; apply orb_true_iff in Hb as [Hb|Hb]; apply Z.ltb_lt in Hb; lia|done].
  - simpl Ascii.eqb. cbv iota. rewrite Hv. change (- Z.pos p) with (Z.neg p). destruct (_ || _) eqn:Hb; [exfalso; apply orb_true_iff in Hb as [Hb|Hb]; apply Z.ltb_lt in Hb; lia|done].
Qed.

(** ** Dates *)

(** A day and its date in the calendar, over one era of 400 years. *)
Definition era_day_ok (doe : Z) : bool :=
  let '(y, m, d) := civil_from_days (doe - 719468) in
  (days_from_civil y m d =? doe - 719468) && (1 <=? m) && (m <=? 12) && (1 <=? d) && (d <=? days_in m y).

Fixpoint all_below (f : Z -> bool) (n : positive) (from : Z) : bool :=
  match n with
  | xH => f from
  | xO n => all_below f n from && all_below f n (from + Zpos n)
  | xI n => f from && all_below f n (from + 1) && all_below f n (from + 1 + Zpos n)
  end.

Lemma all_below_spec f n from x : all_below f n from = true -> from <= x < from + Zpos n -> f x = true.
Proof.
  revert from. induction n as [n IH|n IH|]; simpl; intros from H Hx; bool_props.
  - destruct (decide (x = from)) as [->|]; [done|].
    destruct (decide (x < from + 1 + Zpos n)); [by apply (IH (from + 1)); [|lia]|by apply (IH (from + 1 + Zpos n)); [|lia]].
  - destruct (decide (x < from + Zpos n)); [by apply (IH from); [|lia]|by apply (IH (from + Zpos n)); [|lia]].
  - by replace x with from by lia.
Qed.

(** The day of a year that starts in March has a month and a day. *)
Definition doy_ok (doy : Z) : bool :=
  let mp := (5 * doy + 2) / 153 in
  let d := doy - (153 * mp + 2) / 5 + 1 in
  let m := if mp <? 10 then mp + 3 else mp - 9 in
  (1 <=? m) && (m <=? 12) && ((m + 9) mod 12 =? mp) && (1 <=? d) &&
  (d <=? (if m =? 2 then (if doy =? 365 then 29 else 28) else days_in m 1)).

Lemma doys_ok : all_below doy_ok 366 0 = true.
Proof. vm_compute. reflexivity. Qed.

(** The year of a day of the era, its first of March, and its length. *)
Lemma year_of_era doe : 0 <= doe < 146097 ->
  let yoe := (doe - doe / 1460 + doe / 36524 - doe / 146096) / 365 in
  let doy := doe - (365 * yoe + yoe / 4 - yoe / 100) in
  0 <= yoe < 400 /\ 0 <= doy <= 365 /\ (doy = 365 -> (yoe + 1) mod 4 = 0 /\ ((yoe + 1) mod 100 <> 0 \/ (yoe + 1) mod 400 = 0)).
Proof. cbv zeta. intros H. Z.div_mod_to_equations. lia. Qed.

Lemma era_days doe : 0 <= doe < 146097 -> era_day_ok doe = true.
Proof.
  intros H. unfold era_day_ok, civil_from_days. replace (doe - 719468 + 719468) with doe by lia.
  rewrite (Z.div_small doe) by done. rewrite Z.mul_0_l, Z.sub_0_r. destruct (year_of_era doe H) as (Hy & Hd & Hl).
  set (yoe := (doe - doe / 1460 + doe / 36524 - doe / 146096) / 365) in *. cbv zeta. set (doy := doe - (365 * yoe + yoe / 4 - yoe / 100)) in *.
  pose proof (all_below_spec _ _ _ doy doys_ok ltac:(lia)) as Hok. unfold doy_ok in Hok.
  set (mp := (5 * doy + 2) / 153) in *. set (m := if mp <? 10 then mp + 3 else mp - 9) in *. set (d := doy - (153 * mp + 2) / 5 + 1) in *. bool_props.
  rewrite Z.mul_0_l, Z.add_0_r. rewrite !andb_true_iff. split_and!; try (by apply Z.leb_le).
  - apply Z.eqb_eq. unfold days_from_civil. replace (if m <=? 2 then yoe + (if m <=? 2 then 1 else 0) - 1 else yoe + (if m <=? 2 then 1 else 0)) with yoe by (destruct (m <=? 2); lia).
    rewrite (Z.div_small yoe) by done. cbv zeta. replace ((m + 9) mod 12) with mp by done. rewrite Z.mul_0_l, Z.sub_0_r. unfold d, doy. lia.
  - apply Z.leb_le. unfold days_in in *. destruct (Z.eqb_spec m 2) as [->|Hm].
    + change (2 <=? 2) with true. cbv iota. destruct (Z.eqb_spec doy 365) as [He|He]; [|destruct (is_leap _); lia].
      destruct (Hl He) as [Hfour Hc]. unfold is_leap. rewrite Hfour, Z.eqb_refl. simpl andb. destruct (Z.eqb_spec ((yoe + 1) mod 100) 0); simpl; [|lia].
      destruct Hc as [Hc|Hc]; [by destruct Hc|]. by rewrite Hc.
    + done.
Qed.

Lemma civil_shift z e : civil_from_days (z + e * 146097) = let '(y, m, d) := civil_from_days z in (y + e * 400, m, d).
Proof.
  unfold civil_from_days. replace (z + e * 146097 + 719468) with (z + 719468 + e * 146097) by lia.
  rewrite Z.div_add by lia. replace (z + 719468 + e * 146097 - ((z + 719468) / 146097 + e) * 146097) with (z + 719468 - (z + 719468) / 146097 * 146097) by lia.
  cbv zeta. f_equal. f_equal. lia.
Qed.

Lemma days_shift y m d e : days_from_civil (y + e * 400) m d = days_from_civil y m d + e * 146097.
Proof.
  unfold days_from_civil. replace (if m <=? 2 then y + e * 400 - 1 else y + e * 400) with ((if m <=? 2 then y - 1 else y) + e * 400) by (destruct (m <=? 2); lia).
  generalize (if m <=? 2 then y - 1 else y). intros y'. rewrite Z.div_add by lia.
  replace (y' + e * 400 - (y' / 400 + e) * 400) with (y' - y' / 400 * 400) by lia. cbv zeta. lia.
Qed.

Lemma days_in_shift m y e : days_in m (y + e * 400) = days_in m y.
Proof.
  unfold days_in, is_leap. replace (y + e * 400) with (y + (e * 100) * 4) at 1 by lia. rewrite Z.mod_add by lia.
  replace (y + e * 400) with (y + (e * 4) * 100) at 1 by lia. rewrite Z.mod_add by lia. by rewrite Z.mod_add by lia.
Qed.

(** A day has one date, a date of the calendar. *)
Lemma civil_round z : let '(y, m, d) := civil_from_days z in
  days_from_civil y m d = z /\ 1 <= m <= 12 /\ 1 <= d <= days_in m y.
Proof.
  set (e := (z + 719468) / 146097). set (doe := (z + 719468) mod 146097).
  assert (0 <= doe < 146097) as Hd by (by apply Z.mod_pos_bound).
  replace z with (doe - 719468 + e * 146097) by (unfold doe, e; pose proof (Z.div_mod (z + 719468) 146097 ltac:(lia)); lia).
  rewrite civil_shift. pose proof (era_days doe Hd) as Hok. unfold era_day_ok in Hok.
  destruct (civil_from_days (doe - 719468)) as [[y m] d]. bool_props.
  rewrite days_shift, days_in_shift. lia.
Qed.

(** ** Fields of a time *)

Lemma take_digits_app n s acc v t : take_digits n s acc = Some (v, "") -> take_digits n (s +s t) acc = Some (v, t).
Proof.
  revert s acc. induction n as [|n IH]; intros s acc H; simpl in *.
  - by injection H as -> ->.
  - destruct s as [|c s]; [done|]. simpl. destruct (is_digit c); [|done]. by apply IH.
Qed.

Definition field_ok (n : nat) (z : Z) : bool := match take_digits n (pad n z) 0 with Some (v, "") => v =? z | _ => false end.

Lemma fields_ok : all_below (field_ok 2) 100 0 = true /\ all_below (field_ok 4) 10000 0 = true.
Proof. split; vm_compute; reflexivity. Qed.

Lemma take_field n z t : (n = 2%nat /\ 0 <= z < 100) \/ (n = 4%nat /\ 0 <= z < 10000) -> take_digits n (pad n z +s t) 0 = Some (z, t).
Proof.
  intros H. assert (field_ok n z = true) as Hok.
  { destruct fields_ok as [H2 H4]. destruct H as [[-> Hz]|[-> Hz]]; [apply (all_below_spec _ _ _ z H2)|apply (all_below_spec _ _ _ z H4)]; lia. }
  unfold field_ok in Hok. destruct (take_digits n (pad n z) 0) as [[v []]|] eqn:Ht; [|done|done]. bool_props. subst v. by apply take_digits_app.
Qed.

Lemma take_sep c t : take_char c (String c "" +s t) = Some t.
Proof. simpl. by rewrite Ascii.eqb_refl. Qed.

(** ** The fraction *)

(** What the digits of [acc] add, [k] of them having been printed or dropped. *)
Fixpoint frac_value (k : nat) (acc : string) {struct acc} : option Z :=
  match acc, k with
  | EmptyString, _ => Some 0
  | String c t, S k => if is_digit c then v ← frac_value k t; Some (digit_val c * 10 ^ Z.of_nat k + v) else None
  | _, O => None
  end.

Lemma char_of_digit d : 0 <= d < 10 -> is_digit (ascii_of_nat (Z.to_nat d + 48)) = true /\ digit_val (ascii_of_nat (Z.to_nat d + 48)) = d.
Proof. intros H. assert (d = 0 \/ d = 1 \/ d = 2 \/ d = 3 \/ d = 4 \/ d = 5 \/ d = 6 \/ d = 7 \/ d = 8 \/ d = 9) as Hd by lia. by repeat destruct Hd as [->|Hd]; subst. Qed.

Lemma frac_digits_value p v acc print k f : (print = false <-> acc = "") -> frac_value k acc = Some f -> 0 <= v ->
  let '(v', fr, pr) := frac_digits p v acc print in
  v' = v / 10 ^ Z.of_nat p /\ frac_value (p + k) fr = Some (v mod 10 ^ Z.of_nat p * 10 ^ Z.of_nat k + f) /\ (pr = false <-> fr = "").
Proof.
  revert v acc print k f. induction p as [|p IH]; intros v acc print k f Hacc Hf Hv.
  - simpl. rewrite Z.div_1_r, Z.mod_1_r. split_and!; [done|by rewrite Hf|done].
  - cbn [frac_digits]. assert (0 <= v mod 10 < 10) as Hd by (apply Z.mod_pos_bound; lia). destruct (char_of_digit _ Hd) as [Hc Hcv].
    set (acc' := if print || negb (v mod 10 =? 0) then String (ascii_of_nat (Z.to_nat (v mod 10) + 48)) acc else acc).
    assert (frac_value (S k) acc' = Some (v mod 10 * 10 ^ Z.of_nat k + f)) as Hf'.
    { unfold acc'. destruct print; simpl orb; cbv iota.
      - cbn [frac_value]. rewrite Hc, Hf. cbn -[Z.mul Z.pow Z.of_nat]. by rewrite Hcv.
      - rewrite (proj1 Hacc eq_refl) in *. injection Hf as <-. destruct (Z.eqb_spec (v mod 10) 0) as [->|_]; simpl negb; cbv iota; [done|].
        cbn [frac_value]. rewrite Hc. destruct k; cbn -[Z.mul Z.pow Z.of_nat]; by rewrite Hcv. }
    specialize (IH (v / 10) acc' (print || negb (v mod 10 =? 0)) (S k) (v mod 10 * 10 ^ Z.of_nat k + f)).
    destruct (frac_digits p (v / 10) acc' _) as [[v' fr] pr]. destruct IH as (-> & Hfr & Hpr).
    + unfold acc'. destruct (print || _) eqn:Hp; [done|]. apply orb_false_iff in Hp as [-> _]. by rewrite Hacc.
    + done.
    + by apply Z.div_pos.
    + replace (S p + k)%nat with (p + S k)%nat by lia. rewrite Hfr. rewrite !Nat2Z.inj_succ, !Z.pow_succ_r by lia.
      assert (0 < 10 ^ Z.of_nat p) by (apply Z.pow_pos_nonneg; lia). split_and!; [by rewrite Z.div_div by lia| |done].
      f_equal. rewrite Z.rem_mul_r by lia. ring.
Qed.

Definition is_digit_start (s : string) : bool := match s with String c _ => is_digit c | EmptyString => false end.

Lemma take_frac_value k fr t acc f : frac_value k fr = Some f -> is_digit_start t = false ->
  take_frac (fr +s t) k acc = (acc * 10 ^ Z.of_nat k + f, t).
Proof.
  revert k acc f. induction fr as [|c fr IH]; intros k acc f Hf Ht.
  - injection Hf as <-. rewrite Z.add_0_r. destruct t as [|c t]; [by destruct k|]. simpl in *. by rewrite Ht.
  - destruct k as [|k]; [done|]. cbn [frac_value] in Hf. simpl. destruct (is_digit c); [|done].
    destruct (frac_value k fr) as [g|] eqn:Hg; [|done]. injection Hf as <-. rewrite (IH _ _ _ Hg Ht). f_equal. rewrite Nat2Z.inj_succ, Z.pow_succ_r by lia. ring.
Qed.

(** ** Times *)

Lemma parse_fields y mo d h mi se frac ns :
  0 <= y < 10000 -> 1 <= mo <= 12 -> 1 <= d <= days_in mo y -> 0 <= h < 24 -> 0 <= mi < 60 -> 0 <= se < 60 ->
  take_opt_frac (frac +s "Z") = (ns, "Z") ->
  ParseRFC3339 (pad 4 y +s "-" +s pad 2 mo +s "-" +s pad 2 d +s "T" +s pad 2 h +s ":" +s pad 2 mi +s ":" +s pad 2 se +s frac +s "Z") =
  Some ((days_from_civil y mo d * 86400 + h * 3600 + mi * 60 + se) * Second + ns).
Proof.
  intros Hy Hmo Hd Hh Hmi Hse Hf. assert (days_in mo y <= 31) by (unfold days_in; repeat case_match; lia).
  unfold ParseRFC3339, take_hour.
  repeat (rewrite take_field by lia; cbn [mbind option_bind]; try (rewrite take_sep; cbn [mbind option_bind])).
  rewrite Hf. simpl. rewrite Z.sub_0_r.
  destruct (_ || _) eqn:Hb; [|done]. exfalso. repeat rewrite orb_true_iff in Hb. lia.
Qed.

(** A time whose year has four digits reads back as it was printed. *)
Lemma format_round frac ns t : 0 <= year t < 10000 -> take_opt_frac (frac +s "Z") = (ns, "Z") ->
  ParseRFC3339 (format_utc frac t) = Some (t / Second * Second + ns).
Proof.
  unfold year, format_utc. intros Hy Hf. pose proof (civil_round (t / Second / 86400)) as Hc.
  destruct (civil_from_days _) as [[y m] d]. destruct Hc as (Hdays & Hm & Hd). simpl in Hy. set (s := t / Second) in *.
  pose proof (Z.mod_pos_bound s 86400 ltac:(lia)). pose proof (Z.div_mod s 86400 ltac:(lia)).
  rewrite (parse_fields y m d _ _ _ frac ns); [|lia|done|done|split; [apply Z.div_pos; lia|apply Z.div_lt_upper_bound; lia]|apply Z.mod_pos_bound; lia|apply Z.mod_pos_bound; lia|done].
  do 2 f_equal. f_equal. rewrite Hdays. pose proof (Z.div_mod (s mod 86400) 60 ltac:(lia)).
  pose proof (Z.div_mod (s mod 86400 / 60) 60 ltac:(lia)). rewrite Z.div_div in * by lia. change (60 * 60) with 3600 in *. lia.
Qed.

Lemma ParseRFC3339_Format t : 0 <= year t < 10000 -> ParseRFC3339 (FormatRFC3339 t) = Some (t / Second * Second).
Proof. intros H. unfold FormatRFC3339. rewrite (format_round "" 0) by done. by rewrite Z.add_0_r. Qed.

Lemma ParseRFC3339_FormatNano t : 0 <= year t < 10000 -> ParseRFC3339 (FormatRFC3339Nano t) = Some t.
Proof.
  intros H. unfold FormatRFC3339Nano. pose proof (Z.mod_pos_bound t Second ltac:(done)) as Hm.
  pose proof (frac_digits_value 9 (t mod Second) "" false 0 0 ltac:(done) eq_refl ltac:(lia)) as Hf.
  destruct (frac_digits 9 _ "" false) as [[v fr] pr]. destruct Hf as (_ & Hv & Hpr). change (10 ^ Z.of_nat 9) with Second in Hv.
  rewrite Zmod_mod, Z.mul_1_r, Z.add_0_r in Hv. rewrite (format_round _ (t mod Second)); [|done|].
  - f_equal. pose proof (Z.div_mod t Second ltac:(done)). lia.
  - destruct pr.
    + destruct fr as [|c fr].
      * discriminate (proj2 Hpr eq_refl).
      * assert (is_digit c = true) as Hc by (cbn [frac_value Nat.add] in Hv; by destruct (is_digit c)).
        change (("." +s String c fr) +s "Z") with (String "." (String c (fr +s "Z"))). unfold take_opt_frac.
        rewrite Hc. simpl andb. cbv iota. change (String c (fr +s "Z")) with (String c fr +s "Z").
        by rewrite (take_frac_value 9 _ "Z" 0 _ Hv).
    + rewrite (proj1 Hpr eq_refl) in *. injection Hv as <-. done.
Qed.
