(* ===== verification/Unquote.v ===== *)
(** * Quoted strings (packages strconv and unicode/utf8)

    [Unquote] on the bytes of a string, as strconv does it: double quotes with their
    escapes, single quotes around one character, back quotes. *)
From Stdlib Require Import Ascii.
From S2P Require Import Prelude GoLib.

Definition byte (c : ascii) : Z := Z.of_nat (nat_of_ascii c).
Definition of_byte (b : Z) : ascii := ascii_of_nat (Z.to_nat b).
Definition backslash : ascii := ascii_of_nat 92.
Definition double_quote : ascii := ascii_of_nat 34.
Definition single_quote : ascii := ascii_of_nat 39.
Definition back_quote : ascii := ascii_of_nat 96.
Definition line_feed : ascii := ascii_of_nat 10.
Definition carriage_return : ascii := ascii_of_nat 13.

(** ** Runes *)

Definition RuneSelf : Z := 128.
Definition RuneError : Z := 65533.

Definition ValidRune (r : Z) : bool := ((0 <=? r) && (r <? 55296)) || ((57343 <? r) && (r <=? 1114111)).

(** A continuation byte between [lo] and [hi]. *)
Definition cont (lo hi b : Z) : bool := (lo <=? b) && (b <=? hi).

(** The first rune and how many bytes it takes; an encoding that is not valid is one byte of [RuneError]. *)
Definition DecodeRune (s : string) : Z * nat :=
  match s with
  | EmptyString => (RuneError, 0%nat)
  | String c0 s =>
      let b0 := byte c0 in
      if b0 <? 128 then (b0, 1%nat)
      else if (b0 <? 194) || (244 <? b0) then (RuneError, 1%nat)
      else
        match s with
        | EmptyString => (RuneError, 1%nat)
        | String c1 s =>
            let b1 := byte c1 in
            let lo := if b0 =? 224 then 160 else if b0 =? 240 then 144 else 128 in
            let hi := if b0 =? 237 then 159 else if b0 =? 244 then 143 else 191 in
            if negb (cont lo hi b1) then (RuneError, 1%nat)
            else if b0 <? 224 then (Z.lor (Z.shiftl (Z.land b0 31) 6) (Z.land b1 63), 2%nat)
            else
              match s with
              | EmptyString => (RuneError, 1%nat)
              | String c2 s =>
                  let b2 := byte c2 in
                  if negb (cont 128 191 b2) then (RuneError, 1%nat)
                  else if b0 <? 240 then (Z.lor (Z.shiftl (Z.land b0 15) 12) (Z.lor (Z.shiftl (Z.land b1 63) 6) (Z.land b2 63)), 3%nat)
                  else
                    match s with
                    | EmptyString => (RuneError, 1%nat)
                    | String c3 _ =>
                        let b3 := byte c3 in
                        if negb (cont 128 191 b3) then (RuneError, 1%nat)
                        else (Z.lor (Z.shiftl (Z.land b0 7) 18) (Z.lor (Z.shiftl (Z.land b1 63) 12) (Z.lor (Z.shiftl (Z.land b2 63) 6) (Z.land b3 63))), 4%nat)
                    end
              end
        end
  end.

Definition bytes_of (l : list Z) : string := fold_right (fun b s => String (of_byte b) s) "" l.

(** [utf8.AppendRune]: what is appended. *)
Definition EncodeRune (r : Z) : string :=
  let r := if ValidRune r then r else RuneError in
  let tail sh := Z.lor 128 (Z.land (Z.shiftr r sh) 63) in
  if r <=? 127 then bytes_of [r]
  else if r <=? 2047 then bytes_of [Z.lor 192 (Z.shiftr r 6); tail 0]
  else if r <=? 65535 then bytes_of [Z.lor 224 (Z.shiftr r 12); tail 6; tail 0]
  else bytes_of [Z.lor 240 (Z.shiftr r 18); tail 12; tail 6; tail 0].

(** ** Escapes *)

Definition unhex (c : ascii) : option Z :=
  let b := byte c in
  if (48 <=? b) && (b <=? 57) then Some (b - 48)
  else if (97 <=? b) && (b <=? 102) then Some (b - 87)
  else if (65 <=? b) && (b <=? 70) then Some (b - 55)
  else None.
Definition unoct (c : ascii) : option Z := let b := byte c in if (48 <=? b) && (b <=? 55) then Some (b - 48) else None.

(** [n] digits in base [base], and what follows them. *)
Fixpoint escape_digits (digit : ascii -> option Z) (base : Z) (n : nat) (v : Z) (s : string) : option (Z * string) :=
  match n with
  | O => Some (v, s)
  | S n =>
      match s with
      | EmptyString => None
      | String c s => match digit c with Some d => escape_digits digit base n (v * base + d) s | None => None end
      end
  end.

Definition rune_escape (digits : nat) (s : string) : option (Z * bool * string) :=
  match escape_digits unhex 16 digits 0 s with
  | Some (v, s) => if ValidRune v then Some (v, true, s) else None
  | None => None
  end.

(** After a backslash: the rune, whether it is written as such, and what follows. *)
Definition unquote_escape (c quote : ascii) (s : string) : option (Z * bool * string) :=
  let b := byte c in
  if b =? 97 then Some (7, false, s)
  else if b =? 98 then Some (8, false, s)
  else if b =? 102 then Some (12, false, s)
  else if b =? 110 then Some (10, false, s)
  else if b =? 114 then Some (13, false, s)
  else if b =? 116 then Some (9, false, s)
  else if b =? 118 then Some (11, false, s)
  else if b =? 120 then match escape_digits unhex 16 2 0 s with Some (v, s) => Some (v, false, s) | None => None end
  else if b =? 117 then rune_escape 4 s
  else if b =? 85 then rune_escape 8 s
  else if (48 <=? b) && (b <=? 55) then
    match escape_digits unoct 8 2 (b - 48) s with
    | Some (v, s) => if 255 <? v then None else Some (v, false, s)
    | None => None
    end
  else if b =? 92 then Some (92, false, s)
  else if (b =? 39) || (b =? 34) then if Ascii.eqb c quote then Some (b, false, s) else None
  else None.

(** [strconv.UnquoteChar] *)
Definition UnquoteChar (s : string) (quote : ascii) : option (Z * bool * string) :=
  match s with
  | EmptyString => None
  | String c rest =>
      if Ascii.eqb c quote && (Ascii.eqb quote single_quote || Ascii.eqb quote double_quote) then None
      else if RuneSelf <=? byte c then let '(r, n) := DecodeRune s in Some (r, true, drop_str n s)
      else if negb (Ascii.eqb c backslash) then Some (byte c, false, rest)
      else match rest with EmptyString => None | String e rest => unquote_escape e quote rest end
  end.

Definition append_rune (r : Z) (multibyte : bool) (buf : string) : string :=
  buf +s (if (r <? RuneSelf) || negb multibyte then bytes_of [r] else EncodeRune r).

(** The characters up to the closing quote; every round consumes a byte. *)
Fixpoint unquote_chars (fuel : nat) (quote : ascii) (s buf : string) : option (string * string) :=
  match fuel with
  | O => None
  | S fuel =>
      match s with
      | EmptyString => None
      | String c _ =>
          if Ascii.eqb c quote then Some (buf, drop_str 1 s)
          else if Ascii.eqb c line_feed then None
          else
            match UnquoteChar s quote with
            | None => None
            | Some (r, multibyte, rest) =>
                let buf := append_rune r multibyte buf in
                if Ascii.eqb quote single_quote then
                  match rest with String c' rest' => if Ascii.eqb c' quote then Some (buf, rest') else None | EmptyString => None end
                else unquote_chars fuel quote rest buf
            end
      end
  end.

(** [strconv.Unquote]: [None] is the syntax error. *)
Definition Unquote (s : string) : option string :=
  match s with
  | EmptyString => None
  | String q rest =>
      if Ascii.eqb q back_quote then
        let '(body, tail, found) := Cut rest back_quote in
        if negb found || (tail !=s "") then None else Some (ReplaceAll body (String carriage_return "") "")
      else if Ascii.eqb q double_quote || Ascii.eqb q single_quote then
        match unquote_chars (S (String.length rest)) q rest "" with
        | Some (out, tail) => if tail ==s "" then Some out else None
        | None => None
        end
      else None
  end.

Example unquote_plain : Unquote (Quote "ps-web-0-deadbeef") = Some "ps-web-0-deadbeef".
Proof. reflexivity. Qed.
Example unquote_escapes : Unquote (bytes_of [34; 92; 116; 92; 120; 52; 49; 92; 117; 48; 48; 101; 57; 92; 49; 48; 49; 34]) = Some (bytes_of [9; 65; 195; 169; 65]).
Proof. reflexivity. Qed.
Example unquote_single : Unquote (bytes_of [39; 195; 169; 39]) = Some (bytes_of [195; 169]).
Proof. reflexivity. Qed.
Example unquote_raw : Unquote (bytes_of [96; 92; 13; 110; 96]) = Some (bytes_of [92; 110]).
Proof. reflexivity. Qed.
Example unquote_bad : Unquote "plain" = None /\ Unquote (bytes_of [34; 97]) = None /\ Unquote (bytes_of [39; 97; 98; 39]) = None.
Proof. by split_and!. Qed.
Example unquote_empty : Unquote (bytes_of [39; 39]) = Some "".
Proof. reflexivity. Qed.

(** ** Reading back what was quoted *)

Definition printable (c : ascii) : bool := (32 <=? byte c) && (byte c <=? 126).

Lemma of_byte_byte c : of_byte (byte c) = c.
Proof. unfold of_byte, byte. rewrite Nat2Z.id. apply ascii_nat_embedding. Qed.

Lemma byte_inj c d : byte c = byte d -> c = d.
Proof. intros H. by rewrite <- (of_byte_byte c), <- (of_byte_byte d), H. Qed.

Lemma eqb_byte c d : Ascii.eqb c d = (byte c =? byte d).
Proof.
  destruct (Ascii.eqb_spec c d) as [->|Hn]; [by rewrite Z.eqb_refl|]. symmetry. apply Z.eqb_neq. intros H. by apply Hn, byte_inj.
Qed.

Lemma append_plain c buf : append_rune (byte c) false buf = buf +s String c "".
Proof. unfold append_rune. rewrite orb_true_r. simpl. by rewrite of_byte_byte. Qed.

(** A printable character that is not quoted stands for itself. *)
Lemma UnquoteChar_plain c rest :
  printable c = true -> c <> double_quote -> c <> backslash -> UnquoteChar (String c rest) double_quote = Some (byte c, false, rest).
Proof.
  intros Hp Hq Hb. unfold UnquoteChar, printable in *. bool_props.
  apply Ascii.eqb_neq in Hq as ->, Hb as ->. replace (RuneSelf <=? byte c) with false; [done|]. symmetry. apply Z.leb_gt. unfold RuneSelf. lia.
Qed.

Lemma quote_body_cons c s : exists l,
  quote_body (String c s) = l +s quote_body s /\ forall fuel rest buf, printable c = true ->
    unquote_chars (S fuel) double_quote (l +s rest) buf = unquote_chars fuel double_quote rest (buf +s String c "").
Proof.
  assert (forall d, printable d = true -> Ascii.eqb d line_feed = false) as Hlf.
  { intros d Hd. rewrite eqb_byte. unfold printable in Hd. bool_props. apply Z.eqb_neq. change (byte line_feed) with 10. lia. }
  cbn [quote_body]. destruct (Nat.eqb_spec (nat_of_ascii c) 34) as [H34|H34]; [|destruct (Nat.eqb_spec (nat_of_ascii c) 92) as [H92|H92]].
  - exists (String backslash (String c "")). split; [done|]. intros fuel rest buf _.
    rewrite <- (ascii_nat_embedding c), H34. simpl. by rewrite <- append_plain.
  - exists (String backslash (String c "")). split; [done|]. intros fuel rest buf _.
    rewrite <- (ascii_nat_embedding c), H92. simpl. by rewrite <- append_plain.
  - exists (String c ""). split; [done|]. intros fuel rest buf Hp. change (String c "" +s rest) with (String c rest).
    assert (c <> double_quote) as Hq by (intros ->; by apply H34). cbn [unquote_chars]. 
    rewrite UnquoteChar_plain by (try done; intros ->; by apply H92). apply Ascii.eqb_neq in Hq as ->. rewrite (Hlf c Hp). by rewrite append_plain.
Qed.

Lemma unquote_body s fuel buf :
  all_chars printable s = true -> (String.length s < fuel)%nat ->
  unquote_chars fuel double_quote (quote_body s +s dquote) buf = Some (buf +s s, "").
Proof.
  revert fuel buf. induction s as [|c s IH]; intros fuel buf Hs Hf; (destruct fuel as [|fuel]; [simpl in Hf; lia|]); [simpl; by rewrite sapp_nil|].
  cbn [all_chars String.length] in *. bool_props. destruct (quote_body_cons c s) as (l & -> & Hl).
  rewrite sapp_assoc, Hl, IH by (done || lia). by rewrite sapp_assoc.
Qed.

Lemma quote_body_length s : (String.length s <= String.length (quote_body s))%nat.
Proof. induction s as [|c s IH]; simpl; [done|]. destruct (_ || _)%bool; simpl; lia. Qed.

Lemma length_sapp s t : String.length (s +s t) = (String.length s + String.length t)%nat.
Proof. induction s as [|c s IH]; simpl; [done|]. by f_equal. Qed.

Lemma Unquote_Quote s : all_chars printable s = true -> Unquote (Quote s) = Some s.
Proof.
  intros Hs. unfold Unquote, Quote. change (dquote +s quote_body s +s dquote) with (String double_quote (quote_body s +s dquote)).
  cbn [Ascii.eqb]. change (Ascii.eqb double_quote back_quote) with false. change (Ascii.eqb double_quote double_quote || Ascii.eqb double_quote single_quote)%bool with true. cbv iota.
  rewrite unquote_body; [done..|]. rewrite length_sapp. pose proof (quote_body_length s). simpl. lia.
Qed.
