(* ===== verification/Json.v ===== *)
(** * JSON (package encoding/json)

    What [json.Marshal], [json.MarshalIndent], [json.Unmarshal] and
    [json.Decoder] do with the values the program encodes and decodes: the
    encoder's escapes, the scanner's syntax, and how members find the fields of a
    struct. *)
From Stdlib Require Import Ascii.
From S2P Require Import Prelude GoLib Unquote.

(** A JSON value. Strings and keys are the bytes between their quotes, escapes
    and all; numbers are their text. *)
Inductive Value :=
  | VNull
  | VBool (b : bool)
  | VNumber (text : string)
  | VString (body : string)
  | VArray (elements : list Value)
  | VObject (members : list (string * Value)).

(** ** The encoder *)

Definition hex_digit (n : Z) : ascii := of_byte (if n <? 10 then 48 + n else 87 + n).

(** [safeSet] and [htmlSafeSet]: the ASCII bytes that stand for themselves. *)
Definition html_safe (b : Z) : bool :=
  (32 <=? b) && (b <? 128) && negb (existsb (Z.eqb b) [34; 38; 60; 62; 92]).

(** [appendString] of one ASCII byte, with HTML escaping. *)
Definition escape_byte (c : ascii) : string :=
  let b := byte c in
  if html_safe b then String c ""
  else
    String backslash
      (if (b =? 92) || (b =? 34) then String c ""
       else if b =? 8 then "b" else if b =? 12 then "f" else if b =? 10 then "n" else if b =? 13 then "r" else if b =? 9 then "t"
       else "u00" +s String (hex_digit (b / 16)) (String (hex_digit (b mod 16)) "")).

(** The first [n] bytes. *)
Fixpoint take_str (n : nat) (s : string) : string :=
  match n, s with S n, String c s => String c (take_str n s) | _, _ => "" end.

(** The body of an encoded string: every round consumes a byte at least. *)
Fixpoint escape_from (fuel : nat) (s : string) : string :=
  match fuel, s with
  | S fuel, String c rest =>
      if byte c <? RuneSelf then escape_byte c +s escape_from fuel rest
      else
        let '(r, n) := DecodeRune s in
        (if (r =? RuneError) && Nat.eqb n 1 then String backslash "ufffd"
         else if (r =? 8232) || (r =? 8233) then String backslash ("u202" +s String (hex_digit (Z.land r 15)) "")
         else take_str n s) +s escape_from fuel (drop_str n s)
  | _, _ => ""
  end.
Definition escape_string (s : string) : string := escape_from (String.length s) s.

Definition quoted_body (body : string) : string := String double_quote (body +s String double_quote "").

(** Members or elements between their brackets; [nl d] starts a line at depth
    [d] and [colon] follows a key. *)
Section Print.
Context (nl : nat -> string) (colon : string).

Fixpoint print_value (d : nat) (v : Value) : string :=
  match v with
  | VNull => "null"
  | VBool b => if b then "true" else "false"
  | VNumber text => text
  | VString body => quoted_body body
  | VArray [] => "[]"
  | VArray l =>
      "[" +s nl (S d) +s
      (fix go l := match l with [] => "" | [v] => print_value (S d) v | v :: l => print_value (S d) v +s "," +s nl (S d) +s go l end) l +s nl d +s "]"
  | VObject [] => "{}"
  | VObject l =>
      "{" +s nl (S d) +s
      (fix go l := match l with
        | [] => ""
        | [(k, v)] => quoted_body k +s colon +s print_value (S d) v
        | (k, v) :: l => quoted_body k +s colon +s print_value (S d) v +s "," +s nl (S d) +s go l
        end) l +s nl d +s "}"
  end.
End Print.

(** [json.Marshal], and [json.MarshalIndent] with no prefix and an indent of two blanks. *)
Definition compact_json : Value -> string := print_value (fun _ => "") ":" 0.
Definition indent_line (d : nat) : string := String line_feed (String.concat "" (repeat "  " d)).
Definition indented_json : Value -> string := print_value indent_line ": " 0.

Definition of_string (s : string) : Value := VString (escape_string s).
Definition of_int (n : Z) : Value := VNumber (pretty n).

(** ** The scanner *)

Definition is_ws (c : ascii) : bool := existsb (Z.eqb (byte c)) [32; 9; 13; 10].
Fixpoint skip_ws (s : string) : string :=
  match s with String c t => if is_ws c then skip_ws t else s | EmptyString => "" end.

Definition is_hex (c : ascii) : bool := match unhex c with Some _ => true | None => false end.

(** The body of a string, and what follows its closing quote. *)
Fixpoint string_body (s : string) : option (string * string) :=
  match s with
  | EmptyString => None
  | String c t =>
      if Ascii.eqb c double_quote then Some ("", t)
      else if Ascii.eqb c backslash then
        match t with
        | String e t' =>
            if existsb (Z.eqb (byte e)) [98; 102; 110; 114; 116; 92; 47; 34] then
              match string_body t' with Some (b, r) => Some (String c (String e b), r) | None => None end
            else if byte e =? 117 then
              match t' with
              | String h1 (String h2 (String h3 (String h4 t''))) =>
                  if is_hex h1 && is_hex h2 && is_hex h3 && is_hex h4 then
                    match string_body t'' with
                    | Some (b, r) => Some (String c (String e (String h1 (String h2 (String h3 (String h4 b))))), r)
                    | None => None
                    end
                  else None
              | _ => None
              end
            else None
        | EmptyString => None
        end
      else if byte c <? 32 then None
      else match string_body t with Some (b, r) => Some (String c b, r) | None => None end
  end.

Fixpoint scan_digits (s : string) : string * string :=
  match s with
  | String c t => if is_digit c then let '(d, r) := scan_digits t in (String c d, r) else ("", s)
  | EmptyString => ("", "")
  end.

(** An optional part of a number: [Some] of its text and the rest, or a syntax error. *)
Definition scan_fraction (s : string) : option (string * string) :=
  match s with
  | String c t =>
      if Ascii.eqb c "." then let '(d, r) := scan_digits t in if d ==s "" then None else Some (String c d, r)
      else Some ("", s)
  | EmptyString => Some ("", "")
  end.
Definition scan_exponent (s : string) : option (string * string) :=
  match s with
  | String c t =>
      if Ascii.eqb c "e" || Ascii.eqb c "E" then
        let '(sign, t) := match t with
          | String g t' => if Ascii.eqb g "+" || Ascii.eqb g "-" then (String g "", t') else ("", t)
          | EmptyString => ("", t)
          end in
        let '(d, r) := scan_digits t in if d ==s "" then None else Some (String c (sign +s d), r)
      else Some ("", s)
  | EmptyString => Some ("", "")
  end.

(** The digits before the fraction: a zero, or digits that do not start with one. *)
Definition scan_integer (s : string) : option (string * string) :=
  match s with
  | String c t =>
      if Ascii.eqb c "0" then Some ("0", t)
      else if is_digit c then Some (scan_digits s) else None
  | EmptyString => None
  end.

Definition scan_number (s : string) : option (string * string) :=
  let '(sign, s) := match s with
    | String c t => if Ascii.eqb c "-" then ("-", t) else ("", s)
    | EmptyString => ("", s)
    end in
  '(i, s) ← scan_integer s; '(f, s) ← scan_fraction s; '(e, s) ← scan_exponent s; Some (sign +s i +s f +s e, s).

Definition maxNestingDepth : Z := 10000.

(** A value, and what follows it. [depth] is that of the brackets around it;
    every two rounds consume a byte at least. *)
Fixpoint scan_value (fuel : nat) (depth : Z) (s : string) {struct fuel} : option (Value * string) :=
  match fuel with
  | O => None
  | S fuel =>
      match skip_ws s with
      | EmptyString => None
      | String c t =>
          if Ascii.eqb c double_quote then '(b, r) ← string_body t; Some (VString b, r)
          else if Ascii.eqb c "{" then
            if maxNestingDepth <? depth + 1 then None
            else match skip_ws t with
              | String c' r => if Ascii.eqb c' "}" then Some (VObject [], r) else '(l, r) ← scan_members fuel (depth + 1) t; Some (VObject l, r)
              | EmptyString => None
              end
          else if Ascii.eqb c "[" then
            if maxNestingDepth <? depth + 1 then None
            else match skip_ws t with
              | String c' r => if Ascii.eqb c' "]" then Some (VArray [], r) else '(l, r) ← scan_elements fuel (depth + 1) t; Some (VArray l, r)
              | EmptyString => None
              end
          else if HasPrefix (String c t) "true" then Some (VBool true, drop_str 4 (String c t))
          else if HasPrefix (String c t) "false" then Some (VBool false, drop_str 5 (String c t))
          else if HasPrefix (String c t) "null" then Some (VNull, drop_str 4 (String c t))
          else '(n, r) ← scan_number (String c t); Some (VNumber n, r)
      end
  end
with scan_members (fuel : nat) (depth : Z) (s : string) {struct fuel} : option (list (string * Value) * string) :=
  match fuel with
  | O => None
  | S fuel =>
      match skip_ws s with
      | String q s =>
          if Ascii.eqb q double_quote then
            '(k, s) ← string_body s;
            match skip_ws s with
            | String c s =>
                if Ascii.eqb c ":" then
                  '(v, s) ← scan_value fuel depth s;
                  match skip_ws s with
                  | String c s =>
                      if Ascii.eqb c "}" then Some ([(k, v)], s)
                      else if Ascii.eqb c "," then '(l, s) ← scan_members fuel depth s; Some ((k, v) :: l, s)
                      else None
                  | EmptyString => None
                  end
                else None
            | EmptyString => None
            end
          else None
      | EmptyString => None
      end
  end
with scan_elements (fuel : nat) (depth : Z) (s : string) {struct fuel} : option (list Value * string) :=
  match fuel with
  | O => None
  | S fuel =>
      '(v, s) ← scan_value fuel depth s;
      match skip_ws s with
      | String c s =>
          if Ascii.eqb c "]" then Some ([v], s)
          else if Ascii.eqb c "," then '(l, s) ← scan_elements fuel depth s; Some (v :: l, s)
          else None
      | EmptyString => None
      end
  end.

(** The first value of a text: what a [json.Decoder] reads next. *)
Definition first_value (s : string) : option (Value * string) := scan_value (2 * String.length s + 1) 0 s.

(** [checkValid]: the text is one value. *)
Definition parse_json (s : string) : option Value :=
  '(v, rest) ← first_value s; if skip_ws rest ==s "" then Some v else None.

(** ** The decoder *)

Definition getu4 (s : string) : option Z :=
  match s with
  | String b (String u t) => if Ascii.eqb b backslash && (byte u =? 117) then fst <$> escape_digits unhex 16 4 0 t else None
  | _ => None
  end.

Definition is_surrogate (r : Z) : bool := (55296 <=? r) && (r <? 57344).

(** [utf16.DecodeRune] *)
Definition surrogate_pair (r1 r2 : Z) : option Z :=
  if (55296 <=? r1) && (r1 <? 56320) && (56320 <=? r2) && (r2 <? 57344) then Some ((r1 - 55296) * 1024 + (r2 - 56320) + 65536) else None.

(** A byte after a backslash. *)
Definition unescape (b : Z) : Z :=
  if b =? 98 then 8 else if b =? 102 then 12 else if b =? 110 then 10 else if b =? 114 then 13 else if b =? 116 then 9 else b.

(** [unquoteBytes] on a body the scanner accepted; every round consumes a byte. *)
Fixpoint unquote_from (fuel : nat) (s : string) : string :=
  match fuel, s with
  | S fuel, String c t =>
      if Ascii.eqb c backslash then
        match getu4 s with
        | Some r =>
            let rest := drop_str 6 s in
            if is_surrogate r then
              match getu4 rest ≫= surrogate_pair r with
              | Some r' => EncodeRune r' +s unquote_from fuel (drop_str 6 rest)
              | None => EncodeRune RuneError +s unquote_from fuel rest
              end
            else EncodeRune r +s unquote_from fuel rest
        | None =>
            match t with
            | String e t => String (of_byte (unescape (byte e))) (unquote_from fuel t)
            | EmptyString => ""
            end
        end
      else if byte c <? RuneSelf then String c (unquote_from fuel t)
      else let '(r, n) := DecodeRune s in EncodeRune r +s unquote_from fuel (drop_str n s)
  | _, _ => ""
  end.
Definition unquote (body : string) : string := unquote_from (String.length body) body.

(** [foldName], as far as ASCII names can tell. *)
Fixpoint fold_from (fuel : nat) (s : string) : string :=
  match fuel, s with
  | S fuel, String c t =>
      if byte c <? RuneSelf then String (if (97 <=? byte c) && (byte c <=? 122) then of_byte (byte c - 32) else c) (fold_from fuel t)
      else
        let '(r, n) := DecodeRune s in
        (if r =? 383 then "S" else if r =? 8490 then "K" else EncodeRune r) +s fold_from fuel (drop_str n s)
  | _, _ => ""
  end.
Definition foldName (s : string) : string := fold_from (String.length s) s.

(** A decoder takes a value and what the target holds; [None] is an error. *)
Definition Decode (A : Type) : Type := Value -> A -> option A.

Definition into_string : Decode string := fun v cur =>
  match v with VNull => Some cur | VString b => Some (unquote b) | _ => None end.
Definition into_int (lo hi : Z) : Decode Z := fun v cur =>
  match v with
  | VNull => Some cur
  | VNumber text => n ← Atoi text; if (lo <=? n) && (n <=? hi) then Some n else None
  | _ => None
  end.
Definition into_int32 : Decode Z := into_int (- 2 ^ 31) (2 ^ 31 - 1).
Definition into_int64 : Decode Z := into_int int64_min int64_max.
(** [Time.UnmarshalJSON], which reads the body as it stands. *)
Definition into_time : Decode Z := fun v cur =>
  match v with VNull => Some cur | VString b => ParseRFC3339 b | _ => None end.

(** A struct's fields: each one's name and decoder. *)
Section Struct.
Context {A : Type} (fields : list (string * Decode A)).

Definition field_of (key : string) : option (Decode A) :=
  match List.find (fun f => fst f ==s key) fields with
  | Some f => Some (snd f)
  | None => snd <$> List.find (fun f => foldName (fst f) ==s foldName key) fields
  end.

Fixpoint into_fields (l : list (string * Value)) (cur : A) : option A :=
  match l with
  | [] => Some cur
  | (k, v) :: l =>
      match field_of (unquote k) with
      | Some decode => cur ← decode v cur; into_fields l cur
      | None => into_fields l cur
      end
  end.

Definition into_struct : Decode A := fun v cur =>
  match v with VNull => Some cur | VObject l => into_fields l cur | _ => None end.
End Struct.

(** A map with string keys; each value is decoded into a fresh element. *)
Section Map.
Context {A : Type} (zero : A) (decode : Decode A).

Fixpoint into_entries (l : list (string * Value)) (m : gmap string A) : option (gmap string A) :=
  match l with
  | [] => Some m
  | (k, v) :: l => x ← decode v zero; into_entries l (<[unquote k := x]> m)
  end.

Definition into_map : Decode (gmap string A) := fun v m =>
  match v with VNull => Some ∅ | VObject l => into_entries l m | _ => None end.
End Map.

(** A slice: the elements written to its array, and its length. An element is
    decoded over what the array holds there. *)
Record Slice (A : Type) := mkSlice { sl_array : list A; sl_len : nat }.
Arguments mkSlice {A}.
Arguments sl_array {A}.
Arguments sl_len {A}.
Definition nil_slice {A} : Slice A := mkSlice [] 0.
Definition slice_contents {A} (s : Slice A) : list A := firstn (sl_len s) (sl_array s).

Section Slice.
Context {A : Type} (zero : A) (decode : Decode A).

Fixpoint into_elements (l : list Value) (array : list A) : option (list A) :=
  match l with
  | [] => Some array
  | v :: l => x ← decode v (List.hd zero array); rest ← into_elements l (List.tl array); Some (x :: rest)
  end.

Definition into_slice : Decode (Slice A) := fun v s =>
  match v with
  | VNull | VArray [] => Some nil_slice
  | VArray l => array ← into_elements l (sl_array s); Some (mkSlice array (length l))
  | _ => None
  end.
End Slice.

(** [json.Unmarshal] and [Decoder.Decode], into a zero value. *)
Definition unmarshal {A} (decode : Decode A) (zero : A) (s : string) : option A := v ← parse_json s; decode v zero.
Definition decode_next {A} (decode : Decode A) (zero : A) (s : string) : option A := '(v, _) ← first_value s; decode v zero.
