(* ===== verification/JsonLaws.v ===== *)
(** * What is encoded is decoded

    Printing a JSON value and scanning it gives the value back, with and without
    indentation, and the decoder reads numbers, ASCII strings and times as they
    were written. *)
From Stdlib Require Import Ascii NArith.
From S2P Require Import Prelude GoLib TextLaws Paths Unquote Json.

(** ** Strings *)

Lemma sapp_cons c s t : String c s +s t = String c (s +s t).
Proof. done. Qed.
Lemma sapp_empty t : "" +s t = t.
Proof. done. Qed.

Definition is_ascii (c : ascii) : bool := byte c <? RuneSelf.
Definition ascii_text (s : string) : bool := all_chars is_ascii s.

Lemma forall_ascii (f : ascii -> bool) : forallb (fun n => f (ascii_of_nat n)) (seq 0 256) = true -> forall c, f c = true.
Proof.
  intros H c. rewrite <- (ascii_nat_embedding c). rewrite forallb_forall in H. apply H, in_seq. pose proof (nat_ascii_bounded c). lia.
Qed.

(** The escape of a byte, scanned and read back in front of [t]. *)
Definition scans (c : ascii) : bool :=
  match escape_byte c with
  | String a "" => (32 <=? byte a) && negb (Ascii.eqb a double_quote) && negb (Ascii.eqb a backslash) && Ascii.eqb a c
  | String b (String e "") => Ascii.eqb b backslash && existsb (Z.eqb (byte e)) [98; 102; 110; 114; 116; 92; 47; 34] && Ascii.eqb (of_byte (unescape (byte e))) c
  | String b (String u (String h1 (String h2 (String h3 (String h4 ""))))) =>
      Ascii.eqb b backslash && (byte u =? 117) && is_hex h1 && is_hex h2 && is_hex h3 && is_hex h4 &&
      match escape_digits unhex 16 4 0 (String h1 (String h2 (String h3 (String h4 "")))) with Some (v, _) => v =? byte c | None => false end
  | _ => false
  end.

Lemma ascii_scans : forall c, negb (is_ascii c) || scans c = true.
Proof. apply forall_ascii. vm_compute. reflexivity. Qed.

Lemma escape_from_ascii s fuel : ascii_text s = true -> (String.length s <= fuel)%nat ->
  escape_from fuel s = match s with EmptyString => "" | String c t => escape_byte c +s escape_from (pred fuel) t end.
Proof.
  destruct s as [|c s]; [by destruct fuel|]. destruct fuel as [|fuel]; simpl; [lia|]. unfold ascii_text. simpl.
  intros H _. apply andb_true_iff in H as [Hc _]. unfold is_ascii in Hc. by rewrite Hc.
Qed.

Ltac byte_props :=
  bool_props; repeat match goal with H : Ascii.eqb ?a _ = true |- _ => is_var a; apply Ascii.eqb_eq in H; subst a end.

Lemma existsb_hex (b : Z) : b = 117 -> existsb (Z.eqb b) [98; 102; 110; 114; 116; 92; 47; 34] = false.
Proof. by intros ->. Qed.

Lemma escape_scanned s fuel t : ascii_text s = true -> (String.length s <= fuel)%nat ->
  string_body (escape_from fuel s +s String double_quote t) = Some (escape_from fuel s, t).
Proof.
  revert fuel. induction s as [|c s IH]; intros fuel Hs Hf; [by destruct fuel|].
  rewrite escape_from_ascii by done. unfold ascii_text in Hs. simpl in Hs, Hf. apply andb_true_iff in Hs as [Hc Hs].
  specialize (IH (pred fuel) Hs ltac:(lia)). pose proof (ascii_scans c) as Hsc. rewrite Hc in Hsc. simpl in Hsc. unfold scans in Hsc.
  destruct (escape_byte c) as [|a [|e [|h1 [|h2 [|h3 [|h4 []]]]]]]; try done; byte_props.
  - rewrite !sapp_cons, ?sapp_empty; cbn [string_body]. repeat match goal with H : Ascii.eqb _ _ = false |- _ => rewrite H; clear H end.
    replace (byte c <? 32) with false by (symmetry; apply Z.ltb_ge; lia). by rewrite IH.
  - rewrite !sapp_cons, ?sapp_empty; cbn [string_body]. change (Ascii.eqb backslash double_quote) with false. rewrite Ascii.eqb_refl. cbv iota.
    match goal with H : existsb _ _ = true |- _ => rewrite H end. by rewrite IH.
  - rewrite !sapp_cons, ?sapp_empty; cbn [string_body]. change (Ascii.eqb backslash double_quote) with false. rewrite Ascii.eqb_refl. cbv iota.
    rewrite existsb_hex by done. repeat match goal with H : is_hex _ = true |- _ => rewrite H; clear H end.
    match goal with H : byte e = 117 |- _ => rewrite H end. simpl. by rewrite IH.
Qed.

(** The digits of an escape do not depend on what follows it. *)
Lemma escape_digits_app digit base n v s v' t : escape_digits digit base n v s = Some (v', "") -> escape_digits digit base n v (s +s t) = Some (v', t).
Proof.
  revert v s. induction n as [|n IH]; intros v s H; simpl in *; [by injection H as -> ->|].
  destruct s as [|c s]; [done|]. simpl. destruct (digit c); [by apply IH|done].
Qed.

Lemma unquote_from_escape s fuel n : ascii_text s = true -> (String.length s <= fuel)%nat -> (String.length (escape_from fuel s) <= n)%nat ->
  unquote_from n (escape_from fuel s) = s.
Proof.
  revert fuel n. induction s as [|c s IH]; intros fuel n Hs Hf Hn; [by destruct fuel, n|].
  rewrite escape_from_ascii in * by done. unfold ascii_text in Hs. simpl in Hs, Hf. apply andb_true_iff in Hs as [Hc Hs].
  pose proof (ascii_scans c) as Hsc. rewrite Hc in Hsc. simpl in Hsc. unfold scans in Hsc.
  pose proof (fun n => IH (pred fuel) n Hs ltac:(lia)) as IH'. clear IH.
  destruct n as [|n]; [destruct (escape_byte c); simpl in Hn; [done|lia]|].
  destruct (escape_byte c) as [|a [|e [|h1 [|h2 [|h3 [|h4 []]]]]]]; try done; rewrite ?sapp_cons, ?sapp_empty in *; byte_props; cbn [String.length] in Hn.
  - cbn [unquote_from]. repeat match goal with H : Ascii.eqb _ _ = false |- _ => rewrite H; clear H end.
    unfold is_ascii in Hc. rewrite Hc. f_equal. apply IH'. lia.
  - cbn [unquote_from]. rewrite Ascii.eqb_refl. unfold getu4. rewrite Ascii.eqb_refl.
    assert ((byte e =? 117) = false) as ->.
    { apply Z.eqb_neq. intros He. match goal with H : existsb _ _ = true |- _ => by rewrite existsb_hex in H end. }
    simpl andb. cbv iota. match goal with H : Ascii.eqb _ c = true |- _ => apply Ascii.eqb_eq in H; rewrite H end. f_equal. apply IH'. lia.
  - cbn [unquote_from]. rewrite Ascii.eqb_refl. unfold getu4. rewrite Ascii.eqb_refl.
    match goal with H : byte e = 117 |- _ => rewrite H end. simpl andb. cbv iota.
    destruct (escape_digits unhex 16 4 0 _) as [[v r]|] eqn:Hd; [|done]. bool_props. subst v.
    assert (r = "") as -> by (cbn [escape_digits] in Hd; repeat case_match; simplify_eq; done).
    change (String h1 (String h2 (String h3 (String h4 ?t)))) with (String h1 (String h2 (String h3 (String h4 ""))) +s t) at 1.
    rewrite (escape_digits_app _ _ _ _ _ _ _ Hd). simpl fst. cbv iota.
    unfold is_ascii, RuneSelf in Hc. bool_props. cbn [fmap option_fmap option_map fst].
    assert (is_surrogate (byte c) = false) as -> by (unfold is_surrogate; apply andb_false_iff; left; apply Z.leb_gt; lia).
    cbn [drop_str]. rewrite IH' by lia. unfold EncodeRune, ValidRune. assert (0 <= byte c) by (unfold byte; lia).
    replace (0 <=? byte c) with true by (symmetry; apply Z.leb_le; lia). replace (byte c <? 55296) with true by (symmetry; apply Z.ltb_lt; lia).
    simpl andb. simpl orb. cbv iota. replace (byte c <=? 127) with true by (symmetry; apply Z.leb_le; lia). simpl. by rewrite of_byte_byte.
Qed.

Lemma unquote_escape_text s : ascii_text s = true -> unquote (escape_string s) = s.
Proof. intros H. by apply unquote_from_escape. Qed.

(** ** Numbers *)

(** No character of a number comes first. *)
Definition ends_number (s : string) : bool :=
  match s with String c _ => negb (is_digit c || existsb (Z.eqb (byte c)) [46; 101; 69]) | EmptyString => true end.

Lemma digits_app ds t : all_chars is_digit ds = true -> ends_number t = true -> scan_digits (ds +s t) = (ds, t).
Proof.
  intros Hd Ht. induction ds as [|c ds IH]; simpl in *.
  - destruct t as [|c t]; [done|]. rewrite sapp_empty. cbn [scan_digits ends_number] in *. by destruct (is_digit c).
  - apply andb_true_iff in Hd as [Hc Hd]. by rewrite Hc, (IH Hd).
Qed.

Lemma no_fraction t : ends_number t = true -> scan_fraction t = Some ("", t) /\ scan_exponent t = Some ("", t).
Proof.
  destruct t as [|c t]; [done|]. cbn [ends_number scan_fraction scan_exponent]. intros H. apply negb_true_iff, orb_false_iff in H as [_ H]. simpl in H.
  assert (forall b, existsb (Z.eqb (byte c)) [46; 101; 69] = false -> In b [46; 101; 69] -> Ascii.eqb c (of_byte b) = false) as Hn.
  { intros b He Hb. apply Ascii.eqb_neq. intros ->. destruct Hb as [<-|[<-|[<-|[]]]]; discriminate He. }
  change "."%char with (of_byte 46). change "e"%char with (of_byte 101). change "E"%char with (of_byte 69).
  rewrite !Hn by (done || simpl; auto). done.
Qed.

Lemma number_pretty (z : Z) t : ends_number t = true -> scan_number (pretty z +s t) = Some (pretty z, t).
Proof.
  intros Ht. destruct (no_fraction t Ht) as [Hf He]. destruct z as [|p|p].
  - change (pretty 0) with "0". rewrite sapp_cons. unfold scan_number, scan_integer. simpl. rewrite sapp_empty, Hf. simpl. by rewrite He.
  - destruct (pretty_pos p) as (c & ds & Hc & H0 & Hds & _ & -> & _). rewrite sapp_cons. unfold scan_number, scan_integer.
    destruct (digit_no_sign c Hc) as [-> _]. rewrite H0, Hc. rewrite <- sapp_cons, digits_app by (simpl; by rewrite ?Hc). simpl. rewrite Hf. simpl. rewrite He. simpl.
    by rewrite !sapp_nil.
  - destruct (pretty_pos p) as (c & ds & Hc & H0 & Hds & _ & _ & ->). rewrite !sapp_cons. unfold scan_number, scan_integer.
    rewrite Ascii.eqb_refl, H0, Hc. rewrite <- sapp_cons, digits_app by (simpl; by rewrite ?Hc). simpl. rewrite Hf. simpl. rewrite He. simpl.
    by rewrite !sapp_nil.
Qed.

Lemma into_int_pretty lo hi z cur : is_int64 z -> lo <= z <= hi -> into_int lo hi (of_int z) cur = Some z.
Proof.
  intros Hz [Hlo Hhi]. unfold into_int, of_int. rewrite Atoi_pretty by done. simpl. apply Z.leb_le in Hlo as ->, Hhi as ->. done.
Qed.

Lemma into_string_text s cur : ascii_text s = true -> into_string (of_string s) cur = Some s.
Proof. intros H. cbn [into_string of_string]. by rewrite unquote_escape_text. Qed.

(** ** Values *)

(** Bodies that are scanned whole, numbers that are. *)
Definition body_ok (b : string) : Prop := forall t, string_body (b +s String double_quote t) = Some (b, t).
Definition number_ok (n : string) : Prop :=
  (forall t, ends_number t = true -> scan_number (n +s t) = Some (n, t)) /\
  match n with String c _ => is_digit c || Ascii.eqb c "-" = true | EmptyString => False end.

Fixpoint scannable (v : Value) : Prop :=
  match v with
  | VNull | VBool _ => True
  | VNumber n => number_ok n
  | VString b => body_ok b
  | VArray l => (fix go l := match l with [] => True | v :: l => scannable v /\ go l end) l
  | VObject l => (fix go l := match l with [] => True | (k, v) :: l => body_ok k /\ scannable v /\ go l end) l
  end.

Fixpoint height (v : Value) : Z :=
  match v with
  | VArray l => 1 + (fix go l := match l with [] => 0 | v :: l => Z.max (height v) (go l) end) l
  | VObject l => 1 + (fix go l := match l with [] => 0 | (_, v) :: l => Z.max (height v) (go l) end) l
  | _ => 0
  end.

Lemma escape_ok s : ascii_text s = true -> body_ok (escape_string s).
Proof. intros H t. by apply escape_scanned. Qed.

Lemma pretty_number_ok (z : Z) : number_ok (pretty z).
Proof.
  split; [intros t; apply number_pretty|]. destruct z as [|p|p]; [done| |]; destruct (pretty_pos p) as (c & ds & Hc & _ & _ & _ & Hp & Hn).
  - by rewrite Hp, Hc.
  - by rewrite Hn.
Qed.

(** Induction on the elements and members as well. *)
Section ValueInd.
Context (P : Value -> Prop) (Pnull : P VNull) (Pbool : forall b, P (VBool b)) (Pnumber : forall n, P (VNumber n)) (Pstring : forall b, P (VString b))
  (Parray : forall l, Forall P l -> P (VArray l)) (Pobject : forall l, Forall (fun kv => P (snd kv)) l -> P (VObject l)).

Fixpoint Value_rect_nested (v : Value) : P v :=
  match v with
  | VNull => Pnull
  | VBool b => Pbool b
  | VNumber n => Pnumber n
  | VString b => Pstring b
  | VArray l => Parray l ((fix go l : Forall P l := match l with [] => Forall_nil_2 _ | v :: l => Forall_cons_2 _ _ _ (Value_rect_nested v) (go l) end) l)
  | VObject l => Pobject l ((fix go l : Forall (fun kv => P (snd kv)) l :=
      match l with [] => Forall_nil_2 _ | (k, v) :: l => Forall_cons_2 _ (k, v) _ (Value_rect_nested v) (go l) end) l)
  end.
End ValueInd.

Lemma skip_ws_app w t : all_chars is_ws w = true -> skip_ws (w +s t) = skip_ws t.
Proof. induction w as [|c w IH]; [done|]. simpl. intros H. apply andb_true_iff in H as [Hc Hw]. by rewrite Hc, IH. Qed.

Section Print.
Context (nl : nat -> string) (colon : string) (blank : string).
Context (Hnl : forall d, all_chars is_ws (nl d) = true) (Hcolon : colon = String ":" blank) (Hblank : all_chars is_ws blank = true).

Abbreviation put := (print_value nl colon).

(** The elements and the members between their brackets. *)
Definition put_elements (d : nat) : list Value -> string :=
  fix go l := match l with [] => "" | [v] => put (S d) v | v :: l => put (S d) v +s "," +s nl (S d) +s go l end.
Definition put_members (d : nat) : list (string * Value) -> string :=
  fix go l := match l with
    | [] => ""
    | [(k, v)] => quoted_body k +s colon +s put (S d) v
    | (k, v) :: l => quoted_body k +s colon +s put (S d) v +s "," +s nl (S d) +s go l
    end.

Lemma put_array d l : l <> [] -> put d (VArray l) = String "[" (nl (S d) +s put_elements d l +s nl d +s "]").
Proof. by destruct l. Qed.
Lemma put_object d l : l <> [] -> put d (VObject l) = String "{" (nl (S d) +s put_members d l +s nl d +s "}").
Proof. by destruct l. Qed.

(** What follows a value when it is printed does not continue a number. *)
Lemma ws_ends w t : all_chars is_ws w = true -> ends_number t = true -> ends_number (w +s t) = true.
Proof.
  destruct w as [|c w]; [done|]. simpl. intros H Ht. apply andb_true_iff in H as [Hc _]. revert Hc.
  assert (forall c, negb (is_ws c) || negb (is_digit c || existsb (Z.eqb (byte c)) [46; 101; 69]) = true) as Ha by (apply forall_ascii; vm_compute; reflexivity).
  specialize (Ha c). destruct (is_ws c); [|done]. intros _. exact Ha.
Qed.

(** The first character of a value starts it, and is not white space. *)
Definition opens (s : string) : Prop :=
  match s with String c _ => is_ws c = false /\ Ascii.eqb c "]" = false /\ Ascii.eqb c "}" = false | EmptyString => False end.

Lemma opens_app s t : opens s -> opens (s +s t) /\ skip_ws (s +s t) = s +s t.
Proof. destruct s as [|c s]; [done|]. simpl. intros (Hc & Hb). by rewrite Hc. Qed.

Lemma number_first c : is_digit c || Ascii.eqb c "-" = true ->
  is_ws c = false /\ Ascii.eqb c "]" = false /\ Ascii.eqb c "}" = false /\ Ascii.eqb c "{" = false /\ Ascii.eqb c "[" = false /\
  Ascii.eqb c double_quote = false /\ Ascii.eqb c "t" = false /\ Ascii.eqb c "f" = false /\ Ascii.eqb c "n" = false.
Proof.
  intros Hc. assert (forall c, negb (is_digit c || Ascii.eqb c "-") || (negb (is_ws c) && negb (Ascii.eqb c "]") && negb (Ascii.eqb c "}") &&
    negb (Ascii.eqb c "{") && negb (Ascii.eqb c "[") && negb (Ascii.eqb c double_quote) && negb (Ascii.eqb c "t") && negb (Ascii.eqb c "f") && negb (Ascii.eqb c "n")) = true) as Ha
    by (apply forall_ascii; vm_compute; reflexivity).
  specialize (Ha c). rewrite Hc in Ha. simpl in Ha. bool_props. by split_and!.
Qed.

Lemma put_opens d v : scannable v -> opens (put d v).
Proof.
  destruct v as [|[]|n|b|[|? ?]|[|? ?]]; simpl; try done. intros [_ Hn]. destruct n as [|c n]; [done|].
  apply number_first in Hn. simpl. by destruct Hn as (? & ? & ? & _).
Qed.

(** A printed value is scanned back, in front of anything that does not continue it. *)
Definition scanned (v : Value) : Prop := forall d depth fuel t,
  scannable v -> depth + height v <= maxNestingDepth -> ends_number t = true -> (2 * String.length (put d v) < fuel)%nat ->
  scan_value fuel depth (put d v +s t) = Some (v, t).

Definition max_height (l : list Value) : Z := fold_right (fun v h => Z.max (height v) h) 0 l.
Lemma height_array l : height (VArray l) = 1 + max_height l.
Proof. cbn [height]. apply f_equal. induction l as [|v l IH]; simpl; [done|]. by rewrite <- IH. Qed.
Lemma height_object l : height (VObject l) = 1 + max_height (map snd l).
Proof. cbn [height]. apply f_equal. induction l as [|[k v] l IH]; simpl; [done|]. by rewrite <- IH. Qed.
Lemma max_height_pos l : 0 <= max_height l.
Proof. induction l; simpl; lia. Qed.
Lemma scannable_array l : scannable (VArray l) <-> Forall scannable l.
Proof. simpl. induction l as [|v l IH]; [by split|]. by rewrite Forall_cons, <- IH. Qed.
Lemma scannable_object l : scannable (VObject l) <-> Forall (fun kv => body_ok (fst kv) /\ scannable (snd kv)) l.
Proof. simpl. induction l as [|[k v] l IH]; [by split|]. rewrite Forall_cons, <- IH. simpl. tauto. Qed.

(** White space in front of a value, an element or a member is skipped. *)
Lemma value_ws fuel depth w s : all_chars is_ws w = true -> scan_value fuel depth (w +s s) = scan_value fuel depth s.
Proof. intros H. destruct fuel as [|fuel]; [done|]. cbn [scan_value]. by rewrite skip_ws_app. Qed.
Lemma elements_ws fuel depth w s : all_chars is_ws w = true -> scan_elements fuel depth (w +s s) = scan_elements fuel depth s.
Proof. intros H. destruct fuel as [|fuel]; [done|]. cbn [scan_elements]. by rewrite value_ws. Qed.
Lemma members_ws fuel depth w s : all_chars is_ws w = true -> scan_members fuel depth (w +s s) = scan_members fuel depth s.
Proof. intros H. destruct fuel as [|fuel]; [done|]. cbn [scan_members]. by rewrite skip_ws_app. Qed.

(** Elements, then white space and their bracket. *)
Lemma elements_scanned l d depth fuel w t :
  Forall scanned l -> Forall scannable l -> l <> [] -> depth + max_height l <= maxNestingDepth -> all_chars is_ws w = true ->
  (2 * String.length (put_elements d l) + 1 < fuel)%nat ->
  scan_elements fuel depth (put_elements d l +s w +s String "]" t) = Some (l, t).
Proof.
  revert fuel. induction l as [|v l IH]; intros fuel Hl Hok Hne Hd Hw Hf; [done|]. apply Forall_cons in Hl as [Hv Hl], Hok as [Hokv Hok].
  destruct fuel as [|fuel]; [lia|]. simpl in Hd. pose proof (max_height_pos l). cbn [scan_elements]. destruct l as [|v' l].
  - cbn [put_elements] in *. rewrite Hv; [|done|lia|by apply ws_ends|lia]. cbn [mbind option_bind]. by rewrite skip_ws_app.
  - change (put_elements d (v :: v' :: l)) with (put (S d) v +s "," +s nl (S d) +s put_elements d (v' :: l)) in *.
    rewrite !length_sapp in Hf. cbn [String.length] in Hf. rewrite !sapp_assoc.
    rewrite Hv; [|done|lia|done|lia]. cbn [mbind option_bind]. change ("," +s ?x) with (String "," x). cbn [skip_ws].
    change (is_ws ",") with false. cbv iota. change (Ascii.eqb "," "]") with false. change (Ascii.eqb "," ",") with true. cbv iota.
    by rewrite elements_ws, IH by (done || lia).
Qed.

Lemma members_scanned l d depth fuel w t :
  Forall (fun kv => scanned (snd kv)) l -> Forall (fun kv => body_ok (fst kv) /\ scannable (snd kv)) l -> l <> [] ->
  depth + max_height (map snd l) <= maxNestingDepth -> all_chars is_ws w = true -> (2 * String.length (put_members d l) < fuel)%nat ->
  scan_members fuel depth (put_members d l +s w +s String "}" t) = Some (l, t).
Proof.
  revert fuel. induction l as [|[k v] l IH]; intros fuel Hl Hok Hne Hd Hw Hf; [done|]. apply Forall_cons in Hl as [Hv Hl], Hok as [[Hk Hokv] Hok].
  destruct fuel as [|fuel]; [lia|]. simpl in Hd, Hv, Hk, Hokv. pose proof (max_height_pos (map snd l)). cbn [scan_members].
  assert (forall s, skip_ws (quoted_body k +s s) = quoted_body k +s s) as Hq by done.
  assert (forall s, string_body ((k +s String double_quote "") +s s) = Some (k, s)) as Hb by (intros s; rewrite sapp_assoc; apply Hk).
  assert (forall s, skip_ws (colon +s s) = String ":" (blank +s s)) as Hc by (intros s; by rewrite Hcolon).
  destruct l as [|kv' l].
  - change (put_members d [(k, v)]) with (quoted_body k +s colon +s put (S d) v) in *. rewrite !length_sapp in Hf.
    rewrite !sapp_assoc, Hq. unfold quoted_body at 1. rewrite sapp_cons, Ascii.eqb_refl, Hb. cbn [mbind option_bind]. rewrite Hc.
    change (Ascii.eqb ":" ":") with true. cbv iota. rewrite value_ws by done. rewrite Hv; [|done|lia|by apply ws_ends|unfold quoted_body in Hf; simpl in Hf; lia].
    cbn [mbind option_bind]. by rewrite skip_ws_app.
  - change (put_members d ((k, v) :: kv' :: l)) with (quoted_body k +s colon +s put (S d) v +s "," +s nl (S d) +s put_members d (kv' :: l)) in *.
    rewrite !length_sapp in Hf. unfold quoted_body in Hf. cbn [String.length] in Hf.
    rewrite !sapp_assoc, Hq. unfold quoted_body at 1. rewrite sapp_cons, Ascii.eqb_refl, Hb. cbn [mbind option_bind]. rewrite Hc.
    change (Ascii.eqb ":" ":") with true. cbv iota. rewrite value_ws by done. rewrite Hv; [|done|lia|done|lia].
    cbn [mbind option_bind]. change ("," +s ?x) with (String "," x). cbn [skip_ws].
    change (is_ws ",") with false. cbv iota. change (Ascii.eqb "," "}") with false. change (Ascii.eqb "," ",") with true. cbv iota.
    by rewrite members_ws, IH by (done || lia).
Qed.

Lemma elements_open d v l t : scannable v -> exists c r, skip_ws (put_elements d (v :: l) +s t) = String c r /\ Ascii.eqb c "]" = false.
Proof.
  intros Hv. pose proof (put_opens (S d) v Hv) as Ho.
  assert (exists t', put_elements d (v :: l) +s t = put (S d) v +s t') as [t' ->].
  { destruct l as [|v' l]; [by eexists|]. change (put_elements d (v :: v' :: l)) with (put (S d) v +s "," +s nl (S d) +s put_elements d (v' :: l)).
    rewrite !sapp_assoc. by eexists. }
  rewrite (proj2 (opens_app _ t' Ho)). destruct (put (S d) v) as [|c r]; [done|]. exists c, (r +s t'). split; [done|]. apply Ho.
Qed.

Lemma members_open d kv l t : exists r, skip_ws (put_members d (kv :: l) +s t) = String double_quote r.
Proof.
  destruct kv as [k v]. destruct l as [|kv' l].
  - change (put_members d [(k, v)]) with (quoted_body k +s colon +s put (S d) v). unfold quoted_body. rewrite sapp_cons. by eexists.
  - change (put_members d ((k, v) :: kv' :: l)) with (quoted_body k +s colon +s put (S d) v +s "," +s nl (S d) +s put_members d (kv' :: l)).
    unfold quoted_body. rewrite sapp_cons. by eexists.
Qed.

Lemma value_scanned v : scanned v.
Proof.
  induction v as [|b|n|b|l IH|l IH] using Value_rect_nested; intros d depth fuel t Hok Hd Ht Hf; (destruct fuel as [|fuel]; [lia|]).
  - change (scan_value (S fuel) depth (put d VNull +s t)) with (if HasPrefix ("null" +s t) "null" then Some (VNull, t) else '(n, r) ← scan_number ("null" +s t); Some (VNumber n, r)).
    by rewrite prefix_app.
  - destruct b.
    + change (scan_value (S fuel) depth (put d (VBool true) +s t)) with (if HasPrefix ("true" +s t) "true" then Some (VBool true, t) else
        if HasPrefix ("true" +s t) "false" then Some (VBool false, drop_str 5 ("true" +s t)) else
        if HasPrefix ("true" +s t) "null" then Some (VNull, drop_str 4 ("true" +s t)) else '(n, r) ← scan_number ("true" +s t); Some (VNumber n, r)).
      by rewrite prefix_app.
    + change (scan_value (S fuel) depth (put d (VBool false) +s t)) with (if HasPrefix ("false" +s t) "false" then Some (VBool false, t) else
        if HasPrefix ("false" +s t) "null" then Some (VNull, drop_str 4 ("false" +s t)) else '(n, r) ← scan_number ("false" +s t); Some (VNumber n, r)).
      by rewrite prefix_app.
  - destruct Hok as [Hn Hc]. simpl put. destruct n as [|c n]; [done|]. specialize (Hn t Ht). rewrite sapp_cons in *.
    apply number_first in Hc as (Hw & _ & _ & Ho & Ha & Hq & Ht' & Hf' & Hn'). cbn [scan_value skip_ws]. rewrite Hw, Hq, Ho, Ha.
    unfold HasPrefix. cbn [String.prefix]. 
    repeat match goal with |- context [ascii_dec ?a ?b] => destruct (ascii_dec a b) as [e|_]; [subst; done|] end. by rewrite Hn.
  - change (put d (VString b)) with (quoted_body b). unfold quoted_body. rewrite sapp_cons. cbn [scan_value skip_ws].
    change (is_ws double_quote) with false. cbv iota. rewrite Ascii.eqb_refl, sapp_assoc. change (String double_quote "" +s t) with (String double_quote t). by rewrite Hok.
  - destruct l as [|v l]; [cbn [scan_value put skip_ws]; simpl height in Hd; simpl; replace (maxNestingDepth <? depth + 1) with false by (symmetry; apply Z.ltb_ge; lia); done|].
    rewrite put_array in * by done. rewrite height_array in Hd. apply scannable_array in Hok. pose proof (max_height_pos (v :: l)).
    cbn [String.length] in Hf. rewrite !length_sapp in Hf. cbn [String.length] in Hf.
    rewrite sapp_cons, !sapp_assoc. cbn [scan_value skip_ws]. change (is_ws "[") with false. cbv iota.
    change (Ascii.eqb "[" double_quote) with false. change (Ascii.eqb "[" "{") with false. change (Ascii.eqb "[" "[") with true. cbv iota.
    replace (maxNestingDepth <? depth + 1) with false by (symmetry; apply Z.ltb_ge; lia).
    rewrite elements_ws by done. change ("]" +s t) with (String "]" t). rewrite elements_scanned; [|done|done|done|lia|done|lia].
    rewrite skip_ws_app by done. apply Forall_cons in Hok as [Hv _]. by destruct (elements_open d v l (nl d +s String "]" t) Hv) as (c & r & -> & ->).
  - destruct l as [|kv l]; [cbn [scan_value put skip_ws]; simpl height in Hd; simpl; replace (maxNestingDepth <? depth + 1) with false by (symmetry; apply Z.ltb_ge; lia); done|].
    rewrite put_object in * by done. rewrite height_object in Hd. apply scannable_object in Hok. pose proof (max_height_pos (map snd (kv :: l))).
    cbn [String.length] in Hf. rewrite !length_sapp in Hf. cbn [String.length] in Hf.
    rewrite sapp_cons, !sapp_assoc. cbn [scan_value skip_ws]. change (is_ws "{") with false. cbv iota.
    change (Ascii.eqb "{" double_quote) with false. change (Ascii.eqb "{" "{") with true. cbv iota.
    replace (maxNestingDepth <? depth + 1) with false by (symmetry; apply Z.ltb_ge; lia).
    rewrite members_ws by done. change ("}" +s t) with (String "}" t). rewrite members_scanned; [|done|done|done|lia|done|lia].
    rewrite skip_ws_app by done. by destruct (members_open d kv l (nl d +s String "}" t)) as (r & ->).
Qed.
End Print.

(** ** Texts *)

(** Scanning what was printed gives the value back. *)
Theorem parse_print nl colon blank v :
  (forall d, all_chars is_ws (nl d) = true) -> colon = String ":" blank -> all_chars is_ws blank = true ->
  scannable v -> height v <= maxNestingDepth -> parse_json (print_value nl colon 0 v) = Some v.
Proof.
  intros Hnl Hc Hb Hv Hh. unfold parse_json, first_value. rewrite <- (sapp_nil (print_value nl colon 0 v)) at 2.
  rewrite (value_scanned nl colon blank Hnl Hc Hb v 0%nat 0) by (done || lia). done.
Qed.

Lemma indent_ws d : all_chars is_ws (indent_line d) = true.
Proof. unfold indent_line. simpl. induction d as [|d IH]; [done|]. destruct d; [done|]. exact IH. Qed.

Lemma parse_compact v : scannable v -> height v <= maxNestingDepth -> parse_json (compact_json v) = Some v.
Proof. intros. by apply (parse_print _ _ ""). Qed.
Lemma parse_indented v : scannable v -> height v <= maxNestingDepth -> parse_json (indented_json v) = Some v.
Proof. intros. apply (parse_print _ _ " "); [apply indent_ws|done..]. Qed.

(** ** Fuel *)

Abbreviation len := String.length.

Lemma skip_ws_len s : (len (skip_ws s) <= len s)%nat.
Proof. induction s as [|c s IH]; simpl; [lia|]. destruct (is_ws c); simpl; lia. Qed.

Lemma string_body_len s b r : string_body s = Some (b, r) -> (len r < len s)%nat.
Proof.
  assert (forall n s b r, (len s <= n)%nat -> string_body s = Some (b, r) -> (len r < len s)%nat) as H; [|by apply (H (len s))].
  clear. induction n as [|n IH]; intros s b r Hn H; (destruct s as [|c s]; [done|]); simpl in Hn; [lia|]. cbn [string_body] in H.
  repeat case_match; simplify_eq; simpl in *; try lia;
    match goal with H : string_body ?x = Some _ |- _ => apply IH in H; simpl in *; lia end.
Qed.

Lemma digits_len s d r : scan_digits s = (d, r) -> (len d + len r = len s)%nat.
Proof.
  revert d r. induction s as [|c s IH]; intros d r H; cbn [scan_digits] in H; [by injection H as <- <-|].
  destruct (is_digit c); [|by injection H as <- <-]. destruct (scan_digits s) as [d' r']. injection H as <- <-. simpl. by rewrite (IH d' r').
Qed.

Lemma drop_str_len n s : (len (drop_str n s) <= len s)%nat.
Proof. revert s. induction n as [|n IH]; intros [|c s]; simpl; try lia. specialize (IH s). lia. Qed.

Lemma number_len s n r : scan_number s = Some (n, r) -> (len r < len s)%nat.
Proof.
  assert (forall s f r, scan_fraction s = Some (f, r) -> (len r <= len s)%nat) as Hf.
  { clear. intros [|c s] f r H; cbn [scan_fraction] in H; [by injection H as <- <-|]. destruct (scan_digits s) as [d r'] eqn:Hd. apply digits_len in Hd.
    repeat case_match; simplify_eq; simpl; lia. }
  assert (forall s f r, scan_exponent s = Some (f, r) -> (len r <= len s)%nat) as He.
  { clear. intros [|c s] f r H; cbn [scan_exponent] in H; [by injection H as <- <-|].
    assert (forall sign t, (let '(d, r) := scan_digits t in if d ==s "" then None else Some (String c (sign +s d), r)) = Some (f, r) -> (len r <= len t)%nat) as Hd.
    { intros sign t Ht. destruct (scan_digits t) as [d r'] eqn:Hd. apply digits_len in Hd. destruct (d ==s ""); [done|]. injection Ht as <- <-. lia. }
    destruct (_ || _); [|injection H as <- <-; simpl; lia]. destruct s as [|g s]; [apply Hd in H; simpl in *; lia|].
    destruct (_ || _); apply Hd in H; simpl in *; lia. }
  assert (forall s f r, scan_integer s = Some (f, r) -> (len r < len s)%nat) as Hi.
  { clear. intros [|c s] f r H; cbn [scan_integer] in H; [done|]. destruct (Ascii.eqb c "0"); [injection H as <- <-; simpl; lia|].
    destruct (is_digit c) eqn:Hc; [|done]. injection H as H. cbn [scan_digits] in H. rewrite Hc in H. destruct (scan_digits s) as [d r'] eqn:Hd. apply digits_len in Hd.
    simplify_eq. simpl. lia. }
  unfold scan_number. intros H. destruct (match s with String c t => if Ascii.eqb c "-" then ("-", t) else ("", s) | EmptyString => ("", s) end) as [sg s0] eqn:Hs.
  assert (len s0 <= len s)%nat by (destruct s; [|destruct (Ascii.eqb _ _)]; simplify_eq; simpl; lia).
  destruct (scan_integer s0) as [[i s1]|] eqn:E1; [|done]. cbn [mbind option_bind] in H. destruct (scan_fraction s1) as [[f s2]|] eqn:E2; [|done]. cbn [mbind option_bind] in H.
  destruct (scan_exponent s2) as [[e s3]|] eqn:E3; [|done]. cbn [mbind option_bind] in H. simplify_eq. apply Hi in E1. apply Hf in E2. apply He in E3. lia.
Qed.

(** What is scanned is consumed. *)
Lemma consumed_len fuel :
  (forall depth s v r, scan_value fuel depth s = Some (v, r) -> (len r < len s)%nat) /\
  (forall depth s l r, scan_members fuel depth s = Some (l, r) -> (len r < len s)%nat) /\
  (forall depth s l r, scan_elements fuel depth s = Some (l, r) -> (len r < len s)%nat).
Proof.
  induction fuel as [|fuel (IHv & IHm & IHe)]; [done|]. split_and!; intros depth s x r H; pose proof (skip_ws_len s) as Hs.
  - cbn [scan_value] in H. destruct (skip_ws s) as [|c t]; [done|]. simpl in Hs. pose proof (skip_ws_len t) as Ht.
    destruct (Ascii.eqb c double_quote). { destruct (string_body t) as [[b r']|] eqn:Hb; [|done]. cbn [mbind option_bind] in H. simplify_eq. apply string_body_len in Hb. lia. }
    destruct (Ascii.eqb c "{").
    { destruct (_ <? _); [done|]. destruct (skip_ws t) as [|c' t']; [done|]. simpl in Ht. destruct (Ascii.eqb c' "}"); [simplify_eq; lia|].
      destruct (scan_members fuel (depth + 1) t) as [[l r']|] eqn:Hm; [|done]. cbn [mbind option_bind] in H. simplify_eq. apply IHm in Hm. lia. }
    destruct (Ascii.eqb c "[").
    { destruct (_ <? _); [done|]. destruct (skip_ws t) as [|c' t']; [done|]. simpl in Ht. destruct (Ascii.eqb c' "]"); [simplify_eq; lia|].
      destruct (scan_elements fuel (depth + 1) t) as [[l r']|] eqn:Hm; [|done]. cbn [mbind option_bind] in H. simplify_eq. apply IHe in Hm. lia. }
    destruct (HasPrefix _ "true"); [assert (r = drop_str 3 t) as -> by (by injection H); pose proof (drop_str_len 3 t); lia|]. destruct (HasPrefix _ "false"); [assert (r = drop_str 4 t) as -> by (by injection H); pose proof (drop_str_len 4 t); lia|].
    destruct (HasPrefix _ "null"); [assert (r = drop_str 3 t) as -> by (by injection H); pose proof (drop_str_len 3 t); lia|].
    destruct (scan_number (String c t)) as [[n r']|] eqn:Hn; [|done]. cbn [mbind option_bind] in H. simplify_eq. apply number_len in Hn. simpl in Hn. lia.
  - cbn [scan_members] in H. destruct (skip_ws s) as [|q t]; [done|]. simpl in Hs. destruct (Ascii.eqb q double_quote); [|done].
    destruct (string_body t) as [[k t1]|] eqn:Hb; [|done]. cbn [mbind option_bind] in H. apply string_body_len in Hb. pose proof (skip_ws_len t1) as H1.
    destruct (skip_ws t1) as [|c t2]; [done|]. destruct (Ascii.eqb c ":"); [|done]. simpl in H1.
    destruct (scan_value fuel depth t2) as [[v t3]|] eqn:Hv; [|done]. cbn [mbind option_bind] in H. apply IHv in Hv. pose proof (skip_ws_len t3) as H3.
    destruct (skip_ws t3) as [|c' t4]; [done|]. simpl in H3. destruct (Ascii.eqb c' "}"); [simplify_eq; lia|]. destruct (Ascii.eqb c' ","); [|done].
    destruct (scan_members fuel depth t4) as [[l r']|] eqn:Hm; [|done]. cbn [mbind option_bind] in H. simplify_eq. apply IHm in Hm. lia.
  - cbn [scan_elements] in H. destruct (scan_value fuel depth s) as [[v t]|] eqn:Hv; [|done]. cbn [mbind option_bind] in H. apply IHv in Hv. pose proof (skip_ws_len t) as Ht.
    destruct (skip_ws t) as [|c t1]; [done|]. simpl in Ht. destruct (Ascii.eqb c "]"); [simplify_eq; lia|]. destruct (Ascii.eqb c ","); [|done].
    destruct (scan_elements fuel depth t1) as [[l r']|] eqn:Hm; [|done]. cbn [mbind option_bind] in H. simplify_eq. apply IHe in Hm. lia.
Qed.

(** More fuel than twice the text changes nothing. *)
Lemma fuel_enough n :
  (forall depth s m, (2 * len s < n)%nat -> (n <= m)%nat -> scan_value m depth s = scan_value n depth s) /\
  (forall depth s m, (2 * len s < n)%nat -> (n <= m)%nat -> scan_members m depth s = scan_members n depth s) /\
  (forall depth s m, (2 * len s + 1 < n)%nat -> (n <= m)%nat -> scan_elements m depth s = scan_elements n depth s).
Proof.
  induction n as [|n (IHv & IHm & IHe)]; [by split_and!; intros; lia|]. split_and!; intros depth s [|m] Hn Hm; try lia; pose proof (skip_ws_len s) as Hs.
  - cbn [scan_value]. destruct (skip_ws s) as [|c t]; [done|]. simpl in Hs. rewrite (IHm (depth + 1) t m), (IHe (depth + 1) t m) by lia. done.
  - cbn [scan_members]. destruct (skip_ws s) as [|q t]; [done|]. simpl in Hs. destruct (Ascii.eqb q double_quote); [|done].
    destruct (string_body t) as [[k t1]|] eqn:Hb; [|done]. cbn [mbind option_bind]. apply string_body_len in Hb. pose proof (skip_ws_len t1) as H1.
    destruct (skip_ws t1) as [|c t2]; [done|]. destruct (Ascii.eqb c ":"); [|done]. simpl in H1. rewrite (IHv depth t2 m) by lia.
    destruct (scan_value n depth t2) as [[v t3]|] eqn:Hv; [|done]. cbn [mbind option_bind]. apply consumed_len in Hv. pose proof (skip_ws_len t3) as H3.
    destruct (skip_ws t3) as [|c' t4]; [done|]. simpl in H3. by rewrite (IHm depth t4 m) by lia.
  - cbn [scan_elements]. rewrite (IHv depth s m) by lia. destruct (scan_value n depth s) as [[v t]|] eqn:Hv; [|done]. cbn [mbind option_bind]. apply consumed_len in Hv.
    pose proof (skip_ws_len t) as Ht. destruct (skip_ws t) as [|c t1]; [done|]. simpl in Ht. by rewrite (IHe depth t1 m) by lia.
Qed.

Lemma first_value_fuel s m : (2 * len s + 1 <= m)%nat -> scan_value m 0 s = first_value s.
Proof. intros H. unfold first_value. apply (fuel_enough (2 * len s + 1)); lia. Qed.
