(* ===== verification/OciSpec.v ===== *)
(** * OCI specs on the target node (src/engines/criu/internal/node/ocispec.go)

    [AdaptSpec] turns the OCI runtime spec that came with an archive into the spec
    of the container that is restored beside the holder: namespaces, security
    settings, mounts and annotations are those of the target, whatever the archive
    says.  [ValidateCheckpointTar] and [PodSliceFromProcCgroup] are the file's other
    functions, [CheckContainerdVersion] (capability.go) the node's version gate. *)
From Stdlib Require Import Ascii.
From S2P Require Import Prelude GoLib Paths.

(** The JSON of a member that the code only copies; empty when it is absent. *)
Definition Opaque : Type := string.

Record Namespace := mkNamespace { ns_type : string; ns_path : string }.
Record Mount := mkMount {
  mt_destination : string; mt_type : string; mt_source : string; mt_options : list string; mt_uidMappings : Opaque; mt_gidMappings : Opaque }.
Record Process := mkProcess {
  pr_args : list string; pr_capabilities : Opaque; pr_user : Opaque; pr_noNewPrivileges : bool; pr_apparmorProfile : string;
  pr_selinuxLabel : string; pr_oomScoreAdj : Opaque; pr_rlimits : Opaque; pr_others : Opaque }.
Record Linux := mkLinux {
  ln_namespaces : list Namespace; ln_cgroupsPath : string; ln_seccomp : Opaque; ln_maskedPaths : list string; ln_readonlyPaths : list string;
  ln_devices : Opaque; ln_resources : Opaque; ln_sysctl : Opaque; ln_rootfsPropagation : string; ln_mountLabel : string; ln_uidMappings : Opaque;
  ln_gidMappings : Opaque; ln_personality : Opaque; ln_intelRdt : Opaque; ln_timeOffsets : Opaque; ln_others : Opaque }.
Record Root := mkRoot { rt_path : string; rt_readonly : bool }.
Record OciSpec := mkOciSpec {
  os_process : option Process; os_root : option Root; os_mounts : list Mount; os_hooks : Opaque; os_annotations : gmap string string;
  os_linux : option Linux; os_others : Opaque }.

(** ** Anonymous volumes *)

(** [anonVolRe]: the volume's name, if the source is
    /var/lib/containerd/*/containers/*/volumes/NAME with no dot in NAME. *)
Definition anonVolume (source : string) : option string :=
  match Split source slash with
  | [e0; e1; e2; e3; snapshotter; e5; container; e7; volume] =>
      if (e0 ==s "") && (e1 ==s "var") && (e2 ==s "lib") && (e3 ==s "containerd") && (snapshotter !=s "") && (e5 ==s "containers") &&
         (container !=s "") && (e7 ==s "volumes") && (volume !=s "") && no_char "."%char volume
      then Some volume else None
  | _ => None
  end.

Definition reservedDestinations : list string :=
  ["/proc"; "/sys"; "/dev"; "/etc"; "/bin"; "/sbin"; "/usr"; "/lib"; "/lib64"; "/pmhold"; "/pminfo"; "/var/run/secrets"; "/run/secrets"].

Definition isSafeAnonDestination (dst : string) : bool :=
  let clean := path_Clean dst in
  if negb (HasPrefix clean "/") || (clean ==s "/") then false
  else negb (existsb (fun reserved => (clean ==s reserved) || HasPrefix clean (reserved +s "/")) reservedDestinations).

Definition allowedOptions : list string := ["rbind"; "bind"; "rw"; "ro"; "nosuid"; "nodev"; "noexec"; "rprivate"; "private"].
Definition has (l : list string) (x : string) : bool := existsb (String.eqb x) l.

Definition sanitizeAnonMountOptions (opts : list string) : list string :=
  let out := List.filter (has allowedOptions) opts in
  match out with
  | [] => ["rbind"; "rprivate"; "nosuid"; "nodev"]
  | _ =>
      let out' := if has out "nosuid" then out else (out ++ ["nosuid"])%list in
      if has out "nodev" then out' else (out' ++ ["nodev"])%list
  end.

(** ** Adapting *)

Record AdaptParams := mkAdaptParams {
  ap_rootfsPath : string; ap_holderPid : Z; ap_cgroupsPath : string; ap_sourcePodUID : string; ap_targetPodUID : string;
  ap_sourceSandboxID : string; ap_targetSandboxID : string; ap_extraRewrites : list (string * string); ap_anonVolumeDir : string;
  ap_targetSpec : option OciSpec }.

Definition nsPath (p : AdaptParams) (kind : string) : string := "/proc/" +s pretty (ap_holderPid p) +s "/ns/" +s kind.

(** What the target's spec adds to the five namespaces. *)
Definition extra_namespace (p : AdaptParams) (ns : Namespace) : list Namespace :=
  if ns_type ns ==s "cgroup" then [mkNamespace "cgroup" ""]
  else if ns_type ns ==s "user" then [mkNamespace "user" (if ns_path ns !=s "" then nsPath p "user" else "")]
  else [].

Definition adaptNamespaces (p : AdaptParams) (target : Linux) : list Namespace :=
  ([mkNamespace "pid" ""; mkNamespace "ipc" (nsPath p "ipc"); mkNamespace "uts" (nsPath p "uts"); mkNamespace "mount" "";
    mkNamespace "network" (nsPath p "net")] ++ flat_map (extra_namespace p) (ln_namespaces target))%list.

Definition adaptLinux (p : AdaptParams) (target source : Linux) : Linux :=
  mkLinux (adaptNamespaces p target) (ap_cgroupsPath p) (ln_seccomp target) (ln_maskedPaths target) (ln_readonlyPaths target)
    (ln_devices target) (ln_resources target) (ln_sysctl target) (ln_rootfsPropagation target) (ln_mountLabel target) (ln_uidMappings target)
    (ln_gidMappings target) (ln_personality target) (ln_intelRdt target) (ln_timeOffsets target) (ln_others source).

Definition no_process : Process := mkProcess [] "" "" false "" "" "" "" "".
Definition adaptProcess (target source : Process) : Process :=
  mkProcess (pr_args source) (pr_capabilities target) (pr_user target) (pr_noNewPrivileges target) (pr_apparmorProfile target)
    (pr_selinuxLabel target) (pr_oomScoreAdj target) (pr_rlimits target) (pr_others source).

Definition holderMount (dst : string) : bool := (dst ==s "/pmhold") || (dst ==s "/pminfo").
Definition cleanSource (source : string) : string := if HasPrefix source "/" then path_Clean source else source.

(** The target's mounts by destination; the last one of a destination counts. *)
Definition targetMounts (mounts : list Mount) : gmap string Mount :=
  fold_left (fun acc tm =>
    let dst := path_Clean (mt_destination tm) in
    if holderMount dst then acc
    else <[dst := mkMount dst (mt_type tm) (cleanSource (mt_source tm)) (mt_options tm) (mt_uidMappings tm) (mt_gidMappings tm)]> acc)
    mounts ∅.

(** The source's paths on the target. *)
Definition remapSource (p : AdaptParams) (source : string) : string :=
  let s := if (ap_sourcePodUID p !=s "") && (ap_targetPodUID p !=s "") then ReplaceAll source (ap_sourcePodUID p) (ap_targetPodUID p) else source in
  let s := if (ap_sourceSandboxID p !=s "") && (ap_targetSandboxID p !=s "") then ReplaceAll s (ap_sourceSandboxID p) (ap_targetSandboxID p) else s in
  cleanSource (fold_left (fun s rw => if fst rw !=s "" then ReplaceAll s (fst rw) (snd rw) else s) (ap_extraRewrites p) s).

(** The fresh directory of an anonymous volume: why not, or the directory. *)
Definition scratchSource (p : AdaptParams) (from volume : string) : string + string :=
  if (volume ==s "") || (volume ==s ".") || (volume ==s "..") || Contains volume ".." then inl ("invalid anonymous volume name in " +s Quote from)
  else
    let cleanAnonDir := path_Clean (ap_anonVolumeDir p) in
    let source := path_Join [cleanAnonDir; volume] in
    if negb (HasPrefix source (cleanAnonDir +s "/")) then inl ("anonymous volume path escaped " +s cleanAnonDir +s ": " +s source)
    else inr source.

(** An anonymous volume that is to be re-created here. *)
Definition anonHere (p : AdaptParams) (source dst : string) : option string :=
  if (ap_anonVolumeDir p !=s "") && isSafeAnonDestination dst then anonVolume source else None.

(** The mount that the destination allows for the archive's mount. *)
Definition permittedMount (p : AdaptParams) (targets : gmap string Mount) (m : Mount) : string + Mount :=
  match targets !! mt_destination m with
  | Some tgt =>
      match anonHere p (mt_source tgt) (mt_destination m) with
      | Some volume =>
          match scratchSource p (mt_source tgt) volume with
          | inl err => inl err
          | inr source => inr (mkMount (mt_destination m) "bind" source (sanitizeAnonMountOptions (mt_options tgt)) "" "")
          end
      | None => inr (mkMount (mt_destination m) (mt_type tgt) (mt_source tgt) (mt_options tgt) (mt_uidMappings tgt) (mt_gidMappings tgt))
      end
  | None =>
      match (if mt_type m ==s "bind" then anonHere p (mt_source m) (mt_destination m) else None) with
      | Some volume =>
          match scratchSource p (mt_source m) volume with
          | inl err => inl err
          | inr source => inr (mkMount (mt_destination m) (mt_type m) source (sanitizeAnonMountOptions (mt_options m)) "" "")
          end
      | None => inl ("mount " +s mt_destination m +s " (source " +s mt_source m +s ") is not permitted by destination container spec")
      end
  end.

(** One mount of the archive: its notes, and why it is refused, or the mount if it is kept. *)
Definition adaptMount (p : AdaptParams) (targets : gmap string Mount) (m0 : Mount) : list string * (string + option Mount) :=
  let dst := path_Clean (mt_destination m0) in
  if holderMount dst then (["dropped holder mount " +s dst +s " from archive spec"], inr None)
  else
    let orig := mt_source m0 in
    let m := mkMount dst (mt_type m0) (remapSource p orig) (mt_options m0) (mt_uidMappings m0) (mt_gidMappings m0) in
    match permittedMount p targets m with
    | inl err => ([], inl err)
    | inr m' =>
        let notes := if mt_source m' !=s orig then ["mount " +s dst +s ": " +s orig +s " -> " +s mt_source m'] else [] in
        if (ap_sourcePodUID p !=s "") && Contains (mt_source m') (ap_sourcePodUID p) then
          (notes, inl ("mount " +s dst +s " still references source pod uid after remap: " +s mt_source m'))
        else (notes, inr (Some m'))
    end.

Fixpoint adaptMounts (p : AdaptParams) (targets : gmap string Mount) (mounts : list Mount) : list string * (string + list Mount) :=
  match mounts with
  | [] => ([], inr [])
  | m :: rest =>
      let '(notes, x) := adaptMount p targets m in
      match x with
      | inl err => (notes, inl err)
      | inr kept =>
          let '(notes', y) := adaptMounts p targets rest in
          ((notes ++ notes')%list, match y with inl err => inl err | inr l => inr (match kept with Some m' => m' :: l | None => l end) end)
      end
  end.

Definition sandboxKeys : list string := ["io.kubernetes.cri.sandbox-id"; "io.kubernetes.cri.sandbox-name"; "io.kubernetes.cri.sandbox-uid"].
Definition adaptAnnotations (target : gmap string string) : gmap string string :=
  <["org.criu.config" := "/etc/criu/runc.conf"]> (foldr delete target sandboxKeys).

(** The notes, and why not, or the adapted spec. *)
Definition AdaptSpec (spec : OciSpec) (p : AdaptParams) : list string * (string + OciSpec) :=
  match os_root spec, os_linux spec with
  | Some _, Some linux =>
      match ap_targetSpec p with
      | Some tspec =>
          match os_process tspec, os_linux tspec with
          | Some tprocess, Some tlinux =>
              let notes := ["joined sandbox namespaces of pid " +s pretty (ap_holderPid p) +s " (net/ipc/uts)";
                            "cgroupsPath=" +s ap_cgroupsPath p; "scrubbed OCI runtime hooks"] in
              let '(mnotes, mounts) := adaptMounts p (targetMounts (os_mounts tspec)) (os_mounts spec) in
              ((notes ++ mnotes)%list,
               match mounts with
               | inl err => inl err
               | inr kept =>
                   inr (mkOciSpec (Some (adaptProcess tprocess (default no_process (os_process spec)))) (Some (mkRoot (ap_rootfsPath p) false)) kept ""
                     (adaptAnnotations (os_annotations tspec)) (Some (adaptLinux p tlinux linux)) (os_others spec))
               end)
          | _, _ => ([], inl "destination container OCI spec lacks process/linux sections — refusing unhardened restore")
          end
      | None => ([], inl "destination container OCI spec lacks process/linux sections — refusing unhardened restore")
      end
  | _, _ => ([], inl "source OCI spec lacks root/linux sections — not a CRI container spec")
  end.

(** ** The pod's cgroup *)

Fixpoint sliceOf (lines : list string) : option (string + string) :=
  match lines with
  | [] => None
  | line :: rest =>
      match CutPrefix line "0::" with
      | None => sliceOf rest
      | Some tail =>
          let p := TrimPrefix (TrimSpace tail) "/" in
          Some (if p ==s "" then inl "holder is in the root cgroup — cannot derive pod slice" else inr (path_Dir p))
      end
  end.

Definition PodSliceFromProcCgroup (procCgroup : string) : string + string :=
  match sliceOf (Split (TrimSpace procCgroup) (Ascii.ascii_of_nat 10)) with
  | Some r => r
  | None => inl ("no cgroup v2 (0::) line in " +s Quote procCgroup)
  end.

(** ** Checkpoint tars *)

Definition missing_of (l : list (bool * string)) : list string := map snd (List.filter (fun x => negb (fst x)) l).

Definition ValidateCheckpointTar (entries : list string) : option string :=
  let hasSpec := has entries "spec.dump" in
  let hasConfig := has entries "config.dump" in
  let hasKubeletPages := existsb (fun e => HasPrefix e "checkpoint/pages-") entries in
  let hasKubeletPstree := has entries "checkpoint/pstree.img" in
  let hasRawPages := existsb (fun e => HasPrefix e "pages-") entries in
  let hasRawPstree := has entries "pstree.img" in
  let missing :=
    if hasSpec || hasConfig || hasKubeletPages || hasKubeletPstree then
      missing_of [(hasSpec, "spec.dump"); (hasConfig, "config.dump"); (hasKubeletPages, "checkpoint/pages-*.img"); (hasKubeletPstree, "checkpoint/pstree.img")]
    else missing_of [(hasRawPages, "pages-*.img"); (hasRawPstree, "pstree.img")] in
  match missing with [] => None | _ => Some ("checkpoint tar invalid, missing: " +s Join missing ", ") end.

(** ** The version of containerd *)

Definition vulnerable (runtimeVersion : string) : string :=
  "containerd version " +s runtimeVersion +s " is vulnerable to GHSA-p7v4; containerd >= 2.2.7 or >= 2.3.4 or 2.0.x required".

Definition CheckContainerdVersion (runtimeVersion : string) : option string :=
  let v := TrimPrefix runtimeVersion "containerd://" in
  match Split v "."%char with
  | major :: minor :: patch :: _ =>
      match Atoi major, Atoi minor, Atoi (hd "" (Split patch "-"%char)) with
      | Some major, Some minor, Some patch =>
          if major <? 2 then Some "containerd major version < 2 is not supported"
          else if major =? 2 then
            if minor =? 1 then Some (vulnerable runtimeVersion)
            else if (minor =? 2) && (patch <? 7) then Some (vulnerable runtimeVersion)
            else if (minor =? 3) && (patch <? 4) then Some (vulnerable runtimeVersion)
            else None
          else None
      | _, _, _ => Some ("failed to parse containerd version: " +s runtimeVersion)
      end
  | _ => Some ("unrecognized containerd version format: " +s runtimeVersion)
  end.
