(* ===== verification/HostOps.v ===== *)
(** * The calls of the node agent (src/engines/criu/internal/node)

    Files, commands in the host's namespaces, containerd and the kubelet, as the
    agent calls them ([HEv]), with the loops over containers, tars and the clock
    that use them: [findContainer] (restore.go), [kubelet_checkpoint],
    [validateCheckpointTarFile] and [extractCheckpoint] (checkpoint.go). *)
From Stdlib Require Import Ascii.
From S2P Require Import Prelude Effects GoLib Paths Json OciSpec.

(** An error is its text. *)
Definition failed (A : Type) : Type := string + A.

Inductive TarType := TypeReg | TypeDir | TypeOther (flag : Z).
(** A header of a tar, with the bytes that follow it. *)
Record TarEntry := mkTarEntry { te_name : string; te_type : TarType; te_mode : Z; te_body : list Z }.

(** A node, as the agent reads and patches it. *)
Record HostNode := mkHostNode { hn_annotations : gmap string string; hn_containerRuntimeVersion : string }.

Inductive HEv :=
(* API server *)
| HGetNode (name : string)
| HPatchNode (name : string) (before after : gmap string string)
(* files *)
| FReadDir (dir : string)
| FOpen (path : string)
| FReadFile (path : string)
| FWriteFile (path : string) (data : string) (mode : Z)
| FWriteSpec (path : string) (spec : OciSpec)
| FMkdirAll (path : string) (mode : Z)
| FStat (path : string)
| FGlob (pattern : string)
| FReadlink (path : string)
| FRemove (path : string)
| FRemoveAll (path : string)
| FChmod (path : string) (mode : Z)
| FCreateTemp (dir pattern : string)
| FWriteTemp (path : string) (data : string)
| FCloseTemp (path : string)
| FRename (from to_ : string)
(* a tar: its entries as far as they could be read, and why reading stopped short *)
| FReadTar (path : string) (limit : Z)
| FExtract (path : string) (mode : Z) (body : list Z)
(* commands in the host's namespaces *)
| HExec (env : list string) (name : string) (args : list string)
| HExecRestore (env : list string) (log name : string) (args : list string)
| HGetenv (name : string)
(* the kubelet *)
| HPost (url authorization : string)
(* containerd *)
| CContainers
| CLabels (id : string)
| CSpec (id : string)
| CInfo (id : string)
| CTask (id : string)
| CTaskWait (id : string)
| CTaskKill (id : string)
(** What comes first: the exit, 15 seconds, or the end of the context. *)
| CTaskExit (id : string)
| CGetImage (name : string)
| CRootFS (image : string)
| CLeaseCreate (id : string)
| CPrepare (key parent lease : string)
| CMountAll (mounts target : string)
| CDecompress (path : string)
| CApply (root path : string)
| CUnmountAll (target : string)
| CSnapshotRemove (key : string)
| CLeaseDelete (id : string)
(* the clock *)
| HNow
| HSleep (d : Z).

Inductive TaskExit := Exited | ExitTimeout | ContextDone (err : string).

Definition hresp (e : HEv) : Type :=
  match e with
  | HGetNode _ => failed HostNode
  | HPatchNode _ _ _ => option string
  | FReadDir _ => failed (list string)
  | FReadFile _ | FReadlink _ | FCreateTemp _ _ => failed string
  | FWriteFile _ _ _ | FWriteSpec _ _ | FOpen _ | FMkdirAll _ _ | FRemoveAll _ | FChmod _ _ | FWriteTemp _ _ | FCloseTemp _ | FRename _ _ | FExtract _ _ _ => option string
  (* whether the error is os.IsNotExist *)
  | FRemove _ => option (bool * string)
  | FStat _ => (bool * string) + Z
  | FGlob _ => list string
  | FReadTar _ _ => failed (list TarEntry * option string)
  | HExec _ _ _ | HExecRestore _ _ _ _ => string * option string
  | HGetenv _ => string
  | HPost _ _ => failed (Z * string)
  | CContainers => failed (list string)
  | CLabels _ => failed (gmap string string)
  | CSpec _ => failed OciSpec
  | CInfo _ => failed string
  | CTask _ => failed Z
  | CTaskWait _ | CTaskKill _ => option string
  | CTaskExit _ => TaskExit
  (* handles: of an image, of a lease, of the mounts of a snapshot *)
  | CGetImage _ | CLeaseCreate _ | CPrepare _ _ _ => failed string
  | CRootFS _ => failed (list string)
  | CMountAll _ _ | CDecompress _ | CApply _ _ => option string
  | CUnmountAll _ | CSnapshotRemove _ | CLeaseDelete _ => option string
  | HNow => Z
  | HSleep _ => unit
  end.

Definition hcall {S R} (e : HEv) : gom hresp S R (hresp e) := gcall e.

Definition truncate (s : string) (n : nat) : string := if (String.length s <=? n)%nat then s else String.substring 0 n s +s "…".

(** ** Containers *)

Record ContainerRef := mkContainerRef { cr_ID : string; cr_SandboxID : string; cr_Pid : Z; cr_Spec : OciSpec; cr_ImageName : string }.

Definition sandboxID (spec : OciSpec) : string := sget (os_annotations spec) "io.kubernetes.cri.sandbox-id".

(** The container is the one that was asked for. *)
Definition labels_match (podNS podName podUID containerName : string) (labels : gmap string string) : bool :=
  (sget labels "io.kubernetes.pod.namespace" ==s podNS) && (sget labels "io.kubernetes.pod.name" ==s podName) &&
  (sget labels "io.kubernetes.container.name" ==s containerName) && (sget labels "io.cri-containerd.kind" ==s "container") &&
  ((podUID ==s "") || (sget labels "io.kubernetes.pod.uid" ==s podUID)).

(** A container whose task runs, and of which everything is known. *)
Definition complete (ref : ContainerRef) : bool := negb (cr_Pid ref =? 0) && (cr_ImageName ref !=s "").

(** The loop over the containers; [fallback] is the last match that does not run. *)
Fixpoint searchContainers {S} (podNS podName podUID containerName : string) (ids : list string) (fallback : option ContainerRef)
    : gom hresp S (failed ContainerRef) (option ContainerRef) :=
  match ids with
  | [] => gret fallback
  | id :: rest =>
      let* x := hcall (CLabels id) in
      match x with
      | inl _ => searchContainers podNS podName podUID containerName rest fallback
      | inr labels =>
          if negb (labels_match podNS podName podUID containerName labels) then searchContainers podNS podName podUID containerName rest fallback
          else
            let* x := hcall (CSpec id) in
            match x with
            | inl err => greturn (inl ("containerd spec for " +s id +s ": " +s err))
            | inr spec =>
                let* x := hcall (CInfo id) in
                match x with
                | inl err => greturn (inl ("containerd info for " +s id +s ": " +s err))
                | inr image =>
                    let* x := hcall (CTask id) in
                    let ref := mkContainerRef id (sandboxID spec) (match x with inr pid => pid | inl _ => 0 end) spec image in
                    if complete ref then greturn (inr ref) else searchContainers podNS podName podUID containerName rest (Some ref)
                end
            end
      end
  end.

Definition findContainer {S} (podNS podName podUID containerName : string) : fn hresp S (failed ContainerRef) := gfun (
  let* x := hcall CContainers in
  match x with
  | inl err => gret (inl ("containerd list: " +s err))
  | inr ids =>
      let* fallback := searchContainers podNS podName podUID containerName ids None in
      gret (match fallback with
            | Some ref => inr ref
            | None => inl ("container " +s podNS +s "/" +s podName +s "/" +s containerName +s " (uid=" +s podUID +s ") not found in containerd")
            end)
  end).

(** ** The kubelet's checkpoint *)

(** encoding/json on the kubelet's answer: the paths in [items]. *)
Definition decodeItems (body : string) : option (list string) :=
  slice_contents <$> unmarshal (into_struct [("items", into_slice "" into_string)]) nil_slice body.

Definition kubelet_checkpoint {S} (tokenPath endpoint ns pod container : string) : fn hresp S (failed string) := gfun (
  let* x := hcall (FReadFile tokenPath) in
  match x with
  | inl err => gret (inl ("read SA token: " +s err))
  | inr token =>
      let* x := hcall (HPost (endpoint +s "/checkpoint/" +s ns +s "/" +s pod +s "/" +s container) ("Bearer " +s TrimSpace token)) in
      match x with
      | inl err => gret (inl ("kubelet checkpoint: " +s err))
      | inr (status, body) =>
          if negb (status =? 200) then gret (inl ("kubelet checkpoint HTTP " +s pretty status +s ": " +s truncate body 300))
          else
            match decodeItems body with
            | Some (tarPath :: _) => do* hcall (FStat tarPath) in gret (inr tarPath)
            | _ => gret (inl ("kubelet checkpoint: unparseable response " +s Quote (truncate body 300)))
            end
      end
  end).

(** ** Tars *)

Definition maxTarBytes : Z := 8 * 2 ^ 30.
Definition maxTarEntries : Z := 4096.

(** The names of the entries: [seen_] of them were read. *)
Fixpoint listTar (seen_ : Z) (entries : list TarEntry) (stop : option string) : failed (list string) :=
  match entries with
  | [] =>
      match stop with
      | None => inr []
      | Some err => inl (if maxTarEntries <? seen_ + 1 then "tar file has more than 4096 entries" else "read checkpoint tar: " +s err)
      end
  | e :: rest =>
      if maxTarEntries <? seen_ + 1 then inl "tar file has more than 4096 entries"
      else match listTar (seen_ + 1) rest stop with inl err => inl err | inr names => inr (te_name e :: names) end
  end.

Definition validateCheckpointTarFile {S} (tarPath : string) : fn hresp S (option string) := gfun (
  let* x := hcall (FReadTar tarPath maxTarBytes) in
  match x with
  | inl err => gret (Some err)
  | inr (entries, stop) => gret (match listTar 0 entries stop with inl err => Some err | inr names => ValidateCheckpointTar names end)
  end).

(** Unpacks the entries that are left; [names] are those already unpacked, newest first. *)
Fixpoint extractEntries {S} (dst : string) (seen_ : Z) (entries : list TarEntry) (stop : option string) (names : list string)
    : gom hresp S (list string * option string) (list string) :=
  match entries with
  | [] =>
      match stop with
      | None => gret names
      | Some err =>
          greturn (rev names, Some (if maxTarEntries <? seen_ + 1 then "tar file has more than 4096 entries" else "read checkpoint tar: " +s err))
      end
  | e :: rest =>
      if maxTarEntries <? seen_ + 1 then greturn (rev names, Some "tar file has more than 4096 entries")
      else
        let name := path_Clean (te_name e) in
        if HasPrefix name ".." || IsAbs name then greturn (rev names, Some ("checkpoint tar has unsafe path " +s Quote (te_name e)))
        else
          let names := te_name e :: names in
          let target := path_Join [dst; name] in
          match te_type e with
          | TypeOther flag => greturn (rev names, Some ("unsupported tar entry type: " +s pretty flag))
          | TypeDir =>
              let* err := hcall (FMkdirAll target 493) in
              match err with
              | Some err => greturn (rev names, Some err)
              | None => extractEntries dst (seen_ + 1) rest stop names
              end
          | TypeReg =>
              let* err := hcall (FMkdirAll (path_Dir target) 493) in
              match err with
              | Some err => greturn (rev names, Some err)
              | None =>
                  let* err := hcall (FExtract target (Z.land (te_mode e) 511) (te_body e)) in
                  match err with
                  | Some err => greturn (rev names, Some err)
                  | None => extractEntries dst (seen_ + 1) rest stop names
                  end
              end
          end
  end.

Definition extractCheckpoint {S} (tarPath dst : string) : fn hresp S (list string * option string) := gfun (
  let* x := hcall (FReadTar tarPath maxTarBytes) in
  match x with
  | inl err => gret ([], Some err)
  | inr (entries, stop) =>
      let* names := extractEntries dst 0 entries stop [] in
      gret (rev names, ValidateCheckpointTar (rev names))
  end).

(** ** The mechanisms that the engine calls (psengine_glue.go) *)

Definition PSEngineCheckpoint {S} (tokenPath endpoint ns pod container : string) : fn hresp S (failed string) := gfun (
  let* x := ginvoke (kubelet_checkpoint tokenPath endpoint ns pod container) in
  match x with
  | inl err => gret (inl err)
  | inr tarPath =>
      let* err := ginvoke (validateCheckpointTarFile tarPath) in
      gret (match err with Some err => inl ("tar invalid: " +s err) | None => inr tarPath end)
  end).

Definition PSEngineSourceInfo {S} (ns pod container : string) : fn hresp S (failed (OciSpec * string)) := gfun (
  let* x := ginvoke (findContainer ns pod "" container) in
  gret (match x with inl err => inl err | inr ref => inr (cr_Spec ref, cr_ImageName ref) end)).

Definition killTask {S} (id : string) : gom hresp S (option string) (option string) :=
  let* x := hcall (CTask id) in
  match x with
  | inl err => gret (Some ("task lookup for " +s id +s ": " +s err))
  | inr _ =>
      let* err := hcall (CTaskWait id) in
      match err with
      | Some err => gret (Some ("task wait setup: " +s err))
      | None =>
          let* err := hcall (CTaskKill id) in
          match err with
          | Some err => gret (Some ("task kill: " +s err))
          | None =>
              let* e := hcall (CTaskExit id) in
              gret (match e with
                    | Exited => None
                    | ExitTimeout => Some ("container " +s id +s " did not exit within 15s of SIGKILL")
                    | ContextDone err => Some err
                    end)
          end
      end
  end.

Definition PSEngineStopContainer {S} (ns pod container : string) : fn hresp S (option string) := gfun (
  let* x := ginvoke (findContainer ns pod "" container) in
  match x with
  | inl err => gret (Some err)
  | inr ref =>
      let* x := hcall CContainers in
      match x with
      | inl err => gret (Some ("containerd list: " +s err))
      | inr ids =>
          if existsb (String.eqb (cr_ID ref)) ids then killTask (cr_ID ref)
          else gret (Some ("container " +s cr_ID ref +s " not found in containerd"))
      end
  end).

Definition PSEngineExtract {S} (tarPath dstDir : string) : fn hresp S (option string) := gfun (
  let* x := ginvoke (extractCheckpoint tarPath dstDir) in
  gret (match snd x with Some err => Some err | None => ValidateCheckpointTar (fst x) end)).

(** The first [model name] of /proc/cpuinfo. *)
Fixpoint modelName (lines : list string) : string :=
  match lines with
  | [] => ""
  | line :: rest => let '(k, v, ok) := Cut line ":"%char in if ok && (TrimSpace k ==s "model name") then TrimSpace v else modelName rest
  end.
Definition PSEngineCPUFamily {S} : fn hresp S string := gfun (
  let* x := hcall (FReadFile "/proc/cpuinfo") in
  gret (match x with inl _ => "" | inr b => modelName (Split b (ascii_of_nat 10)) end)).
