(* ===== verification/HostRestore.v ===== *)
(** * Restoring on a node (src/engines/criu/internal/node)

    [restore] (restore.go) restores a container beside the target pod's holder:
    it waits for the holder, adapts the archive's spec to the holder's, prepares the
    root file system and runs runc, and tears everything down when that fails.
    [Bootstrap] (node.go, capability.go) installs CRIU on the node and publishes
    whether it can be used. *)
From Stdlib Require Import Ascii.
From S2P Require Import Prelude Effects GoLib Paths OciSpec HostOps.

Definition newline : ascii := ascii_of_nat 10.

Definition pmRoot : string := "/var/lib/pod-migrate".
Definition criuBundleDir : string := pmRoot +s "/criu-bundle".
Definition runcStateRoot : string := "/run/pod-migrate/runc".
Definition criuConfDir : string := "/etc/criu".

(** ** Texts *)

Definition error_line (line : string) : bool := Contains line "Error (" || Contains line "level=error" || Contains line "Error:".

(** The last [n] elements. *)
Definition last_of {A} (n : nat) (l : list A) : list A := drop (length l - n) l.

Definition criuErrorLines (s : string) : string :=
  Join (last_of 15 (map TrimSpace (List.filter error_line (Split s newline)))) (String newline "").

Definition tailFile {S R} (path : string) (lines : nat) : gom hresp S R (failed string) :=
  let* x := hcall (FReadFile path) in
  gret (match x with inl err => inl err | inr b => inr (Join (last_of lines (Split (TrimSpace b) newline)) (String newline "")) end).

Definition joinNotes (notes : list string) : string := Join notes " ; ".

(** ** Inputs and outcome *)

Record HostRestoreInputs := mkHostRestoreInputs {
  hi_migrationName : string; hi_podNamespace : string; hi_targetPod : string; hi_containerName : string; hi_sourcePodUID : string;
  hi_targetPodUID : string; hi_checkpointDir : string; hi_preCopy : bool; hi_srcSpec : option OciSpec }.

Record RestoreOut := mkRestoreOut {
  ro_pid : Z; ro_durationMs : Z; ro_criuVersion : string; ro_fileValidationUsed : bool; ro_timeNsDistinct : option bool; ro_notes : list string }.
Definition no_outcome : RestoreOut := mkRestoreOut 0 0 "" false None [].

Definition add_notes (notes : list string) (o : RestoreOut) : RestoreOut :=
  mkRestoreOut (ro_pid o) (ro_durationMs o) (ro_criuVersion o) (ro_fileValidationUsed o) (ro_timeNsDistinct o) (ro_notes o ++ notes)%list.
Definition set_validated (o : RestoreOut) : RestoreOut :=
  mkRestoreOut (ro_pid o) (ro_durationMs o) (ro_criuVersion o) true (ro_timeNsDistinct o) (ro_notes o).
Definition set_version (v : string) (o : RestoreOut) : RestoreOut :=
  mkRestoreOut (ro_pid o) (ro_durationMs o) v (ro_fileValidationUsed o) (ro_timeNsDistinct o) (ro_notes o).
Definition set_pid (pid ms : Z) (o : RestoreOut) : RestoreOut :=
  mkRestoreOut pid ms (ro_criuVersion o) (ro_fileValidationUsed o) (ro_timeNsDistinct o) (ro_notes o).
Definition set_timeNs (b : bool) (o : RestoreOut) : RestoreOut :=
  mkRestoreOut (ro_pid o) (ro_durationMs o) (ro_criuVersion o) (ro_fileValidationUsed o) (Some b) (ro_notes o).

(** ** The holder *)

Definition holderWait : Z := 30 * Second.
Definition holderPoll : Z := 250 * Millisecond.

(** Polls until the holder runs, or the deadline is past; [None] when [fuel] polls were not enough. *)
Fixpoint awaitHolder {S} (fuel : nat) (in_ : HostRestoreInputs) (deadline : Z) : fn hresp S (option (failed ContainerRef)) :=
  match fuel with
  | O => gfun (gret None)
  | S fuel => gfun (
      let* x := ginvoke (findContainer (hi_podNamespace in_) (hi_targetPod in_) (hi_targetPodUID in_) (hi_containerName in_)) in
      match x with
      | inr holder =>
          if complete holder then gret (Some (inr holder))
          else
            let* now := hcall HNow in
            if After now deadline then
              gret (Some (inl (if cr_ImageName holder ==s "" then "target holder container metadata incomplete (spec=true, image=" +s Quote "" +s ")"
                               else "target holder task pid not up within 30s — sandbox slow to start")))
            else do* hcall (HSleep holderPoll) in ginvoke (awaitHolder fuel in_ deadline)
      | inl err =>
          let* now := hcall HNow in
          if After now deadline then gret (Some (inl ("target holder container not found within 30s: " +s err)))
          else do* hcall (HSleep holderPoll) in ginvoke (awaitHolder fuel in_ deadline)
      end)
  end.

(** ** Paths of the target pod that the UID does not give *)

Definition first_element (s : string) : string := hd "" (Split s slash).

(** The projected service-account volume: its directory has a random suffix. *)
Definition projectedRewrites {S R} (tgtRoot source : string) : gom hresp S R (list (string * string)) :=
  match after_first source "volumes/kubernetes.io~projected/" with
  | None => gret []
  | Some rest =>
      let srcName := first_element rest in
      let* matches := hcall (FGlob (tgtRoot +s "/volumes/kubernetes.io~projected/*")) in
      gret (flat_map (fun tgt => if path_Base tgt !=s srcName then [(srcName, path_Base tgt)] else []) matches)
  end.

(** The termination log: its file is named by the container's own hash. *)
Definition terminationRewrites {S R} (tgtRoot source : string) : gom hresp S R (list (string * string)) :=
  match after_first source "/containers/" with
  | None => gret []
  | Some rest =>
      if negb (Contains source "/var/lib/kubelet/pods/") then gret []
      else
        let srcRel := "containers/" +s rest in
        let* m1 := hcall (FGlob (tgtRoot +s "/containers/" +s first_element rest +s "/*")) in
        let* matches := (match m1 with [] => hcall (FGlob (tgtRoot +s "/containers/*/*")) | _ => gret m1 end) in
        gret (match matches with
              | [] => []
              | m :: _ =>
                  let tgtRel := "containers/" +s TrimPrefix m (tgtRoot +s "/containers/") in
                  if tgtRel !=s srcRel then [(srcRel, tgtRel)] else []
              end)
  end.

(** A subpath: its index may differ. *)
Definition subpathRewrites {S R} (tgtRoot source : string) : gom hresp S R (list (string * string)) :=
  match after_first source "volume-subpaths/" with
  | None => gret []
  | Some rest =>
      match Split rest slash with
      | volName :: ctrName :: srcIdx :: _ =>
          let prefix := "volume-subpaths/" +s volName +s "/" +s ctrName +s "/" in
          let* matches := hcall (FGlob (tgtRoot +s "/" +s prefix +s "*")) in
          gret (match matches with
                | [] => []
                | m :: _ => if path_Base m !=s srcIdx then [(prefix +s srcIdx, prefix +s path_Base m)] else []
                end)
      | _ => gret []
      end
  end.

Fixpoint rewritesOf {S R} (tgtRoot : string) (mounts : list Mount) : gom hresp S R (list (string * string)) :=
  match mounts with
  | [] => gret []
  | m :: rest =>
      let* a := projectedRewrites tgtRoot (mt_source m) in
      let* b := terminationRewrites tgtRoot (mt_source m) in
      let* c := subpathRewrites tgtRoot (mt_source m) in
      let* l := rewritesOf tgtRoot rest in
      gret (a ++ b ++ c ++ l)%list
  end.

Definition projectedVolumeRewrites {S R} (srcSpec : option OciSpec) (targetPodUID : string) : gom hresp S R (list (string * string)) :=
  match srcSpec with
  | None => gret []
  | Some spec => rewritesOf ("/var/lib/kubelet/pods/" +s targetPodUID) (os_mounts spec)
  end.

(** ** The parameters of the adaptation *)

Definition buildAdaptParams (in_ : HostRestoreInputs) (holder : option ContainerRef) (rootfsPath podSlice id anonVolDir : string)
    (rewrites : list (string * string)) : failed (AdaptParams * string) :=
  match hi_srcSpec in_, holder with
  | None, _ => inl "no source OCI spec in the bundle"
  | _, None => inl "target holder container has no OCI spec; refusing unhardened restore"
  | Some src, Some holder =>
      if cr_ImageName holder ==s "" then inl "target holder container has no image name; refusing to fall back to archive image"
      else inr (mkAdaptParams rootfsPath (cr_Pid holder) (podSlice +s "/" +s id) (hi_sourcePodUID in_) (hi_targetPodUID in_) (sandboxID src)
                  (cr_SandboxID holder) rewrites anonVolDir (Some (cr_Spec holder)), cr_ImageName holder)
  end.

(** ** The root file system *)

(** The image-spec module: the chain id of an image's layers. *)
Class OCIIdentity := { ChainID : list string -> string }.

(** A step that fails ends the preparation. *)
Definition step_of {A S} (x : failed A) (prefix : string) : gom hresp S (failed string) A := match x with inl err => greturn (inl (prefix +s err)) | inr a => gret a end.
Definition step_ok {S} (x : option string) (prefix : string) : gom hresp S (failed string) unit := match x with Some err => greturn (inl (prefix +s err)) | None => gret tt end.

(** The checkpoint's changes to the file system, if there are any. *)
Definition applyDiff {S} (rootfs diff : string) : gom hresp S (failed string) unit :=
  let* x := hcall (FStat diff) in
  match x with
  | inl _ => gret tt
  | inr _ =>
      let* e := hcall (FOpen diff) in
      do* step_ok e "" in
      let* e := hcall (CDecompress diff) in
      do* step_ok e "rootfs-diff decompress: " in
      let* e := hcall (CApply rootfs diff) in
      step_ok e "apply rootfs-diff: "
  end.

(** A writable snapshot of the image, under a lease, with the diff applied. *)
Definition prepareRootfs `{OCIIdentity} {S} (imageName key bundleDir rootfsDiffTar : string) : fn hresp S (failed string) := gfun (
  let* x := hcall (CGetImage imageName) in
  let* img := step_of x ("get image " +s imageName +s ": ") in
  let* x := hcall (CRootFS img) in
  let* diffIDs := step_of x "" in
  do* hcall (CSnapshotRemove key) in
  do* hcall (CLeaseDelete ("lease-" +s key)) in
  let* x := hcall (CLeaseCreate ("lease-" +s key)) in
  let* lease := step_of x "create containerd lease: " in
  let* x := hcall (CPrepare key (ChainID diffIDs) lease) in
  let* mounts := step_of x "snapshot prepare: " in
  let rootfs := path_Join [bundleDir; "rootfs"] in
  let* e := hcall (FMkdirAll rootfs 493) in
  do* step_ok e "" in
  let* e := hcall (CMountAll mounts rootfs) in
  do* step_ok e "mount rootfs: " in
  do* applyDiff rootfs rootfsDiffTar in
  let* e := hcall (FMkdirAll (path_Join [rootfs; "tmp"]) 1023) in
  do* step_ok e "" in
  let* e := hcall (FMkdirAll (path_Join [rootfs; "run"]) 1023) in
  do* step_ok e "" in
  gret (inr rootfs)).

(** ** Tearing down *)

Definition container_id (migrationName : string) : string := "pm-" +s migrationName.
Definition runc_delete (id : string) : HEv := HExec [] "runc" ["--root"; runcStateRoot; "delete"; "-f"; id].

Definition note_of (prefix : string) (e : option string) : list string := match e with Some err => [prefix +s err] | None => [] end.

Definition unmountAll {S R} (target : string) : gom hresp S R (option string) :=
  let* x := hcall (FStat target) in
  match x with inl (true, _) => gret None | _ => hcall (CUnmountAll target) end.

Definition teardown {S R} (id bundleDir : string) : gom hresp S R (list string) :=
  let* x := hcall (runc_delete id) in
  let n1 := (match snd x with Some _ => ["runc delete: " +s truncate (fst x) 200] | None => [] end) in
  let* e := unmountAll (path_Join [bundleDir; "rootfs"]) in
  let* n2 := (match e with
              | Some err => gret ["unmount rootfs: " +s err]
              | None =>
                  let* e1 := hcall (CSnapshotRemove id) in
                  let* e2 := hcall (CLeaseDelete ("lease-" +s id)) in
                  gret (note_of "snapshot remove: " e1 ++ note_of "lease remove: " e2)%list
              end) in
  let* e := hcall (FRemoveAll bundleDir) in
  gret (n1 ++ n2 ++ note_of "rm bundle: " e)%list.

Definition cleanup {S R} (migrationName checkpointDir tarPath : string) (keepContainer : bool) : gom hresp S R (list string) :=
  let id := container_id migrationName in
  let* n1 := (if keepContainer then gret [] else teardown id (path_Join [pmRoot; "bundles"; id])) in
  let* n2 := (if checkpointDir !=s "" then let* e := hcall (FRemoveAll checkpointDir) in gret (note_of "rm checkpoint dir: " e) else gret []) in
  let* n3 := (if tarPath !=s "" then
                let* e := hcall (FRemove tarPath) in
                gret (match e with Some (notExist, err) => if notExist : bool then [] else ["rm tar: " +s err] | None => [] end)
              else gret []) in
  gret (n1 ++ n2 ++ n3)%list.

(** ** runc *)

Definition saveFailureArtifact {S R} (id name content : string) : gom hresp S R unit :=
  let dir := path_Join [pmRoot; "failed"; id] in
  let* e := hcall (FMkdirAll dir 493) in
  match e with Some _ => gret tt | None => do* hcall (FWriteFile (path_Join [dir; name]) content 420) in gret tt end.

(** The two ways to restore: runc's default for cgroups, then ignoring them. *)
Definition variants (bundleDir imagePath id : string) : list (list string) :=
  let baseArgs := ["--root"; runcStateRoot; "restore"; "--bundle"; bundleDir; "--image-path"; imagePath; "--work-path"; bundleDir;
                   "--pid-file"; path_Join [bundleDir; "pid"]; "--detach"] in
  [(baseArgs ++ [id])%list; (baseArgs ++ ["--manage-cgroups-mode"; "ignore"; id])%list].

Definition restoreEnv : list string := ["PATH=" +s criuBundleDir +s ":/usr/sbin:/usr/bin:/sbin:/bin:/home/kubernetes/bin"].

(** Tries them in order; answers the last output and error. *)
Fixpoint runVariants {R} (id bundleDir : string) (vi : Z) (args : list (list string)) (last : string * option string)
    : gom hresp RestoreOut R (string * option string) :=
  match args with
  | [] => gret last
  | a :: rest =>
      let* x := hcall (HExecRestore restoreEnv (path_Join [bundleDir; "runc-stdout.log"]) "runc" a) in
      match snd x with
      | None => gret x
      | Some _ =>
          do* saveFailureArtifact id ("variant" +s pretty vi +s "-runc.out") (fst x) in
          let* lg := hcall (FReadFile (path_Join [bundleDir; "restore.log"])) in
          do* (match lg with inr b => saveFailureArtifact id ("variant" +s pretty vi +s "-restore.log") b | inl _ => gret tt end) in
          do* gmodify (add_notes ["variant " +s pretty vi +s " failed: " +s truncate (criuErrorLines (fst x)) 500]) in
          if negb (Contains (fst x) "cgroup") then gret x
          else do* hcall (runc_delete id) in runVariants id bundleDir (vi + 1) rest x
      end
  end.

(** What went wrong, from runc's output and CRIU's log. *)
Definition failureSignature {R} (bundleDir lastOut : string) : gom hresp RestoreOut R string :=
  let sig := criuErrorLines lastOut in
  let* t := tailFile (path_Join [bundleDir; "restore.log"]) 200 in
  let sig := (match t with
              | inr b => if criuErrorLines b !=s "" then sig +s String newline "" +s criuErrorLines b else sig
              | inl _ => sig
              end) in
  gret (if sig ==s "" then truncate lastOut 800 else sig).

(** ** The restore *)

Abbreviation G A := (gom hresp RestoreOut (option (option string)) A).

(** An error ends the restore. *)
Definition need {A} (x : failed A) (prefix : string) : G A := match x with inl err => greturn (Some (Some (prefix +s err))) | inr a => gret a end.
Definition need_ok (x : option string) (prefix : string) : G unit := match x with Some err => greturn (Some (Some (prefix +s err))) | None => gret tt end.

(** Fresh directories for the anonymous volumes. *)
Fixpoint makeScratch (anonVolDir : string) (mounts : list Mount) : G unit :=
  match mounts with
  | [] => gret tt
  | m :: rest =>
      if HasPrefix (mt_source m) anonVolDir then
        let* e := hcall (FMkdirAll (mt_source m) 493) in
        do* need_ok e ("create anon-volume scratch " +s mt_source m +s ": ") in
        makeScratch anonVolDir rest
      else makeScratch anonVolDir rest
  end.

(** The bundle: the root file system and the adapted spec. *)
Definition prepareBundle `{OCIIdentity} (in_ : HostRestoreInputs) (holder : ContainerRef) (podSlice id bundleDir : string) : G unit :=
  let anonVolDir := path_Join [bundleDir; "anon-volumes"] in
  let* rewrites := projectedVolumeRewrites (hi_srcSpec in_) (hi_targetPodUID in_) in
  let* pi := need (buildAdaptParams in_ (Some holder) (path_Join [bundleDir; "rootfs"]) podSlice id anonVolDir rewrites) "" in
  let '(p, imgName) := pi in
  let* x := ginvoke (prepareRootfs imgName id bundleDir (path_Join [hi_checkpointDir in_; "rootfs-diff.tar"])) in
  let* rootfs := need x "" in
  let p := mkAdaptParams rootfs (ap_holderPid p) (ap_cgroupsPath p) (ap_sourcePodUID p) (ap_targetPodUID p) (ap_sourceSandboxID p)
             (ap_targetSandboxID p) (ap_extraRewrites p) (ap_anonVolumeDir p) (ap_targetSpec p) in
  match hi_srcSpec in_ with
  | None => greturn (Some (Some "no source OCI spec in the bundle"))
  | Some src =>
      let '(notes, adapted) := AdaptSpec src p in
      do* gmodify (add_notes notes) in
      let* spec := need adapted "" in
      do* makeScratch anonVolDir (os_mounts spec) in
      let* e := hcall (FWriteSpec (path_Join [bundleDir; "config.json"]) spec) in
      need_ok e ""
  end.

(** The CRIU options must ask for the validation of files. *)
Definition checkCriuConf : G unit :=
  let* x := hcall (FReadFile (path_Join [criuConfDir; "runc.conf"])) in
  do* (match x with
       | inl err => greturn (Some (Some ("criu runc.conf missing or lacks file-validation (bootstrap owns it): " +s err)))
       | inr b => if Contains b "file-validation" then gret tt
                  else greturn (Some (Some "criu runc.conf missing or lacks file-validation (bootstrap owns it): <nil>"))
       end) in
  gmodify set_validated.

Definition recordVersion : G unit :=
  let* x := hcall (HExec [] (criuBundleDir +s "/criu") ["--version"]) in
  match snd x with
  | None => gmodify (set_version (TrimSpace (TrimPrefix (hd "" (Split (fst x) newline)) "Version: ")))
  | Some _ => gret tt
  end.

(** Whether the process runs in a time namespace of its own, if that can be read. *)
Definition recordTimeNs (pid : Z) : G unit :=
  let* h := hcall (FReadlink "/proc/1/ns/time") in
  match h with
  | inl _ => gret tt
  | inr hostNs =>
      let* p := hcall (FReadlink ("/proc/" +s pretty pid +s "/ns/time")) in
      match p with inl _ => gret tt | inr procNs => gmodify (set_timeNs (procNs !=s hostNs)) end
  end.

(** Answers the error, if any; [None] when [fuel] polls for the holder were not enough.
    A pid file that is not a number reads as 0. *)
Definition restore_host `{OCIIdentity} (fuel : nat) (in_ : HostRestoreInputs) : fn hresp RestoreOut (option (option string)) := gfun (
  let* start := hcall HNow in
  match hi_srcSpec in_ with
  | None => gret (Some (Some "no source OCI spec in the bundle"))
  | Some _ =>
      let* t := hcall HNow in
      let* h := ginvoke (awaitHolder fuel in_ (t + holderWait)) in
      match h with
      | None => gret None
      | Some h =>
          let* holder := need h "" in
          let* cg := hcall (FReadFile ("/proc/" +s pretty (cr_Pid holder) +s "/cgroup")) in
          let* procCg := need cg "read holder cgroup: " in
          let* podSlice := need (PodSliceFromProcCgroup procCg) "" in
          let id := container_id (hi_migrationName in_) in
          let bundleDir := path_Join [pmRoot; "bundles"; id] in
          let* del := hcall (runc_delete id) in
          do* (match snd del with
               | Some err => gmodify (add_notes ["stale-container pre-delete failed (restore will likely conflict): " +s err +s ": " +s truncate (fst del) 200])
               | None => gret tt
               end) in
          let* e := hcall (FMkdirAll bundleDir 493) in
          do* need_ok e "" in
          do* prepareBundle in_ holder podSlice id bundleDir in
          do* checkCriuConf in
          do* recordVersion in
          let imagePath := if hi_preCopy in_ then hi_checkpointDir in_ else path_Join [hi_checkpointDir in_; "checkpoint"] in
          let* last := runVariants id bundleDir 0 (variants bundleDir imagePath id) ("", None) in
          match snd last with
          | Some err =>
              let* sig := failureSignature bundleDir (fst last) in
              let* notes := cleanup (hi_migrationName in_) "" "" false in
              do* gmodify (add_notes notes) in
              gret (Some (Some ("runc restore failed: " +s err +s ": " +s truncate sig 1200)))
          | None =>
              let* x := hcall (FReadFile (path_Join [bundleDir; "pid"])) in
              let* b := need x "restored but pid-file missing: " in
              let pid := default 0 (Atoi (TrimSpace b)) in
              let* now := hcall HNow in
              do* gmodify (set_pid pid (Sub now start / Millisecond)) in
              do* recordTimeNs pid in
              gret (Some None)
          end
      end
  end).

(** encoding/json on an OCI spec. *)
Class SpecJSON := { decodeSpec : list Z -> failed OciSpec }.

(** The pid and the duration, or the error with the notes. *)
Definition PSEngineRestore `{OCIIdentity} `{SpecJSON} (fuel : nat) (snapshotName podNamespace targetPod containerName sourcePodUID targetPodUID checkpointDir : string)
    (specJSON : list Z) : fn hresp RestoreOut (option (failed (Z * Z))) := gfun (
  match decodeSpec specJSON with
  | inl err => gret (Some (inl ("source spec decode: " +s err)))
  | inr srcSpec =>
      let* r := ginvoke (restore_host fuel (mkHostRestoreInputs ("psengine-" +s snapshotName) podNamespace targetPod containerName sourcePodUID
                  targetPodUID checkpointDir false (Some srcSpec))) in
      let* out := gget in
      gret (match r with
            | None => None
            | Some (Some err) =>
                Some (inl (err +s (match ro_notes out with [] => "" | _ => " | " +s truncate (joinNotes (ro_notes out)) 1500 end)))
            | Some None => Some (inr (ro_pid out, ro_durationMs out))
            end)
  end).

(** ** The node's capability (node.go, capability.go) *)

Definition imageBundleDir : string := "/opt/criu-bundle".
Definition hostPathBinDir : string := "/usr/local/sbin".
Definition runcConf : string :=
  "tcp-close" +s String newline ("skip-in-flight" +s String newline ("file-validation buildid" +s String newline ("file-locks" +s String newline ""))).

(** The temporary file is filled and moved into place. *)
Definition fillTemp {S} (tmpName dst data : string) (mode : Z) : fn hresp S (option string) := gfun (
  let* e := hcall (FWriteTemp tmpName data) in
  match e with
  | Some err => do* hcall (FCloseTemp tmpName) in gret (Some err)
  | None =>
      let* e := hcall (FChmod tmpName mode) in
      match e with
      | Some err => do* hcall (FCloseTemp tmpName) in gret (Some err)
      | None =>
          let* e := hcall (FCloseTemp tmpName) in
          match e with Some err => gret (Some err) | None => hcall (FRename tmpName dst) end
      end
  end).

Definition writeFileAtomic {S R} (dst data : string) (mode : Z) : gom hresp S R (option string) :=
  let* old := hcall (FReadFile dst) in
  if (match old with inr b => b ==s data | inl _ => false end) then hcall (FChmod dst mode)
  else
    let* x := hcall (FCreateTemp (path_Dir dst) ("." +s path_Base dst +s ".tmp*")) in
    match x with
    | inl err => gret (Some err)
    | inr tmpName =>
        let* e := ginvoke (fillTemp tmpName dst data mode) in
        do* hcall (FRemove tmpName) in
        gret e
    end.

Definition copyFile {S R} (src dst : string) (mode : Z) : gom hresp S R (option string) :=
  let* x := hcall (FReadFile src) in
  match x with inl err => gret (Some err) | inr data => writeFileAtomic dst data mode end.

Fixpoint copyAll {S} (names : list string) : gom hresp S (failed string) unit :=
  match names with
  | [] => gret tt
  | name :: rest =>
      let* e := copyFile (path_Join [imageBundleDir; name]) (path_Join [criuBundleDir; name]) 493 in
      do* step_ok e ("install " +s name +s ": ") in
      copyAll rest
  end.

(** The version that was installed. *)
Definition installCRIUBundle {S} : fn hresp S (failed string) := gfun (
  let* x := hcall (FReadDir imageBundleDir) in
  let* entries := step_of x "agent image carries no criu bundle: " in
  let* e := hcall (FMkdirAll criuBundleDir 493) in
  do* step_ok e "" in
  do* copyAll entries in
  let* x := hcall (FReadFile (path_Join [criuBundleDir; "VERSION"])) in
  let* v := step_of x "bundle has no VERSION: " in
  let* e := hcall (FMkdirAll criuConfDir 493) in
  do* step_ok e "" in
  let* e := hcall (FWriteFile (path_Join [criuConfDir; "runc.conf"]) runcConf 420) in
  do* step_ok e "write criu runc.conf: " in
  let* x := hcall (FReadFile (path_Join [criuBundleDir; "criu"])) in
  let* wrapper := step_of x "" in
  let* e := writeFileAtomic (path_Join [hostPathBinDir; "criu"]) wrapper 493 in
  do* step_ok e "install criu wrapper on host PATH: " in
  gret (inr (TrimSpace v))).

Definition verifyCRIU {S R} : gom hresp S R (bool * string) :=
  let* mode := hcall (HGetenv "PODMIG_CRIU_CHECK") in
  let args := if mode ==s "core" then ["check"] else ["check"; "--all"] in
  let* x := hcall (HExec [] (criuBundleDir +s "/criu") args) in
  let raw := TrimSpace (fst x) in
  gret (match snd x with Some err => (false, raw +s " (err: " +s err +s ")") | None => (Contains raw "Looks good", raw) end).

Definition NodeAnnotationCRIUReady : string := "pod-migrate.io/criu-ready".
Definition NodeAnnotationCRIUVersion : string := "pod-migrate.io/criu-version".

Definition annotateNode {S R} (nodeName version : string) (ready : bool) : gom hresp S R (option string) :=
  let* x := hcall (HGetNode nodeName) in
  match x with
  | inl err => gret (Some err)
  | inr node =>
      hcall (HPatchNode nodeName (hn_annotations node)
        (<[NodeAnnotationCRIUVersion := version]> (<[NodeAnnotationCRIUReady := if ready then "true" else "false"]> (hn_annotations node))))
  end.

Definition Bootstrap (nodeName : string) : fn hresp unit (option string) := gfun (
  let* x := hcall (HGetNode nodeName) in
  match x with
  | inl err => gret (Some err)
  | inr node =>
      match CheckContainerdVersion (hn_containerRuntimeVersion node) with
      | Some err => do* annotateNode nodeName "" false in gret (Some err)
      | None =>
          let* x := ginvoke installCRIUBundle in
          match x with
          | inl err => gret (Some err)
          | inr version => let* v := verifyCRIU in annotateNode nodeName version (fst v)
          end
      end
  end).
