(* ===== verification/HostInstances.v ===== *)
(** * A node to run on

    Sample specs, and a node whose files, containerd and runc answer as they do when
    everything works: the runs that show that the theorems apply. *)
From S2P Require Import Prelude Effects GoLib Paths OciSpec HostOps HostRestore.

#[export] Instance chain_id : OCIIdentity := { ChainID l := Join l " " }.

(** The calls that read the clock, and those that sleep. *)
#[export] Instance host_clock : Clocked hresp := {
  reading e := match e return hresp e -> option Z with HNow => fun now => Some now | _ => fun _ => None end;
  slept e := match e with HSleep d => d | _ => 0 end }.

Definition linux_of (owner : string) : Linux :=
  mkLinux [mkNamespace "network" "/proc/7/ns/net"; mkNamespace "cgroup" ""] ("/" +s owner) (owner +s "-seccomp") [] [] "" "" "" "" "" "" "" "" "" "" "".
Definition process_of (owner : string) : Process := mkProcess [owner] (owner +s "-caps") "0" true "" "" "" "" "".

Definition source_spec : OciSpec :=
  mkOciSpec (Some (process_of "app")) (Some (mkRoot "rootfs" true))
    [mkMount "/data" "bind" "/var/lib/kubelet/pods/uid-a/volumes/data" ["rbind"] "" "";
     mkMount "/cache" "bind" "/var/lib/containerd/cri/containers/c0/volumes/vol1" ["rbind"; "suid"] "" ""]
    "hooks" (list_to_map [("io.kubernetes.cri.sandbox-id", "sandbox-a")]) (Some (linux_of "source")) "".
Definition target_spec : OciSpec :=
  mkOciSpec (Some (process_of "holder")) (Some (mkRoot "rootfs" true))
    [mkMount "/data" "bind" "/var/lib/kubelet/pods/uid-b/volumes/data" ["rbind"] "" "";
     mkMount "/pmhold" "bind" "/var/lib/kubelet/pods/uid-b/volumes/pmhold" ["rbind"] "" ""]
    "" (list_to_map [("io.kubernetes.cri.sandbox-id", "sandbox-b")]) (Some (linux_of "target")) "".
Definition sample_params : AdaptParams :=
  mkAdaptParams "/run/rootfs" 42 "/kubepods/pod-b/pm-job" "uid-a" "uid-b" "sandbox-a" "sandbox-b" [] "/run/anon-volumes" (Some target_spec).

Definition holder_labels : gmap string string :=
  list_to_map [("io.kubernetes.pod.namespace", "shop"); ("io.kubernetes.pod.name", "web-0"); ("io.kubernetes.container.name", "app");
               ("io.cri-containerd.kind", "container"); ("io.kubernetes.pod.uid", "uid-b")].

(** A checkpoint that is complete, and one that climbs out of the directory. *)
Definition good_tar : list TarEntry :=
  [mkTarEntry "checkpoint" TypeDir 493 []; mkTarEntry "checkpoint/pages-1.img" TypeReg 420 [1]; mkTarEntry "checkpoint/pstree.img" TypeReg 2541 [2];
   mkTarEntry "spec.dump" TypeReg 420 [3]; mkTarEntry "config.dump" TypeReg 420 [4]].

(** The answers: the clock tells [now] and every sleep advances it. *)
Definition host_answer (version : string) (now : Z) (e : HEv) : hresp e :=
  match e return hresp e with
  | HGetNode _ => inr (mkHostNode (list_to_map [("zone", "a")]) ("containerd://" +s version))
  | FReadDir _ => inr ["criu"; "VERSION"]
  | FReadFile path =>
      if path ==s "/proc/42/cgroup" then inr "0::/kubepods/pod-b/holder"
      else if path ==s path_Join [criuConfDir; "runc.conf"] then inr runcConf
      else if path_Base path ==s "pid" then inr "1234"
      else inr "v1"
  | FCreateTemp dir pattern => inr (dir +s "/tmp")
  | FReadTar _ _ => inr (good_tar, None)
  | HExec _ name args => (if has args "check" then "Looks good." else "Version: 3.19", None)
  | HExecRestore _ _ _ args => if has args "ignore" then ("", None) else ("Error (cgroup): no cgroup", Some "exit 1")
  | CContainers => inr ["c0"; "c1"]
  | CLabels id => if id ==s "c1" then inr holder_labels else inl "gone"
  | CSpec _ => inr target_spec
  | CInfo _ => inr "web:1"
  | CTask _ => inr 42
  | CTaskExit _ => Exited
  | HPost _ _ => inr (200, "")
  | FStat _ => inr 1
  | FGlob _ => []
  | FReadlink path => inr path
  | HGetenv _ => ""
  | CGetImage image => inr image
  | CRootFS _ => inr ["layer0"; "layer1"]
  | CLeaseCreate id => inr id
  | CPrepare key _ _ => inr key
  | HNow => now
  | HSleep _ => tt
  | HPatchNode _ _ _ | FOpen _ | FWriteFile _ _ _ | FWriteSpec _ _ | FMkdirAll _ _ | FRemove _ | FRemoveAll _ | FChmod _ _ | FWriteTemp _ _
  | FCloseTemp _ | FRename _ _ | FExtract _ _ _ | CTaskWait _ | CTaskKill _ | CMountAll _ _ | CDecompress _ | CApply _ _ | CUnmountAll _
  | CSnapshotRemove _ | CLeaseDelete _ => None
  end.

Definition host_run {S A} (version : string) (now : Z) (p : prog hresp (S * A)) : Z * trace * (S * A) :=
  run (fun now e => (now + slept e, host_answer version now e)) now p.

Lemma host_exec {S A} version now (p : prog hresp (S * A)) : exec p (snd (fst (host_run version now p))) (snd (host_run version now p)).
Proof. apply run_exec. Qed.

Definition sample_inputs : HostRestoreInputs := mkHostRestoreInputs "job" "shop" "web-0" "app" "uid-a" "uid-b" "/work/ps" false (Some source_spec).
