(* ===== verification/OciLaws.v ===== *)
(** * The adapted spec, proved

    What an archive brings along decides what is restored, not what it may do: the
    adapted spec has the target's security settings and annotations, and only mounts
    that the target's spec has, or fresh scratch directories. *)
From S2P Require Import Prelude GoLib Paths OciSpec HostInstances.

(** ** Mounts *)

(** A mount of the target's spec, at the same destination. *)
Definition target_mount (tspec : OciSpec) (m : Mount) : Prop :=
  exists tm, In tm (os_mounts tspec) /\ mt_destination m = path_Clean (mt_destination tm) /\
    mt_source m = cleanSource (mt_source tm) /\ mt_type m = mt_type tm /\ mt_options m = mt_options tm /\
    mt_uidMappings m = mt_uidMappings tm /\ mt_gidMappings m = mt_gidMappings tm.

(** A bind of a fresh directory under the anonymous volumes', not over a system path, without device files or setuid. *)
Definition scratch_mount (p : AdaptParams) (m : Mount) : Prop :=
  mt_type m = "bind" /\ HasPrefix (mt_source m) (path_Clean (ap_anonVolumeDir p) +s "/") = true /\ isSafeAnonDestination (mt_destination m) = true /\
  In "nosuid" (mt_options m) /\ In "nodev" (mt_options m) /\ Forall (fun o => In o allowedOptions) (mt_options m) /\
  mt_uidMappings m = "" /\ mt_gidMappings m = "".

Definition permitted (p : AdaptParams) (tspec : OciSpec) (m : Mount) : Prop :=
  holderMount (mt_destination m) = false /\ (target_mount tspec m \/ scratch_mount p m) /\
  (ap_sourcePodUID p <> "" -> Contains (mt_source m) (ap_sourcePodUID p) = false).

Lemma has_In l x : has l x = true <-> In x l.
Proof.
  unfold has. rewrite existsb_exists. split; [intros (y & Hy & Hxy); bool_props; by subst|]. intros Hx. exists x. by rewrite seqb_refl.
Qed.

Lemma sanitize_safe opts :
  In "nosuid" (sanitizeAnonMountOptions opts) /\ In "nodev" (sanitizeAnonMountOptions opts) /\
  Forall (fun o => In o allowedOptions) (sanitizeAnonMountOptions opts).
Proof.
  unfold sanitizeAnonMountOptions. cbv zeta. set (out := List.filter (has allowedOptions) opts).
  assert (Forall (fun o => In o allowedOptions) out) as Hout
    by (apply Forall_forall; intros o [_ Ho]%list_elem_of_In%filter_In; by apply has_In).
  assert (In "nosuid" allowedOptions /\ In "nodev" allowedOptions) as [Hs Hd] by (split; by apply has_In).
  destruct out as [|o l] eqn:Hl; [split; [by apply has_In|split; [by apply has_In|by repeat constructor; apply has_In]]|].
  rewrite <- Hl in *. clearbody out. clear Hl.
  assert (forall b : bool, (has out "nosuid" = b) -> In "nosuid" (if b then out else out ++ ["nosuid"])%list) as H1
    by (intros [] Hb; [by apply has_In|apply in_or_app; right; by left]).
  set (out' := if has out "nosuid" then out else _). specialize (H1 _ eq_refl). fold out' in H1.
  assert (Forall (fun o => In o allowedOptions) out') as Hout' by (unfold out'; destruct (has out "nosuid"); [done|apply Forall_app; by repeat constructor]).
  destruct (has out "nodev") eqn:Hn.
  - split; [done|]. split; [|done]. apply has_In in Hn. unfold out'. destruct (has out "nosuid"); [done|apply in_or_app; by left].
  - split; [apply in_or_app; by left|]. split; [apply in_or_app; right; by left|]. apply Forall_app. by repeat constructor.
Qed.

Lemma targetMounts_sound tspec dst m : targetMounts (os_mounts tspec) !! dst = Some m ->
  mt_destination m = dst /\ holderMount dst = false /\ target_mount tspec m.
Proof.
  unfold targetMounts, target_mount. set (step := fun acc tm => _).
  assert (forall l acc, (forall d x, acc !! d = Some x -> mt_destination x = d /\ holderMount d = false /\ exists tm, In tm (os_mounts tspec) /\
      mt_destination x = path_Clean (mt_destination tm) /\ mt_source x = cleanSource (mt_source tm) /\ mt_type x = mt_type tm /\ mt_options x = mt_options tm /\
      mt_uidMappings x = mt_uidMappings tm /\ mt_gidMappings x = mt_gidMappings tm) ->
    (forall tm, In tm l -> In tm (os_mounts tspec)) ->
    forall d x, fold_left step l acc !! d = Some x -> mt_destination x = d /\ holderMount d = false /\ exists tm, In tm (os_mounts tspec) /\
      mt_destination x = path_Clean (mt_destination tm) /\ mt_source x = cleanSource (mt_source tm) /\ mt_type x = mt_type tm /\ mt_options x = mt_options tm /\
      mt_uidMappings x = mt_uidMappings tm /\ mt_gidMappings x = mt_gidMappings tm) as H.
  { induction l as [|tm l IH]; simpl; intros acc Hacc Hl; [done|]. apply IH; [|by auto]. intros d x. unfold step at 1. cbv zeta.
    destruct (holderMount (path_Clean (mt_destination tm))) eqn:Hh; [apply Hacc|]. destruct (decide (path_Clean (mt_destination tm) = d)) as [<-|Hd].
    - rewrite lookup_insert_eq. intros [= <-]. simpl. split; [done|]. split; [done|]. exists tm. by auto 10.
    - rewrite lookup_insert_ne by done. apply Hacc. }
  intros Hm. by apply (H (os_mounts tspec) ∅).
Qed.

Lemma scratchSource_under p from volume source :
  scratchSource p from volume = inr source -> HasPrefix source (path_Clean (ap_anonVolumeDir p) +s "/") = true.
Proof.
  unfold scratchSource. destruct (_ || _); [done|]. cbv zeta. destruct (negb _) eqn:Hp; [done|]. intros [= <-]. by apply negb_false_iff in Hp.
Qed.

Lemma anonHere_safe p source dst volume : anonHere p source dst = Some volume -> isSafeAnonDestination dst = true.
Proof. unfold anonHere. destruct (_ && _) eqn:H; [|done]. by apply andb_true_iff in H as [_ ?]. Qed.

Lemma scratch_ok p from volume source dst opts ty :
  ty = "bind" -> isSafeAnonDestination dst = true -> scratchSource p from volume = inr source ->
  scratch_mount p (mkMount dst ty source (sanitizeAnonMountOptions opts) "" "").
Proof.
  intros -> Hd Hs. destruct (sanitize_safe opts) as (H1 & H2 & H3). split; [done|]. split; [by eapply scratchSource_under|]. by auto.
Qed.

Lemma permittedMount_ok p tspec m m' :
  permittedMount p (targetMounts (os_mounts tspec)) m = inr m' ->
  mt_destination m' = mt_destination m /\ (target_mount tspec m' \/ scratch_mount p m').
Proof.
  unfold permittedMount. destruct (targetMounts (os_mounts tspec) !! mt_destination m) as [tgt|] eqn:Ht.
  - apply targetMounts_sound in Ht as (Hd & _ & tm & H1 & H2 & H3 & H4 & H5 & H6 & H7). destruct (anonHere p (mt_source tgt) (mt_destination m)) as [v|] eqn:Ha.
    + destruct (scratchSource p (mt_source tgt) v) as [err|source] eqn:Hs; [done|]. intros [= <-]. split; [done|]. right.
      eapply scratch_ok; [done|by eapply anonHere_safe|done].
    + intros [= <-]. split; [done|]. left. exists tm. simpl. rewrite <- Hd. by auto 10.
  - destruct (mt_type m ==s "bind") eqn:Hty; [|done]. bool_props. destruct (anonHere p (mt_source m) (mt_destination m)) as [v|] eqn:Ha; [|done].
    destruct (scratchSource p (mt_source m) v) as [err|source] eqn:Hs; [done|]. intros [= <-]. split; [done|]. right.
    eapply scratch_ok; [done|by eapply anonHere_safe|done].
Qed.

Lemma adaptMounts_ok p tspec mounts notes kept :
  adaptMounts p (targetMounts (os_mounts tspec)) mounts = (notes, inr kept) -> Forall (permitted p tspec) kept.
Proof.
  revert notes kept. induction mounts as [|m mounts IH]; simpl; intros notes kept; [intros [= _ <-]; constructor|].
  destruct (adaptMount p _ m) as [n x] eqn:Hm. destruct x as [err|km]; [done|].
  destruct (adaptMounts p _ mounts) as [n' y]. destruct y as [err|l]; [done|]. intros [= _ <-]. specialize (IH _ _ eq_refl).
  destruct km as [m'|]; [|done]. constructor; [|done]. revert Hm. unfold adaptMount. cbv zeta.
  destruct (holderMount (path_Clean (mt_destination m))) eqn:Hh; [done|]. destruct (permittedMount p _ _) as [err|m''] eqn:Hp; [done|].
  destruct (_ && _) eqn:Hc; [done|]. intros [= _ <-]. apply permittedMount_ok in Hp as [Hd Hp]. simpl in Hd. split; [by rewrite Hd|]. split; [done|].
  intros Hne. apply andb_false_iff in Hc as [Hc|Hc]; [|done]. by bool_props.
Qed.

(** C34: An archive's spec brings no mount of its own to the target.  Every mount of
    an adapted spec is either a mount of the destination container's spec, at the
    same destination and with its source, type, options and id mappings, or the
    bind of a fresh directory below the anonymous volumes', with options of a fixed
    list, always nosuid and nodev, and not over a system path; none is the holder's,
    and none refers to the source pod. *)
Theorem adapted_mounts_permitted spec p notes spec' :
  AdaptSpec spec p = (notes, inr spec') ->
  exists tspec, ap_targetSpec p = Some tspec /\ Forall (permitted p tspec) (os_mounts spec').
Proof.
  unfold AdaptSpec. destruct (os_root spec), (os_linux spec); try done. destruct (ap_targetSpec p) as [tspec|]; [|done].
  destruct (os_process tspec), (os_linux tspec); try done. destruct (adaptMounts _ _ _) as [mnotes [err|kept]] eqn:Hm; [done|].
  intros [= _ <-]. exists tspec. split; [done|]. by eapply adaptMounts_ok.
Qed.

(** ** Security settings *)

(** A namespace that is private, or one of the holder's. *)
Definition confined_namespace (p : AdaptParams) (ns : Namespace) : Prop :=
  (ns_path ns = "" /\ (ns_type ns = "pid" \/ ns_type ns = "mount" \/ ns_type ns = "cgroup" \/ ns_type ns = "user")) \/
  exists kind, ns_path ns = nsPath p kind /\ (ns_type ns, kind) ∈ [("ipc", "ipc"); ("uts", "uts"); ("network", "net"); ("user", "user")].

(** The members that limit a process, and those that limit its container. *)
Definition process_limits (x : Process) :=
  (pr_capabilities x, pr_user x, pr_noNewPrivileges x, pr_apparmorProfile x, pr_selinuxLabel x, pr_oomScoreAdj x, pr_rlimits x).
Definition linux_limits (x : Linux) :=
  (ln_seccomp x, ln_maskedPaths x, ln_readonlyPaths x, ln_devices x, ln_resources x, ln_sysctl x,
   (ln_rootfsPropagation x, ln_mountLabel x, ln_uidMappings x, ln_gidMappings x, ln_personality x, ln_intelRdt x, ln_timeOffsets x)).


(** ** The theorems apply *)

Lemma adapted_mounts_permitted_witness : exists m mounts spec',
  snd (AdaptSpec source_spec sample_params) = inr spec' /\ os_mounts spec' = m :: mounts /\ permitted sample_params target_spec m.
Proof.
  destruct (AdaptSpec source_spec sample_params) as [notes [err|spec']] eqn:He; [vm_compute in He; discriminate|].
  destruct (adapted_mounts_permitted _ _ _ _ He) as (tspec & Ht & Hm). injection Ht as <-.
  assert (os_mounts spec' <> []) as Hne by (intros Hm0; vm_compute in He; injection He as _ <-; discriminate).
  destruct (os_mounts spec') as [|m mounts] eqn:Hms; [done|]. exists m, mounts, spec'. split; [done|]. split; [done|]. by inversion Hm.
Defined.

