(* ===== verification/HostLaws.v ===== *)
(** * The node agent, proved

    The containers it finds, the files it extracts, the specs it restores, and the
    verdict it publishes on its node. *)
From S2P Require Import Prelude Effects GoLib Paths OciSpec OciLaws HostOps HostRestore HostInstances.

Abbreviation hhistory := (@trace HEv hresp).

(** ** Containers *)

(** The calls that look for a container. *)
Definition containerd_read (e : HEv) : Prop :=
  match e with CContainers | CLabels _ | CSpec _ | CInfo _ | CTask _ => True | _ => False end.

Section Find.
Context (podNS podName podUID containerName : string).
Context (allowed : hhistory -> HEv -> Prop) (Hreads : forall h e, containerd_read e -> allowed h e).
Abbreviation M := (open allowed).

(** What containerd answered of a container that matches. *)
Definition described (h : hhistory) (ref : ContainerRef) : Prop :=
  exists labels task, seen h (CLabels (cr_ID ref)) (inr labels) /\ labels_match podNS podName podUID containerName labels = true /\
    seen h (CSpec (cr_ID ref)) (inr (cr_Spec ref)) /\ cr_SandboxID ref = sandboxID (cr_Spec ref) /\ seen h (CInfo (cr_ID ref)) (inr (cr_ImageName ref)) /\
    seen h (CTask (cr_ID ref)) task /\ cr_Pid ref = match task with inr pid => pid | inl _ => 0 end.

(** It runs, and everything is known of it. *)
Definition runs (ref : ContainerRef) : Prop := cr_Pid ref <> 0 /\ cr_ImageName ref <> "".

Lemma complete_runs ref : complete ref = true <-> runs ref.
Proof. unfold complete, runs. destruct (Z.eqb_spec (cr_Pid ref) 0), (String.eqb_spec (cr_ImageName ref) ""); simpl; naive_solver. Qed.
Lemma incomplete_idle ref : complete ref = false -> ~ runs ref.
Proof. intros Hc Hr. apply complete_runs in Hr. congruence. Qed.

(** A container that does not match, could not be asked, or does not run. *)
Definition passed_over (h : hhistory) (id : string) : Prop :=
  exists x, seen h (CLabels id) x /\
    forall labels, x = inr labels -> labels_match podNS podName podUID containerName labels = true ->
      exists ref, cr_ID ref = id /\ described h ref /\ ~ runs ref.

Lemma stays_described ref : stays (fun h => described h ref).
Proof. intros h h' Hh (labels & task & ? & ? & ? & ? & ? & ? & ?). exists labels, task. split_and!; eauto with history. Qed.
Lemma stays_passed id : stays (fun h => passed_over h id).
Proof.
  intros h h' Hh (x & Hx & H). exists x. split; [eauto with history|]. intros labels Hl Hm.
  destruct (H labels Hl Hm) as (ref & ? & Hd & ?). exists ref. split; [done|]. split; [|done]. exact (stays_described _ _ _ Hh Hd).
Qed.

Definition found (h : hhistory) (r : failed ContainerRef) : Prop :=
  match r with
  | inr ref => described h ref /\ (~ runs ref -> exists ids, seen h CContainers (inr ids) /\ Forall (passed_over h) ids)
  | inl _ => True
  end.

Lemma wpg_search {S} (ids : list string) (fallback : option ContainerRef) h (s : S) (Qr : hhistory -> S -> failed ContainerRef -> Prop) (Q : hhistory -> S -> option ContainerRef -> Prop) :
  (forall h' err, continues h h' -> Qr h' s (inl err)) ->
  (forall h' ref, continues h h' -> described h' ref -> runs ref -> Qr h' s (inr ref)) ->
  (forall ref, fallback = Some ref -> described h ref /\ ~ runs ref) ->
  (forall h' x, continues h h' -> Forall (passed_over h') ids -> (forall ref, x = Some ref -> described h' ref /\ ~ runs ref) -> Q h' s x) ->
  wpg M (searchContainers podNS podName podUID containerName ids fallback) h s Qr Q.
Proof.
  revert fallback h. induction ids as [|id ids IH]; intros fallback h Herr Hok Hf HQ; [simpl; gstep; by apply HQ; auto with history|].
  assert (forall h', continues h h' -> passed_over h' id -> forall fb, (forall ref, fb = Some ref -> described h' ref /\ ~ runs ref) ->
    wpg M (searchContainers podNS podName podUID containerName ids fb) h' s Qr Q) as Hnext.
  { intros h' Hh Hp fb Hfb. apply IH; [intros; apply Herr; by eapply continues_trans|intros; apply Hok; [by eapply continues_trans|done..]|done|].
    intros h'' x Hh' Hids Hx. apply HQ; [by eapply continues_trans|constructor; [exact (stays_passed _ _ _ Hh' Hp)|done]|done]. }
  assert (forall h', continues h h' -> forall ref, fallback = Some ref -> described h' ref /\ ~ runs ref) as Hf'
    by (intros h' Hh ref Hr; destruct (Hf ref Hr); split; [by eapply stays_described|done]).
  simpl. unfold hcall. gstep. apply (wpg_call M (CLabels _)); [by apply Hreads|]. intros [err|labels] _.
  { apply Hnext; [eauto with history| |apply Hf'; eauto with history]. eexists. split; [apply seen_now|done]. }
  gstep.
  { bool_props. apply Hnext; [eauto with history| |apply Hf'; eauto with history]. eexists. split; [apply seen_now|]. intros l [= <-]. congruence. }
  bool_props. gstep. apply (wpg_call M (CSpec _)); [by apply Hreads|]. intros [err|spec] _; [gstep; apply Herr; eauto with history|].
  gstep. apply (wpg_call M (CInfo _)); [by apply Hreads|]. intros [err|image] _; [gstep; apply Herr; eauto with history|].
  gstep. apply (wpg_call M (CTask _)); [by apply Hreads|]. intros task _. cbv zeta.
  set (ref := mkContainerRef id _ _ spec image). set (h' := existT (CTask id) task :: _).
  assert (described h' ref) as Hd by (exists labels, task; unfold h'; simpl; split_and!; eauto 6 with history).
  gstep; [gstep; apply Hok; [unfold h'; eauto with history|done|by apply complete_runs]|].
  apply Hnext; [unfold h'; eauto with history| |intros ? [= <-]; split; [done|by apply incomplete_idle]].
  eexists. split; [unfold h'; eauto with history|]. intros l [= <-] _. exists ref. split_and!; [done|done|by apply incomplete_idle].
Qed.

Lemma wpf_findContainer {S} h (s : S) : wpf M (findContainer podNS podName podUID containerName) h s (fun h' s' r => continues h h' /\ s' = s /\ found h' r).
Proof.
  unfold findContainer, hcall. gstep. gstep. apply (wpg_call M CContainers); [by apply Hreads|]. intros [err|ids] _; [gstep; split_and!; [eauto with history|done|done]|].
  gstep. apply wpg_search; [intros; split; [eapply continues_trans; [|done]; eauto with history|done]| |done|].
  - intros h' ref Hh Hd Hc. split; [eapply continues_trans; [|done]; eauto with history|]. split; [done|]. by split.
  - intros h' x Hh Hids Hx. gstep. split; [eapply continues_trans; [|done]; eauto with history|]. split; [done|].
    destruct x as [ref|]; [|done]. destruct (Hx ref eq_refl) as [Hd _]. split; [done|]. intros _. exists ids. split; [|done].
    eapply seen_continues; [exact Hh|apply seen_now].
Qed.

End Find.

(** The container found is the one asked for, and one that runs if there is one.
    Whatever containerd answers: its labels name the namespace, the pod, its UID if
    one is asked for, and the container; spec, image and process are what was
    answered for it; and if it does not run, no listed container that matches was
    found running. *)
Theorem container_found_exact {S} podNS podName podUID containerName (s : S) t s' r :
  exec (findContainer podNS podName podUID containerName s) t (s', r) -> s' = s /\ found podNS podName podUID containerName (rev t) r.
Proof.
  intros Hx. pose proof (wpf_findContainer podNS podName podUID containerName (fun _ _ => True) (fun _ _ _ => I) [] s) as Hw.
  exact (proj2 (proj2 (wpf_exec _ _ _ _ _ _ _ Hw Hx (fair_open _ _)))).
Qed.

(** ** Extraction *)

Section Extract.
Context (tarPath dst : string) (Habs : IsAbs dst = true).

(** Files are made only inside the directory, directories also the one above it. *)
Definition extract_allows (h : hhistory) (e : HEv) : Prop :=
  match e with
  | FExtract p mode _ => within (path_Clean dst) p /\ 0 <= mode <= 511
  | FMkdirAll p _ => within (path_Clean dst) p \/ p = path_Dir (path_Clean dst)
  | FReadTar p limit => p = tarPath /\ limit = maxTarBytes
  | _ => False
  end.
Abbreviation M := (open extract_allows).

(** What a run that succeeds has unpacked. *)
Definition unpacked (h : hhistory) (r : list string * option string) : Prop :=
  snd r = None -> exists entries, seen h (FReadTar tarPath maxTarBytes) (inr (entries, None)) /\ fst r = map te_name entries /\
    Z.of_nat (length entries) <= maxTarEntries /\ Forall (fun e => te_type e = TypeReg \/ te_type e = TypeDir) entries /\ ValidateCheckpointTar (fst r) = None.

Lemma wpg_extractEntries {S} seen_ entries stop names h (s : S) (Qr : hhistory -> S -> list string * option string -> Prop) (Q : hhistory -> S -> list string -> Prop) :
  0 <= seen_ <= maxTarEntries ->
  (forall h' l err, Qr h' s (l, Some err)) ->
  (forall h', continues h h' -> stop = None -> seen_ + Z.of_nat (length entries) <= maxTarEntries ->
     Forall (fun e => te_type e = TypeReg \/ te_type e = TypeDir) entries -> Q h' s (rev (map te_name entries) ++ names)%list) ->
  wpg M (extractEntries dst seen_ entries stop names) h s Qr Q.
Proof.
  revert seen_ names h. induction entries as [|e entries IH]; intros seen_ names h Hseen Herr HQ.
  { simpl. destruct stop; gstep; [by apply Herr|]. apply HQ; [auto with history|done|simpl; lia|constructor]. }
  simpl. gstep; [by gstep|]. cbv zeta. gstep; [by gstep|]. bool_props.
  assert (within (path_Clean dst) (path_Join [dst; path_Clean (te_name e)])) as Hin by (by apply join_within).
  assert (forall h', continues h h' -> (te_type e = TypeReg \/ te_type e = TypeDir) ->
    wpg M (extractEntries dst (seen_ + 1) entries stop (te_name e :: names)) h' s Qr Q) as Hnext.
  { intros h' Hh Hty. apply IH; [lia|done|]. intros h'' Hh' Hst Hlen Hall.
    assert (Q h'' s (rev (map te_name (e :: entries)) ++ names)%list) as Hq
      by (apply HQ; [by eapply continues_trans|done|simpl length; lia|by constructor]).
    simpl in Hq. by rewrite <- app_assoc in Hq. }
  unfold hcall. destruct (te_type e) eqn:Hty; [| |by gstep].
  - gstep. apply (wpg_call M (FMkdirAll _ _)).
    { destruct (within_parent _ _ Hin) as [->|Hp]; [by right|by left]. }
    intros [err|] _; [by gstep|]. gstep. apply (wpg_call M (FExtract _ _ _)).
    { split; [done|]. assert (0 <= Z.land (te_mode e) 511 < 2 ^ 9) as Hm; [|lia].
      change 511 with (Z.ones 9). rewrite Z.land_ones by lia. apply Z.mod_pos_bound. lia. }
    intros [err|] _; [by gstep|]. apply Hnext; [eauto with history|by left].
  - gstep. apply (wpg_call M (FMkdirAll _ _)); [by left|]. intros [err|] _; [by gstep|]. apply Hnext; [eauto with history|by right].
Qed.

Lemma wpf_extractCheckpoint {S} (s : S) : wpf M (extractCheckpoint tarPath dst) [] s (fun h s' r => s' = s /\ unpacked h r).
Proof.
  unfold extractCheckpoint, hcall. gstep. gstep. apply (wpg_call M (FReadTar _ _)); [done|]. intros [err|[entries stop]] _; [by gstep|].
  gstep. apply wpg_extractEntries; [done|done|]. intros h Hh -> Hlen Hall. gstep. split; [done|]. rewrite app_nil_r, rev_involutive. intros Hv.
  exists entries. split; [eapply seen_continues; [exact Hh|apply seen_now]|]. split; [done|]. split; [simpl in Hlen; lia|done].
Qed.

End Extract.

(** ** The theorems apply *)

Abbreviation find_run := (host_run "2.2.8" 0 (findContainer "shop" "web-0" "uid-b" "app" tt)).

Lemma container_found_exact_witness : exists ref, snd find_run = (tt, inr ref) /\ described "shop" "web-0" "uid-b" "app" (rev (snd (fst find_run))) ref /\ cr_Pid ref = 42.
Proof.
  assert (exists ref, snd find_run = (tt, inr ref) /\ cr_Pid ref = 42) as (ref & Hr & Hp) by (eexists; vm_compute; split; reflexivity).
  exists ref. split; [done|]. split; [|done].
  refine (proj1 (proj2 (container_found_exact "shop" "web-0" "uid-b" "app" tt (snd (fst find_run)) tt (inr ref) _))).
  exact (eq_rect _ (exec _ _) (host_exec "2.2.8" 0 _) _ Hr).
Defined.

Abbreviation extract_run := (host_run "2.2.8" 0 (extractCheckpoint "/work/ps.tar" "/work/ps" tt)).

