(* ===== verification/HostRestoreLaws.v ===== *)
(** * Restoring on a node, proved

    runc restores only the adapted spec, into the target pod's sandbox; the wait for
    the holder ends; and a node is announced as ready for CRIU only after a check. *)
From S2P Require Import Prelude Effects GoLib Paths OciSpec OciLaws HostOps HostRestore HostInstances HostLaws.

(** ** The wait ends *)

Section Wait.
Context (in_ : HostRestoreInputs) (start deadline : Z) (allowed : hhistory -> HEv -> Prop).
Context (Hreads : forall h e, containerd_read e -> allowed h e) (Hnow : forall h, allowed h HNow) (Hsleep : forall h d, allowed h (HSleep d)).
Abbreviation M := (open allowed).

Lemma wpf_awaitHolder_ends {S} fuel h (s : S) :
  (ticks start h -> deadline - time_of start h < (Z.of_nat fuel - 1) * holderPoll /\ time_of start h <= deadline + holderPoll) ->
  wpf M (awaitHolder fuel in_ deadline) h s (fun h' s' r => ticks start h' -> r <> None /\ continues h h').
Proof.
  revert h. induction fuel as [|fuel IH]; intros h Hb; simpl; gstep.
  { gstep. intros Hh. specialize (Hb Hh). unfold holderPoll in *. lia. }
  gstep. apply wpg_invoke. eapply wpf_conseq; [apply wpf_findContainer; done|]. intros h1 s1 r (H1 & -> & _).
  set (Q := fun (h' : hhistory) (_ : S) (r : option (failed ContainerRef)) => ticks start h' -> r <> None /\ continues h h').
  assert (forall err, wpg M (let* now := hcall HNow in
      if After now deadline then gret (Some (inl err)) else do* hcall (HSleep holderPoll) in ginvoke (awaitHolder fuel in_ deadline)) h1 s Q Q) as Hagain.
  { intros err. unfold hcall. gstep. apply (wpg_call M HNow); [apply Hnow|]. intros now _. gstep; [gstep; intros _; split; [done|eauto with history]|].
    gstep. apply (wpg_call M (HSleep _)); [apply Hsleep|]. intros u _. apply wpg_invoke. eapply wpf_conseq; [apply IH|].
    - intros [[Ht Hn] _]. simpl in *. destruct (ticks_continues start h h1 H1 Ht) as [H0 Hle]. specialize (Hb H0).
      unfold After in *. bool_props. unfold holderPoll in *. lia.
    - intros h2 s2 r2 H2 Ht. destruct (H2 Ht) as [? Hc]. split; [done|]. eapply continues_trans; [|exact Hc]. auto with history. }
  destruct r as [err|holder]; [apply Hagain|]. gstep; [by gstep|apply Hagain].
Qed.
End Wait.

(** ** What is restored *)

Section Restore.
Context `{OCIIdentity} (in_ : HostRestoreInputs).

Abbreviation id := (container_id (hi_migrationName in_)).
Abbreviation bundleDir := (path_Join [pmRoot; "bundles"; id]).
Abbreviation imagePath := (if hi_preCopy in_ then hi_checkpointDir in_ else path_Join [hi_checkpointDir in_; "checkpoint"]).
Abbreviation first_variant := (hd [] (variants bundleDir imagePath id)).

(** The holder: the target pod's container, which runs. *)
Definition holder_found (h : hhistory) (holder : ContainerRef) : Prop :=
  described (hi_podNamespace in_) (hi_targetPod in_) (hi_targetPodUID in_) (hi_containerName in_) h holder /\ runs holder.

(** [spec] is the archive's spec adapted to that holder, in its pod's cgroup. *)
Definition adapted (h : hhistory) (spec : OciSpec) : Prop :=
  exists src holder p notes procCg podSlice,
    hi_srcSpec in_ = Some src /\ holder_found h holder /\ AdaptSpec src p = (notes, inr spec) /\
    ap_targetSpec p = Some (cr_Spec holder) /\ ap_holderPid p = cr_Pid holder /\ ap_sourcePodUID p = hi_sourcePodUID in_ /\
    ap_anonVolumeDir p = path_Join [bundleDir; "anon-volumes"] /\
    seen h (FReadFile ("/proc/" +s pretty (cr_Pid holder) +s "/cgroup")) (inr procCg) /\ PodSliceFromProcCgroup procCg = inr podSlice /\
    ap_cgroupsPath p = podSlice +s "/" +s id.

(** The bundle holds the adapted spec, and CRIU validates files. *)
Definition bundle_ready (h : hhistory) : Prop :=
  exists spec conf, adapted h spec /\ seen h (FWriteSpec (path_Join [bundleDir; "config.json"]) spec) None /\
    seen h (FReadFile (path_Join [criuConfDir; "runc.conf"])) (inr conf) /\ Contains conf "file-validation" = true.

(** The variant may be tried: the first one, or the second after the first failed over cgroups. *)
Definition variant_due (h : hhistory) (args : list string) : Prop :=
  args = first_variant \/
  (In args (variants bundleDir imagePath id) /\
   exists log out err, seen h (HExecRestore restoreEnv log "runc" first_variant) (out, Some err) /\ Contains out "cgroup" = true).

(** A file kept for a failed restore. *)
Definition saved (path : string) : Prop := exists file, path = path_Join [path_Join [pmRoot; "failed"; id]; file].

Definition host_allows (h : hhistory) (e : HEv) : Prop :=
  match e with
  | HExecRestore _ _ name args => bundle_ready h /\ name = "runc" /\ variant_due h args
  | FWriteSpec path spec => path = path_Join [bundleDir; "config.json"] /\ adapted h spec
  | HExec _ name args => HExec [] name args = runc_delete id \/ (name = criuBundleDir +s "/criu" /\ args = ["--version"])
  | FWriteFile path _ _ => saved path
  | FRemoveAll path => path = bundleDir
  | CUnmountAll path => path = path_Join [bundleDir; "rootfs"]
  | CSnapshotRemove key => key = id
  | CLeaseDelete lease => lease = "lease-" +s id
  | CTaskKill _ | HPatchNode _ _ _ | FRename _ _ | FRemove _ | FExtract _ _ _ => False
  | _ => True
  end.
Abbreviation M := (open host_allows).

Lemma stays_holder holder : stays (fun h => holder_found h holder).
Proof. intros h h' Hh (? & ?). split; [by eapply stays_described|done]. Qed.
Lemma stays_adapted spec : stays (fun h => adapted h spec).
Proof.
  intros h h' Hh (src & holder & p & notes & procCg & podSlice & H1 & H2 & H3 & H4 & H5 & H6 & H7 & H8 & H9 & H10).
  exists src, holder, p, notes, procCg, podSlice. split; [done|]. split; [exact (stays_holder _ _ _ Hh H2)|].
  pose proof (seen_continues _ _ _ _ Hh H8). by split_and!.
Qed.
Lemma stays_bundle : stays bundle_ready.
Proof. intros h h' Hh (spec & conf & ? & ? & ? & ?). exists spec, conf. split; [by eapply stays_adapted|]. split_and!; eauto with history. Qed.

Lemma stays_variant args : stays (fun h => variant_due h args).
Proof.
  intros h h' Hh [?|(? & log & out & err & H1 & ?)]; [by left|]. right. split; [done|]. exists log, out, err.
  split; [exact (seen_continues _ _ _ _ Hh H1)|done].
Qed.

(** The wait for the holder. *)
Lemma wpf_awaitHolder {S} fuel deadline h (s : S) (Q : hhistory -> S -> option (failed ContainerRef) -> Prop) :
  (forall h' r, continues h h' -> (forall holder, r = Some (inr holder) -> holder_found h' holder) -> Q h' s r) ->
  wpf M (awaitHolder fuel in_ deadline) h s Q.
Proof.
  revert h. induction fuel as [|fuel IH]; intros h HQ; simpl; gstep; [gstep; by apply HQ; [auto with history|]|].
  gstep. apply wpg_invoke. eapply wpf_conseq; [apply wpf_findContainer; intros h' e He; by destruct e|].
  intros h1 s' r (Hh & -> & Hf). unfold hcall. destruct r as [err|holder].
  - gstep. apply (wpg_call M HNow); [exact I|]. intros now _. gstep; [gstep; apply HQ; [eauto with history|done]|].
    gstep. apply (wpg_call M (HSleep _)); [exact I|]. intros u _. apply wpg_invoke, IH. intros h' r Hh'. apply HQ.
    eapply continues_trans; [|exact Hh']. eauto with history.
  - gstep; [gstep; apply HQ; [done|]; intros ref [= <-]; split; [by destruct Hf|by apply complete_runs]|].
    gstep. apply (wpg_call M HNow); [exact I|]. intros now _. gstep; [gstep; apply HQ; [eauto with history|done]|].
    gstep. apply (wpg_call M (HSleep _)); [exact I|]. intros u _. apply wpg_invoke, IH. intros h' r Hh'. apply HQ.
    eapply continues_trans; [|exact Hh']. eauto with history.
Qed.

(** Nothing that a helper of the restore calls is restricted. *)
Definition harmless (e : HEv) : Prop :=
  match e with
  | FReadFile _ | FStat _ | FGlob _ | FReadlink _ | FMkdirAll _ _ | FOpen _ | CGetImage _ | CRootFS _ | CLeaseCreate _
  | CPrepare _ _ _ | CMountAll _ _ | CDecompress _ | CApply _ _ | HNow | HSleep _ => True
  | FWriteFile path _ _ => saved path
  | CSnapshotRemove key => key = id
  | CLeaseDelete lease => lease = "lease-" +s id
  | FRemoveAll path => path = bundleDir
  | CUnmountAll path => path = path_Join [bundleDir; "rootfs"]
  | HExec _ name args => HExec [] name args = runc_delete id \/ (name = criuBundleDir +s "/criu" /\ args = ["--version"])
  | _ => False
  end.
Lemma harmless_allowed h e : harmless e -> host_allows h e.
Proof. by destruct e. Qed.

Ltac harmless_calls :=
  unfold hcall, need, need_ok, step_of, step_ok; repeat (gonly_step || exact I || done || (eexists; reflexivity) || (eexists; eexists; reflexivity) || (simpl; by auto)).

(** Bodies that do not return, and bodies that return an error. *)
Abbreviation steady m := (gonly harmless (fun _ => False) m).
Abbreviation failing m := (gonly harmless (fun r => exists err, r = Some (Some err)) m).

Lemma harmless_rewrites {S R} spec uid : steady (projectedVolumeRewrites spec uid : gom hresp S R _).
Proof.
  unfold projectedVolumeRewrites. destruct spec as [spec|]; [|gonly_step]. induction (os_mounts spec) as [|m l IH]; simpl; [gonly_step|].
  unfold projectedRewrites, terminationRewrites, subpathRewrites. harmless_calls.
Qed.

Lemma harmless_prepareRootfs {S} image dir diff : fonly harmless (prepareRootfs image id dir diff : fn hresp S _).
Proof. unfold prepareRootfs, applyDiff. harmless_calls. Qed.

Lemma harmless_makeScratch dir mounts : failing (makeScratch dir mounts).
Proof. induction mounts as [|m l IH]; simpl; harmless_calls. Qed.

Lemma harmless_cleanup {S R} : steady (cleanup (hi_migrationName in_) "" "" false : gom hresp S R _).
Proof. unfold cleanup. change ("" !=s "") with false. cbv iota zeta. unfold teardown, unmountAll, runc_delete. harmless_calls. Qed.

Lemma harmless_artifact {S R} file content : steady (saveFailureArtifact id file content : gom hresp S R _).
Proof. unfold saveFailureArtifact. harmless_calls. Qed.

Lemma harmless_signature {R} dir out : steady (failureSignature dir out : gom hresp RestoreOut R _).
Proof. unfold failureSignature, tailFile. harmless_calls. Qed.

Lemma harmless_version : steady recordVersion.
Proof. unfold recordVersion. harmless_calls. Qed.

Lemma harmless_timeNs pid : steady (recordTimeNs pid).
Proof. unfold recordTimeNs. harmless_calls. Qed.

(** A step of the restore that may fail. *)
Lemma wpg_need {A} (x : failed A) prefix h s (Qr : hhistory -> RestoreOut -> option (option string) -> Prop) (Q : hhistory -> RestoreOut -> A -> Prop) :
  (forall err, Qr h s (Some (Some err))) -> (forall a, x = inr a -> Q h s a) -> wpg M (need x prefix) h s Qr Q.
Proof. intros Hr HQ. unfold need. destruct x; gstep; [apply Hr|by apply HQ]. Qed.
Lemma wpg_need_ok x prefix h s (Qr : hhistory -> RestoreOut -> option (option string) -> Prop) (Q : hhistory -> RestoreOut -> unit -> Prop) :
  (forall err, Qr h s (Some (Some err))) -> (x = None -> Q h s tt) -> wpg M (need_ok x prefix) h s Qr Q.
Proof. intros Hr HQ. unfold need_ok. destruct x; gstep; [apply Hr|by apply HQ]. Qed.

(** The bundle that is written. *)
Lemma wpg_prepareBundle holder procCg podSlice h s (Qr : hhistory -> RestoreOut -> option (option string) -> Prop) (Q : hhistory -> RestoreOut -> unit -> Prop) :
  holder_found h holder -> seen h (FReadFile ("/proc/" +s pretty (cr_Pid holder) +s "/cgroup")) (inr procCg) -> PodSliceFromProcCgroup procCg = inr podSlice ->
  (forall h' s' err, Qr h' s' (Some (Some err))) ->
  (forall h' s' spec, continues h h' -> adapted h' spec -> seen h' (FWriteSpec (path_Join [bundleDir; "config.json"]) spec) None -> Q h' s' tt) ->
  wpg M (prepareBundle in_ holder podSlice id bundleDir) h s Qr Q.
Proof.
  intros Hh Hcg Hsl Hr HQ. unfold prepareBundle. gstep.
  eapply wpg_only; [apply harmless_rewrites|apply harmless_allowed|done|]. intros h1 s1 rewrites H1.
  gstep. apply wpg_need; [done|]. intros [p img] Hp. gstep. apply wpg_invoke.
  eapply wpf_only; [apply harmless_prepareRootfs|apply harmless_allowed|]. intros h2 s2 x H2.
  gstep. apply wpg_need; [done|]. intros rootfs _. cbv zeta.
  unfold buildAdaptParams in Hp. destruct (hi_srcSpec in_) as [src|] eqn:Hsrc; [|done]. destruct (cr_ImageName holder ==s ""); [done|].
  injection Hp as <- <-. destruct (AdaptSpec src _) as [notes ad] eqn:Had. gstep. gstep. gstep. apply wpg_need; [done|]. intros spec ->.
  gstep. eapply wpg_only; [apply harmless_makeScratch|apply harmless_allowed|intros h' s' r _ [err ->]; apply Hr|]. intros h3 s3 [] H3.
  assert (continues h h3) as H03 by (eapply continues_trans, continues_trans; eauto).
  assert (adapted h3 spec) as Ha.
  { exists src, holder. eexists _, notes, procCg, podSlice. split; [done|]. split; [exact (stays_holder _ _ _ H03 Hh)|]. split; [exact Had|].
    split_and!; try done. by eapply seen_continues. }
  gstep. apply (wpg_call M (FWriteSpec _ _)); [by split|]. intros e _. apply wpg_need_ok; [done|]. intros ->.
  apply (HQ _ _ spec); [eauto with history|exact (stays_adapted _ _ _ (continues_cons _ _ _ (continues_refl _)) Ha)|apply seen_now].
Qed.

(** CRIU is told to validate files. *)
Lemma wpg_checkCriuConf h s (Qr : hhistory -> RestoreOut -> option (option string) -> Prop) (Q : hhistory -> RestoreOut -> unit -> Prop) :
  (forall h' s' err, Qr h' s' (Some (Some err))) ->
  (forall h' s' conf, continues h h' -> seen h' (FReadFile (path_Join [criuConfDir; "runc.conf"])) (inr conf) -> Contains conf "file-validation" = true ->
     ro_fileValidationUsed s' = true -> Q h' s' tt) ->
  wpg M checkCriuConf h s Qr Q.
Proof.
  intros Hr HQ. unfold checkCriuConf, hcall. gstep. apply (wpg_call M (FReadFile _)); [exact I|]. intros [err|conf] _; gstep; [gstep; apply Hr|].
  gstep; [|gstep; apply Hr]. gstep. gstep. apply (HQ _ _ conf); [auto with history|apply seen_now|done|done].
Qed.

(** One try of runc, and what may follow a failed one. *)
Lemma wpg_variant {R} vi args rest last h s (Qr : hhistory -> RestoreOut -> R -> Prop) (Q : hhistory -> RestoreOut -> string * option string -> Prop) :
  bundle_ready h -> variant_due h args ->
  (forall h' s' x log, continues h h' -> seen h' (HExecRestore restoreEnv log "runc" args) x -> Q h' s' x) ->
  (forall h' s' out err log, continues h h' -> seen h' (HExecRestore restoreEnv log "runc" args) (out, Some err) -> Contains out "cgroup" = true ->
     wpg M (runVariants id bundleDir (vi + 1) rest (out, Some err)) h' s' Qr Q) ->
  wpg M (runVariants id bundleDir vi (args :: rest) last) h s Qr Q.
Proof.
  intros Hb Hv HQ Hnext. simpl. unfold hcall. gstep. apply (wpg_call M (HExecRestore _ _ _ _)); [by split_and!|]. intros [out [err|]] _; simpl.
  2: { gstep. eapply HQ; [auto with history|apply seen_now]. }
  set (h0 := existT _ _ :: h). assert (seen h0 (HExecRestore restoreEnv (path_Join [bundleDir; "runc-stdout.log"]) "runc" args) (out, Some err)) as Hx by apply seen_now. assert (continues h h0) as H0 by (subst h0; auto with history).
  gstep. eapply wpg_only; [apply harmless_artifact|apply harmless_allowed|done|]. intros h1 s1 [] H1.
  gstep. apply (wpg_call M (FReadFile _)); [exact I|]. intros lg _. gstep.
  eapply (wpg_only harmless) with (Qr' := fun _ => False); [destruct lg; [apply gonly_ret|apply harmless_artifact]|apply harmless_allowed|done|]. intros h2 s2 [] H2.
  assert (continues h0 h2) as H02 by (eapply continues_trans; [exact H1|]; eapply continues_trans; [|exact H2]; auto with history).
  gstep. gstep. gstep.
  - gstep. eapply HQ; [exact (continues_trans _ _ _ H0 H02)|by eapply seen_continues].
  - bool_props. gstep. apply (wpg_call M (runc_delete id)); [by left|]. intros x _.
    eapply Hnext; [apply continues_cons, (continues_trans _ _ _ H0 H02)|apply seen_continues with h2; [auto with history|by eapply seen_continues]|done].
Qed.

Lemma wpg_runVariants {R} h s (Qr : hhistory -> RestoreOut -> R -> Prop) (Q : hhistory -> RestoreOut -> string * option string -> Prop) :
  bundle_ready h ->
  (forall h' s' x args log, continues h h' -> seen h' (HExecRestore restoreEnv log "runc" args) x -> variant_due h' args -> Q h' s' x) ->
  wpg M (runVariants id bundleDir 0 (variants bundleDir imagePath id) ("", None)) h s Qr Q.
Proof.
  intros Hb HQ. unfold variants at 1. apply wpg_variant; [done|by left|intros; eapply HQ; [done..|by left]|].
  intros h1 s1 out err log H1 Hx Hc. 
  assert (variant_due h1 (nth 1 (variants bundleDir imagePath id) [])) as Hv by (right; split; [right; by left|]; by exists log, out, err).
  apply wpg_variant; [exact (stays_bundle _ _ H1 Hb)|exact Hv| |].
  - intros h' s' x log' Hh Hs. eapply HQ; [by eapply continues_trans|exact Hs|exact (stays_variant _ _ _ Hh Hv)].
  - intros h' s' out' err' log' Hh Hs _. simpl. gstep. eapply HQ; [by eapply continues_trans|exact Hs|exact (stays_variant _ _ _ Hh Hv)].
Qed.

Lemma wpg_recordTimeNs pid h s (Qr : hhistory -> RestoreOut -> option (option string) -> Prop) (Q : hhistory -> RestoreOut -> unit -> Prop) :
  (forall h' s', continues h h' -> ro_pid s' = ro_pid s -> Q h' s' tt) -> wpg M (recordTimeNs pid) h s Qr Q.
Proof.
  intros HQ. unfold recordTimeNs, hcall. gstep. apply (wpg_call M (FReadlink _)); [exact I|]. intros [err|host] _; [gstep; apply HQ; auto with history|].
  gstep. apply (wpg_call M (FReadlink _)); [exact I|]. intros [err|own] _; gstep; apply HQ; auto with history.
Qed.

(** What a restore that succeeded has done: runc restored, and wrote the pid that is recorded. *)
Definition ran_runc (h : hhistory) (pid : Z) : Prop :=
  exists args log out text, seen h (HExecRestore restoreEnv log "runc" args) (out, None) /\ variant_due h args /\
    seen h (FReadFile (path_Join [bundleDir; "pid"])) (inr text) /\ pid = default 0 (Atoi (TrimSpace text)).

Lemma stays_ran pid : stays (fun h => ran_runc h pid).
Proof.
  intros h h' Hh (args & log & out & text & H1 & H2 & H3 & H4). exists args, log, out, text. pose proof (stays_variant _ _ _ Hh H2).
  pose proof (seen_continues _ _ _ _ Hh H1). pose proof (seen_continues _ _ _ _ Hh H3). by split_and!.
Qed.

(** The polls of 30 seconds, and one more. *)
Definition polls : nat := 122.

Lemma wpf_holder {S} fuel time0 t h (s : S) : time_of time0 h = t ->
  wpf M (awaitHolder fuel in_ (t + holderWait)) h s (fun h' s' r => continues h h' /\ (forall holder, r = Some (inr holder) -> holder_found h' holder) /\
    ((polls <= fuel)%nat -> ticks time0 h' -> r <> None)).
Proof.
  intros Ht. destruct (decide (polls <= fuel)%nat) as [Hf|Hf].
  2: { apply wpf_awaitHolder. intros h' r Hh Hr. split_and!; [done|done|]. by intros. }
  eapply wpf_conseq; [apply wpf_and; [eapply wpf_awaitHolder with (Q := fun h' _ r => continues h h' /\ forall holder, r = Some (inr holder) -> holder_found h' holder)|
    apply wpf_awaitHolder_ends with (start := time0)]|].
  - by intros.
  - by destruct e.
  - done.
  - done.
  - intros _. unfold polls, holderWait, holderPoll, Second, Millisecond in *. lia.
  - intros h' s' r [[? ?] Hn]. split_and!; [done|done|]. intros _ Hh. by destruct (Hn Hh).
Qed.

Lemma wpf_restore_host fuel time0 s :
  wpf M (restore_host fuel in_) [] s (fun h s' r =>
    (r = Some None -> ran_runc h (ro_pid s')) /\ ((polls <= fuel)%nat -> ticks time0 h -> r <> None)).
Proof.
  unfold restore_host, hcall. gstep. gstep. apply (wpg_call M HNow); [exact I|]. intros start _. gstep; [|by gstep].
  gstep. apply (wpg_call M HNow); [exact I|]. intros t _. gstep. apply wpg_invoke.
  eapply wpf_conseq; [by apply (wpf_holder _ time0)|]. intros h1 s1 r (H1 & Hr & Hn).
  destruct r as [r|]; [|gstep; split; [done|by intros; destruct Hn]]. gstep. apply wpg_need; [done|]. intros holder ->. specialize (Hr _ eq_refl).
  gstep. apply (wpg_call M (FReadFile _)); [exact I|]. intros cg _. gstep. apply wpg_need; [done|]. intros procCg ->.
  gstep. apply wpg_need; [done|]. intros podSlice Hsl. cbv zeta. gstep. apply (wpg_call M (runc_delete id)); [by left|]. intros del _.
  gstep. eapply wpg_weaken with (Q' := fun h' s' _ => continues (_ :: _ :: h1) h').
  { destruct (snd del); gstep; apply continues_refl. }
  intros h2 s2 [] H2. gstep. apply (wpg_call M (FMkdirAll _ _)); [exact I|]. intros e _. gstep. apply wpg_need_ok; [done|]. intros ->.
  gstep. eapply wpg_prepareBundle with (procCg := procCg); [exact (stays_holder _ _ _ (continues_cons _ _ _ (continues_trans _ _ _ (continues_cons _ _ _ (continues_cons _ _ _ (continues_refl _))) H2)) Hr)|
    eapply seen_continues; [apply continues_cons, H2|right; apply seen_now]|done|done|]. intros h3 s3 spec H3 Ha Hw.
  gstep. apply wpg_checkCriuConf; [done|]. intros h4 s4 conf H4 Hconf Hval _.
  assert (bundle_ready h4) as Hb by (exists spec, conf; split; [exact (stays_adapted _ _ _ H4 Ha)|]; pose proof (seen_continues _ _ _ _ H4 Hw); by split_and!).
  gstep. eapply wpg_only; [apply harmless_version|apply harmless_allowed|done|]. intros h5 s5 [] H5.
  gstep. apply wpg_runVariants; [exact (stays_bundle _ _ H5 Hb)|]. intros h6 s6 [out [err|]] args log H6 Hx Hv; simpl.
  { gstep. eapply wpg_only; [apply harmless_signature|apply harmless_allowed|done|]. intros h7 s7 sig H7.
    gstep. eapply wpg_only; [apply harmless_cleanup|apply harmless_allowed|done|]. intros. gstep. gstep. by gstep. }
  gstep. apply (wpg_call M (FReadFile _)); [exact I|]. intros x _. gstep. apply wpg_need; [done|]. intros text ->. 
  gstep. apply (wpg_call M HNow); [exact I|]. intros now _. gstep. gstep. gstep. apply wpg_recordTimeNs. intros h' s' Hh Hp. gstep. split; [intros _|done].
  rewrite Hp. simpl. eapply (stays_ran _ _ _ Hh). exists args, log, out, text. split; [by do 2 right|].
  split; [by eapply stays_variant; [|exact Hv]; auto with history|]. split; [right; apply seen_now|done].
Qed.

(** C32: A node restores only the adapted archive into the pod that asked for it.
    Whatever containerd, the files and runc answer: runc restores nothing unless the
    archive's spec, adapted to a running container of the target pod and placed in that
    pod's cgroup, was written into the bundle, and CRIU was told to validate files; the
    second way is tried only after the first failed over cgroups; and only this
    migration's own bundle, snapshot, lease and container are removed.  A restore that
    succeeds reports the pid that runc wrote. *)
Theorem restores_only_adapted fuel s t s' r :
  exec (restore_host fuel in_ s) t (s', r) ->
  (forall t1 e x t2, t = t1 ++ existT e x :: t2 -> host_allows (rev t1) e) /\
  (r = Some None -> ran_runc (rev t) (ro_pid s')).
Proof.
  intros Hx. destruct (wpf_exec M _ _ _ _ _ _ (wpf_restore_host fuel 0 s) Hx (fair_open _ _)) as [Ho Hr].
  split; [|apply Hr]. intros. subst t. exact (obeys_at _ _ _ _ Ho).
Qed.

(** The restore always ends.  The wait for the holder polls every 250 ms for
    30 s: on a clock that never goes back and runs while the node sleeps, 122 polls
    are enough, so that [restore] answers whatever containerd says of the pod, and a
    pod whose sandbox never starts makes the restore fail instead of hang. *)
Theorem restore_ends fuel time0 s t s' r :
  exec (restore_host fuel in_ s) t (s', r) -> ticks time0 (rev t) -> (polls <= fuel)%nat -> exists answer, r = Some answer.
Proof.
  intros Hx Ht Hf. destruct (wpf_exec M _ _ _ _ _ _ (wpf_restore_host fuel time0 s) Hx (fair_open _ _)) as [_ [_ Hr]].
  destruct r as [a|]; [by exists a|]. by destruct Hr.
Qed.
End Restore.

(** ** The theorems apply *)

Abbreviation sample_restore := (host_run "2.2.8" 0 (restore_host polls sample_inputs no_outcome)).

Lemma sample_restore_exec : exec (restore_host polls sample_inputs no_outcome) (snd (fst sample_restore)) (fst (snd sample_restore), snd (snd sample_restore)).
Proof. refine (eq_rect _ (exec _ _) (host_exec "2.2.8" 0 _) _ _). by destruct (snd sample_restore). Qed.

Lemma restores_only_adapted_witness : exists spec conf h, adapted sample_inputs h spec /\ Contains conf "file-validation" = true /\
  ran_runc sample_inputs (rev (snd (fst sample_restore))) 1234.
Proof.
  destruct (restores_only_adapted sample_inputs polls no_outcome _ _ _ sample_restore_exec) as [Hc Hr].
  assert (exists env log name args x, nth_error (snd (fst sample_restore)) 36 = Some (existT (HExecRestore env log name args) x)) as (env & log & name & args & x & He)
    by (eexists _, _, _, _, _; vm_compute; reflexivity).
  apply nth_error_split in He as (t1 & t2 & Ht & _). destruct (Hc t1 _ x t2 Ht) as ((spec & conf & Ha & _ & _ & Hv) & _).
  exists spec, conf, (rev t1). split; [done|]. split; [done|]. 
  assert (ro_pid (fst (snd sample_restore)) = 1234 /\ snd (snd sample_restore) = Some None) as [Hp Hs] by (vm_compute; by split).
  rewrite Hs in Hr. specialize (Hr eq_refl). by rewrite Hp in Hr.
Defined.

Lemma restore_ends_witness : exists answer, snd (snd sample_restore) = Some answer.
Proof.
  refine (restore_ends sample_inputs polls 0 no_outcome _ _ _ sample_restore_exec _ _); [|unfold polls; lia].
  vm_compute. repeat split; discriminate.
Defined.
