(* ===== verification/HostBootLaws.v ===== *)
(** * A node that says it can restore has been checked

    [Bootstrap] announces CRIU on its node only after the version check, the
    installation and CRIU's own check. *)
From S2P Require Import Prelude Effects GoLib Paths OciSpec HostOps HostRestore HostInstances HostLaws.

Section Boot.
Context (nodeName : string).

(** The file holds the data: it did and only its mode was set, or a temporary file was moved there. *)
Definition placed (h : hhistory) (dst data : string) (mode : Z) : Prop :=
  (seen h (FReadFile dst) (inr data) /\ seen h (FChmod dst mode) None) \/
  (exists tmp, seen h (FWriteTemp tmp data) None /\ seen h (FChmod tmp mode) None /\ seen h (FCloseTemp tmp) None /\ seen h (FRename tmp dst) None).

(** A file of the image is on the node. *)
Definition copied (h : hhistory) (name : string) : Prop :=
  exists data, seen h (FReadFile (path_Join [imageBundleDir; name])) (inr data) /\ placed h (path_Join [criuBundleDir; name]) data 493.

(** The bundle was installed, in that version. *)
Definition installed (h : hhistory) (version : string) : Prop :=
  exists names text wrapper,
    seen h (FReadDir imageBundleDir) (inr names) /\ Forall (copied h) names /\
    seen h (FReadFile (path_Join [criuBundleDir; "VERSION"])) (inr text) /\ version = TrimSpace text /\
    seen h (FWriteFile (path_Join [criuConfDir; "runc.conf"]) runcConf 420) None /\
    seen h (FReadFile (path_Join [criuBundleDir; "criu"])) (inr wrapper) /\ placed h (path_Join [hostPathBinDir; "criu"]) wrapper 493.

(** CRIU's own check said that it works: [check --all] unless the core check was asked for. *)
Definition verified (h : hhistory) : Prop :=
  exists mode out, seen h (HGetenv "PODMIG_CRIU_CHECK") mode /\
    seen h (HExec [] (criuBundleDir +s "/criu") (if mode ==s "core" then ["check"] else ["check"; "--all"])) (out, None) /\
    Contains (TrimSpace out) "Looks good" = true.

Definition version_checked (h : hhistory) : Prop :=
  exists node, seen h (HGetNode nodeName) (inr node) /\ CheckContainerdVersion (hn_containerRuntimeVersion node) = None.

Definition verdict (version : string) (ready : bool) (before : gmap string string) : gmap string string :=
  <[NodeAnnotationCRIUVersion := version]> (<[NodeAnnotationCRIUReady := if ready then "true" else "false"]> before).

Definition verdict_due (h : hhistory) (name : string) (before after : gmap string string) : Prop :=
  name = nodeName /\ (exists node, seen h (HGetNode nodeName) (inr node) /\ before = hn_annotations node) /\
  exists version ready, after = verdict version ready before /\
    (ready = true -> version_checked h /\ installed h version /\ verified h).

Definition boot_allows (h : hhistory) (e : HEv) : Prop :=
  match e with
  | HPatchNode name before after => verdict_due h name before after
  | HExec _ name args => name = criuBundleDir +s "/criu"
  | HExecRestore _ _ _ _ | CTaskKill _ | FRemoveAll _ | FExtract _ _ _ => False
  | _ => True
  end.
Abbreviation M := (open boot_allows).

Lemma stays_placed dst data mode : stays (fun h => placed h dst data mode).
Proof.
  intros h h' Hh [[H1 H2]|(tmp & H1 & H2 & H3 & H4)]; [left|right; exists tmp]; split_and!; eapply seen_continues; eauto.
Qed.
Lemma stays_copied name : stays (fun h => copied h name).
Proof. intros h h' Hh (data & H1 & H2). exists data. split; [by eapply seen_continues|exact (stays_placed _ _ _ _ _ Hh H2)]. Qed.
Lemma stays_installed version : stays (fun h => installed h version).
Proof.
  intros h h' Hh (names & text & wrapper & H1 & H2 & H3 & H4 & H5 & H6 & H7). exists names, text, wrapper.
  split_and!; try done; try (eapply seen_continues; [exact Hh|done]); [exact (stays_all _ _ stays_copied _ _ Hh H2)|exact (stays_placed _ _ _ _ _ Hh H7)].
Qed.
Lemma stays_version : stays version_checked.
Proof. intros h h' Hh (node & H1 & H2). exists node. split; [by eapply seen_continues|done]. Qed.

Lemma wpg_writeFileAtomic {S R} dst data mode h (s : S) (Qr : hhistory -> S -> R -> Prop) (Q : hhistory -> S -> option string -> Prop) :
  (forall h' e, continues h h' -> (e = None -> placed h' dst data mode) -> Q h' s e) ->
  wpg M (writeFileAtomic dst data mode) h s Qr Q.
Proof.
  intros HQ. unfold writeFileAtomic, hcall. gstep. apply (wpg_call M (FReadFile _)); [exact I|]. intros old _.
  destruct (match old with inr b => b ==s data | inl _ => false end) eqn:Hold.
  { apply (wpg_call M (FChmod _ _)); [exact I|]. intros e _. apply HQ; [eauto with history|]. intros ->. left.
    destruct old as [|b]; [done|]. bool_props. subst b. split; eauto with history. }
  gstep. apply (wpg_call M (FCreateTemp _ _)); [exact I|]. intros [err|tmp] _; [gstep; by apply HQ; [eauto with history|]|].
  set (h1 := existT _ _ :: _). assert (continues h h1) as H1 by (unfold h1; eauto with history). clearbody h1.
  gstep. apply wpg_invoke. eapply wpf_conseq with (Q' := fun h' s' e => s' = s /\ continues h1 h' /\ (e = None -> placed h' dst data mode)).
  - unfold fillTemp, hcall. gstep. gstep. apply (wpg_call M (FWriteTemp _ _)); [exact I|]. intros [err|] _.
    { gstep. apply (wpg_call M (FCloseTemp _)); [exact I|]. intros. gstep. split_and!; eauto with history; done. }
    gstep. apply (wpg_call M (FChmod _ _)); [exact I|]. intros [err|] _.
    { gstep. apply (wpg_call M (FCloseTemp _)); [exact I|]. intros. gstep. split_and!; eauto with history; done. }
    gstep. apply (wpg_call M (FCloseTemp _)); [exact I|]. intros [err|] _; [gstep; split_and!; eauto 6 with history; done|].
    apply (wpg_call M (FRename _ _)); [exact I|]. intros e _. split_and!; [done|eauto 6 with history|]. intros ->. right. exists tmp.
    split_and!; eauto 6 with history.
  - intros h2 s2 e (-> & H2 & Hp). gstep. apply (wpg_call M (FRemove _)); [exact I|]. intros x _. gstep.
    assert (continues h2 (existT (FRemove tmp) x :: h2)) as H3 by auto with history.
    apply HQ; [eapply continues_trans; [exact H1|]; eapply continues_trans; eauto|]. intros He. exact (stays_placed _ _ _ _ _ H3 (Hp He)).
Qed.

(** A step of the installation. *)
Lemma wpg_step_ok {S} x prefix h (s : S) (Qr : hhistory -> S -> failed string -> Prop) (Q : hhistory -> S -> unit -> Prop) :
  (forall err, Qr h s (inl err)) -> (x = None -> Q h s tt) -> wpg M (step_ok x prefix) h s Qr Q.
Proof. intros Hr HQ. unfold step_ok. destruct x; gstep; [apply Hr|by apply HQ]. Qed.
Lemma wpg_step_of {A S} (x : failed A) prefix h (s : S) (Qr : hhistory -> S -> failed string -> Prop) (Q : hhistory -> S -> A -> Prop) :
  (forall err, Qr h s (inl err)) -> (forall a, x = inr a -> Q h s a) -> wpg M (step_of x prefix) h s Qr Q.
Proof. intros Hr HQ. unfold step_of. destruct x; gstep; [apply Hr|by apply HQ]. Qed.

Lemma wpg_copyAll {S} names h (s : S) (Qr : hhistory -> S -> failed string -> Prop) (Q : hhistory -> S -> unit -> Prop) :
  (forall h' err, Qr h' s (inl err)) -> (forall h', continues h h' -> Forall (copied h') names -> Q h' s tt) ->
  wpg M (copyAll names) h s Qr Q.
Proof.
  intros Hr. revert h. induction names as [|name names IH]; intros h HQ; simpl; [gstep; apply HQ; [auto with history|done]|].
  unfold copyFile, hcall. gstep. gstep. apply (wpg_call M (FReadFile _)); [exact I|]. intros [err|data] _.
  { gstep. gstep. by apply wpg_step_ok. }
  apply wpg_writeFileAtomic. intros h1 e H1 Hp. gstep. apply wpg_step_ok; [done|]. intros ->. apply IH. intros h2 H2 Hall.
  apply HQ; [eapply continues_trans; [|exact H2]; eapply continues_trans; [|exact H1]; auto with history|]. constructor; [|done].
  eapply stays_copied; [exact H2|]. exists data. split; [eapply seen_continues; [exact H1|apply seen_now]|by apply Hp].
Qed.

Lemma wpf_install {S} h (s : S) :
  wpf M installCRIUBundle h s (fun h' s' r => s' = s /\ forall version, r = inr version -> continues h h' /\ installed h' version).
Proof.
  unfold installCRIUBundle, hcall. gstep. gstep. apply (wpg_call M (FReadDir _)); [exact I|]. intros x _.
  gstep. apply wpg_step_of; [done|]. intros names ->. gstep. apply (wpg_call M (FMkdirAll _ _)); [exact I|]. intros e _.
  gstep. apply wpg_step_ok; [done|]. intros ->. gstep. apply wpg_copyAll; [done|]. intros h1 H1 Hall.
  gstep. apply (wpg_call M (FReadFile _)); [exact I|]. intros x _. gstep. apply wpg_step_of; [done|]. intros text ->.
  gstep. apply (wpg_call M (FMkdirAll _ _)); [exact I|]. intros e _. gstep. apply wpg_step_ok; [done|]. intros ->.
  gstep. apply (wpg_call M (FWriteFile _ _ _)); [exact I|]. intros e _. gstep. apply wpg_step_ok; [done|]. intros ->.
  gstep. apply (wpg_call M (FReadFile _)); [exact I|]. intros x _. gstep. apply wpg_step_of; [done|]. intros wrapper ->.
  set (h2 := existT _ _ :: _). gstep. apply wpg_writeFileAtomic. intros h3 e H3 Hp. gstep. apply wpg_step_ok; [done|]. intros ->.
  gstep. split; [done|]. intros version [= <-].
  assert (continues h1 h3) as H13 by (eapply continues_trans; [|exact H3]; unfold h2; eauto with history).
  assert (continues h h3) as H03 by (eapply continues_trans; [|exact H13]; eapply continues_trans; [|exact H1]; auto with history).
  split; [done|]. exists names, text, wrapper. split; [eapply seen_continues; [exact H13|]; eapply seen_continues; [exact H1|right; apply seen_now]|].
  split; [exact (stays_all _ _ stays_copied _ _ H13 Hall)|].
  split; [eapply seen_continues; [exact H3|]; unfold h2; eauto with history|]. split; [done|].
  split; [eapply seen_continues; [exact H3|]; unfold h2; eauto with history|].
  split; [eapply seen_continues; [exact H3|apply seen_now]|by apply Hp].
Qed.

Lemma wpg_verifyCRIU {S R} h (s : S) (Qr : hhistory -> S -> R -> Prop) (Q : hhistory -> S -> bool * string -> Prop) :
  (forall h' v, continues h h' -> (fst v = true -> verified h') -> Q h' s v) -> wpg M verifyCRIU h s Qr Q.
Proof.
  intros HQ. unfold verifyCRIU, hcall. gstep. apply (wpg_call M (HGetenv _)); [exact I|]. intros mode _. cbv zeta.
  gstep. apply (wpg_call M (HExec _ _ _)); [done|]. intros [out e] _. gstep. apply HQ; [eauto with history|].
  destruct e; simpl; [done|]. intros Hc. exists mode, out. split_and!; [eauto with history|apply seen_now|done].
Qed.

Lemma wpg_annotateNode {S R} version ready h (s : S) (Qr : hhistory -> S -> R -> Prop) (Q : hhistory -> S -> option string -> Prop) :
  (ready = true -> version_checked h /\ installed h version /\ verified h) ->
  (forall h' e, (e = None -> exists before, seen h' (HPatchNode nodeName before (verdict version ready before)) None) -> Q h' s e) ->
  wpg M (annotateNode nodeName version ready) h s Qr Q.
Proof.
  intros Hok HQ. unfold annotateNode, hcall. gstep. apply (wpg_call M (HGetNode _)); [exact I|]. intros [err|node] _; [gstep; by apply HQ|].
  apply (wpg_call M (HPatchNode _ _ _)).
  - split; [done|]. split; [exists node; split; [apply seen_now|done]|]. exists version, ready. split; [done|].
    intros Hr. destruct (Hok Hr) as (H1 & H2 & mode & out & H3 & H4 & H5).
    assert (continues h (existT (HGetNode nodeName) (inr node : hresp (HGetNode nodeName)) :: h)) as Hh by auto with history.
    split; [exact (stays_version _ _ Hh H1)|]. split; [exact (stays_installed _ _ _ Hh H2)|]. exists mode, out.
    split_and!; [by eapply seen_continues|by eapply seen_continues|done].
  - intros e _. apply HQ. intros ->. eexists. apply seen_now.
Qed.

(** A node announces that it can restore only after everything was checked.
    Whatever the API server and the files answer: the only writes to the node set its
    two CRIU annotations on top of what was read; [criu-ready] is set to true only
    after this node's containerd passed the version check, every file of the image was
    put in place with its content, CRIU was told to validate files, and [criu check]
    said that it looks good, and the version published is the one installed.  When
    [Bootstrap] succeeds, it has published a verdict. *)
Theorem ready_only_verified s t s' r :
  exec (Bootstrap nodeName s) t (s', r) ->
  (forall t1 e x t2, t = t1 ++ existT e x :: t2 -> boot_allows (rev t1) e) /\
  (r = None -> exists version ready before, seen (rev t) (HPatchNode nodeName before (verdict version ready before)) None).
Proof.
  intros Hx. assert (wpf M (Bootstrap nodeName) [] s (fun h _ r =>
    r = None -> exists version ready before, seen h (HPatchNode nodeName before (verdict version ready before)) None)) as Hw.
  { unfold Bootstrap, hcall. gstep. gstep. apply (wpg_call M (HGetNode _)); [exact I|]. intros [err|node] _; [by gstep|].
    destruct (CheckContainerdVersion _) eqn:Hv; [gstep; apply wpg_annotateNode; [done|]; intros; by gstep|].
    gstep. apply wpg_invoke. eapply wpf_conseq; [apply wpf_install|]. intros h1 s1 r1 (-> & H1). destruct r1 as [err|version]; [by gstep|].
    destruct (H1 version eq_refl) as [Hh Hi]. gstep. apply wpg_verifyCRIU. intros h2 [ok raw] H2 Hok. apply wpg_annotateNode.
    - intros Hr. split; [|split; [exact (stays_installed _ _ _ H2 Hi)|by apply Hok]]. exists node. split; [|done].
      eapply seen_continues; [exact H2|]. eapply seen_continues; [exact Hh|apply seen_now].
    - intros h' e He Hn. destruct (He Hn) as (before & ?). by exists version, ok, before. }
  destruct (wpf_exec M _ _ _ _ _ _ Hw Hx (fair_open _ _)) as [Ho Hr].
  split; [|done]. intros. subst t. exact (obeys_at _ _ _ _ Ho).
Qed.
End Boot.

(** ** The theorem applies *)

Abbreviation sample_boot := (host_run "2.2.8" 0 (Bootstrap "node-a" tt)).

Lemma ready_only_verified_witness : exists version before after x t1 t2,
  snd (fst sample_boot) = t1 ++ existT (HPatchNode "node-a" before after) x :: t2 /\ after !! NodeAnnotationCRIUReady = Some "true" /\
  installed (rev t1) version /\ verified (rev t1) /\ version_checked "node-a" (rev t1).
Proof.
  assert (exec (Bootstrap "node-a" tt) (snd (fst sample_boot)) (tt, None)) as Hx.
  { refine (eq_rect _ (exec _ _) (host_exec "2.2.8" 0 _) _ _). vm_compute. reflexivity. }
  destruct (ready_only_verified "node-a" tt _ _ _ Hx) as [Hc _].
  assert (exists before after x, nth_error (snd (fst sample_boot)) 18 = Some (existT (HPatchNode "node-a" before after) x) /\ after !! NodeAnnotationCRIUReady = Some "true")
    as (before & after & x & He & Ha) by (eexists _, _, _; split; [vm_compute; reflexivity|vm_compute; reflexivity]).
  apply nth_error_split in He as (t1 & t2 & Ht & _). destruct (Hc t1 _ x t2 Ht) as (_ & _ & version & ready & Hv & Hok).
  exists version, before, after, x, t1, t2. split; [done|]. split; [done|].
  rewrite Hv in Ha. unfold verdict in Ha. rewrite lookup_insert_ne, lookup_insert_eq in Ha by done.
  destruct ready; [|discriminate]. by destruct (Hok eq_refl) as (? & ? & ?).
Defined.
