(* ===== verification/Holder.v ===== *)
(** * The holder (src/engines/criu/cmd/holder)

    What an injected container runs: [holder_main] (main.go) and, in the mode [wrap],
    [runWrap] (wrap.go), which waits for the verdict on the pod's restore and either
    holds the sandbox or runs the container's own command.  The calls of the process
    are events; a process that replaced itself by another program has ended. *)
From Stdlib Require Import Ascii.
From S2P Require Import Prelude Effects GoLib Unquote.

Definition annPSName : string := "podsnapshot.gke.io/ps-name".
Definition annRestoreStatus : string := "pod-migrate.io/psengine-restore".
Definition statusRestored : string := "restored".
Definition statusFailed : string := "failed".
Definition defaultAssignWait : Z := 2 * Second.
Definition defaultRestoreWait : Z := 90 * Second.
Definition pollInterval : Z := 100 * Millisecond.

Inductive WEv :=
| WReadFile (path : string)
| WNow
| WSleep (d : Z)
| WLookPath (file : string)
| WEnviron
(** [syscall.Exec]: it answers only if the process was not replaced. *)
| WExec (bin : string) (argv env : list string)
(** SIGTERM or SIGINT has come. *)
| WAwaitSignal
| WStderr (line : string)
| WOpenSelf
| WCreate (path : string) (mode : Z)
| WCopySelf (path : string)
| WCloseFile (path : string)
| WCloseSelf.

Definition wresp (e : WEv) : Type :=
  match e with
  | WReadFile _ | WLookPath _ => string + string
  | WNow => Z
  | WEnviron => list string
  | WExec _ _ _ | WOpenSelf | WCreate _ _ | WCopySelf _ | WCloseFile _ => option string
  | WSleep _ | WAwaitSignal | WStderr _ | WCloseSelf => unit
  end.

#[export] Instance holder_clock : Clocked wresp := {
  reading e := match e return wresp e -> option Z with WNow => fun now => Some now | _ => fun _ => None end;
  slept e := match e with WSleep d => d | _ => 0 end }.

(** ** The annotations file *)

(** [strings.Trim(v, ...)] of the double quotes. *)
Fixpoint trim_quotes_left (s : string) : string :=
  match s with String c t => if Ascii.eqb c double_quote then trim_quotes_left t else s | EmptyString => "" end.
Fixpoint trim_quotes_right (s : string) : string :=
  match s with
  | EmptyString => ""
  | String c t => match trim_quotes_right t with EmptyString => if Ascii.eqb c double_quote then "" else String c "" | t => String c t end
  end.

(** The annotation that a line holds. *)
Definition annotationLine (line : string) : option (string * string) :=
  let line := TrimSpace line in
  if line ==s "" then None
  else
    let '(k, v, ok) := Cut line "="%char in
    if negb ok then None
    else Some (k, match Unquote v with Some uq => uq | None => trim_quotes_right (trim_quotes_left v) end).

Definition parseAnnotations (b : string) : gmap string string :=
  fold_left (fun out line => match annotationLine line with Some (k, v) => <[k := v]> out | None => out end) (Split b line_feed) ∅.

Definition readAnnotationsFile {S R} (path : string) : gom wresp S R (gmap string string) :=
  let* x := gcall (WReadFile path) in
  gret (match x with inl _ => ∅ | inr b => parseAnnotations b end).

(** ** The decision *)

Inductive wrapOutcome := outcomeColdStart | outcomeHold.
#[export] Instance wrapOutcome_eq_dec : EqDecision wrapOutcome.
Proof. solve_decision. Defined.

(** Is the pod ordered to restore?  The name of its snapshot, or why it starts cold.
    [None]: [fuel] polls were not enough. *)
Fixpoint awaitAssignment {S} (fuel : nat) (file : string) (deadline poll : Z) : fn wresp S (option ((wrapOutcome * string) + string)) :=
  match fuel with
  | O => gfun (gret None)
  | S fuel => gfun (
      let* anns := readAnnotationsFile file in
      match anns !! annPSName with
      | Some v => if v !=s "" then gret (Some (inr v)) else gret (Some (inl (outcomeColdStart, "explicit cold-start bypass (empty ps-name)")))
      | None =>
          let* now := gcall WNow in
          if After now deadline then gret (Some (inl (outcomeColdStart, "no ps-name within assign window; falling through to cold start")))
          else do* gcall (WSleep poll) in ginvoke (awaitAssignment fuel file deadline poll)
      end)
  end.

(** The verdict of the node agent. *)
Fixpoint awaitVerdict {S} (fuel : nat) (file psName : string) (restoreWait deadline poll : Z) : fn wresp S (option (wrapOutcome * string)) :=
  match fuel with
  | O => gfun (gret None)
  | S fuel => gfun (
      let* anns := readAnnotationsFile file in
      if sget anns annRestoreStatus ==s statusRestored then gret (Some (outcomeHold, "restored from " +s psName +s "; holding sandbox"))
      else if sget anns annRestoreStatus ==s statusFailed then
        gret (Some (outcomeColdStart, "restore of " +s psName +s " reported failed; falling through to cold start"))
      else
        let* now := gcall WNow in
        if After now deadline then
          gret (Some (outcomeColdStart, "restore of " +s psName +s " timed out after " +s DurationString restoreWait +s "; falling through to cold start"))
        else do* gcall (WSleep poll) in ginvoke (awaitVerdict fuel file psName restoreWait deadline poll))
  end.

Definition decideAction {S} (fuel : nat) (annotationsFile : string) (assignWait restoreWait poll : Z) : fn wresp S (option (wrapOutcome * string)) := gfun (
  let* now := gcall WNow in
  let* assigned := ginvoke (awaitAssignment fuel annotationsFile (now + assignWait) poll) in
  match assigned with
  | None => gret None
  | Some (inl cold) => gret (Some cold)
  | Some (inr psName) =>
      let* now := gcall WNow in
      ginvoke (awaitVerdict fuel annotationsFile psName restoreWait (now + restoreWait) poll)
  end).

(** ** The process *)

(** How it ends: it returns, exits with a status, or became another program. *)
Inductive ProcessEnd := Returned | ExitStatus (code : Z) | Became (bin : string) (argv : list string).

Definition runWrap {S} (fuel : nat) (args : list string) : fn wresp S (option ProcessEnd) := gfun (
  match args with
  | annFile :: sep :: ((cmd :: _) as orig) =>
      if sep !=s "--" then do* gcall (WStderr "usage: holder wrap <annotations-file> -- <cmd> [args...]") in gret (Some (ExitStatus 2))
      else
        let* d := ginvoke (decideAction fuel annFile defaultAssignWait defaultRestoreWait pollInterval) in
        match d with
        | None => gret None
        | Some (outcome, reason) =>
            do* gcall (WStderr ("holder wrap: " +s reason)) in
            if bool_decide (outcome = outcomeHold) then do* gcall WAwaitSignal in gret (Some Returned)
            else
              let* x := gcall (WLookPath cmd) in
              match x with
              | inl err => do* gcall (WStderr ("holder wrap: lookpath " +s cmd +s ": " +s err)) in gret (Some (ExitStatus 127))
              | inr bin =>
                  let* env := gcall WEnviron in
                  let* e := gcall (WExec bin orig env) in
                  match e with
                  | None => gret (Some (Became bin orig))
                  | Some err => do* gcall (WStderr ("holder wrap: exec " +s bin +s ": " +s err)) in gret (Some (ExitStatus 126))
                  end
              end
        end
  | _ => do* gcall (WStderr "usage: holder wrap <annotations-file> -- <cmd> [args...]") in gret (Some (ExitStatus 2))
  end).

(** Copies the program; the files that were opened are closed. *)
Definition seedSelf {S} (dst : string) : fn wresp S (option string) := gfun (
  let* e := gcall WOpenSelf in
  match e with
  | Some err => gret (Some err)
  | None =>
      let* e := gcall (WCreate dst 493) in
      match e with
      | Some err => do* gcall WCloseSelf in gret (Some err)
      | None =>
          let* e := gcall (WCopySelf dst) in
          let* r := (match e with Some err => gret (Some err) | None => gcall (WCloseFile dst) end) in
          do* gcall (WCloseFile dst) in
          do* gcall WCloseSelf in
          gret r
      end
  end).

(** [args] is [os.Args]: the program's own name first. *)
Definition holder_main {S} (fuel : nat) (args : list string) : fn wresp S (option ProcessEnd) := gfun (
  match args with
  | _ :: "seed" :: dst :: _ =>
      let* e := ginvoke (seedSelf dst) in
      match e with
      | Some err => do* gcall (WStderr ("holder seed: " +s err)) in gret (Some (ExitStatus 1))
      | None => gret (Some Returned)
      end
  | _ :: "wrap" :: a :: b :: rest => ginvoke (runWrap fuel (a :: b :: rest))
  | _ => do* gcall WAwaitSignal in gret (Some Returned)
  end).

Example seed_reads : parseAnnotations ("a=" +s Quote "1" +s String line_feed ("podsnapshot.gke.io/ps-name=" +s Quote "ps-web-0" +s String line_feed "")) !! annPSName = Some "ps-web-0".
Proof. vm_compute. reflexivity. Qed.
