(* ===== verification/Calls.v ===== *)
(** * Calls that change nothing, and functions that make no other

    Reads, metrics, recorded events and the probe table are [benign]; a function
    that makes only such calls and leaves its state alone is [quiet], and what it
    does to a history is [extends].  The components' laws use both. *)
From S2P Require Import Prelude Effects GoLib Kube Interfaces.

(** Calls that change nothing outside the process. *)
Definition benign (e : Ev) : bool :=
  match e with
  | EGetJob _ _ _ | EGetPod _ _ _ | EGetNode _ | EGetPVC _ _ | EGetWorkload _ _ _ | EListReplicaSets _ _
  | EListPods _ _ | EListPodsLive _ | EListJobs _ _ | EListVolumeAttachments _ | EListPDBs _ | EListEvents _ _ | EListPodMigrations _
  | EGetTrigger _ _ | EGetSnapshotConditions _ _ | ECheckStatus _ _ _ | EVerifyRestore _ _ _ | EResolvePolicy _ _
  | EBudgetCheck _ _ | EProbeLoad _ | EProbeStore _ _ | EProbeDelete _ | EEvent _ _ _ _ | EMetric _ _ _
  | EInvariants _ | EForget _ => true
  | _ => false
  end.

(** The monitor lets benign calls through. *)
Class Tolerant (M : @monitor Ev resp) : Prop := tolerant : forall h e, benign e = true -> allows M h e.

(** [h'] is [h] after more benign calls. *)
Definition extends (h h' : @trace Ev resp) : Prop :=
  exists t, h' = (t ++ h)%list /\ Forall (fun s => benign (called s) = true) t.

Lemma extends_refl h : extends h h.
Proof. by exists []. Qed.

Lemma extends_cons e (x : resp e) h h' : benign e = true -> extends h h' -> extends h (existT e x :: h').
Proof. intros Hb (t & -> & Ht). exists (existT e x :: t). split; [done|]. by constructor. Qed.

Lemma extends_trans h1 h2 h3 : extends h1 h2 -> extends h2 h3 -> extends h1 h3.
Proof.
  intros (t1 & -> & H1) (t2 & -> & H2). exists (t2 ++ t1)%list. split; [by rewrite app_assoc|].
  apply Forall_app. by split.
Qed.

Lemma extends_In h h' s : extends h h' -> In s h -> In s h'.
Proof. intros (t & -> & _) Hin. apply in_or_app. by right. Qed.

#[export] Hint Resolve extends_refl : podmig.

(** The call [e] was made and answered [x]. *)
Definition saw (h : @trace Ev resp) (e : Ev) (x : resp e) : Prop := In (existT e x) h.

Lemma saw_now h e x : saw (existT e x :: h) e x.
Proof. by left. Qed.

Lemma saw_later h s e x : saw h e x -> saw (s :: h) e x.
Proof. by right. Qed.

Lemma saw_extends h h' e x : extends h h' -> saw h e x -> saw h' e x.
Proof. intros. by eapply extends_In. Qed.

#[export] Hint Resolve saw_now saw_later saw_extends extends_cons : podmig.

(** ** Quiet functions *)

Definition quiet {S R A} (m : gom resp S R A) : Prop :=
  forall (M : @monitor Ev resp) (_ : Tolerant M) h s (Qr : @trace Ev resp -> S -> R -> Prop) (Q : @trace Ev resp -> S -> A -> Prop),
    (forall h' a, extends h h' -> Q h' s a) -> wpg M m h s Qr Q.

Section Quiet.
Context {S R : Type}.

Lemma quiet_ret {A} (a : A) : quiet (S := S) (R := R) (gret a).
Proof. intros M T h s Qr Q HQ. apply wpg_ret, HQ, extends_refl. Qed.

Lemma quiet_call e : benign e = true -> quiet (S := S) (R := R) (ecall e).
Proof.
  intros Hb M T h s Qr Q HQ. apply wpg_call; [by apply tolerant|]. intros x _. apply HQ.
  by apply extends_cons; [|apply extends_refl].
Qed.

Lemma quiet_bind {A B} (m : gom resp S R A) (f : A -> gom resp S R B) :
  quiet m -> (forall a, quiet (f a)) -> quiet (gbind m f).
Proof.
  intros Hm Hf M T h s Qr Q HQ. apply wpg_bind, Hm; [done|]. intros h1 a H1. apply Hf; [done|].
  intros h2 b H2. apply HQ. by eapply extends_trans.
Qed.

Lemma quiet_get : quiet (S := S) (R := R) gget.
Proof. intros M T h s Qr Q HQ. apply wpg_get, HQ, extends_refl. Qed.

Lemma quiet_when (b : bool) (m : gom resp S R unit) : quiet m -> quiet (gwhen b m).
Proof. intros Hm. destruct b; [done|apply quiet_ret]. Qed.
End Quiet.

Ltac quiet_step :=
  lazymatch goal with
  | |- quiet (gret _) => apply quiet_ret
  | |- quiet (ecall ?e) => exact (quiet_call e eq_refl)
  | |- quiet gget => apply quiet_get
  | |- quiet (gwhen _ _) => apply quiet_when
  | |- quiet (gbind _ _) => apply quiet_bind; [|intros ?]
  | |- quiet (if ?b then _ else _) => destruct b
  | |- quiet (match ?x with _ => _ end) => destruct x
  | |- quiet (let _ := _ in _) => cbv zeta
  end.
Ltac quiet_tac := repeat first [quiet_step | solve [auto with podmig]].
