(* ===== verification/Timeout.v ===== *)
(** * Migration timeouts (internal/util/timeout.go)

    The timeout of an active migration: an annotation clamped to
    [1 min, 2 h], or a baseline extended by the pod's memory at 50 MiB/s. *)
From S2P Require Import Prelude GoLib Kube.

Definition AnnotationMigrationTimeout : string := "pod-migration.gke.io/timeout".
Definition AnnotationEvictingSince : string := "pod-migration.gke.io/evicting-since".
Definition DefaultMigrationTimeout : Z := 10 * Minute.
Definition MinMigrationTimeout : Z := 1 * Minute.
Definition MaxMigrationTimeout : Z := 2 * Hour.
Definition DefaultThroughputBytesPerSec : Z := 50 * 1024 * 1024.
Definition ContainerRestartPolicyAlways : string := "Always".

(** A restartable init container (a native sidecar). *)
Definition is_sidecar (c : Container) : bool :=
  match ct_restartPolicy c with Some p => p ==s ContainerRestartPolicyAlways | None => false end.

Definition add_memory (total : Z) (c : Container) : Z :=
  match ct_memory c with Some v => i64 (total + v) | None => total end.

Definition CalculatePodMemoryRequest (pod : option Pod) : Z :=
  match pod with
  | None => 0
  | Some pod =>
      let total := fold_left add_memory (p_containers pod) 0 in
      fold_left (fun t c => if is_sidecar c then add_memory t c else t) (p_initContainers pod) total
  end.

Definition ParseClampedTimeout (raw : string) : option Z :=
  if raw ==s "" then None
  else
    match ParseDuration raw with
    | None => None
    | Some d =>
        if d <=? 0 then None
        else if d <? MinMigrationTimeout then Some MinMigrationTimeout
        else if MaxMigrationTimeout <? d then Some MaxMigrationTimeout
        else Some d
    end.

Definition CalculateMigrationTimeout (annotatedTimeout : string) (memBytes baseTimeout : Z) : Z :=
  let baseTimeout := if baseTimeout <=? 0 then DefaultMigrationTimeout else baseTimeout in
  match ParseClampedTimeout annotatedTimeout with
  | Some d => d
  | None =>
      if 0 <? memBytes then
        let additionalSec := memBytes / DefaultThroughputBytesPerSec in
        let calculated := i64 (baseTimeout + i64 (additionalSec * Second)) in
        if MaxMigrationTimeout <? calculated then MaxMigrationTimeout else calculated
      else baseTimeout
  end.

(** An accepted annotation lies within the clamp. *)
Lemma ParseClampedTimeout_range raw d :
  ParseClampedTimeout raw = Some d -> MinMigrationTimeout <= d <= MaxMigrationTimeout.
Proof.
  unfold ParseClampedTimeout. intros H.
  repeat dmatch; simplify_eq; bool_props; unfold MinMigrationTimeout, MaxMigrationTimeout, Hour, Minute, Second in *; lia.
Qed.

(** The computed timeout: an annotation that parses to a positive duration
    wins and is within [1 min, 2 h]; otherwise, for a pod whose memory request
    is below 2^58 bytes, the timeout is the baseline plus one second per 50 MiB
    of memory, capped at 2 h, and the baseline itself for a pod without a
    memory request. *)
Theorem migration_timeout_spec (ann : string) (mem base : Z) :
  0 <= mem < 2 ^ 58 -> base < 2 ^ 61 ->
  let b := if base <=? 0 then DefaultMigrationTimeout else base in
  match ParseClampedTimeout ann with
  | Some d => CalculateMigrationTimeout ann mem base = d /\ MinMigrationTimeout <= d <= MaxMigrationTimeout
  | None =>
      CalculateMigrationTimeout ann mem base =
        if mem =? 0 then b else Z.min MaxMigrationTimeout (b + mem / DefaultThroughputBytesPerSec * Second)
  end.
Proof.
  intros Hm Hb b. unfold CalculateMigrationTimeout. fold b.
  destruct (ParseClampedTimeout ann) eqn:Hp; [by split; [|apply (ParseClampedTimeout_range ann)]|].
  assert (Hb' : 0 < b < 2 ^ 61).
  { subst b. destruct (base <=? 0) eqn:E; bool_props; unfold DefaultMigrationTimeout, Minute, Second; lia. }
  clearbody b.
  destruct (mem =? 0) eqn:E0; bool_props; [by subst mem|].
  replace (0 <? mem) with true by (symmetry; apply Z.ltb_lt; lia).
  unfold DefaultThroughputBytesPerSec.
  assert (Hq : 0 <= mem / (50 * 1024 * 1024) < 2 ^ 58 / (50 * 1024 * 1024) + 1).
  { split; [apply Z.div_pos; lia|]. apply Z.lt_succ_r, Z.div_le_mono; lia. }
  remember (mem / (50 * 1024 * 1024)) as q. change (2 ^ 58 / (50 * 1024 * 1024)) with 5497558138 in Hq.
  unfold Second. rewrite (i64_id (q * 1000000000)) by (unfold is_int64, int64_min, int64_max; lia).
  rewrite i64_id by (unfold is_int64, int64_min, int64_max; lia).
  destruct (MaxMigrationTimeout <? b + q * 1000000000) eqn:E; bool_props;
    [rewrite Z.min_l|rewrite Z.min_r]; lia.
Qed.

Lemma migration_timeout_spec_witness :
  CalculateMigrationTimeout "" (30 * 1024 * 1024 * 1024) 0 = 1214 * Second.
Proof.
  rewrite (migration_timeout_spec "" (30 * 1024 * 1024 * 1024) 0 ltac:(lia) ltac:(lia)).
  reflexivity.
Defined.

