(* ===== verification/Eligibility.v ===== *)
(** * Runtime class policy (internal/eligibility/runtimeclass.go)

    The set of runtime classes whose pods may be migrated, and its flag syntax.
    The validator of RuntimeClass names is apimachinery's. *)
From S2P Require Import Prelude GoLib.
From Stdlib Require Import Ascii.

(** [validation.IsDNS1123Subdomain]: the list of violations, empty for a valid
    name.  A valid name is not empty and has only lower case letters, digits,
    '-' and '.'. *)
Definition dns_char (c : ascii) : bool :=
  let n := nat_of_ascii c in
  (Nat.leb 97 n && Nat.leb n 122) || (Nat.leb 48 n && Nat.leb n 57) || Nat.eqb n 45 || Nat.eqb n 46.

Class DNSLib := {
  IsDNS1123Subdomain : string -> list string;
  dns_valid : forall s, IsDNS1123Subdomain s = [] -> s <> "" /\ all_chars dns_char s = true
}.

(** A validator that satisfies the law, for concrete runs. *)
#[refine] Definition dns_ref : DNSLib := {|
  IsDNS1123Subdomain s := if negb (s ==s "") && all_chars dns_char s then [] else ["invalid"] |}.
Proof. intros s. destruct (negb (s ==s "") && all_chars dns_char s) eqn:E; [|done]. by bool_props. Defined.

Definition DefaultRuntimeClassToken : string := "@default".
Definition DefaultMigratableRuntimeClasses : string := "gvisor".

Lemma dns_char_no_space s : all_chars dns_char s = true -> no_space s = true.
Proof.
  apply all_chars_impl. intros c. destruct c as [[] [] [] [] [] [] [] []]; vm_compute; congruence.
Qed.

Lemma dns_char_no_sep s (d : ascii) :
  dns_char d = false -> all_chars dns_char s = true -> no_char d s = true.
Proof.
  intros Hd. apply all_chars_impl. intros c Hc. apply negb_true_iff.
  destruct (Ascii.eqb_spec c d) as [->|]; congruence.
Qed.

Record RuntimeClassPolicy := mkPolicy { names : gset string; allowDefault : bool }.

Section Policy.
Context `{DNSLib}.

(** One element of the list: the switch of the loop's body. *)
Definition parse_element (raw : string) (p : RuntimeClassPolicy) (elem : string)
    : string + RuntimeClassPolicy :=
  let name := TrimSpace elem in
  if name ==s "" then
    inl ("invalid runtime class list " +s Quote raw +s ": empty element (use " +s
         DefaultRuntimeClassToken +s " for pods without a runtimeClassName)")
  else if name ==s DefaultRuntimeClassToken then inr (mkPolicy (names p) true)
  else
    match IsDNS1123Subdomain name with
    | [] => inr (mkPolicy ({[name]} ∪ names p) (allowDefault p))
    | errs => inl ("invalid runtime class name " +s Quote name +s ": " +s Join errs "; ")
    end.

Fixpoint parse_elements_from (raw : string) (elems : list string) (p : RuntimeClassPolicy)
    : string + RuntimeClassPolicy :=
  match elems with
  | [] => inr p
  | e :: rest =>
      match parse_element raw p e with
      | inl err => inl err
      | inr p' => parse_elements_from raw rest p'
      end
  end.

Definition ParseRuntimeClassPolicy (raw : string) : string + RuntimeClassPolicy :=
  parse_elements_from raw (Split raw ",") (mkPolicy ∅ false).

(** The policy of a nil pointer. [mustParseRuntimeClassPolicy] panics on a
    default that does not parse; [None] stands for that panic. *)
Definition defaultPolicy : option RuntimeClassPolicy :=
  match ParseRuntimeClassPolicy DefaultMigratableRuntimeClasses with
  | inl _ => None
  | inr p => Some p
  end.

Definition Allows (p : RuntimeClassPolicy) (runtimeClassName : option string) : bool :=
  match runtimeClassName with
  | None => allowDefault p
  | Some n => if n ==s "" then allowDefault p else bool_decide (n ∈ names p)
  end.

Definition Classes (p : RuntimeClassPolicy) : list string :=
  SortStrings (elements (names p)) ++ (if allowDefault p then [DefaultRuntimeClassToken] else []).

Definition PolicyString (p : RuntimeClassPolicy) : string := Join (Classes p) ",".

Definition RuntimeClassLabel (runtimeClassName : option string) : string :=
  match runtimeClassName with
  | None => DefaultRuntimeClassToken
  | Some n => if n ==s "" then DefaultRuntimeClassToken else n
  end.

(** A policy the parser can produce: valid names, and not empty. *)
Definition policy_wf (p : RuntimeClassPolicy) : Prop :=
  (forall n, n ∈ names p -> IsDNS1123Subdomain n = []) /\ Classes p <> [].

Lemma valid_not_token n : IsDNS1123Subdomain n = [] -> (n ==s DefaultRuntimeClassToken) = false.
Proof.
  intros Hn. apply dns_valid in Hn as [_ Hn]. apply seqb_false. intros ->. done.
Qed.

Lemma parse_element_name raw p n :
  IsDNS1123Subdomain n = [] -> parse_element raw p n = inr (mkPolicy ({[n]} ∪ names p) (allowDefault p)).
Proof.
  intros Hn. unfold parse_element. pose proof (valid_not_token n Hn) as Ht.
  destruct (dns_valid n Hn) as [Hne Hc].
  rewrite TrimSpace_no_space, Ht, Hn by (by apply dns_char_no_space).
  replace (n ==s "") with false by (symmetry; by apply seqb_false). done.
Qed.

(** Parsing a list of valid names, then the optional token. *)
Lemma parse_valid_names raw l p b :
  Forall (fun n => IsDNS1123Subdomain n = []) l ->
  parse_elements_from raw (l ++ (if b : bool then [DefaultRuntimeClassToken] else [])) p =
    inr (mkPolicy (list_to_set l ∪ names p) (b || allowDefault p)).
Proof.
  intros Hl; revert p. induction Hl as [|n l Hn Hl IH]; intros p.
  - destruct p as [ns d], b; simpl; do 2 f_equal; set_solver.
  - cbn [app parse_elements_from]. rewrite parse_element_name by done. rewrite IH. simpl.
    do 2 f_equal. set_solver.
Qed.

Lemma class_no_comma p n : policy_wf p -> In n (Classes p) -> no_char "," n = true.
Proof.
  intros [Hv _] Hin. unfold Classes in Hin. apply in_app_or in Hin as [Hin|Hin].
  - apply SliceStable_In, list_elem_of_In, elem_of_elements in Hin.
    apply dns_char_no_sep; [done|]. by apply dns_valid, Hv.
  - destruct (allowDefault p); [|done]. by destruct Hin as [<-|[]].
Qed.

(** The flag syntax round-trips: parsing what [String] prints for a policy
    with valid class names gives the policy back. *)
Theorem policy_roundtrip (p : RuntimeClassPolicy) :
  policy_wf p -> ParseRuntimeClassPolicy (PolicyString p) = inr p.
Proof.
  intros Hwf. unfold ParseRuntimeClassPolicy, PolicyString.
  rewrite Split_Join; [|by apply Hwf|]; [|by apply List.Forall_forall; intros n; apply class_no_comma].
  unfold Classes. rewrite parse_valid_names.
  - destruct p as [ns d]; simpl. do 2 f_equal; [|by destruct d].
    rewrite union_empty_r_L. apply set_eq. intros x.
    rewrite elem_of_list_to_set, list_elem_of_In. unfold SortStrings.
    rewrite SliceStable_In, <- list_elem_of_In. apply elem_of_elements.
  - apply List.Forall_forall. intros n Hn.
    apply SliceStable_In, list_elem_of_In, elem_of_elements in Hn. by apply Hwf.
Qed.

Lemma parse_element_ok raw p e p' :
  parse_element raw p e = inr p' ->
  (forall n, n ∈ names p -> IsDNS1123Subdomain n = []) ->
  (forall n, n ∈ names p' -> IsDNS1123Subdomain n = []) /\
  (forall c, Allows p c = true -> Allows p' c = true) /\
  Allows p' (if TrimSpace e ==s DefaultRuntimeClassToken then None else Some (TrimSpace e)) = true.
Proof.
  unfold parse_element. intros He Hp.
  destruct (TrimSpace e ==s "") eqn:E0; [done|].
  destruct (TrimSpace e ==s DefaultRuntimeClassToken) eqn:E1.
  - simplify_eq/=. split; [done|]. split; [|done]. intros [c|]; simpl; [|done].
    by destruct (c ==s "").
  - destruct (IsDNS1123Subdomain (TrimSpace e)) eqn:Ev; simplify_eq/=.
    split; [set_solver|]. split.
    + intros [c|]; simpl; [|done]. destruct (c ==s ""); [done|]. rewrite !bool_decide_eq_true. set_solver.
    + rewrite E0. apply bool_decide_eq_true. set_solver.
Qed.

End Policy.

(** An accepted flag allows exactly what its elements say: every element,
    with the spaces around it removed, is allowed ([@default] as the pods
    without a class), and every allowed class is a valid RuntimeClass name that
    is such an element. *)
Theorem policy_parse_sound `{DNSLib} (raw : string) (p : RuntimeClassPolicy) :
  ParseRuntimeClassPolicy raw = inr p ->
  (forall e, In e (Split raw ",") ->
     Allows p (if TrimSpace e ==s DefaultRuntimeClassToken then None else Some (TrimSpace e)) = true) /\
  (forall n, n <> "" -> Allows p (Some n) = true ->
     IsDNS1123Subdomain n = [] /\ exists e, In e (Split raw ",") /\ TrimSpace e = n).
Proof.
  unfold ParseRuntimeClassPolicy. generalize (Split raw ",") as l.
  assert (Hinit : forall n, n ∈ names (mkPolicy ∅ false) -> IsDNS1123Subdomain n = []) by set_solver.
  assert (Hgen : forall l p0, (forall n, n ∈ names p0 -> IsDNS1123Subdomain n = []) ->
    parse_elements_from raw l p0 = inr p ->
    (forall c, Allows p0 c = true -> Allows p c = true) /\
    (forall e, In e l -> Allows p (if TrimSpace e ==s DefaultRuntimeClassToken then None else Some (TrimSpace e)) = true) /\
    (forall n, n ∈ names p -> IsDNS1123Subdomain n = [] /\ (n ∈ names p0 \/ exists e, In e l /\ TrimSpace e = n))).
  { induction l as [|e l IH]; intros p0 Hp0 Hp; simpl in Hp.
    - simplify_eq. split; [done|]. split; [by intros e []|]. auto.
    - destruct (parse_element raw p0 e) as [err|p1] eqn:He; [done|].
      pose proof (parse_element_ok _ _ _ _ He Hp0) as (H1 & H2 & H3).
      destruct (IH p1 H1 Hp) as (I1 & I2 & I3).
      split; [auto|]. split; [intros x [<-|Hx]; auto|].
      intros n Hn. destruct (I3 n Hn) as [Hv [Hn1|(x & Hx & Hxn)]]; split; try done;
        [|right; exists x; split; [by right|done]].
      clear -He Hn1. unfold parse_element in He.
      repeat dmatch; simplify_eq/=; [by left|].
      apply elem_of_union in Hn1 as [Hn1|Hn1]; [|by left].
      right. exists e. split; [by left|]. set_solver. }
  intros l Hp. destruct (Hgen l _ Hinit Hp) as (_ & H2 & H3). split; [done|].
  intros n Hne Ha. simpl in Ha. replace (n ==s "") with false in Ha by (symmetry; by apply seqb_false).
  apply bool_decide_eq_true in Ha. destruct (H3 n Ha) as [Hv [Hn|Hn]]; [set_solver|by split].
Qed.

Lemma policy_roundtrip_witness :
  let _ := dns_ref in
  ParseRuntimeClassPolicy (PolicyString (mkPolicy {["gvisor"; "runc"]} true)) =
    inr (mkPolicy {["gvisor"; "runc"]} true).
Proof.
  intros L. apply (@policy_roundtrip L). split; [|by vm_compute].
  intros n Hn. simpl in Hn. apply elem_of_union in Hn as [Hn|Hn]; apply elem_of_singleton in Hn as ->; reflexivity.
Defined.

Lemma policy_parse_sound_witness :
  let _ := dns_ref in
  exists p, ParseRuntimeClassPolicy "gvisor, @default" = inr p /\ Allows p (Some "gvisor") = true /\ Allows p None = true.
Proof.
  intros L. destruct (ParseRuntimeClassPolicy "gvisor, @default") as [err|p] eqn:Hp; [by vm_compute in Hp|].
  pose proof (@policy_parse_sound L _ _ Hp) as [Ha _]. exists p. split; [done|]. split.
  - apply (Ha "gvisor"). by left.
  - apply (Ha " @default"). by right; left.
Defined.
