(* ===== verification/Classifier.v ===== *)
(** * Restore failure classifier (internal/restore)

    Decides from a replacement pod's container statuses whether a restore
    engine failed to start it: [startFailures] finds the containers the runtime
    never got running, [Classify] offers their messages to the engines. *)
From S2P Require Import Prelude GoLib Kube Eligibility.

Definition startFailureExitCode : Z := 128.
Definition startErrorReason : string := "StartError".
Definition runContainerErrorReason : string := "RunContainerError".

Inductive FailureClass := FailureNone | FailureFatal | FailureUnrecognized.
#[export] Instance FailureClass_eq_dec : EqDecision FailureClass.
Proof. solve_decision. Defined.

Record Failure := mkFailure {
  f_class : FailureClass; f_engine : string; f_signature : string; f_message : string; f_container : string }.

Definition no_failure : Failure := mkFailure FailureNone "" "" "" "".

(** The [Engine] interface; [re_covers] is the optional [RuntimeClassScoped]
    capability. *)
Record RestoreEngine := mkRestoreEngine {
  re_name : string;
  MatchesRestoreFailure : string -> option string;
  re_covers : option (string -> bool) }.

Definition covers (rc : string) (e : RestoreEngine) : bool :=
  match re_covers e with Some f => f rc | None => true end.

Definition enginesFor (pod : Pod) (engines : list RestoreEngine) : list RestoreEngine :=
  let runtimeClass := RuntimeClassLabel (p_runtimeClassName pod) in
  List.filter (covers runtimeClass) engines.

Record StartFailure := mkStartFailure { sf_container : string; sf_messages : list string }.

Definition is_start_error (t : Terminated) : bool :=
  (t_reason t ==s startErrorReason) && (t_exitCode t =? startFailureExitCode).

(** The termination the verdict is about, if the container is in a start failure. *)
Definition start_fail (cs : ContainerStatus) : option Terminated :=
  if st_running (cs_state cs) then None
  else
    match st_terminated (cs_state cs) with
    | Some t => if is_start_error t then Some t else None
    | None =>
        match st_waiting (cs_state cs) with
        | Some w =>
            if w_reason w ==s runContainerErrorReason then
              match cs_lastTermination cs with
              | Some lt => if is_start_error lt then Some lt else None
              | None => None
              end
            else None
        | None => None
        end
    end.

Definition container_failure (cs : ContainerStatus) : option StartFailure :=
  match start_fail cs with
  | None => None
  | Some t =>
      let waiting := match st_waiting (cs_state cs) with
                     | Some w => if w_message w !=s "" then [w_message w] else []
                     | None => []
                     end in
      Some (mkStartFailure (cs_name cs) (t_message t :: waiting))
  end.

Definition startFailures (pod : option Pod) : list StartFailure :=
  match pod with
  | None => []
  | Some pod =>
      omap container_failure (p_initContainerStatuses pod ++ p_containerStatuses pod)
  end.

(** The first engine that claims [msg]. *)
Fixpoint match_engine (engines : list RestoreEngine) (msg : string) : option (RestoreEngine * string) :=
  match engines with
  | [] => None
  | e :: es => match MatchesRestoreFailure e msg with
               | Some sig => Some (e, sig)
               | None => match_engine es msg
               end
  end.

Fixpoint match_messages (engines : list RestoreEngine) (msgs : list string)
    : option (RestoreEngine * string * string) :=
  match msgs with
  | [] => None
  | m :: ms => match match_engine engines m with
               | Some (e, sig) => Some (e, sig, m)
               | None => match_messages engines ms
               end
  end.

Fixpoint classify_failures (engines : list RestoreEngine) (fails : list StartFailure)
    (unmatched : option Failure) : Failure :=
  match fails with
  | [] => default no_failure unmatched
  | f :: fs =>
      match match_messages engines (sf_messages f) with
      | Some (e, sig, m) => mkFailure FailureFatal (re_name e) sig m (sf_container f)
      | None =>
          let u := mkFailure FailureUnrecognized "" "" (Join (sf_messages f) " | ") (sf_container f) in
          classify_failures engines fs (Some (default u unmatched))
      end
  end.

Definition Classify (pod : option Pod) (engines : list RestoreEngine) : Failure :=
  match startFailures pod, pod with
  | [], _ | _, None => no_failure
  | failures, Some p => classify_failures (enginesFor p engines) failures None
  end.

(** ** gVisor (gvisor.go) *)

Definition gvisorSignatures : list string := ["oci runtime restore failed"; "restore failed"].
Definition GVisorRuntimeClass : string := "gvisor".

Definition gvisor_matches (msg : string) : option string :=
  let lower := ToLower msg in List.find (fun sig => Contains lower sig) gvisorSignatures.

Definition GVisor : RestoreEngine :=
  mkRestoreEngine "gvisor" gvisor_matches (Some (fun rc => rc ==s GVisorRuntimeClass)).

Definition DefaultEngines : list RestoreEngine := [GVisor].

(** ** Lemmas *)

Lemma startFailures_spec pod f :
  In f (startFailures (Some pod)) <->
  exists cs, In cs (p_initContainerStatuses pod ++ p_containerStatuses pod) /\ container_failure cs = Some f.
Proof.
  unfold startFailures. rewrite <- list_elem_of_In, list_elem_of_omap.
  split; intros (cs & H1 & H2); exists cs; split; try done; by apply list_elem_of_In.
Qed.

(** A start failure: not running, and a StartError with exit code 128. *)
Lemma start_fail_spec cs t :
  start_fail cs = Some t ->
  st_running (cs_state cs) = false /\ t_reason t = startErrorReason /\ t_exitCode t = startFailureExitCode.
Proof.
  unfold start_fail, is_start_error. intros H. repeat dmatch; simplify_eq; bool_props; done.
Qed.

Lemma match_engine_in es m e sig :
  match_engine es m = Some (e, sig) -> In e es /\ MatchesRestoreFailure e m = Some sig.
Proof.
  induction es as [|e' es IH]; simpl; [done|]. destruct (MatchesRestoreFailure e' m) eqn:E; naive_solver.
Qed.

Lemma match_messages_in es ms e sig m :
  match_messages es ms = Some (e, sig, m) -> In m ms /\ In e es /\ MatchesRestoreFailure e m = Some sig.
Proof.
  induction ms as [|m' ms IH]; simpl; [done|].
  destruct (match_engine es m') as [[e' s']|] eqn:E; [|naive_solver].
  intros [= -> -> ->]. apply match_engine_in in E. naive_solver.
Qed.

(** The verdict of the walk over the failures. *)
Lemma classify_failures_spec es fs u :
  let v := classify_failures es fs u in
  match f_class v with
  | FailureFatal =>
      (u = Some v) \/ exists f e m, In f fs /\ In m (sf_messages f) /\ In e es /\
        MatchesRestoreFailure e m = Some (f_signature v) /\
        f_engine v = re_name e /\ f_message v = m /\ f_container v = sf_container f
  | FailureUnrecognized =>
      (u = Some v \/ exists f, In f fs /\ f_container v = sf_container f) /\
      (forall f, In f fs -> match_messages es (sf_messages f) = None)
  | FailureNone => u = Some v \/ (u = None /\ fs = [])
  end.
Proof.
  revert u. induction fs as [|f fs IH]; intros u; simpl.
  - destruct u as [v|]; simpl; [|by right]. destruct (f_class v); naive_solver.
  - destruct (match_messages es (sf_messages f)) as [[[e sig] m]|] eqn:E; simpl.
    + right. apply match_messages_in in E as (H1 & H2 & H3). by exists f, e, m; repeat split; auto.
    + set (u' := mkFailure FailureUnrecognized "" "" (Join (sf_messages f) " | ") (sf_container f)).
      specialize (IH (Some (default u' u))). simpl in IH.
      set (v := classify_failures es fs (Some (default u' u))) in *.
      destruct (f_class v) eqn:Ev.
      * destruct IH as [[= <-]|[? _]]; [|done]. destruct u; [by left|]. by simpl in Ev.
      * destruct IH as [[= IH]|(g & e & m & Hg & Hrest)].
        -- destruct u as [w|]; simpl in IH; [by left; rewrite IH|]. subst u'. by rewrite <- IH in Ev.
        -- right. exists g, e, m. naive_solver.
      * destruct IH as [Hu IH]. split; [|naive_solver].
        destruct Hu as [[= Hu]|(g & Hg & Hgc)]; [|naive_solver].
        destruct u as [w|]; simpl in Hu; [by left; rewrite Hu|].
        right. exists f. split; [by left|]. by rewrite <- Hu.
Qed.

(** A pod none of whose containers is in a start failure. *)
Lemma Classify_none pod es :
  (forall cs, In cs (p_initContainerStatuses pod ++ p_containerStatuses pod) -> start_fail cs = None) ->
  Classify (Some pod) es = no_failure.
Proof.
  intros H. unfold Classify. destruct (startFailures (Some pod)) as [|f fs] eqn:E; [done|].
  assert (Hf : In f (startFailures (Some pod))) by (rewrite E; by left).
  apply startFailures_spec in Hf as (cs & Hin & Hcs).
  unfold container_failure in Hcs. by rewrite H in Hcs.
Qed.

Lemma Classify_unfold pod es f fs :
  startFailures (Some pod) = f :: fs ->
  Classify (Some pod) es = classify_failures (enginesFor pod es) (f :: fs) None.
Proof. intros E. unfold Classify. by rewrite E. Qed.

(** A Fatal verdict is about a container of the pod that is not running and
    whose termination is a StartError with exit code 128; the message it quotes
    is one of that container's, and an engine that covers the pod's runtime
    class claimed it with the quoted signature. *)
Theorem classify_fatal_sound (pod : Pod) (es : list RestoreEngine) :
  f_class (Classify (Some pod) es) = FailureFatal ->
  exists cs t e,
    In cs (p_initContainerStatuses pod ++ p_containerStatuses pod) /\
    cs_name cs = f_container (Classify (Some pod) es) /\
    st_running (cs_state cs) = false /\
    start_fail cs = Some t /\ t_reason t = startErrorReason /\ t_exitCode t = 128 /\
    In e es /\ covers (RuntimeClassLabel (p_runtimeClassName pod)) e = true /\
    re_name e = f_engine (Classify (Some pod) es) /\
    MatchesRestoreFailure e (f_message (Classify (Some pod) es)) = Some (f_signature (Classify (Some pod) es)).
Proof.
  intros Hv. destruct (startFailures (Some pod)) as [|f0 fs] eqn:E;
    [by unfold Classify in Hv; rewrite E in Hv|].
  rewrite (Classify_unfold _ _ _ _ E) in *.
  pose proof (classify_failures_spec (enginesFor pod es) (f0 :: fs) None) as H. simpl in H.
  simpl in Hv. rewrite Hv in H. destruct H as [?|(f & e & m & Hf & Hm & He & Hmatch & Hen & Hms & Hct)]; [done|].
  apply List.filter_In in He as [He Hcov].
  assert (Hf' : In f (startFailures (Some pod))) by (rewrite E; done).
  apply startFailures_spec in Hf' as (cs & Hcs & Hcf).
  unfold container_failure in Hcf. destruct (start_fail cs) as [t|] eqn:Hsf; [|done].
  injection Hcf as <-. pose proof (start_fail_spec _ _ Hsf) as (H1 & H2 & H3).
  exists cs, t, e. simpl in *. rewrite Hms, Hct, Hen. by repeat split.
Qed.

(** A gVisor pod whose sandbox could not be restored. *)
Definition crashed_gvisor_pod : Pod :=
  mkPod (meta_named "ns" "app-0" "uid-1") "node-b" (Some "gvisor") [] [] [] [] [] PodPending "" "" []
    [mkCS "app" (mkState (Some (mkWaiting "RunContainerError" "OCI runtime restore failed: io")) false None)
       (Some (mkTerminated "StartError" 128 "failed to start containerd task")) 0 ""] [].

Lemma classify_fatal_sound_witness :
  f_signature (Classify (Some crashed_gvisor_pod) DefaultEngines) = "oci runtime restore failed" /\
  exists e, In e DefaultEngines /\
    MatchesRestoreFailure e (f_message (Classify (Some crashed_gvisor_pod) DefaultEngines)) =
      Some (f_signature (Classify (Some crashed_gvisor_pod) DefaultEngines)).
Proof.
  split; [reflexivity|].
  destruct (classify_fatal_sound crashed_gvisor_pod DefaultEngines eq_refl)
    as (cs & t & e & _ & _ & _ & _ & _ & _ & He & _ & _ & Hm).
  exists e. by split.
Defined.

(** No verdict against a pod whose containers all run, or exited on their
    own (CrashLoopBackOff, Error, Completed), whatever their history records: a
    container is in a start failure only if it is not running, and it either
    terminated in StartError/128 now, or is parked in RunContainerError with
    that termination last. *)
Theorem classify_healthy_none (pod : Pod) (es : list RestoreEngine) :
  (forall cs, In cs (p_initContainerStatuses pod ++ p_containerStatuses pod) ->
     st_running (cs_state cs) = true \/
     match st_terminated (cs_state cs) with
     | Some t => t_reason t <> startErrorReason \/ t_exitCode t <> 128
     | None => forall w, st_waiting (cs_state cs) = Some w -> w_reason w <> runContainerErrorReason
     end) ->
  Classify (Some pod) es = no_failure.
Proof.
  intros H. apply Classify_none. intros cs Hcs. unfold start_fail.
  destruct (H cs Hcs) as [->|Hst]; [done|].
  destruct (st_running (cs_state cs)); [done|].
  destruct (st_terminated (cs_state cs)) as [t|].
  - unfold is_start_error, startFailureExitCode. destruct ((_ ==s _) && _) eqn:E; [|done].
    bool_props. naive_solver.
  - destruct (st_waiting (cs_state cs)) as [w|]; [|done].
    destruct (w_reason w ==s runContainerErrorReason) eqn:E; [|done]. bool_props. by destruct (Hst w eq_refl).
Qed.

(** A pod that recovered from a start failure and runs. *)
Definition recovered_pod : Pod :=
  mkPod (meta_named "ns" "app-0" "uid-1") "node-b" (Some "gvisor") [] [] [] [] [] PodRunning "" "" []
    [mkCS "app" (mkState None true None)
       (Some (mkTerminated "StartError" 128 "oci runtime restore failed")) 0 ""] [].

Lemma classify_healthy_none_witness : Classify (Some recovered_pod) DefaultEngines = no_failure.
Proof.
  apply classify_healthy_none. intros cs [<-|[]]. by left.
Defined.

(** With the stock engines, a pod of any other runtime class than gvisor,
    or of none, never gets a Fatal verdict. *)
Theorem classify_scoped (pod : Pod) :
  p_runtimeClassName pod <> Some GVisorRuntimeClass ->
  f_class (Classify (Some pod) DefaultEngines) <> FailureFatal.
Proof.
  intros Hrc Hv. destruct (startFailures (Some pod)) as [|f0 fs] eqn:E;
    [by unfold Classify in Hv; rewrite E in Hv|].
  rewrite (Classify_unfold _ _ _ _ E) in Hv.
  replace (enginesFor pod DefaultEngines) with (@nil RestoreEngine) in Hv.
  - pose proof (classify_failures_spec [] (f0 :: fs) None) as H. simpl in H, Hv. rewrite Hv in H.
    by destruct H as [?|(f & e & m & _ & _ & [] & _)].
  - unfold enginesFor, DefaultEngines, covers, RuntimeClassLabel; simpl.
    destruct (p_runtimeClassName pod) as [n|]; [|done].
    destruct (n ==s "") eqn:E0; [done|]. destruct (n ==s GVisorRuntimeClass) eqn:E1; [|done].
    bool_props. congruence.
Qed.

Lemma classify_scoped_witness :
  let pod := mkPod (meta_named "ns" "app-0" "uid-1") "node-b" None [] [] [] [] [] PodPending "" "" []
    [mkCS "app" (mkState None false (Some (mkTerminated "StartError" 128 "runc restore failed"))) None 0 ""] [] in
  f_class (Classify (Some pod) DefaultEngines) <> FailureFatal.
Proof. intros pod. apply (classify_scoped pod). discriminate. Defined.
