(* ===== verification/Engine.v ===== *)
(** * Snapshot engines: routes, the registry and GKE Pod Snapshots
    (internal/engine)

    An [Engine] is what the controller needs from one checkpoint/restore
    engine.  Its calls that reach the cluster are events of [Ev], tagged with
    the engine's name; its optional capabilities are flags.  The [Registry]
    routes a pod's runtime class to an engine, and a job to the engine it names.
    The registry's mutex is not modelled: each operation is atomic. *)
From S2P Require Import Prelude Effects GoLib Kube Interfaces Eligibility Classifier.
From Stdlib Require Import Ascii.

Definition AnnotationEngine : string := "pod-migration.gke.io/engine".
Definition AnnotationRuntimeClassEngines : string := "pod-migration.gke.io/runtime-class-engines".
Definition AnnotationAllowUnfenced : string := "pod-migration.gke.io/allow-unfenced".

Record Verdict := mkVerdict { v_ok : bool; v_reason : string }.

Inductive FencingMode := FencingUnset | FencingFrozen | FencingStopped | FencingNone.
#[export] Instance FencingMode_eq_dec : EqDecision FencingMode.
Proof. solve_decision. Defined.
Definition fencing_string (f : FencingMode) : string :=
  match f with FencingUnset => "" | FencingFrozen => "Frozen" | FencingStopped => "Stopped" | FencingNone => "None" end.

Record Guarantees := mkGuarantees { g_fencing : FencingMode; g_restoreOnce : bool }.

(** The optional [RestoreOrderer] capability. *)
Record RestoreOrderer := mkRestoreOrderer {
  OrderRestore : Pod -> PodMigrationJob -> ApiErr + Pod;
  OrderColdStartBypass : Pod -> ApiErr + Pod;
  InspectRestoreOrder : Pod -> string * bool * bool }.

Record Engine := mkEngine {
  e_name : string;
  e_runtimeClasses : list string;
  e_eligible : Pod -> option Node -> Verdict;
  e_restoreFailures : list RestoreEngine;
  e_guarantees : Guarantees;
  e_orderer : option RestoreOrderer;
  (** [CoversRuntimeClass], if the engine has it. *)
  e_covers : option (string -> bool);
  (** The engine is a [RestoreVerifier]; its provider is a [CheckpointReporter],
      a [RestoreCompleter]. *)
  e_isVerifier : bool;
  e_isReporter : bool;
  e_isCompleter : bool }.

Definition AllowsFencing (pod : option Pod) (eng : option Engine) : bool * string :=
  match eng with
  | None => (false, "no snapshot engine selected")
  | Some eng =>
      let fencing := g_fencing (e_guarantees eng) in
      if bool_decide (fencing = FencingFrozen) || bool_decide (fencing = FencingStopped) then (true, "")
      else
        let optedIn := match pod with
                       | Some p => sget (p_annotations p) AnnotationAllowUnfenced ==s "true"
                       | None => false
                       end in
        if optedIn then (true, "")
        else
          let fencing := if bool_decide (fencing = FencingUnset) then FencingNone else fencing in
          (false, "Snapshot engine " +s Quote (e_name eng) +s
                  " does not fence the source pod after checkpoint (fencing=" +s fencing_string fencing +s
                  ") and pod does not carry " +s AnnotationAllowUnfenced +s "=true")
  end.

(** ** Routes (routes.go) *)

Abbreviation Routes := (gmap string string).

Section Engines.
Context `{DNSLib}.

Definition validateRouteClass (class : string) : option string :=
  if class ==s DefaultRuntimeClassToken then None
  else match IsDNS1123Subdomain class with
       | [] => None
       | errs => Some ("invalid runtime class " +s Quote class +s ": " +s Join errs "; ")
       end.

Definition parse_route (raw : string) (routes : Routes) (elem : string) : string + Routes :=
  let pair := TrimSpace elem in
  if pair ==s "" then inl ("invalid routes " +s Quote raw +s ": empty element")
  else
    let '(class, name, ok) := Cut pair "=" in
    let class := TrimSpace class in
    let name := TrimSpace name in
    if negb ok || Contains name "=" then inl ("invalid route " +s Quote pair +s ": want class=engine")
    else if name ==s "" then inl ("invalid route " +s Quote pair +s ": empty engine name")
    else
      match validateRouteClass class with
      | Some err => inl err
      | None =>
          match routes !! class with
          | Some prev =>
              if prev !=s name then
                inl ("runtime class " +s Quote class +s " is routed to two engines, " +s
                     Quote prev +s " and " +s Quote name)
              else inr (<[class := name]> routes)
          | None => inr (<[class := name]> routes)
          end
      end.

Fixpoint parse_routes_from (raw : string) (elems : list string) (routes : Routes) : string + Routes :=
  match elems with
  | [] => inr routes
  | e :: rest =>
      match parse_route raw routes e with
      | inl err => inl err
      | inr routes' => parse_routes_from raw rest routes'
      end
  end.

Definition ParseRoutes (raw : string) : string + Routes :=
  if TrimSpace raw ==s "" then inr ∅ else parse_routes_from raw (Split raw ",") ∅.

Definition route_classes (r : Routes) : list string := SortStrings (elements (dom r)).

Definition RoutesString (r : Routes) : string :=
  Join (map (fun class => class +s "=" +s sget r class) (route_classes r)) ",".

Definition RoutesFromAllowList (policy : RuntimeClassPolicy) (engineName : string) : Routes :=
  fold_left (fun r class => <[class := engineName]> r) (Classes policy) ∅.

(** ** Registry (registry.go) *)

Record Registry := mkRegistry {
  defaultEngine : string;
  byName : gmap string Engine;
  reg_names : list string;
  byClass : gmap string (list string);
  routes : Routes }.

Definition NewRegistry (def : string) : Registry := mkRegistry def ∅ [] ∅ ∅.

Definition contains (l : list string) (x : string) : bool := existsb (String.eqb x) l.

Definition declare_class (name : string) (m : gmap string (list string)) (class : string)
    : gmap string (list string) :=
  let l := default [] (m !! class) in
  if contains l name then m else <[class := (l ++ [name])%list]> m.

Definition Register (r : Registry) (e : option Engine) : string + Registry :=
  match e with
  | None => inl "registering a nil engine"
  | Some e =>
      let name := e_name e in
      if TrimSpace name ==s "" then inl "registering an engine with an empty name"
      else
        match List.find (fun class => negb (class ==s DefaultRuntimeClassToken) &&
                                      match IsDNS1123Subdomain class with [] => false | _ => true end)
                (e_runtimeClasses e) with
        | Some class =>
            inl ("engine " +s Quote name +s " declares invalid runtime class " +s Quote class +s ": " +s
                 Join (IsDNS1123Subdomain class) "; ")
        | None =>
            match byName r !! name with
            | Some _ => inl ("engine " +s Quote name +s " is already registered")
            | None =>
                inr (mkRegistry (defaultEngine r) (<[name := e]> (byName r)) (reg_names r ++ [name])
                       (fold_left (declare_class name) (e_runtimeClasses e) (byClass r)) (routes r))
            end
        end
  end.

Definition Default (r : Registry) : ApiErr + Engine :=
  match byName r !! defaultEngine r with
  | Some e => inr e
  | None => inl (mkErr OtherErr ("default engine " +s Quote (defaultEngine r) +s " is not registered"))
  end.

Definition not_registered (r : Registry) (what : string) : ApiErr :=
  mkErr EngineNotRegistered (what +s "engine not registered (registered: " +s Join (reg_names r) "," +s ")").

Definition checkRouteLocked (r : Registry) (class name : string) : option ApiErr :=
  match byName r !! name with
  | Some _ => None
  | None => Some (not_registered r ("runtime class " +s Quote class +s " routes to engine " +s Quote name +s ": "))
  end.

Fixpoint check_routes (check : string -> option ApiErr) (classes : list string) : option ApiErr :=
  match classes with
  | [] => None
  | c :: cs => match check c with Some err => Some err | None => check_routes check cs end
  end.

Definition SetRoutes (r : Registry) (rs : Routes) : ApiErr + Registry :=
  let check class :=
    match validateRouteClass class with
    | Some err => Some (mkErr OtherErr err)
    | None => checkRouteLocked r class (sget rs class)
    end in
  match check_routes check (route_classes rs) with
  | Some err => inl err
  | None => inr (mkRegistry (defaultEngine r) (byName r) (reg_names r) (byClass r) rs)
  end.

Definition engineCoversClassLocked (r : Registry) (engineName class : string) : bool :=
  let declares c := contains (default [] (byClass r !! c)) engineName in
  if declares class then true
  else if (class ==s DefaultRuntimeClassToken) && (declares "" || declares DefaultRuntimeClassToken) then true
  else if (class ==s "") && (declares DefaultRuntimeClassToken || declares "") then true
  else
    match byName r !! engineName with
    | None => false
    | Some e => match e_covers e with Some f => f class | None => false end
    end.

Definition canOverrideRouteLocked (r : Registry) (class engineName : string) : bool :=
  match byName r !! engineName with
  | None => false
  | Some _ =>
      if engineCoversClassLocked r engineName class then true
      else if bool_decide (routes r <> ∅) && (sget (routes r) class ==s engineName) then true
      else false
  end.

Definition checkPodMigrationRouteLocked (r : Registry) (class name : string) : option ApiErr :=
  match checkRouteLocked r class name with
  | Some err => Some err
  | None =>
      if negb (canOverrideRouteLocked r class name) then
        Some (mkErr OtherErr ("runtime class " +s Quote class +s " routes to engine " +s Quote name +s
              ": engine does not cover runtime class and does not match cluster route"))
      else None
  end.

Definition podMigrationRoutesAnnotation (pm : option PodMigration) : string :=
  match pm with
  | None => ""
  | Some pm => sget (m_annotations (pm_meta pm)) AnnotationRuntimeClassEngines
  end.

Definition ValidatePodMigrationRoutes (r : Registry) (pm : option PodMigration) : ApiErr + Routes :=
  match ParseRoutes (podMigrationRoutesAnnotation pm) with
  | inl err => inl (mkErr OtherErr err)
  | inr rs =>
      match check_routes (fun class => checkPodMigrationRouteLocked r class (sget rs class)) (route_classes rs) with
      | Some err => inl err
      | None => inr rs
      end
  end.

Definition podMigrationRoutesLocked (r : Registry) (pm : option PodMigration) : Routes :=
  match ParseRoutes (podMigrationRoutesAnnotation pm) with
  | inl _ => ∅
  | inr rs => filter (fun cn => canOverrideRouteLocked r cn.1 cn.2 = true) rs
  end.

Definition resolveLocked (r : Registry) (class : string) (overrides : Routes) : option string :=
  match overrides !! class with
  | Some name => Some name
  | None =>
      if bool_decide (routes r <> ∅) then routes r !! class
      else
        match default [] (byClass r !! class) with
        | [] => None
        | (c :: _) as candidates =>
            if contains candidates (defaultEngine r) then Some (defaultEngine r) else Some c
        end
  end.

(** [(Engine, bool)]: the engine is the map's value, nil ([None]) for a name
    that is not registered. *)
Definition ForPod (r : Registry) (pod : option Pod) (pm : option PodMigration) : option Engine * bool :=
  match pod with
  | None => (None, false)
  | Some pod =>
      let class := RuntimeClassLabel (p_runtimeClassName pod) in
      match resolveLocked r class (podMigrationRoutesLocked r pm) with
      | None => (None, false)
      | Some name => (byName r !! name, true)
      end
  end.

Definition EnginesFor (r : Registry) (pm : option PodMigration) : list Engine :=
  let overrides := podMigrationRoutesLocked r pm in
  let classes := (elements (dom overrides) ++
    (if bool_decide (routes r <> ∅) then elements (dom (routes r)) else elements (dom (byClass r))))%list in
  let picked := omap (fun class => resolveLocked r class overrides) classes in
  let out := omap (fun name => if contains picked name then byName r !! name else None) (reg_names r) in
  match out with
  | [] => match Default r with inr e => [e] | inl _ => [] end
  | _ => out
  end.

Definition ForJob (r : Registry) (job : option PodMigrationJob) : ApiErr + Engine :=
  let name := match job with Some j => TrimSpace (sget (j_annotations j) AnnotationEngine) | None => "" end in
  if name ==s "" then Default r
  else
    match byName r !! name, job with
    | Some e, _ => inr e
    | None, Some j =>
        inl (not_registered r ("job " +s j_namespace j +s "/" +s j_name j +s " names engine " +s Quote name +s ": "))
    | None, None => inl (not_registered r "")
    end.

End Engines.

(** ** GKE Pod Snapshots (gke_pod_snapshots.go) *)

Definition GKEPodSnapshotsName : string := "gke-pod-snapshots".
Definition gkeRuntimeClass : string := "gvisor".
Definition gkeRestoreAnnotation : string := "podsnapshot.gke.io/ps-name".

Definition gke_OrderRestore (pod : Pod) (job : PodMigrationJob) : ApiErr + Pod :=
  if j_snapshotRef job ==s "" then
    inl (mkErr OtherErr ("job " +s j_namespace job +s "/" +s j_name job +s " has no snapshot to restore"))
  else inr (with_p_annotations (<[gkeRestoreAnnotation := j_snapshotRef job]> (p_annotations pod)) pod).

Definition gke_OrderColdStartBypass (pod : Pod) : ApiErr + Pod :=
  inr (with_p_annotations (<[gkeRestoreAnnotation := ""]> (p_annotations pod)) pod).

Definition gke_InspectRestoreOrder (pod : Pod) : string * bool * bool :=
  match p_annotations pod !! gkeRestoreAnnotation with
  | None => ("", false, false)
  | Some val =>
      let trimmed := TrimSpace val in
      if trimmed ==s "" then ("", true, true) else (trimmed, false, true)
  end.

Definition gke_orderer : RestoreOrderer :=
  mkRestoreOrderer gke_OrderRestore gke_OrderColdStartBypass gke_InspectRestoreOrder.

(** [NewGKEPodSnapshots], as the registry sees it. *)
Definition GKEPodSnapshots : Engine :=
  mkEngine GKEPodSnapshotsName [gkeRuntimeClass] (fun _ _ => mkVerdict true "") DefaultEngines
    (mkGuarantees FencingStopped false) (Some gke_orderer) None true true true.

Definition NewDefaultRegistry `{DNSLib} (runtimeClasses : RuntimeClassPolicy) : string + Registry :=
  match Register (NewRegistry GKEPodSnapshotsName) (Some GKEPodSnapshots) with
  | inl err => inl err
  | inr r =>
      match SetRoutes r (RoutesFromAllowList runtimeClasses GKEPodSnapshotsName) with
      | inl err => inl (e_msg err)
      | inr r' => inr r'
      end
  end.

(** [Registry.InspectRestoreOrder] *)
Definition orderer_inspect (pod : Pod) (e : Engine) : option (string * bool * bool) :=
  match e_orderer e with
  | Some o => let '(ref, bypass, ok) := InspectRestoreOrder o pod in if ok : bool then Some (ref, bypass, true) else None
  | None => None
  end.

Definition Registry_InspectRestoreOrder (r : option Registry) (engineName : string) (pod : Pod) : string * bool * bool :=
  match r with
  | None => gke_InspectRestoreOrder pod
  | Some r =>
      let name := TrimSpace engineName in
      if name !=s "" then
        match byName r !! name with
        | None => if name ==s GKEPodSnapshotsName then gke_InspectRestoreOrder pod else ("", false, false)
        | Some e => match e_orderer e with
                    | Some o => InspectRestoreOrder o pod
                    | None => gke_InspectRestoreOrder pod
                    end
        end
      else
        match (match Default r with inr def => orderer_inspect pod def | inl _ => None end) with
        | Some ans => ans
        | None =>
            match omap (fun regName => byName r !! regName ≫= orderer_inspect pod) (reg_names r) with
            | ans :: _ => ans
            | [] => gke_InspectRestoreOrder pod
            end
        end
  end.

Definition isRestoreFailureEvent (ev : KEvent) : bool :=
  if contains ["FallbackToColdStart"; "FailedRestore"; "RestoreFailed"; "SkipRestore"; "GKEPodSnapshotting"]
       (ev_reason ev) then true
  else
    let msg := ToLower (ev_message ev) in
    Contains msg "falling back to a cold start" || Contains msg "failed to restore" || Contains msg "skipped restore".

Definition restore_failure_candidate (job : option PodMigrationJob) (pod : Pod) (ev : KEvent) : bool :=
  let before := match job with
                | Some j => match restoringStartTime (j_status j) with
                            | Some t => negb (IsZero (ev_lastTimestamp ev)) && Before (ev_lastTimestamp ev) t
                            | None => false
                            end
                | None => false
                end in
  (ev_involvedUID ev ==s p_uid pod) && negb before && (ev_type ev ==s "Warning") && isRestoreFailureEvent ev.

Definition restoreFailureEvent (job : option PodMigrationJob) (pod : Pod)
    : prog resp (res (option KEvent)) :=
  Call (EListEvents (p_namespace pod) (p_uid pod)) (fun r =>
    match r with
    | inl err => Done (inl (wrapf ("failed to list events for replacement pod " +s p_name pod +s ": ") err))
    | inr events => Done (inr (List.find (restore_failure_candidate job pod) events))
    end).

Definition podReady (pod : Pod) : bool :=
  existsb (fun c => (c_type c ==s "Ready") && (c_status c ==s "True")) (p_conditions pod).

Definition gkeColdStartReason : string := "GKE runtime skipped snapshot restore and fell back to cold start".

Definition gke_VerifyRestore (job : option PodMigrationJob) (pod : option Pod) : prog resp (res RestoreVerdict) :=
  match pod with
  | None => Done (inl (mkErr OtherErr "verifying the restore of a nil pod"))
  | Some pod =>
      pbind (restoreFailureEvent job pod) (fun r =>
        match r with
        | inl err => Done (inl err)
        | inr (Some ev) =>
            Done (inr (mkRestoreVerdict ColdStart gkeColdStartReason
                         ("Warning event " +s ev_reason ev +s ": " +s ev_message ev) false))
        | inr None =>
            if negb (podReady pod) then Done (inr (mkRestoreVerdict RestoreInProgress "" "" false))
            else Done (inr (mkRestoreVerdict Restored ""
                              "pod Ready, with no restore-failure Warning event since restoring started" false))
        end)
  end.

(** ** Routes round trip *)

Section RouteLemmas.
Context `{DNSLib}.

(** An engine name the flag syntax can carry. *)
Definition plain_name (n : string) : Prop :=
  n <> "" /\ no_space n = true /\ no_char "," n = true /\ no_char "=" n = true.

Definition route_ok (class name : string) : Prop := validateRouteClass class = None /\ plain_name name.

Lemma route_class_chars class :
  validateRouteClass class = None ->
  class <> "" /\ no_space class = true /\ no_char "," class = true /\ no_char "=" class = true.
Proof.
  unfold validateRouteClass. destruct (class ==s DefaultRuntimeClassToken) eqn:E; bool_props.
  - intros _. by subst class.
  - destruct (IsDNS1123Subdomain class) eqn:Ev; [intros _|done].
    destruct (dns_valid _ Ev) as [Hne Hc].
    repeat split; [done|by apply dns_char_no_space|by apply dns_char_no_sep|by apply dns_char_no_sep].
Qed.

Lemma no_space_app s t : no_space (s +s t) = no_space s && no_space t.
Proof. apply all_chars_app. Qed.

Lemma no_char_app c s t : no_char c (s +s t) = no_char c s && no_char c t.
Proof. apply all_chars_app. Qed.

Lemma parse_route_ok raw rs class name :
  route_ok class name -> rs !! class = None ->
  parse_route raw rs (class +s "=" +s name) = inr (<[class := name]> rs).
Proof.
  intros [Hc (Hn & Hns & Hnc & Hne)] Hrs.
  destruct (route_class_chars class Hc) as (Hcne & Hcs & Hcc & Hce).
  unfold parse_route. change ("=" +s name) with (String "=" name).
  rewrite (TrimSpace_no_space (class +s String "=" name)).
  2: { rewrite no_space_app, Hcs. exact Hns. }
  replace (class +s String "=" name ==s "") with false.
  2: { symmetry. apply seqb_false. by destruct class. }
  rewrite Cut_app by done. rewrite !TrimSpace_no_space by done. simpl.
  rewrite no_char_Contains by done.
  replace (name ==s "") with false by (symmetry; by apply seqb_false).
  by rewrite Hc, Hrs.
Qed.

Lemma parse_routes_map raw (r : Routes) cs rs0 :
  (forall class name, r !! class = Some name -> route_ok class name) ->
  (forall c, In c cs -> c ∈ dom r /\ rs0 !! c = None) -> NoDup cs ->
  parse_routes_from raw (map (fun class => class +s "=" +s sget r class) cs) rs0 =
    inr (list_to_map ((fun c => (c, sget r c)) <$> reverse cs) ∪ rs0).
Proof.
  intros Hr. revert rs0. induction cs as [|c cs IH]; intros rs0 Hin Hnd; simpl.
  - f_equal. by rewrite (left_id_L ∅ (∪)).
  - apply NoDup_cons in Hnd as [Hni Hnd].
    destruct (Hin c (or_introl eq_refl)) as [Hc Hc0].
    apply elem_of_dom in Hc as [n Hn].
    assert (Hs : sget r c = n) by (unfold sget; by rewrite Hn).
    rewrite Hs, parse_route_ok by eauto. rewrite IH; [|intros d Hd|done].
    + f_equal. rewrite reverse_cons, fmap_app. rewrite list_to_map_app. simpl. rewrite Hs.
      rewrite <- (assoc_L (∪)). f_equal. by rewrite insert_empty, <- insert_union_singleton_l.
    + destruct (Hin d (or_intror Hd)) as [H1 H2]. split; [done|].
      rewrite lookup_insert_ne; [done|]. intros ->. by apply Hni, list_elem_of_In.
Qed.

Lemma route_classes_elem (r : Routes) c : In c (route_classes r) <-> c ∈ dom r.
Proof.
  unfold route_classes, SortStrings. rewrite SliceStable_In, <- list_elem_of_In. apply elem_of_elements.
Qed.

Lemma route_classes_NoDup (r : Routes) : NoDup (route_classes r).
Proof.
  unfold route_classes, SortStrings.
  rewrite <- (SliceStable_perm String.ltb (elements (dom r))). apply NoDup_elements.
Qed.

Lemma list_to_map_classes (r : Routes) :
  list_to_map ((fun c => (c, sget r c)) <$> reverse (route_classes r)) ∪ ∅ = r.
Proof.
  rewrite (right_id_L ∅ (∪)). apply map_eq. intros c.
  destruct (r !! c) as [n|] eqn:Hn.
  - apply elem_of_list_to_map_1.
    + rewrite <- list_fmap_compose. simpl. rewrite list_fmap_id, reverse_Permutation. apply route_classes_NoDup.
    + apply list_elem_of_fmap. exists c. unfold sget. rewrite Hn. split; [done|].
      rewrite elem_of_reverse, list_elem_of_In. apply route_classes_elem, elem_of_dom. by exists n.
  - apply not_elem_of_list_to_map_1. rewrite <- list_fmap_compose. simpl. rewrite list_fmap_id.
    rewrite elem_of_reverse, list_elem_of_In, route_classes_elem, not_elem_of_dom. done.
Qed.

Lemma route_item_chars (r : Routes) c :
  (forall class name, r !! class = Some name -> route_ok class name) -> In c (route_classes r) ->
  no_char "," (c +s "=" +s sget r c) = true /\ no_space (c +s "=" +s sget r c) = true /\ c <> "".
Proof.
  intros Hr Hc. apply route_classes_elem, elem_of_dom in Hc as [n Hn].
  destruct (Hr _ _ Hn) as [Hv (_ & Hns & Hnc & _)].
  destruct (route_class_chars c Hv) as (Hcne & Hcs & Hcc & _).
  unfold sget. rewrite Hn. simpl. rewrite no_char_app, no_space_app, Hcs, Hcc. by repeat split.
Qed.

(** The printed routes are blank only if there are none. *)
Lemma RoutesString_blank (r : Routes) :
  (forall class name, r !! class = Some name -> route_ok class name) ->
  TrimSpace (RoutesString r) = "" -> r = ∅.
Proof.
  intros Hr Hb. unfold RoutesString in Hb.
  destruct (route_classes r) as [|c cs] eqn:E.
  - apply dom_empty_inv_L, set_eq. intros x. rewrite <- route_classes_elem, E. set_solver.
  - exfalso. pose proof (route_item_chars r c Hr) as H1. rewrite E in H1.
    destruct (H1 (or_introl eq_refl)) as (_ & Hs & Hne).
    destruct c as [|d c']; [done|].
    assert (Hd : is_space d = false).
    { unfold no_space in Hs. simpl in Hs. by apply andb_true_iff in Hs as [Hs%negb_true_iff _]. }
    clear -Hb Hd. unfold TrimSpace, Join in Hb.
    assert (Hx : exists t, String.concat "," (map (fun class => class +s "=" +s sget r class) (String d c' :: cs)) = String d t).
    { destruct cs; simpl; eexists; reflexivity. }
    destruct Hx as [t Ht]. rewrite Ht in Hb. simpl in Hb. rewrite Hd in Hb. simpl in Hb.
    destruct (trim_right t); by rewrite ?Hd in Hb.
Qed.

(** The route syntax round-trips: parsing what [Routes.String] prints for
    routes with valid classes and plain engine names gives the routes back. *)
Theorem routes_roundtrip (r : Routes) :
  (forall class name, r !! class = Some name -> route_ok class name) ->
  ParseRoutes (RoutesString r) = inr r.
Proof.
  intros Hr. unfold ParseRoutes. destruct (TrimSpace (RoutesString r) ==s "") eqn:Eb; bool_props.
  - by rewrite (RoutesString_blank r Hr Eb).
  - unfold RoutesString at 2. rewrite Split_Join.
    + rewrite parse_routes_map; [by rewrite list_to_map_classes|done| |apply route_classes_NoDup].
      intros c Hc. split; [by apply route_classes_elem|done].
    + intros Hn. apply Eb. apply map_eq_nil in Hn. unfold RoutesString. by rewrite Hn.
    + apply List.Forall_forall. intros x Hx. apply in_map_iff in Hx as (c & <- & Hc).
      by apply route_item_chars.
Qed.

End RouteLemmas.

Lemma routes_roundtrip_witness :
  let _ := dns_ref in
  ParseRoutes (RoutesString {["gvisor" := "gke-pod-snapshots"; "@default" := "criu"]}) =
    inr {["gvisor" := "gke-pod-snapshots"; "@default" := "criu"]}.
Proof.
  intros L. apply (@routes_roundtrip L). intros class name Hl.
  apply lookup_insert_Some in Hl as [[<- <-]|[_ Hl]]; [by split; [|repeat split]|].
  apply lookup_singleton_Some in Hl as [<- <-]. by split; [|repeat split].
Defined.

(** ** The registry's invariant *)

Section RegistryLemmas.
Context `{DNSLib}.

(** The registries a process can build. *)
Inductive reg_reachable : Registry -> Prop :=
| reach_new def : reg_reachable (NewRegistry def)
| reach_register r e r' : reg_reachable r -> Register r e = inr r' -> reg_reachable r'
| reach_routes r rs r' : reg_reachable r -> SetRoutes r rs = inr r' -> reg_reachable r'.

Record reg_wf (r : Registry) : Prop := {
  wf_key : forall n e, byName r !! n = Some e -> e_name e = n;
  wf_names : forall n, In n (reg_names r) <-> is_Some (byName r !! n);
  wf_nodup : NoDup (reg_names r);
  wf_class : forall class l n, byClass r !! class = Some l -> In n l ->
    exists e, byName r !! n = Some e /\ In class (e_runtimeClasses e);
  wf_routes : forall class n, routes r !! class = Some n -> is_Some (byName r !! n) }.

Lemma contains_In l x : contains l x = true <-> In x l.
Proof.
  unfold contains. rewrite existsb_exists. split.
  - intros (y & Hy & He). bool_props. congruence.
  - intros Hx. exists x. by rewrite seqb_refl.
Qed.

Lemma declare_classes_lookup name cs m class l n :
  fold_left (declare_class name) cs m !! class = Some l -> In n l ->
  (exists l0, m !! class = Some l0 /\ In n l0) \/ (n = name /\ In class cs).
Proof.
  revert m. induction cs as [|c cs IH]; simpl; intros m Hl Hn; [by left; exists l|].
  destruct (IH _ Hl Hn) as [(l0 & Hl0 & Hn0)|[-> Hc]]; [|by right; split; [|right]].
  unfold declare_class in Hl0. destruct (contains (default [] (m !! c)) name); [by left; exists l0|].
  apply lookup_insert_Some in Hl0 as [[<- <-]|[_ Hl0]]; [|by left; exists l0].
  apply in_app_or in Hn0 as [Hn0|[<-|[]]]; [|by right; split; [|left]].
  destruct (m !! c) as [l1|]; [by left; exists l1|done].
Qed.

Lemma Register_wf r e r' : reg_wf r -> Register r e = inr r' -> reg_wf r'.
Proof.
  intros Hwf. unfold Register. destruct e as [e|]; [|done].
  destruct (TrimSpace (e_name e) ==s ""); [done|].
  destruct (List.find _ (e_runtimeClasses e)); [done|].
  destruct (byName r !! e_name e) eqn:Hnew; [done|]. intros [= <-].
  split; simpl.
  - intros n e' Hl. apply lookup_insert_Some in Hl as [[<- <-]|[_ Hl]]; [done|]. by apply Hwf.
  - intros n. rewrite lookup_insert_is_Some', in_app_iff, (wf_names _ Hwf). simpl. naive_solver.
  - apply NoDup_app. split; [apply Hwf|]. split; [|apply NoDup_singleton].
    intros x Hx%list_elem_of_In ->%list_elem_of_singleton.
    apply (wf_names _ Hwf) in Hx as [? Hx]. congruence.
  - intros class l n Hl Hn.
    destruct (declare_classes_lookup _ _ _ _ _ _ Hl Hn) as [(l0 & Hl0 & Hn0)|[-> Hc]].
    + destruct (wf_class _ Hwf _ _ _ Hl0 Hn0) as (e' & He' & Hc). exists e'. split; [|done].
      rewrite lookup_insert_ne; [done|]. congruence.
    + exists e. by rewrite lookup_insert_eq.
  - intros class n Hr. rewrite lookup_insert_is_Some'. right. by apply (wf_routes _ Hwf class).
Qed.

Lemma check_routes_none check cs :
  check_routes check cs = None -> forall c, In c cs -> check c = None.
Proof.
  induction cs as [|c cs IH]; simpl; [by intros _ ? []|].
  destruct (check c) eqn:E; [done|]. intros Hc d [<-|Hd]; auto.
Qed.

Lemma checkRouteLocked_none r class name :
  checkRouteLocked r class name = None -> is_Some (byName r !! name).
Proof. unfold checkRouteLocked. by destruct (byName r !! name). Qed.

Lemma SetRoutes_wf r rs r' : reg_wf r -> SetRoutes r rs = inr r' -> reg_wf r'.
Proof.
  intros Hwf. unfold SetRoutes. destruct (check_routes _ _) eqn:Hc; [done|]. intros [= <-].
  split; simpl; try apply Hwf. intros class n Hr.
  assert (Hin : In class (route_classes rs)) by (apply route_classes_elem, elem_of_dom; by exists n).
  pose proof (check_routes_none _ _ Hc class Hin) as Hck. simpl in Hck.
  destruct (validateRouteClass class); [done|].
  apply checkRouteLocked_none in Hck. unfold sget in Hck. by rewrite Hr in Hck.
Qed.

Lemma reachable_wf r : reg_reachable r -> reg_wf r.
Proof.
  induction 1 as [def|r e r' _ IH He|r rs r' _ IH He].
  - split; simpl; try done; [|constructor]. intros n. rewrite lookup_empty.
    split; [done|]. by intros [? ?].
  - by eapply Register_wf.
  - by eapply SetRoutes_wf.
Qed.

Lemma canOverride_spec r class name :
  canOverrideRouteLocked r class name = true ->
  is_Some (byName r !! name) /\
  (engineCoversClassLocked r name class = true \/ sget (routes r) class = name /\ routes r <> ∅).
Proof.
  unfold canOverrideRouteLocked. destruct (byName r !! name) as [e|]; [|done].
  intros Hc. split; [by exists e|].
  destruct (engineCoversClassLocked r name class); [by left|right].
  destruct (bool_decide (routes r <> ∅) && (sget (routes r) class ==s name)) eqn:E; [|done].
  bool_props. by apply bool_decide_eq_true in H0.
Qed.

Lemma overrides_spec r pm class name :
  podMigrationRoutesLocked r pm !! class = Some name -> canOverrideRouteLocked r class name = true.
Proof.
  unfold podMigrationRoutesLocked. destruct (ParseRoutes _); [done|].
  intros Hl. by apply map_lookup_filter_Some in Hl as [_ Hl].
Qed.

(** Routing a pod: whatever engines were registered, routes were set and
    the namespace's annotation asks for, an engine [ForPod] picks is registered
    (never nil), and it either covers the pod's runtime class or is the class's
    cluster route: a namespace cannot route a class to an engine that neither
    covers it nor serves it cluster-wide. *)
Theorem forpod_sound (r : Registry) (pod : Pod) (pm : option PodMigration) (oe : option Engine) :
  reg_reachable r -> ForPod r (Some pod) pm = (oe, true) ->
  let class := RuntimeClassLabel (p_runtimeClassName pod) in
  exists e, oe = Some e /\ byName r !! e_name e = Some e /\
    (engineCoversClassLocked r (e_name e) class = true \/ sget (routes r) class = e_name e).
Proof.
  intros Hr Hf class. apply reachable_wf in Hr. unfold ForPod in Hf. fold class in Hf.
  destruct (resolveLocked r class _) as [name|] eqn:Hres; [|done]. injection Hf as <-.
  assert (Hgoal : is_Some (byName r !! name) /\
    (engineCoversClassLocked r name class = true \/ sget (routes r) class = name)).
  { unfold resolveLocked in Hres.
    destruct (podMigrationRoutesLocked r pm !! class) as [n|] eqn:Hov.
    - injection Hres as ->. apply overrides_spec, canOverride_spec in Hov. tauto.
    - case_bool_decide as Hroutes.
      + split; [by eapply wf_routes|]. right. unfold sget. by rewrite Hres.
      + destruct (byClass r !! class) as [l|] eqn:Hl; cbn [default from_option] in Hres; [|done].
        destruct l as [|c l']; [done|]. cbv beta iota in Hres.
        assert (Hin : In name (c :: l')).
        { cbn in Hres. destruct (_ || _) eqn:Hd; injection Hres as <-; [|by left].
          by apply contains_In. }
        destruct (wf_class _ Hr _ _ _ Hl Hin) as (e & He & _). split; [by exists e|]. left.
        unfold engineCoversClassLocked. rewrite Hl. simpl default.
        replace (contains (c :: l') name) with true; [done|]. symmetry. by apply contains_In. }
  destruct Hgoal as [[e He] Hor]. exists e. pose proof (wf_key _ Hr _ _ He) as Hk. subst name.
  by repeat split.
Qed.

End RegistryLemmas.

(** A stock registry. *)
Definition stock_registry : Registry :=
  match @NewDefaultRegistry dns_ref (mkPolicy {["gvisor"]} false) with inr r => r | inl _ => NewRegistry "" end.

Definition gvisor_pod : Pod := with_p_gates [] crashed_gvisor_pod.

Lemma forpod_sound_witness :
  exists e, fst (ForPod (H := dns_ref) stock_registry (Some gvisor_pod) None) = Some e /\
    (engineCoversClassLocked stock_registry (e_name e) "gvisor" = true \/
     sget (routes stock_registry) "gvisor" = e_name e).
Proof.
  assert (Hr : @reg_reachable dns_ref stock_registry).
  { destruct (Register (H := dns_ref) (NewRegistry GKEPodSnapshotsName) (Some GKEPodSnapshots)) as [err|r1] eqn:E1;
      [done|].
    apply (@reach_routes dns_ref r1 (RoutesFromAllowList (mkPolicy {["gvisor"]} false) GKEPodSnapshotsName)).
    - exact (@reach_register dns_ref _ (Some GKEPodSnapshots) r1 (@reach_new dns_ref _) E1).
    - injection E1 as <-. vm_cast_no_check (@eq_refl (ApiErr + Registry) (inr stock_registry)). }
  destruct (@forpod_sound dns_ref stock_registry gvisor_pod None
    (fst (ForPod (H := dns_ref) stock_registry (Some gvisor_pod) None)) Hr) as (e & He & _ & Hor).
  - reflexivity.
  - exists e. by split.
Defined.

(** The restore order round-trips: after [OrderRestore] for a job whose
    snapshot name has no spaces, the pod's order reads back as that snapshot and
    not as a cold start; after [OrderColdStartBypass] it reads back as a cold
    start, replacing any snapshot ordered before; nothing else of the pod
    changes but its annotations. *)
Theorem gke_order_roundtrip (pod : Pod) (job : PodMigrationJob) :
  j_snapshotRef job <> "" -> no_space (j_snapshotRef job) = true ->
  exists pod', gke_OrderRestore pod job = inr pod' /\
    gke_InspectRestoreOrder pod' = (j_snapshotRef job, false, true) /\
    with_p_annotations (p_annotations pod) pod' = pod /\
    exists pod'', gke_OrderColdStartBypass pod' = inr pod'' /\ gke_InspectRestoreOrder pod'' = ("", true, true).
Proof.
  intros Hne Hns. unfold gke_OrderRestore.
  replace (j_snapshotRef job ==s "") with false by (symmetry; by apply seqb_false).
  eexists. split; [done|]. split.
  { unfold gke_InspectRestoreOrder, p_annotations, with_p_annotations. simpl.
    rewrite lookup_insert_eq, TrimSpace_no_space by done.
    by replace (j_snapshotRef job ==s "") with false by (symmetry; by apply seqb_false). }
  split. { by destruct pod as [[] ? ? ? ? ? ? ? ? ? ? ? ? ?]. }
  eexists. split; [done|].
  unfold gke_InspectRestoreOrder, p_annotations, with_p_annotations. simpl. by rewrite lookup_insert_eq.
Qed.

Definition job_with_snapshot : PodMigrationJob :=
  set_snapshotRef "snap-1" (mkJob (meta_named "ns" "app-0-mig" "j1") (mkJobSpec "app-0" "uid-0") empty_status).

Lemma gke_order_roundtrip_witness :
  exists pod', gke_OrderRestore crashed_gvisor_pod job_with_snapshot = inr pod' /\
    gke_InspectRestoreOrder pod' = ("snap-1", false, true).
Proof.
  destruct (gke_order_roundtrip crashed_gvisor_pod job_with_snapshot ltac:(discriminate) ltac:(reflexivity))
    as (pod' & H1 & H2 & _). by exists pod'.
Defined.

(** The engine's restore verdict, for every answer of the events API: it is
    never a confirmed restore; it is Restored only for a Ready pod, with no
    restore-failure Warning event on it since restoring started; it is ColdStart
    exactly when such an event is listed; and an error when events cannot be
    listed. *)
Theorem gke_verify_restore_spec (job : option PodMigrationJob) (pod : Pod) t r :
  exec (gke_VerifyRestore job (Some pod)) t r ->
  exists ans, t = [existT (EListEvents (p_namespace pod) (p_uid pod)) ans] /\
  match r with
  | inl _ => exists err, ans = inl err
  | inr v =>
      exists evs, ans = inr evs /\ rv_confirmed v = false /\
      (rv_outcome v = ColdStart <-> existsb (restore_failure_candidate job pod) evs = true) /\
      (rv_outcome v = Restored <-> podReady pod = true /\ existsb (restore_failure_candidate job pod) evs = false) /\
      rv_outcome v <> RestoreFailed
  end.
Proof.
  intros Hx. unfold gke_VerifyRestore, restoreFailureEvent in Hx. cbn [pbind] in Hx.
  apply exec_inv in Hx as (ans & t' & -> & Hx). exists ans.
  destruct ans as [err|evs]; cbn [pbind] in Hx.
  { apply exec_inv in Hx as [-> ->]. split; [done|]. by exists err. }
  destruct (List.find (restore_failure_candidate job pod) evs) as [ev|] eqn:Hf; cbn [pbind] in Hx.
  - apply exec_inv in Hx as [-> ->]. split; [done|]. exists evs. simpl.
    apply List.find_some in Hf.
    assert (Hex : existsb (restore_failure_candidate job pod) evs = true) by (apply existsb_exists; by exists ev).
    rewrite Hex. repeat split; try done. by intros [_ ?].
  - assert (Hex : existsb (restore_failure_candidate job pod) evs = false).
    { apply existsb_false. intros x Hx'. by apply (List.find_none _ _ Hf). }
    destruct (podReady pod) eqn:Hp; simpl in Hx; apply exec_inv in Hx as [-> ->];
      (split; [done|]; exists evs; simpl; rewrite Hex; repeat split; try done; by intros [? ?]).
Qed.

Definition failed_restore_event : KEvent := mkKEvent "Warning" "FailedRestore" "io" "uid-1" 5.

Lemma gke_verify_restore_spec_witness :
  let v := mkRestoreVerdict ColdStart gkeColdStartReason "Warning event FailedRestore: io" false in
  exec (gke_VerifyRestore None (Some crashed_gvisor_pod))
    [existT (EListEvents "ns" "uid-1") (inr [failed_restore_event])] (inr v) /\ rv_confirmed v = false.
Proof.
  intros v.
  assert (Hx : exec (gke_VerifyRestore None (Some crashed_gvisor_pod))
    [existT (EListEvents "ns" "uid-1") (inr [failed_restore_event])] (inr v)).
  { apply (exec_call (EListEvents "ns" "uid-1")). apply exec_done. }
  split; [exact Hx|].
  by destruct (gke_verify_restore_spec _ _ _ _ Hx) as (ans & _ & evs & _ & Hc & _).
Defined.
