(* ===== verification/PodUtil.v ===== *)
(** * Predicates on pods and nodes (internal/util/preemption.go) *)
From S2P Require Import Prelude GoLib Kube Timeout.

Definition TaintImpendingNodeTermination : string := "cloud.google.com/impending-node-termination".
Definition LabelActiveNodeMaintenance : string := "cloud.google.com/active-node-maintenance".
Definition ValueMaintenanceOngoing : string := "ONGOING".
Definition PreemptionDefaultTimeout : Z := 2 * Minute.
Definition AnnotationPDBEvictionTimeout : string := "pod-migration.gke.io/pdb-eviction-timeout".

Definition IsNodeShuttingDown (node : Node) : bool :=
  existsb (fun c => (c_type c ==s "Ready") && (c_status c ==s "False") && (c_reason c ==s "KubeletNotReady") &&
                    Contains (ToLower (c_message c)) "node is shutting down") (n_conditions node).

Definition IsNodePreempting (node : option Node) : bool :=
  match node with
  | None => false
  | Some node =>
      if existsb (fun t => fst t ==s TaintImpendingNodeTermination) (n_taints node) then true
      else if sget (m_labels (n_meta node)) LabelActiveNodeMaintenance ==s ValueMaintenanceOngoing then true
      else IsNodeShuttingDown node
  end.

(** [pod.Status.Phase] is Failed or Succeeded. *)
Definition pod_finished (pod : Pod) : bool :=
  bool_decide (p_phase pod = PodFailed) || bool_decide (p_phase pod = PodSucceeded).

Definition IsPodTerminatedDueToNodeShutdownWithNode (pod : Pod) (node : option Node) : bool :=
  if negb (pod_finished pod) then false
  else if p_reason pod ==s "NodeShutdown" then true
  else
    let msg := ToLower (p_message pod) in
    let isShutdownMsg := Contains msg "node is shutting down" || Contains msg "node shutdown" ||
                         Contains msg "imminent node shutdown" in
    let hasShutdownDisruption :=
      existsb (fun c => (c_type c ==s "DisruptionTarget") && (c_reason c ==s "TerminationByKubelet")) (p_conditions pod) in
    if isShutdownMsg || hasShutdownDisruption then true
    else match node with Some n => IsNodeShuttingDown n | None => false end.

Definition IsPodTerminatedDueToNodeShutdown (pod : Pod) : bool :=
  IsPodTerminatedDueToNodeShutdownWithNode pod None.

Definition add_limit (total : Z) (c : Container) : Z :=
  match ct_memoryLimit c with Some v => i64 (total + v) | None => total end.

Definition CalculatePodMemoryFootprint (pod : option Pod) : Z * bool :=
  match pod with
  | None => (0, false)
  | Some p =>
      let reqBytes := CalculatePodMemoryRequest pod in
      if 0 <? reqBytes then (reqBytes, true)
      else
        let limitBytes := fold_left (fun t c => if is_sidecar c then add_limit t c else t) (p_initContainers p)
                            (fold_left add_limit (p_containers p) 0) in
        if 0 <? limitBytes then (limitBytes, true) else (0, false)
  end.

Definition IsPodMigrationEnabled (pod : Pod) : bool :=
  sget (p_labels pod) "pod-migration.gke.io/enabled" ==s "true".

Definition AreReadinessGatesSatisfied (pod : Pod) : bool :=
  forallb (fun gate => existsb (fun c => (c_type c ==s gate) && (c_status c ==s "True")) (p_conditions pod))
    (p_readinessGates pod).

Definition HasPDBEvictionTimedOut (pod : Pod) : bool :=
  sget (p_annotations pod) AnnotationPDBEvictionTimeout ==s "true".
