(* ===== verification/JobBase.v ===== *)
(** * The PodMigrationJob reconciler: configuration, state and helpers
    (internal/controller/podmigrationjob_controller.go)

    A handler runs on the two objects its pointers [job] and [origJob] reach
    ([JobState]); a successful write replaces [job] by the object the API server
    answers, as the client does.  The clock is read once per reconcile ([now]).
    Log lines are not modelled. *)
From S2P Require Import Prelude Effects GoLib Kube Interfaces Timeout Eligibility Classifier Engine PodUtil.

(** ** Constants *)

Definition fallbackEventCheckInterval : Z := 30 * Second.
Definition ConditionRestoreCrashed : string := "RestoreCrashed".
Definition ReasonRestoreCrashFallback : string := "RestoreCrashFallback".
Definition ConditionUnrecognizedRestoreCrash : string := "UnrecognizedRestoreCrash".
Definition ReasonUnrecognizedRestoreCrash : string := "UnrecognizedRestoreCrash".
Definition ReasonEngineNotRegistered : string := "EngineNotRegistered".
Definition ConditionSourceFenced : string := "SourceFenced".
Definition SourceFenceFinalizer : string := "pod-migration.gke.io/source-fence".
Definition ConditionDisruptionBudgetChecked : string := "DisruptionBudgetChecked".
Definition ReasonDisruptionBudgetTimeout : string := "DisruptionBudgetTimeout".
Definition reasonBudgetAllowed : string := "Allowed".
Definition reasonBudgetExhausted : string := "BudgetExhausted".
Definition reasonMigrationsInFlight : string := "MigrationsInFlight".
Definition reasonBudgetCheckError : string := "CheckError".
Definition AnnotationMismatchSince : string := "pod-migration.gke.io/mismatch-since".
Definition AnnotationTriggerSource : string := "pod-migration.gke.io/trigger-source".
Definition LabelTriggerSource : string := "pod-migration.gke.io/trigger-source".
Definition TriggerSourceSpotPreemption : string := "spot-preemption".
Definition LabelParentKind : string := "pod-migration.gke.io/parent-kind".
Definition LabelParentName : string := "pod-migration.gke.io/parent-name".
Definition LabelPodTemplateHash : string := "pod-migration.gke.io/pod-template-hash".
Definition MigrationGate : string := "gke.io/pod-migration-gate".
Definition postCheckpointEvictionGracePeriodSeconds : Z := 1.

(** [newPostCheckpointEviction]: no preconditions. *)
Definition newPostCheckpointEviction : EvictOpts :=
  mkEvictOpts (Some postCheckpointEvictionGracePeriodSeconds) None false.

(** ** The reconciler's fields *)

Record Reconciler := mkReconciler {
  (** [APIReader] is set, [Recorder] is set, [BudgetChecker] is set *)
  rc_hasAPIReader : bool;
  rc_hasRecorder : bool;
  rc_hasBudgetChecker : bool;
  rc_invariantsEnabled : bool;
  (** the [SnapshotProvider] override, as the engine whose provider it is *)
  rc_provider : option Engine;
  rc_restoreEngines : option (list RestoreEngine);
  rc_engines : option Registry;
  rc_defaultMigrationTimeout : Z;
  rc_fencePreCheckpointCap : Z;
  rc_fenceLateStopWatch : Z;
  rc_fenceDeleteUnwedgeTimeout : Z;
  rc_restoreStabilizationWindow : Z }.

Record JobState := mkJobState { s_job : PodMigrationJob; s_orig : PodMigrationJob }.

(** [invariants.IsTerminalPhase] *)
Definition IsTerminalPhase (p : JobPhase) : bool :=
  (p ==p Succeeded) || (p ==p SucceededWithoutRestore) || (p ==p Failed).

Definition req_key (j : PodMigrationJob) : string := j_namespace j +s "/" +s j_name j.

Definition isPodReady (pod : Pod) : bool :=
  existsb (fun c => (c_type c ==s "Ready") && (c_status c ==s "True")) (p_conditions pod).

Definition podHasMigrationGate (pod : Pod) : bool := contains (p_schedulingGates pod) MigrationGate.

Definition handleStatusError (err : ApiErr) : Outcome :=
  if IsConflict err then (Requeue, None) else (NoRequeue, Some err).

(** Statements of a handler that returns [R]. *)
Abbreviation G R A := (gom resp JobState R A).

Section Helpers.
Context `{KubeLib}.
Context (r : Reconciler) (now : Z).

Definition getMigrationTimeout (job : PodMigrationJob) : Z :=
  let base := rc_defaultMigrationTimeout r in
  let base := if base <=? 0 then DefaultMigrationTimeout else base in
  CalculateMigrationTimeout (sget (j_annotations job) AnnotationMigrationTimeout) 0 base.

Definition migrationDeadlineAnchor (job : PodMigrationJob) : Z :=
  match snapshottingStartTime (j_status job) with
  | Some t => if IsZero t then j_created job else t
  | None => j_created job
  end.

(** The annotation's time, in either of the two layouts. *)
Definition parse_time_annotation (s : string) : option Z := if s ==s "" then None else ParseRFC3339 s.

Definition isEvictionWithinBudget (job : PodMigrationJob) : bool :=
  if negb (j_phase job ==p Evicting) then false
  else if MaxMigrationTimeout <? Sub now (migrationDeadlineAnchor job) then false
  else
    let evictionBudget := getMigrationTimeout job in
    match evictingStartTime (j_status job) with
    | Some t => Sub now t <? evictionBudget
    | None =>
        match parse_time_annotation (sget (j_annotations job) AnnotationEvictingSince) with
        | Some t => Sub now t <? evictionBudget
        | None => false
        end
    end.

Definition liveReader : Source := if rc_hasAPIReader r then Live else Cache.

Definition jobEngine (job : PodMigrationJob) : Engine :=
  match rc_engines r with
  | Some reg => match ForJob reg (Some job) with inr e => e | inl _ => GKEPodSnapshots end
  | None => GKEPodSnapshots
  end.

Definition getSnapshotProvider (job : PodMigrationJob) : Engine :=
  default (jobEngine job) (rc_provider r).

Definition restoreEngines (job : PodMigrationJob) : list RestoreEngine :=
  match rc_restoreEngines r with Some es => es | None => e_restoreFailures (jobEngine job) end.

(** ** Effects *)

Definition get_job {R} : G R PodMigrationJob := let* s := gget in gret (s_job s).
Definition mod_job {R} (f : PodMigrationJob -> PodMigrationJob) : G R unit :=
  gmodify (fun s => mkJobState (f (s_job s)) (s_orig s)).
(** [*origJob = *job.DeepCopy()] *)
Definition sync_orig {R} : G R unit := gmodify (fun s => mkJobState (s_job s) (s_job s)).

(** [if err := m; err != nil { return onerr(err) }] *)
Definition gcheck {R} (m : G R (option ApiErr)) (onerr : ApiErr -> R) : G R unit :=
  let* e := m in match e with Some err => greturn (onerr err) | None => gret tt end.

(** A write of the job: on success [job] becomes the server's answer. *)
Definition answered {R} (x : res PodMigrationJob) : G R (option ApiErr) :=
  match x with
  | inl err => gret (Some err)
  | inr j => do* mod_job (fun _ => j) in gret None
  end.

Definition patchStatus {R} : G R (option ApiErr) :=
  let* s := gget in
  let* x := ecall (EPatchJobStatus (s_orig s) (s_job s)) in answered x.

Definition updateJob {R} : G R (option ApiErr) :=
  let* job := get_job in
  let* x := ecall (EUpdateJob job) in answered x.

(** [meta.SetStatusCondition(&job.Status.Conditions, ...)], with the job's generation. *)
Definition setCondition {R} (type status reason message : string) : G R bool :=
  let* job := get_job in
  let '(l, changed) := SetStatusCondition now (mkCond type status reason message (j_generation job) zero_time)
                         (j_conditions job) in
  do* mod_job (set_conditions l) in gret changed.

Definition metric {R} (name : string) (labels : list string) (v : Z) : G R unit :=
  ecall (EMetric name labels v).
Definition markInactive {R} (key : string) : G R unit := metric "MarkPMJInactive" [key] 0.
Definition markActive {R} (key : string) : G R unit := metric "MarkPMJActive" [key] 0.
Definition recordOutcome {R} (o : string) : G R unit := metric "RecordOutcome" [o] 0.
Definition recordPhaseDuration {R} (p : string) (d : Z) : G R unit := metric "RecordPhaseDuration" [p] d.

Definition emit {R} (target : EventTarget) (type reason message : string) : G R unit :=
  ecall (EEvent target type reason message).

Definition eventf {R} (target : EventTarget) (type reason message : string) : G R unit :=
  if rc_hasRecorder r then emit target type reason message else gret tt.

Definition recordPodEvent {R} (type reason message : string) : G R unit :=
  let* job := get_job in
  if negb (rc_hasRecorder r) then gret tt
  else if j_podName job ==s "" then gret tt
  else
    let* x := ecall (EGetPod Cache (j_namespace job) (j_podName job)) in
    match x with
    | inr pod => emit (about_pod pod) type reason message
    | inl _ =>
        emit (mkEventTarget "Pod" (j_namespace job) (j_podName job) (j_targetUID job)) type reason message
    end.

Definition recordPreviousPhaseDuration {R} (prevPhase : JobPhase) : G R unit :=
  let* job := get_job in
  match prevPhase with
  | Pending => recordPhaseDuration "pending" (Sub now (j_created job))
  | Snapshotting =>
      match snapshottingStartTime (j_status job) with
      | Some t => recordPhaseDuration "snapshotting" (Sub now t)
      | None => gret tt
      end
  | Evicting =>
      match evictingStartTime (j_status job) with
      | Some t => recordPhaseDuration "evicting" (Sub now t)
      | None =>
          match parse_time_annotation (sget (j_annotations job) AnnotationEvictingSince) with
          | Some t => recordPhaseDuration "evicting" (Sub now t)
          | None => gret tt
          end
      end
  | Restoring =>
      match restoringStartTime (j_status job) with
      | Some t => recordPhaseDuration "restoring" (Sub now t)
      | None => gret tt
      end
  | _ => gret tt
  end.

(** [r.getSnapshotProvider(job).Cleanup(ctx, job, podName)] *)
Definition cleanup {R} (podName : string) : G R (option ApiErr) :=
  let* job := get_job in
  ecall (ECleanup (e_name (getSnapshotProvider job)) job podName).
(** [Cleanup(ctx, job, job.Spec.PodRef.Name)] *)
Definition cleanupJob {R} : G R (option ApiErr) :=
  let* job := get_job in cleanup (j_podName job).

(** [Phase = phase; CompletionTime = &now] *)
Definition conclude {R} (phase : JobPhase) : G R unit :=
  mod_job (fun j => set_completionTime (Some now) (set_phase phase j)).

Definition isSnapshotProgressing {R} (timeout : Z) : G R bool :=
  let* job := get_job in
  if negb (j_phase job ==p Snapshotting) || (j_snapshotRef job ==s "") then gret false
  else if MaxMigrationTimeout <? Sub now (migrationDeadlineAnchor job) then gret false
  else
    let* x := ecall (ECheckStatus (e_name (getSnapshotProvider job)) job (j_podName job)) in
    match x with
    | inl _ | inr None => gret false
    | inr (Some st) =>
        match ss_phase st with
        | PhaseReady => gret true
        | PhaseFailed | PhaseRefused => gret false
        | PhaseInProgress =>
            gret (negb (IsZero (ss_lastProgress st)) && (Sub now (ss_lastProgress st) <? timeout))
        end
    end.

Definition isOriginPodTerminatedDueToNodeShutdown {R} (pod : Pod) : G R bool :=
  if IsPodTerminatedDueToNodeShutdown pod then gret true
  else if pod_finished pod && (p_nodeName pod !=s "") then
    let* x := ecall (EGetNode (p_nodeName pod)) in
    match x with
    | inr node => gret (IsNodeShuttingDown node)
    | inl err => gret (IsNotFound err)
    end
  else gret false.

Definition clearUnrecognizedRestoreCrash {R} : G R bool :=
  let* job := get_job in
  match FindStatusCondition (j_conditions job) ConditionUnrecognizedRestoreCrash with
  | Some existing =>
      if c_status existing ==s "True" then
        setCondition ConditionUnrecognizedRestoreCrash "False" "RestoreCrashResolved"
          "The unrecognised container start failure did not persist; the migration reached a conclusion"
      else gret false
  | None => gret false
  end.

(** [metrics.OutcomeFor] *)
Definition OutcomeFor (p : JobPhase) (reason : string) : string :=
  match p with
  | Succeeded => "succeeded"
  | SucceededWithoutRestore =>
      if reason ==s "RestoreLost" then "restore_lost"
      else if Contains (ToLower reason) "timeout" then "timeout"
      else if (reason ==s "FallbackToColdStart") || Contains (ToLower reason) "fallback" then "fallback"
      else "succeeded_without_restore"
  | _ => if Contains (ToLower reason) "timeout" then "timeout" else "failed"
  end.

Definition markSucceededWithoutRestore {R} (reason message : string) : G R (option ApiErr) :=
  let* job := get_job in
  let prevPhase := j_phase job in
  do* conclude SucceededWithoutRestore in
  do* setCondition "Restored" "False" reason message in
  do* setCondition "Ready" "True" reason message in
  do* clearUnrecognizedRestoreCrash in
  let* e := patchStatus in
  match e with
  | Some err => gret (Some err)
  | None =>
      let* job := get_job in
      do* markInactive (req_key job) in
      do* recordOutcome (OutcomeFor SucceededWithoutRestore reason) in
      do* recordPreviousPhaseDuration prevPhase in
      gret None
  end.

(** A [for] loop body of [clearEvictionBlockageConditions]. *)
Definition clearBlockage {R} (condType : string) : G R bool :=
  let* job := get_job in
  match FindStatusCondition (j_conditions job) condType with
  | Some existing =>
      if c_status existing ==s "True" then
        setCondition condType "False" "OriginPodRemoved"
          "Origin pod is no longer present; the eviction blockage no longer applies"
      else gret false
  | None => gret false
  end.

Definition clearEvictionBlockageConditions {R} : G R bool :=
  let* c1 := clearBlockage "BlockedByPDB" in
  let* c2 := clearBlockage "EvictionMisconfigured" in
  gret (c1 || c2).

Definition failEngineNotRegistered : fn resp JobState Outcome := gfun (
  let* s := gget in
  let prevPhase := j_phase (s_orig s) in
  let registered := match rc_engines r with Some reg => Join (reg_names reg) "," | None => "" end in
  let message := "Snapshot engine " +s Quote (TrimSpace (sget (j_annotations (s_job s)) AnnotationEngine)) +s
    " is not registered in this controller (registered: " +s registered +s "); failing the migration" in
  do* conclude Failed in
  do* setCondition "Ready" "False" ReasonEngineNotRegistered message in
  do* gcheck patchStatus handleStatusError in
  let* job := get_job in
  do* markInactive (req_key job) in
  do* recordOutcome "engine_not_registered" in
  do* recordPreviousPhaseDuration prevPhase in
  do* recordPodEvent "Warning" "MigrationFailed" message in
  gret (NoRequeue, None)).

Definition hasGatedClaimant {R} : G R (res bool) :=
  let* job := get_job in
  let* x := ecall (EListPods (j_namespace job) (PodsAssignedTo (j_name job))) in
  match x with
  | inl err => gret (inl (wrapf ("failed to list pods assigned to PMJ " +s j_name job +s ": ") err))
  | inr pods => gret (inr (existsb podHasMigrationGate pods))
  end.

Definition hasAssignedClaimant {R} : G R (res bool) :=
  let* job := get_job in
  let* x := ecall (EListPods (j_namespace job) (PodsAssignedTo (j_name job))) in
  match x with
  | inl err => gret (inl (wrapf ("failed to list pods assigned to PMJ " +s j_name job +s ": ") err))
  | inr pods => gret (inr (match pods with [] => false | _ => true end))
  end.

(** [shouldProbeFallbackEvents] *)
Definition shouldProbeFallbackEvents {R} (key : string) : G R bool :=
  let* v := ecall (EProbeLoad key) in
  match v with
  | Some last =>
      if Sub now last <? fallbackEventCheckInterval then gret false
      else do* ecall (EProbeStore key now) in gret true
  | None => do* ecall (EProbeStore key now) in gret true
  end.

End Helpers.
