(* ===== verification/Assignment.v ===== *)
(** * Which migration a new pod takes over (internal/util/assignment.go)

    A replacement pod is assigned to the job of its parent workload that evicted
    its source.  [FindUnassignedActivePMJ] picks the job, through the cache's
    indexes or by unindexed live lists; [ResolveCollision] settles which of the
    pods assigned to one job keeps it.  The readers' answers are arbitrary, so
    lists do not record whether they came from the cache. *)
From Stdlib Require Import Ascii.
From S2P Require Import Prelude Effects GoLib Kube Interfaces PodUtil JobBase.

Definition LabelParentUID : string := "pod-migration.gke.io/parent-uid".
Definition DefaultDeploymentUniqueLabelKey : string := "pod-template-hash".
Definition LabelControllerRevisionHash : string := "controller-revision-hash".
Definition LabelJobCompletionIndex : string := "batch.kubernetes.io/job-completion-index".
Definition LabelReplicaKey : string := "pod-migration.gke.io/replica-key".
Definition AnnotationAssignedPMJ : string := "pod-migration.gke.io/assigned-pmj".
Definition AnnotationColdStartBypassJob : string := "pod-migration.gke.io/cold-start-bypass-job".
Definition AnnotationRestoreCompleted : string := "pod-migration.gke.io/restore-completed".
Definition AnnotationReplicaIdentityKey : string := "pod-migration.gke.io/replica-identity".

(** ** Names and keys *)

Definition ShortUID (uid : string) : string :=
  if Nat.ltb 8 (String.length uid) then String.substring 0 8 uid else uid.
Definition FormatPMJName (podName uid : string) : string := "pmj-" +s podName +s "-" +s ShortUID uid.
Definition FormatPSMTName (podName uid : string) : string := "psmt-" +s podName +s "-" +s ShortUID uid.

Definition FormatParentKey (parentName parentKind podName : string) : string :=
  if (parentName !=s "") && (parentKind !=s "") then parentName +s "/" +s parentKind
  else if podName !=s "" then podName +s "/Pod"
  else "".

Definition PMJParentKeyIndexValue (job : PodMigrationJob) : list string :=
  let parentName := sget (j_labels job) LabelParentName in
  let parentKind := sget (j_labels job) LabelParentKind in
  if (parentName !=s "") && (parentKind !=s "") then [parentName +s "/" +s parentKind]
  else if (parentName ==s "") && (j_podName job !=s "") then [j_podName job +s "/Pod"]
  else [].

Definition PodAssignedPMJIndexValue (pod : Pod) : list string :=
  let v := sget (p_annotations pod) AnnotationAssignedPMJ in
  if v !=s "" then [v] else [].

Definition IsBuiltInWorkloadKind (kind : string) : bool :=
  (kind ==s "Deployment") || (kind ==s "ReplicaSet") || (kind ==s "StatefulSet") || (kind ==s "Job") || (kind ==s "").

(** The key, if the pod has one. *)
Definition ResolveOperatorReplicaKey (pod : Pod) (parentKind : string) : option string :=
  let label := sget (p_labels pod) LabelReplicaKey in
  let annotation := sget (p_annotations pod) AnnotationReplicaIdentityKey in
  let hash := sget (p_labels pod) DefaultDeploymentUniqueLabelKey in
  let group := sget (p_labels pod) "ray.io/group" in
  let nodeType := sget (p_labels pod) "ray.io/node-type" in
  if label !=s "" then Some label
  else if annotation !=s "" then Some annotation
  else if hash !=s "" then Some ("pod-template-hash=" +s hash)
  else if (parentKind ==s "RayCluster") && (group !=s "") then
    if nodeType !=s "" then Some ("ray.io/group=" +s group +s ",ray.io/node-type=" +s nodeType)
    else Some ("ray.io/group=" +s group)
  else if (m_generateName (p_meta pod) ==s "") && (p_name pod !=s "") then Some ("pod-name=" +s p_name pod)
  else None.

Definition JobReplicaIdentityKey (job : PodMigrationJob) : string :=
  let k := sget (j_annotations job) AnnotationReplicaIdentityKey in
  let hash := sget (j_labels job) LabelPodTemplateHash in
  if k !=s "" then k
  else if hash !=s "" then "pod-template-hash=" +s hash
  else "".

(** ** The parent workload *)

Record Parent := mkParent { pa_name : string; pa_kind : string; pa_uid : string }.
Definition no_parent : Parent := mkParent "" "" "".

Definition owner_parent (ref : OwnerReference) : Parent := mkParent (or_name ref) (or_kind ref) (or_uid ref).

(** The parent of a pod of this ReplicaSet. *)
Definition replicaset_parent (rs : Workload) : Parent :=
  match List.find (fun ref => or_kind ref ==s "Deployment") (m_owners (wl_meta rs)) with
  | Some ref => owner_parent ref
  | None => mkParent (m_name (wl_meta rs)) "ReplicaSet" (m_uid (wl_meta rs))
  end.

Fixpoint resolve_owners {S R} (ns : string) (fallback : Parent) (refs : list OwnerReference)
    : gom resp S R (res Parent) :=
  match refs with
  | [] => gret (inr fallback)
  | ref :: rest =>
      if or_kind ref ==s "ReplicaSet" then
        let* x := ecall (EGetWorkload "ReplicaSet" ns (or_name ref)) in
        match x with
        | inr rs => gret (inr (replicaset_parent rs))
        | inl err => gret (inl err)
        end
      else if (or_kind ref ==s "Job") || (or_kind ref ==s "StatefulSet") then gret (inr (owner_parent ref))
      else resolve_owners ns (if or_controller ref then owner_parent ref else fallback) rest
  end.

Definition ResolveParentWorkload {S R} (pod : Pod) : gom resp S R (res Parent) :=
  resolve_owners (p_namespace pod) no_parent (m_owners (p_meta pod)).

(** ** Siblings of operator pods *)

Definition isSourcePodAlive (pod : Pod) : bool := negb (p_deleting pod) && negb (pod_finished pod).

Definition child_of (parentName parentKind parentUID : string) (p : Pod) : bool :=
  existsb (fun ref => (or_kind ref ==s parentKind) && (or_name ref ==s parentName) &&
    ((parentUID ==s "") || (or_uid ref ==s "") || (or_uid ref ==s parentUID))) (m_owners (p_meta p)).

Definition ambiguous_sibling (parentName parentKind parentUID replicaKey : string) (exclude : list string) (p : Pod) : bool :=
  let excluded k := (k !=s "") && existsb (String.eqb k) exclude in
  negb (excluded (p_uid p) || excluded (p_name p)) && isSourcePodAlive p &&
  child_of parentName parentKind parentUID p &&
  match ResolveOperatorReplicaKey p parentKind with Some k => k ==s replicaKey | None => false end.

(** The sibling that shares the key, if any. *)
Definition HasAmbiguousOperatorSibling {S R} (ns parentName parentKind parentUID replicaKey : string) (exclude : list string)
    : gom resp S R (res (option string)) :=
  if (replicaKey ==s "") || (parentName ==s "") || (parentKind ==s "") then gret (inr None)
  else
    let* x := ecall (EListPods ns AllPods) in
    match x with
    | inl err => gret (inl err)
    | inr pods => gret (inr (p_name <$> List.find (ambiguous_sibling parentName parentKind parentUID replicaKey exclude) pods))
    end.

Definition active_with_key (parentName parentKind replicaKey excludePMJName : string) (job : PodMigrationJob) : bool :=
  (j_name job !=s excludePMJName) && negb (consumed (j_status job)) &&
  negb ((j_phase job ==p Failed) || (j_phase job ==p SucceededWithoutRestore)) &&
  negb ((sget (j_labels job) LabelParentName !=s parentName) || (sget (j_labels job) LabelParentKind !=s parentKind)) &&
  (JobReplicaIdentityKey job ==s replicaKey).

Definition HasActivePMJWithReplicaKey {S R} (ns parentName parentKind replicaKey excludePMJName : string)
    : gom resp S R (res (option string)) :=
  if (replicaKey ==s "") || (parentName ==s "") || (parentKind ==s "") then gret (inr None)
  else
    let* x := ecall (EListJobs ns AllJobs) in
    match x with
    | inl err => gret (inl err)
    | inr jobs => gret (inr (j_name <$> List.find (active_with_key parentName parentKind replicaKey excludePMJName) jobs))
    end.

(** ** Candidates *)

(** What the new pod is: its parent and the keys that tell replicas apart. *)
Record Claim := mkClaim {
  cl_podName : string;
  cl_parent : Parent;
  cl_podTemplateHash : string;
  cl_jobCompletionIndex : string;
  cl_replicaKey : string }.

(** A pod without a parent, as jobs of an older controller recorded stable-name operator pods. *)
Definition bare_claim (podName : string) : Claim := mkClaim podName no_parent "" "" "".

Definition operator_claim (c : Claim) : bool :=
  negb (IsBuiltInWorkloadKind (pa_kind (cl_parent c))) && (cl_replicaKey c !=s "").

(** The job is of the pod's workload, and of the same replica where that shows. *)
Definition same_workload (c : Claim) (job : PodMigrationJob) : bool :=
  let parentName := pa_name (cl_parent c) in
  let parentKind := pa_kind (cl_parent c) in
  let parentUID := pa_uid (cl_parent c) in
  let label := sget (j_labels job) in
  if parentName ==s "" then
    if (j_podName job !=s cl_podName c) || (label LabelParentName !=s "") then false else true
  else if (label LabelParentName !=s parentName) || (label LabelParentKind !=s parentKind) then false
  else if (parentUID !=s "") && (label LabelParentUID !=s "") && (label LabelParentUID !=s parentUID) then false
  else if (parentKind ==s "Deployment") && (label LabelPodTemplateHash !=s cl_podTemplateHash c) then false
  else if (parentKind ==s "Job") && (cl_jobCompletionIndex c !=s "") &&
          (label LabelJobCompletionIndex !=s cl_jobCompletionIndex c) then false
  else if (parentKind ==s "StatefulSet") && (j_podName job !=s cl_podName c) then false
  else if negb (IsBuiltInWorkloadKind parentKind) then
    if cl_replicaKey c ==s "" then false
    else
      let jobKey := JobReplicaIdentityKey job in
      if (jobKey ==s "") || (jobKey !=s cl_replicaKey c) then false else true
  else true.

(** The phases in which a job's source is, or is about to be, evicted. *)
Definition owns_new_pods (p : JobPhase) : bool :=
  (p ==p Snapshotting) || (p ==p Evicting) || (p ==p Restoring).

Definition is_candidate (c : Claim) (job : PodMigrationJob) : bool :=
  if consumed (j_status job) then false
  else if negb (same_workload c job) then false
  else owns_new_pods (j_phase job).

Definition candidatePhaseRank (p : JobPhase) : Z :=
  match p with Evicting => 0 | Restoring => 1 | _ => 2 end.

Definition rank_less (a b : PodMigrationJob) : bool :=
  candidatePhaseRank (j_phase a) <? candidatePhaseRank (j_phase b).

Definition filterCandidates (c : Claim) (jobs : list PodMigrationJob) : list PodMigrationJob :=
  let candidates := List.filter (is_candidate c) jobs in
  if operator_claim c &&
     (1 <? Z.of_nat (length (List.filter (fun j => JobReplicaIdentityKey j ==s cl_replicaKey c) candidates)))
  then []
  else SliceStable rank_less candidates.

Definition requiresSourceGone (p : JobPhase) : bool := (p ==p Evicting) || (p ==p Snapshotting).

(** ** Finding an unassigned job *)

Section Find.
Context {S R : Type}.
Context (ns : string) (c : Claim).
Abbreviation M A := (gom resp S R A).

Definition legacy_claim : bool :=
  negb (IsBuiltInWorkloadKind (pa_kind (cl_parent c))) && HasPrefix (cl_replicaKey c) "pod-name=".

(** For an operator's pod: a live sibling shares the candidate's key. *)
Definition ambiguous (job : PodMigrationJob) : M (res bool) :=
  if operator_claim c then
    let p := cl_parent c in
    let* x := HasAmbiguousOperatorSibling ns (pa_name p) (pa_kind p) (pa_uid p) (cl_replicaKey c)
                [j_targetUID job; j_podName job; cl_podName c] in
    match x with
    | inl err => gret (inl err)
    | inr o => gret (inr (match o with Some _ => true | None => false end))
    end
  else gret (inr false).

(** The read of the source says that a new pod isn't this job's replacement. *)
Definition source_blocks (job : PodMigrationJob) : M bool :=
  if requiresSourceGone (j_phase job) && (j_podName job !=s "") then
    let* x := ecall (EGetPod Cache ns (j_podName job)) in
    match x with
    | inr originPod =>
        gret (isSourcePodAlive originPod && ((j_targetUID job ==s "") || (p_uid originPod ==s j_targetUID job)))
    | inl err => gret (negb (IsNotFound err))
    end
  else gret false.

Definition isPMJAssignedToPod (pmjName : string) : M (res bool) :=
  let* x := ecall (EListPods ns (PodsAssignedTo pmjName)) in
  match x with
  | inl err => gret (inl err)
  | inr pods => gret (inr (match pods with [] => false | _ => true end))
  end.

(** The loop over the candidates, with the indexes. *)
Fixpoint first_unassigned (candidates : list PodMigrationJob) : M (res string) :=
  match candidates with
  | [] => gret (inr "")
  | job :: rest =>
      let* a := ambiguous job in
      match a with
      | inl err => gret (inl err)
      | inr true => gret (inr "")
      | inr false =>
          let* blocked := source_blocks job in
          if blocked : bool then first_unassigned rest
          else
            let* assigned := isPMJAssignedToPod (j_name job) in
            match assigned with
            | inl err => gret (inl err)
            | inr false => gret (inr (j_name job))
            | inr true => first_unassigned rest
            end
      end
  end.

Definition find_indexed : M (res string) :=
  let p := cl_parent c in
  let parentKey := FormatParentKey (pa_name p) (pa_kind p) (cl_podName c) in
  if parentKey ==s "" then gret (inr "")
  else
    let* x := ecall (EListJobs ns (JobsWithParent parentKey)) in
    match x with
    | inl err => gret (inl err)
    | inr jobs =>
        let candidates := filterCandidates c jobs in
        let* candidates :=
          (if match candidates with [] => legacy_claim | _ => false end then
             let* y := ecall (EListJobs ns (JobsWithParent (cl_podName c +s "/Pod"))) in
             match y with
             | inl _ => gret candidates
             | inr bare => gret (filterCandidates (bare_claim (cl_podName c)) bare)
             end
           else gret candidates) in
        first_unassigned candidates
    end.

(** What the live list of the namespace's enabled pods says. *)
Definition source_listed (pods : list Pod) (job : PodMigrationJob) : bool :=
  if j_targetUID job !=s "" then existsb (fun p => isSourcePodAlive p && (p_uid p ==s j_targetUID job)) pods
  else if j_podName job !=s "" then existsb (fun p => isSourcePodAlive p && (p_name p ==s j_podName job)) pods
  else false.

Definition listed_as_assigned (pods : list Pod) (pmjName : string) : bool :=
  existsb (fun p => match p_annotations p !! AnnotationAssignedPMJ with Some v => v ==s pmjName | None => false end) pods.

(** The loop over the candidates, from the list. *)
Fixpoint first_unlisted (pods : list Pod) (candidates : list PodMigrationJob) : M (res string) :=
  match candidates with
  | [] => gret (inr "")
  | job :: rest =>
      let* a := ambiguous job in
      match a with
      | inl err => gret (inl err)
      | inr true => gret (inr "")
      | inr false =>
          if requiresSourceGone (j_phase job) && source_listed pods job then first_unlisted pods rest
          else if negb (listed_as_assigned pods (j_name job)) then gret (inr (j_name job))
          else first_unlisted pods rest
      end
  end.

Definition find_live : M (res string) :=
  let* x := ecall (EListJobs ns AllJobs) in
  match x with
  | inl err => gret (inl err)
  | inr jobs =>
      let candidates := filterCandidates c jobs in
      let candidates := if match candidates with [] => legacy_claim | _ => false end
                        then filterCandidates (bare_claim (cl_podName c)) jobs else candidates in
      match candidates with
      | [] => gret (inr "")
      | _ =>
          let* y := ecall (EListPods ns (PodsMatching (Some [("pod-migration.gke.io/enabled", "true")]))) in
          match y with
          | inl err => gret (inl err)
          | inr pods => first_unlisted pods candidates
          end
      end
  end.

(** The name of the job, or "". *)
Definition FindUnassignedActivePMJ (indexed : bool) : M (res string) := if indexed then find_indexed else find_live.

End Find.

(** ** Collisions *)

(** The pods that contend for a job: not its source. *)
Definition contender (job : PodMigrationJob) (p : Pod) : bool := p_uid p !=s j_targetUID job.

(** The older pod first, then by name. *)
Definition contender_less (a b : Pod) : bool :=
  let t p := m_creationTimestamp (p_meta p) in
  if t a =? t b then String.ltb (p_name a) (p_name b) else Before (t a) (t b).

(** The first of the sorted contenders, which are two or more.  ([sort.Slice] is
    not stable; names are unique in a namespace, so the order is total.) *)
Definition winner (contenders : list Pod) : option Pod :=
  match contenders with
  | _ :: _ :: _ => head (SliceStable contender_less contenders)
  | _ => None
  end.

Definition claim_of (pod : Pod) (parent : Parent) : Claim :=
  mkClaim (p_name pod) parent (sget (p_labels pod) DefaultDeploymentUniqueLabelKey)
    (sget (p_labels pod) LabelJobCompletionIndex)
    (if negb (IsBuiltInWorkloadKind (pa_kind parent)) then default "" (ResolveOperatorReplicaKey pod (pa_kind parent)) else "").

(** [(correctedPMJ, changed)] *)
Definition ResolveCollision {S R} (pod : Pod) (assignedPMJ : string) (parent : Parent) : gom resp S R (res (string * bool)) :=
  let* x := ecall (EGetJob Cache (p_namespace pod) assignedPMJ) in
  match x with
  | inl err => if IsNotFound err then gret (inr (assignedPMJ, false)) else gret (inl err)
  | inr job =>
      let* y := ecall (EListPods (p_namespace pod) (PodsAssignedTo assignedPMJ)) in
      match y with
      | inl err => gret (inl err)
      | inr pods =>
          match winner (List.filter (contender job) pods) with
          | None => gret (inr (assignedPMJ, false))
          | Some w =>
              if p_uid w ==s p_uid pod then gret (inr (assignedPMJ, false))
              else
                let* z := FindUnassignedActivePMJ (p_namespace pod) (claim_of pod parent) true in
                match z with
                | inl err => gret (inl err)
                | inr alt => gret (inr (alt, true))
                end
          end
      end
  end.
