(* ===== verification/ActiveMigration.v ===== *)
(** * The active PodMigration of a namespace (internal/util/podmigration.go)

    One PodMigration of a namespace is active: the oldest one that is being
    deleted and still has the cleanup finalizer, else the oldest live one. *)
From S2P Require Import Prelude Effects GoLib Kube Interfaces.

Definition StorageCleanupFinalizer : string := "podmigration.gke.io/storage-cleanup".

Definition pm_deleting (p : PodMigration) : bool :=
  match m_deletionTimestamp (pm_meta p) with Some t => negb (IsZero t) | None => false end.

Definition podMigrationPrecedes (a b : PodMigration) : bool :=
  let t p := m_creationTimestamp (pm_meta p) in
  if negb (t a =? t b) then Before (t a) (t b) else String.ltb (m_name (pm_meta a)) (m_name (pm_meta b)).

(** [x == nil || podMigrationPrecedes(candidate, x)]: the earlier of the two. *)
Definition earlier (x : option PodMigration) (candidate : PodMigration) : option PodMigration :=
  match x with
  | None => Some candidate
  | Some cur => if podMigrationPrecedes candidate cur then Some candidate else Some cur
  end.

Section Select.
Context `{KubeLib}.

Definition finalizing (p : PodMigration) : bool :=
  pm_deleting p && ContainsFinalizer (m_finalizers (pm_meta p)) StorageCleanupFinalizer.

(** One turn of the loop, on (deletingWithFinalizer, active). *)
Definition elect_step (acc : option PodMigration * option PodMigration) (candidate : PodMigration)
    : option PodMigration * option PodMigration :=
  let '(deletingWithFinalizer, active) := acc in
  if pm_deleting candidate then
    (if ContainsFinalizer (m_finalizers (pm_meta candidate)) StorageCleanupFinalizer
     then earlier deletingWithFinalizer candidate else deletingWithFinalizer, active)
  else (deletingWithFinalizer, earlier active candidate).

Definition SelectActivePodMigration (items : list PodMigration) : option PodMigration :=
  let '(deletingWithFinalizer, active) := fold_left elect_step items (None, None) in
  match deletingWithFinalizer with Some p => Some p | None => active end.

Definition ActivePodMigration {S R} (ns : string) : gom resp S R (res (option PodMigration)) :=
  let* x := ecall (EListPodMigrations ns) in
  match x with
  | inl err => gret (inl err)
  | inr items => gret (inr (SelectActivePodMigration items))
  end.

(** ** The election *)

Lemma precedes_order a b :
  podMigrationPrecedes a b =
  time_name_less (m_creationTimestamp (pm_meta a)) (m_name (pm_meta a)) (m_creationTimestamp (pm_meta b)) (m_name (pm_meta b)).
Proof. unfold podMigrationPrecedes, time_name_less. by destruct (_ =? _). Qed.

(** Nothing of [l] precedes [p], which is in [l]. *)
Definition oldest (l : list PodMigration) (p : PodMigration) : Prop :=
  In p l /\ forall q, In q l -> podMigrationPrecedes q p = false.

Lemma earlier_oldest l p x :
  oldest l p -> exists q, earlier (Some p) x = Some q /\ oldest (x :: l) q.
Proof.
  intros [Hp Hl]. simpl. rewrite precedes_order. destruct (time_name_less _ _ _ _) eqn:Hx.
  - exists x. split; [done|]. split; [by left|]. intros q [<-|Hq]; [rewrite precedes_order; apply time_name_irrefl|].
    specialize (Hl q Hq). rewrite precedes_order in *.
    destruct (time_name_less _ _ (m_creationTimestamp (pm_meta x)) _) eqn:Hqx; [|done].
    by rewrite (time_name_trans _ _ _ _ _ _ Hqx Hx) in Hl.
  - exists p. split; [done|]. split; [by right|]. intros q [<-|Hq]; [by rewrite precedes_order|auto].
Qed.

Lemma oldest_perm l l' p : Permutation l l' -> oldest l p -> oldest l' p.
Proof.
  intros Hl [Hp Hm]. split; [by eapply Permutation_in|]. intros q Hq. apply Hm.
  eapply Permutation_in; [by symmetry|done].
Qed.

Lemma fold_earlier l seen p : oldest seen p -> exists q, fold_left earlier l (Some p) = Some q /\ oldest (l ++ seen) q.
Proof.
  revert seen p. induction l as [|x l IH]; intros seen p Hp; [by exists p|].
  destruct (earlier_oldest _ _ x Hp) as (q & Hq & Ho). cbn [fold_left]. rewrite Hq.
  destruct (IH _ _ Ho) as (q' & Hf & Ho'). exists q'. split; [done|].
  eapply oldest_perm; [|exact Ho']. symmetry. apply Permutation_middle.
Qed.

(** The oldest of a list: none of the empty list. *)
Definition is_oldest (l : list PodMigration) (o : option PodMigration) : Prop :=
  match o with None => l = [] | Some p => oldest l p end.

Lemma fold_earlier_none l : is_oldest l (fold_left earlier l None).
Proof.
  destruct l as [|x l]; [done|]. cbn [fold_left earlier].
  destruct (fold_earlier l [x] x) as (q & -> & Ho).
  { split; [by left|]. intros q [<-|[]]. rewrite precedes_order. apply time_name_irrefl. }
  eapply oldest_perm; [|exact Ho]. symmetry. apply Permutation_cons_append.
Qed.

Lemma fold_elect items d a :
  fold_left elect_step items (d, a) =
  (fold_left earlier (List.filter finalizing items) d, fold_left earlier (List.filter (fun p => negb (pm_deleting p)) items) a).
Proof.
  revert d a. induction items as [|x items IH]; intros d a; [done|]. cbn [fold_left].
  unfold finalizing in *. simpl. destruct (pm_deleting x); simpl; [|by rewrite IH].
  rewrite IH. by destruct (ContainsFinalizer _ _).
Qed.

(** The pool the active PodMigration is elected from. *)
Definition pool (items : list PodMigration) : list PodMigration :=
  match List.filter finalizing items with
  | [] => List.filter (fun p => negb (pm_deleting p)) items
  | l => l
  end.

Lemma select_pool items : is_oldest (pool items) (SelectActivePodMigration items).
Proof.
  unfold SelectActivePodMigration, pool. rewrite fold_elect.
  pose proof (fold_earlier_none (List.filter finalizing items)) as Hd.
  destruct (fold_left earlier (List.filter finalizing items) None) as [p|]; simpl in Hd.
  - destruct (List.filter finalizing items); [by destruct Hd|done].
  - rewrite Hd. apply fold_earlier_none.
Qed.

Lemma pool_perm items items' : Permutation items items' -> Permutation (pool items) (pool items').
Proof.
  intros Hp. unfold pool. pose proof (filter_perm finalizing _ _ Hp) as Hf.
  destruct (List.filter finalizing items), (List.filter finalizing items'); try done.
  - by apply filter_perm.
  - by apply Permutation_nil in Hf.
  - symmetry in Hf. by apply Permutation_nil in Hf.
Qed.

(** Every replica and every reader elects the same PodMigration of a
    namespace: the election does not depend on the order in which the list
    answers them, when their names are distinct, and it elects none only when
    none is live or waits for its cleanup. *)
Theorem select_active_deterministic items items' :
  Permutation items items' -> NoDup (map (fun p => m_name (pm_meta p)) items) ->
  SelectActivePodMigration items' = SelectActivePodMigration items /\
  is_oldest (pool items) (SelectActivePodMigration items).
Proof.
  intros Hp Hn. split; [|apply select_pool].
  pose proof (select_pool items) as H1. pose proof (select_pool items') as H2.
  pose proof (pool_perm _ _ Hp) as Hpp.
  destruct (SelectActivePodMigration items) as [p|], (SelectActivePodMigration items') as [q|]; simpl in *; try done.
  - f_equal. eapply oldest_perm in H2; [|by symmetry].
    destruct H1 as [Hp1 Hm1], H2 as [Hp2 Hm2].
    pose proof (Hm1 q Hp2) as Hqp. pose proof (Hm2 p Hp1) as Hpq. rewrite precedes_order in Hqp, Hpq.
    destruct (time_name_total _ _ _ _ Hqp Hpq) as [_ Hname].
    assert (Hin : forall x, In x (pool items) -> In x items).
    { intros x. unfold pool. destruct (List.filter finalizing items) eqn:Hf; rewrite <- ?Hf; by intros [? _]%filter_In. }
    symmetry. eapply (NoDup_map_inj _ items); eauto.
  - rewrite H2 in Hpp. symmetry in Hpp. apply Permutation_nil in Hpp. rewrite Hpp in H1. by destruct H1.
  - rewrite H1 in Hpp. apply Permutation_nil in Hpp. rewrite Hpp in H2. by destruct H2.
Qed.
End Select.

Definition pm_named (name : string) (created : Z) : PodMigration :=
  mkPodMigration (mkMeta name "shop" "" name "1" 1 ∅ ∅ created None None [] []) "" [].

Lemma select_active_deterministic_witness :
  @SelectActivePodMigration KubeRef.kube_ref [pm_named "b" 5; pm_named "a" 7] =
  @SelectActivePodMigration KubeRef.kube_ref [pm_named "a" 7; pm_named "b" 5].
Proof.
  apply (select_active_deterministic [pm_named "a" 7; pm_named "b" 5] [pm_named "b" 5; pm_named "a" 7]).
  - apply Permutation_swap.
  - simpl. repeat constructor; set_solver.
Defined.
