(* ===== verification/Fence.v ===== *)
(** * The source fence (internal/controller/fence.go)

    Before its checkpoint, the source is labelled fenced and its Ready
    condition is held at False; after a failed migration the fence is settled:
    the source goes back into service, or stays fenced and is evicted. *)
From S2P Require Import Prelude Effects GoLib Json Kube Interfaces Engine PodUtil Timeout JobBase.

Definition LabelFenced : string := "pod-migration.gke.io/fenced".
Definition ReasonPodMigrationFenced : string := "PodMigrationFenced".
Definition FenceReadyMessage : string :=
  "Readiness is held False while this pod is a migration source (label " +s LabelFenced +s
  "); the ContainersReady condition shows the kubelet's view.".
Definition ReasonFenced : string := "Fenced".
Definition ReasonFenceKept : string := "FenceKept".
Definition ReasonUnfenced : string := "Unfenced".
Definition AnnotationFenceBaseline : string := "pod-migration.gke.io/fence-baseline".
Definition ReasonTriggerCreateFailed : string := "TriggerCreateFailed".
Definition ReasonFenceCapExceeded : string := "FenceCapExceeded".
Definition DefaultFencePreCheckpointCap : Z := 30 * Second.
Definition DefaultFenceLateStopWatch : Z := 5 * Minute.
Definition DefaultFenceDeleteUnwedgeTimeout : Z := 2 * Minute.
Definition fenceSettleTimeout : Z := 30 * Second.
Definition fenceSettleInterval : Z := 2 * Second.
Definition lateStopPollInterval : Z := 5 * Second.
Definition keptSourceEvictionRetryInterval : Z := 10 * Second.

(** ** The baseline *)

Record FencedContainer := mkFenced { fc_id : string; fc_restarts : Z }.
#[export] Instance FencedContainer_eq_dec : EqDecision FencedContainer.
Proof. solve_decision. Defined.

Definition FenceBaseline : Type := gmap string FencedContainer.

Definition baselineOf (pod : Pod) : FenceBaseline :=
  fold_left (fun b cs => <[cs_name cs := mkFenced (cs_containerID cs) (cs_restartCount cs)]> b)
    (p_containerStatuses pod) ∅.

(** encoding/json on [fenceBaseline]: what is written, and how it is read. *)
Definition container_value (c : FencedContainer) : Value := VObject [("id", of_string (fc_id c)); ("restarts", of_int (fc_restarts c))].
Definition baseline_value (b : FenceBaseline) : Value :=
  VObject [("containers", VObject (map (fun name => (escape_string name, container_value (default (mkFenced "" 0) (b !! name)))) (SortStrings (elements (dom b)))))].
Definition Marshal (b : FenceBaseline) : string := compact_json (baseline_value b).

Definition into_container : Decode FencedContainer := into_struct [
  ("id", fun v c => id ← into_string v (fc_id c); Some (mkFenced id (fc_restarts c)));
  ("restarts", fun v c => n ← into_int32 v (fc_restarts c); Some (mkFenced (fc_id c) n))].
Definition into_baseline : Decode FenceBaseline := into_struct [("containers", into_map (mkFenced "" 0) into_container)].
Definition Unmarshal (s : string) : option FenceBaseline := unmarshal into_baseline ∅ s.

Definition pod_phase_string (p : PodPhase) : string :=
  match p with
  | PodPending => "Pending" | PodRunning => "Running" | PodSucceeded => "Succeeded"
  | PodFailed => "Failed" | PodUnknown => "Unknown"
  end.

(** The pod's statuses by container name: the last one of a name counts. *)
Definition status_map (pod : Pod) : gmap string ContainerStatus :=
  fold_left (fun m cs => <[cs_name cs := cs]> m) (p_containerStatuses pod) ∅.

(** What differs of one container, if anything. *)
Definition container_diff (statuses : gmap string ContainerStatus) (name : string) (want : FencedContainer)
    : option string :=
  match statuses !! name with
  | None => Some ("container " +s name +s " has no status")
  | Some got =>
      if (fc_id want ==s "") || (cs_containerID got !=s fc_id want) then
        Some ("container " +s name +s " changed from " +s Quote (fc_id want) +s " to " +s Quote (cs_containerID got))
      else if negb (cs_restartCount got =? fc_restarts want) then
        Some ("container " +s name +s " restarted (" +s pretty (cs_restartCount got) +s " restarts, " +s
              pretty (fc_restarts want) +s " when fenced)")
      else if negb (st_running (cs_state got)) then Some ("container " +s name +s " isn't running")
      else None
  end.

Fixpoint first_diff (b : FenceBaseline) (statuses : gmap string ContainerStatus) (names : list string)
    : option string :=
  match names with
  | [] => None
  | n :: ns =>
      match b !! n with
      | Some want => match container_diff statuses n want with
                     | Some d => Some d
                     | None => first_diff b statuses ns
                     end
      | None => first_diff b statuses ns
      end
  end.

(** [unchanged]: [None] when nothing differs. *)
Definition baseline_diff (b : FenceBaseline) (pod : Pod) : option string :=
  if p_deleting pod then Some "the source is terminating"
  else if negb (bool_decide (p_phase pod = PodRunning)) then
    Some ("the source's phase is " +s Quote (pod_phase_string (p_phase pod)))
  else if bool_decide (b = ∅) then Some "no containers were recorded when the source was fenced"
  else first_diff b (status_map pod) (SortStrings (elements (dom b))).

Definition unchanged (b : FenceBaseline) (pod : Pod) : bool * string :=
  match baseline_diff b pod with None => (true, "") | Some d => (false, d) end.

Definition readyHeldByFence (pod : Pod) : bool :=
  match List.find (fun c => c_type c ==s "Ready") (p_conditions pod) with
  | Some c => (c_status c ==s "False") && (c_reason c ==s ReasonPodMigrationFenced)
  | None => false
  end.

(** [(ctrl.Result, handled, error)] *)
Definition FenceOutcome : Type := Result * bool * option ApiErr.

Section Fence.
Context `{KubeLib}.
Context (r : Reconciler) (now : Z) (key : string).

Definition fencePreCheckpointCap : Z :=
  if 0 <? rc_fencePreCheckpointCap r then rc_fencePreCheckpointCap r else DefaultFencePreCheckpointCap.
Definition fenceLateStopWatch : Z :=
  if 0 <? rc_fenceLateStopWatch r then rc_fenceLateStopWatch r else DefaultFenceLateStopWatch.
Definition fenceDeleteUnwedgeTimeout : Z :=
  if 0 <? rc_fenceDeleteUnwedgeTimeout r then rc_fenceDeleteUnwedgeTimeout r else DefaultFenceDeleteUnwedgeTimeout.

Definition jobFenceBaseline (job : PodMigrationJob) : FenceBaseline * bool :=
  let raw := sget (j_annotations job) AnnotationFenceBaseline in
  if raw ==s "" then (∅, false)
  else match Unmarshal raw with Some b => (b, true) | None => (∅, true) end.

Definition preCheckpointFenceDuration (job : PodMigrationJob) : Z :=
  match FindStatusCondition (j_conditions job) ConditionSourceFenced with
  | Some cond =>
      if c_status cond ==s "True" then Sub now (c_lastTransitionTime cond)
      else match snapshottingStartTime (j_status job) with
           | Some t => Sub now t
           | None => Sub now (j_created job)
           end
  | None =>
      match snapshottingStartTime (j_status job) with
      | Some t => Sub now t
      | None => Sub now (j_created job)
      end
  end.

Definition fencePreCheckpointCapExceeded (job : PodMigrationJob) : option Z :=
  if j_snapshotRef job !=s "" then None
  else if preCheckpointFenceDuration job <? fencePreCheckpointCap then None
  else Some fencePreCheckpointCap.

(** [(reason, message)] when the failure fails the job. *)
Definition fenceFailure (job : PodMigrationJob) (err : ApiErr) : option (string * string) :=
  match fencePreCheckpointCapExceeded job with
  | None => None
  | Some limit =>
      Some (ReasonFenceCapExceeded, "The source stayed fenced for " +s DurationString limit +s
            " while fencing couldn't complete: " +s e_msg err)
  end.

Definition triggerFailure (job : PodMigrationJob) (err : ApiErr) : option (string * string) :=
  if IsForbidden err || IsInvalid err || IsBadRequest err then
    Some (ReasonTriggerCreateFailed,
          "The checkpoint trigger was rejected, so nothing was checkpointed: " +s e_msg err)
  else
    match FindStatusCondition (j_conditions job) ConditionSourceFenced with
    | None => None
    | Some cond =>
        if c_status cond !=s "True" then None
        else
          match fencePreCheckpointCapExceeded job with
          | None => None
          | Some limit =>
              Some (ReasonFenceCapExceeded, "The source stayed fenced for " +s DurationString limit +s
                    " while its checkpoint trigger couldn't be created: " +s e_msg err)
          end
    end.

(** ** Reads and writes of the source *)

Definition sourcePod {R} (src : Source) : G R (res (option Pod)) :=
  let* job := get_job in
  let* x := ecall (EGetPod src (j_namespace job) (j_podName job)) in
  match x with
  | inl err => if IsNotFound err then gret (inr None)
               else gret (inl (wrapf ("reading source pod " +s j_podName job +s ": ") err))
  | inr pod =>
      if (j_targetUID job !=s "") && (p_uid pod !=s j_targetUID job) then gret (inr None)
      else gret (inr (Some pod))
  end.

Definition patch_label {R} (pod : Pod) (value : option string) : G R (option ApiErr) :=
  ecall (EPatchPodLabel (p_namespace pod) (p_name pod) (p_uid pod) LabelFenced value).

Definition patch_ready {R} (pod : Pod) : G R (option ApiErr) :=
  ecall (EPatchPodReady (p_namespace pod) (p_name pod) (p_uid pod) "False" ReasonPodMigrationFenced FenceReadyMessage).

Definition applyFence (pod : Pod) : fn resp JobState (option ApiErr) := gfun (
  do* (if sget (p_labels pod) LabelFenced !=s "true" then
         let* e := patch_label pod (Some "true") in
         match e with
         | Some err => greturn (Some (wrapf ("labeling source pod " +s p_name pod +s " " +s LabelFenced +s ": ") err))
         | None => gret tt
         end
       else gret tt) in
  if readyHeldByFence pod then gret None
  else
    let* e := patch_ready pod in
    match e with
    | Some err => gret (Some (wrapf ("holding source pod " +s p_name pod +s " NotReady: ") err))
    | None => gret None
    end).

Definition removeFenceLabel (pod : Pod) : fn resp JobState (option ApiErr) := gfun (
  match p_labels pod !! LabelFenced with
  | None => gret None
  | Some _ =>
      let* e := patch_label pod None in
      match e with
      | Some err => if IsNotFound err then gret None
                    else gret (Some (wrapf ("removing " +s LabelFenced +s " from source pod " +s p_name pod +s ": ") err))
      | None => gret None
      end
  end).

(** ** The finalizer *)

Definition has_fence_finalizer (job : PodMigrationJob) : bool :=
  ContainsFinalizer (m_finalizers (j_meta job)) SourceFenceFinalizer.

Definition patchJob {R} (lock : bool) (before : PodMigrationJob) : G R (option ApiErr) :=
  let* job := get_job in
  let* x := ecall (EPatchJob lock before job) in answered x.

Definition addSourceFenceFinalizer : fn resp JobState (option ApiErr) := gfun (
  let* job := get_job in
  if has_fence_finalizer job || j_deleting job then gret None
  else
    do* mod_job (fun j => set_j_finalizers (AddFinalizer (m_finalizers (j_meta j)) SourceFenceFinalizer) j) in
    let* e := patchJob true job in
    match e with
    | Some err => gret (Some (wrapf ("adding " +s SourceFenceFinalizer +s " finalizer: ") err))
    | None => do* sync_orig in gret None
    end).

Definition removeSourceFenceFinalizer : fn resp JobState (option ApiErr) := gfun (
  let* job := get_job in
  if negb (has_fence_finalizer job) then gret None
  else
    do* mod_job (fun j => set_j_finalizers (RemoveFinalizer (m_finalizers (j_meta j)) SourceFenceFinalizer) j) in
    let* e := patchJob true job in
    match e with
    | Some err =>
        if IsNotFound err then do* sync_orig in gret None
        else gret (Some (wrapf ("removing " +s SourceFenceFinalizer +s " finalizer: ") err))
    | None => do* sync_orig in gret None
    end).

(** ** Fencing *)

Definition fenceSource : fn resp JobState (option ApiErr) := gfun (
  let* job := get_job in
  if snd (jobFenceBaseline job) then ginvoke addSourceFenceFinalizer
  else
    let* p := sourcePod (liveReader r) in
    match p with
    | inl err => gret (Some err)
    | inr None => gret None
    | inr (Some pod) =>
        if pod_finished pod then gret None
        else
          do* gcheck (ginvoke addSourceFenceFinalizer) Some in
          let* job := get_job in
          do* (if negb (IsStatusConditionTrue (j_conditions job) ConditionSourceFenced) then
                 do* setCondition now ConditionSourceFenced "True" ReasonFenced
                       ("The source is fenced before its checkpoint: it's labeled " +s LabelFenced +s
                        " and held NotReady, so its Services don't send it traffic") in
                 do* gcheck patchStatus Some in
                 sync_orig
               else gret tt) in
          do* gcheck (ginvoke (applyFence pod)) Some in
          let* before := get_job in
          do* mod_job (fun j => set_j_annotations
                (<[AnnotationFenceBaseline := Marshal (baselineOf pod)]> (j_annotations j)) j) in
          let* e := patchJob false before in
          match e with
          | Some err => gret (Some (wrapf "recording the fence baseline: " err))
          | None =>
              do* sync_orig in
              do* recordPodEvent r "Normal" "SourceFenced"
                    "Fenced the source before its checkpoint: it's out of its Services' endpoints until it's deleted" in
              do* metric "RecordSourceFence" ["fenced"] 0 in
              gret None
          end
    end).

Definition failSnapshotting (reason message : string) : fn resp JobState Outcome := gfun (
  do* cleanupJob r in
  do* conclude now Failed in
  do* setCondition now "Ready" "False" reason message in
  do* gcheck patchStatus handleStatusError in
  do* markInactive key in
  do* recordOutcome "failed" in
  do* recordPreviousPhaseDuration now Snapshotting in
  do* recordPodEvent r "Warning" "MigrationFailed" message in
  gret (Requeue, None)).

(** ** Settling the fence *)

Definition withinFenceSettleTimeout (job : PodMigrationJob) (cond : Condition) : bool :=
  let concluded := match completionTime (j_status job) with Some t => t | None => c_lastTransitionTime cond end in
  Sub now concluded <? fenceSettleTimeout.

(** What [checkpointOutcome] reports: completed, settled, why. *)
Record CheckpointOutcome := mkCheckpointOutcome { co_completed : bool; co_settled : bool; co_why : string }.

Definition checkpointOutcome {R} : G R (res CheckpointOutcome) :=
  let* job := get_job in
  if match evictingStartTime (j_status job) with Some _ => true | None => false end ||
     (sget (j_annotations job) AnnotationEvictingSince !=s "") then
    gret (inr (mkCheckpointOutcome true true "the snapshot was durable, so the engine stopped the source"))
  else
    let provider := getSnapshotProvider r job in
    if negb (e_isReporter provider) then
      gret (inr (mkCheckpointOutcome true true "the snapshot engine doesn't report whether its checkpoint completed"))
    else
      let* x := ecall (ECheckpointState (e_name provider) job (j_podName job)) in
      match x with
      | inl err => gret (inl err)
      | inr st =>
          do* (if negb (cp_settled st) && negb (cp_completed st) then
                 do* ecall (ECleanup (e_name provider) job (j_podName job)) in gret tt
               else gret tt) in
          gret (inr (mkCheckpointOutcome (cp_completed st) (cp_settled st)
                       "the checkpoint completed, so the engine may stop the source"))
      end.

Definition evictKeptSource (pod : Pod) : fn resp JobState FenceOutcome := gfun (
  do* gcheck (ginvoke (applyFence pod)) (fun err => (NoRequeue, true, Some err)) in
  match GetControllerOf (p_meta pod) with
  | None => gret (NoRequeue, false, None)
  | Some _ =>
      let uid := if p_uid pod !=s "" then Some (p_uid pod) else None in
      let* e := ecall (EEvict (p_namespace pod) (p_name pod) (mkEvictOpts None uid false)) in
      match e with
      | None => gret (RequeueAfter fenceSettleInterval, true, None)
      | Some err =>
          if IsNotFound err then gret (RequeueAfter fenceSettleInterval, true, None)
          else if IsTooManyRequests err || IsConflict err || IsInternalError err then
            gret (RequeueAfter keptSourceEvictionRetryInterval, true, None)
          else gret (NoRequeue, true, Some (wrapf ("evicting fenced source pod " +s p_name pod +s ": ") err))
      end
  end).

Definition kept_suffix (pod : Pod) : string :=
  match GetControllerOf (p_meta pod) with
  | None => "Nothing replaces a pod without a controller, so it isn't evicted; delete it to release it"
  | Some _ => "It's evicted so that its workload controller replaces it"
  end.

Definition keepSourceFenced (pod : Pod) (why : string) : fn resp JobState FenceOutcome := gfun (
  let message := "The source stays fenced: " +s why +s ". " +s kept_suffix pod in
  do* setCondition now ConditionSourceFenced "True" ReasonFenceKept message in
  do* gcheck patchStatus (fun err => (NoRequeue, true, Some err)) in
  do* sync_orig in
  do* recordPodEvent r "Warning" "SourceKeptFenced" message in
  do* metric "RecordSourceFence" ["kept"] 0 in
  ginvoke (evictKeptSource pod)).

Definition unfenceSource (pod : Pod) (cond : Condition) (why : string) (watch : bool)
    : fn resp JobState FenceOutcome := gfun (
  let fencedFor := Sub now (c_lastTransitionTime cond) in
  do* setCondition now ConditionSourceFenced "False" ReasonUnfenced (why +s ", so the source is back in service") in
  do* gcheck patchStatus (fun err => (NoRequeue, true, Some err)) in
  do* sync_orig in
  do* gcheck (ginvoke (removeFenceLabel pod)) (fun err => (NoRequeue, true, Some err)) in
  do* recordPodEvent r "Normal" "SourceUnfenced" (why +s ", so the source is back in service") in
  do* metric "RecordSourceFence" ["unfenced"] 0 in
  do* metric "RecordSourceFencedDuration" ["unfenced"] fencedFor in
  if watch then gret (RequeueAfter lateStopPollInterval, true, None)
  else gret (NoRequeue, false, None)).

(** The end of [decideSourceFence]: the checkpoint's outcome is known. *)
Definition settleSource (cond : Condition) (baseline : FenceBaseline) (triggered completed : bool) (why : string)
    : fn resp JobState FenceOutcome := gfun (
  let* p := sourcePod (liveReader r) in
  match p with
  | inl err => gret (NoRequeue, true, Some err)
  | inr None => gret (NoRequeue, false, None)
  | inr (Some pod) =>
      if p_deleting pod then gret (NoRequeue, false, None)
      else if completed then ginvoke (keepSourceFenced pod why)
      else
        let* job := get_job in
        if negb triggered then
          ginvoke (unfenceSource pod cond
            (if j_deleting job then "The migration was deleted before its checkpoint was triggered"
             else "The migration failed before its checkpoint was triggered") false)
        else
          let '(ok, diff) := unchanged baseline pod in
          if negb ok then ginvoke (keepSourceFenced pod diff)
          else ginvoke (unfenceSource pod cond "The source never stopped, and its checkpoint never completed"
                          (negb (j_deleting job)))
  end).

Definition decideSourceFence (cond : Condition) : fn resp JobState FenceOutcome := gfun (
  let* job := get_job in
  let '(baseline, triggered) := jobFenceBaseline job in
  do* (if negb triggered && negb (e_isReporter (getSnapshotProvider r job)) then
         let* p := sourcePod (liveReader r) in
         match p with
         | inl err => greturn (NoRequeue, true, Some err)
         | inr None => greturn (NoRequeue, false, None)
         | inr (Some pod) =>
             let* o := ginvoke (unfenceSource pod cond "The migration failed before its checkpoint was triggered" false) in
             greturn o
         end
       else gret tt) in
  let* x := checkpointOutcome in
  match x with
  | inl err =>
      if withinFenceSettleTimeout job cond then gret (RequeueAfter fenceSettleInterval, true, None)
      else ginvoke (settleSource cond baseline triggered true
             ("the engine's checkpoint state couldn't be read: " +s e_msg err))
  | inr o =>
      if negb (co_completed o) && negb (co_settled o) then
        if withinFenceSettleTimeout job cond then gret (RequeueAfter fenceSettleInterval, true, None)
        else ginvoke (settleSource cond baseline triggered true
               ("the checkpoint didn't finish within " +s DurationString fenceSettleTimeout +s
                (if j_deleting job then " of deletion" else " of the failure")))
      else ginvoke (settleSource cond baseline triggered (co_completed o) (co_why o))
  end).

Definition watchUnfencedSource (cond : Condition) (pod : Pod) : fn resp JobState FenceOutcome := gfun (
  do* gcheck (ginvoke (removeFenceLabel pod)) (fun err => (NoRequeue, true, Some err)) in
  let* job := get_job in
  let '(baseline, triggered) := jobFenceBaseline job in
  let remaining := Sub (c_lastTransitionTime cond + fenceLateStopWatch) now in
  if negb triggered || (remaining <=? 0) || j_deleting job then gret (NoRequeue, false, None)
  else
    let next := RequeueAfter (Z.min lateStopPollInterval remaining) in
    if fst (unchanged baseline pod) then gret (next, true, None)
    else
      let* p := sourcePod (liveReader r) in
      match p with
      | inl err => gret (NoRequeue, true, Some err)
      | inr None => gret (NoRequeue, false, None)
      | inr (Some live) =>
          if p_deleting live then gret (NoRequeue, false, None)
          else
            let '(ok, diff) := unchanged baseline live in
            if ok : bool then gret (next, true, None)
            else
              let message := "The source stopped after it was returned to service (" +s diff +s
                "), so it's fenced again. " +s kept_suffix live in
              do* setCondition now ConditionSourceFenced "True" ReasonFenceKept message in
              do* gcheck patchStatus (fun err => (NoRequeue, true, Some err)) in
              do* sync_orig in
              do* recordPodEvent r "Warning" "SourceRefencedLateStop" message in
              do* metric "RecordSourceFence" ["refenced"] 0 in
              ginvoke (evictKeptSource live)
      end).

Definition resolveSourceFence : fn resp JobState FenceOutcome := gfun (
  let* job := get_job in
  if negb (j_phase job ==p Failed) && negb (j_phase job ==p SucceededWithoutRestore) then
    gret (NoRequeue, false, None)
  else
    match FindStatusCondition (j_conditions job) ConditionSourceFenced with
    | None => gret (NoRequeue, false, None)
    | Some cond =>
        let* p := sourcePod Cache in
        match p with
        | inl err => gret (NoRequeue, true, Some err)
        | inr None => gret (NoRequeue, false, None)
        | inr (Some pod) =>
            if p_deleting pod then gret (NoRequeue, false, None)
            else if (c_status cond ==s "True") && (c_reason cond ==s ReasonFenced) then
              ginvoke (decideSourceFence cond)
            else if (c_status cond ==s "True") && (c_reason cond ==s ReasonFenceKept) then
              ginvoke (evictKeptSource pod)
            else if (c_status cond ==s "False") && (c_reason cond ==s ReasonUnfenced) then
              ginvoke (watchUnfencedSource cond pod)
            else gret (NoRequeue, false, None)
        end
    end).

(** ** Deletion *)

(** An active job that is being deleted fails first. *)
Definition failDeleted : fn resp JobState (option ApiErr) := gfun (
  let* job := get_job in
  let prevPhase := j_phase job in
  do* mod_job (fun j =>
        let j := set_phase Failed j in
        match completionTime (j_status j) with None => set_completionTime (Some now) j | Some _ => j end) in
  do* setCondition now "Ready" "False" "Deleted" "PodMigrationJob was deleted before migration completed" in
  do* gcheck patchStatus Some in
  do* sync_orig in
  let* job := get_job in
  do* markInactive (req_key job) in
  do* recordOutcome "deleted" in
  do* recordPreviousPhaseDuration now prevPhase in
  do* recordPodEvent r "Warning" "MigrationFailed" "PodMigrationJob was deleted before migration completed" in
  gret None).

Definition finalizeSourceFence : fn resp JobState Outcome := gfun (
  do* cleanupJob r in
  let* job := get_job in
  do* (if negb (IsTerminalPhase (j_phase job)) then
         gcheck (ginvoke failDeleted) (fun err => (NoRequeue, Some err))
       else gret tt) in
  let* o := ginvoke resolveSourceFence in
  let '(res, handled, err) := o in
  do* (match err with
  | None =>
      if negb handled then let* e := ginvoke removeSourceFenceFinalizer in greturn (NoRequeue, e)
      else
        let* live := sourcePod (liveReader r) in
        match live with
        | inr None => let* e := ginvoke removeSourceFenceFinalizer in greturn (NoRequeue, e)
        | inr (Some pod) =>
            if p_deleting pod then let* e := ginvoke removeSourceFenceFinalizer in greturn (NoRequeue, e)
            else gret tt
        | inl _ => gret tt
        end
  | Some _ => gret tt
  end) in
  let* job := get_job in
  let deleted := default zero_time (m_deletionTimestamp (j_meta job)) in
  let anchor := match completionTime (j_status job) with
                | Some t => if After t deleted then t else deleted
                | None => deleted
                end in
  if fenceDeleteUnwedgeTimeout <=? Sub now anchor then
    do* recordPodEvent r "Warning" "SourceFenceDeleteTimedOut"
          "Timed out settling source fence after job deletion; removing finalizer with source still fenced" in
    let* e := ginvoke removeSourceFenceFinalizer in gret (NoRequeue, e)
  else gret (res, err)).

End Fence.
