(* ===== verification/Budget.v ===== *)
(** * The disruption budget check
    (internal/controller/budget_check.go, budget_inflight.go, budget_wakeup.go,
    internal/util/budget.go)

    Before the checkpoint, a dry-run eviction asks whether the source's
    disruption budgets allow its eviction ([EvictionBudgetChecker]), and the
    migrations in flight under the same budget are counted
    ([InFlightBudgetChecker]).  While the budget refuses, the job waits in
    Pending ([checkDisruptionBudget]). *)
From S2P Require Import Prelude Effects GoLib Kube Interfaces Timeout JobBase.

Definition budgetRecheckInterval : Z := 5 * Second.
Definition budgetRecheckMaxInterval : Z := 30 * Second.
Definition inFlightReservationTTL : Z := 2 * Minute.

(** [wait.Jitter(d, 0.2)]: at least [d], at most [1.2 * d]. *)
Class JitterLib := {
  Jitter : Z -> Z;
  jitter_range : forall d, 0 <= d -> d <= Jitter d <= d + d / 5 }.

(** [metav1.LabelSelectorAsSelector]: [None] for an invalid selector; a nil
    selector selects nothing. *)
Class SelectorLib := {
  LabelSelectorAsSelector : option Selector -> option (gmap string string -> bool);
  nil_selector : LabelSelectorAsSelector None = Some (fun _ => false) }.

Section JobSide.
Context `{KubeLib} `{JitterLib}.
Context (r : Reconciler) (now : Z).

Definition WaitingForDisruptionBudget (job : PodMigrationJob) : bool :=
  if negb (j_phase job ==p Pending) then false
  else match FindStatusCondition (j_conditions job) ConditionDisruptionBudgetChecked with
       | Some cond => c_status cond !=s "True"
       | None => false
       end.

Definition FailedOnDisruptionBudget (job : PodMigrationJob) : bool :=
  if negb (j_phase job ==p Failed) then false
  else match FindStatusCondition (j_conditions job) "Ready" with
       | Some ready => c_reason ready ==s ReasonDisruptionBudgetTimeout
       | None => false
       end.

Definition refusedByDisruptionBudget (job : PodMigrationJob) : bool :=
  if negb (j_phase job ==p Pending) then false
  else match FindStatusCondition (j_conditions job) ConditionDisruptionBudgetChecked with
       | Some cond => (c_status cond ==s "False") &&
                      ((c_reason cond ==s reasonBudgetExhausted) || (c_reason cond ==s reasonMigrationsInFlight))
       | None => false
       end.

Definition skipsDisruptionBudgetCheck (job : PodMigrationJob) : bool :=
  (sget (j_labels job) LabelTriggerSource ==s TriggerSourceSpotPreemption) ||
  (sget (j_annotations job) AnnotationTriggerSource ==s TriggerSourceSpotPreemption).

Definition budgetRecheckAfter (cond : option Condition) (deadline : Z) : Z :=
  let interval :=
    match cond with
    | Some c => Z.min (Z.max (Z.quot (Sub now (c_lastTransitionTime c)) 2) budgetRecheckInterval) budgetRecheckMaxInterval
    | None => budgetRecheckInterval
    end in
  let after := Jitter interval in
  let untilDeadline := i64 (Sub deadline now + Second) in
  if untilDeadline <? after then Z.max untilDeadline Second else after.

Definition failSourceGone : fn resp JobState (option ApiErr) := gfun (
  let message := "Origin pod no longer exists in Pending state" in
  do* conclude now Failed in
  do* setCondition now "Ready" "False" "PodNotFound" message in
  do* gcheck patchStatus Some in
  let* job := get_job in
  do* markInactive (req_key job) in
  do* recordPhaseDuration "pending" (Sub now (j_created job)) in
  do* recordOutcome "failed" in
  do* recordPodEvent r "Warning" "MigrationFailed" message in
  gret None).

(** [fmt.Sprint] of an error that may be nil. *)
Definition print_err (e : option ApiErr) : string := match e with Some e => e_msg e | None => "<nil>" end.

(** The check was refused or failed: record it and requeue. *)
Definition deferForBudget (reason : string) (checkErr : option ApiErr) : fn resp JobState (Result * bool * option ApiErr) := gfun (
  let* job := get_job in
  let prev := FindStatusCondition (j_conditions job) ConditionDisruptionBudgetChecked in
  let firstBlock := match prev with
                    | None => true
                    | Some p => (c_reason p !=s reasonBudgetExhausted) && (c_reason p !=s reasonMigrationsInFlight)
                    end in
  let refusal := match checkErr ≫= budget_cause with Some m => m | None => print_err checkErr end in
  let '(status, message) :=
    if reason ==s reasonBudgetCheckError then
      ("Unknown", "The dry-run eviction of the source failed, so nothing is checkpointed yet: " +s print_err checkErr)
    else if reason ==s reasonMigrationsInFlight then
      ("False", "Other migrations under the PodDisruptionBudget are in flight, so nothing is checkpointed yet: " +s
                print_err checkErr)
    else
      ("False", "A dry-run eviction of the source was refused, so nothing is checkpointed yet: " +s refusal) in
  do* setCondition now ConditionDisruptionBudgetChecked status reason message in
  let* s := gget in
  do* (if negb (bool_decide (j_status (s_job s) = j_status (s_orig s))) then
         gcheck patchStatus (fun err => (NoRequeue, false, Some err))
       else gret tt) in
  do* gwhen (firstBlock && (reason ==s reasonBudgetExhausted))
        (recordPodEvent r "Normal" "MigrationDeferredByPDB"
           ("Migration is waiting for the PodDisruptionBudget to allow a disruption (" +s refusal +s
            "); nothing has been checkpointed")) in
  do* gwhen (firstBlock && (reason ==s reasonMigrationsInFlight))
        (recordPodEvent r "Normal" "MigrationDeferredByPDB"
           ("Migration is waiting for other migrations under the PodDisruptionBudget to finish (" +s
            print_err checkErr +s "); nothing has been checkpointed")) in
  let* job := get_job in
  let after := budgetRecheckAfter (FindStatusCondition (j_conditions job) ConditionDisruptionBudgetChecked)
                 (migrationDeadlineAnchor job + getMigrationTimeout r job) in
  gret (RequeueAfter after, false, None)).

(** [(res, proceed, err)] *)
Definition checkDisruptionBudget (podName : string) : fn resp JobState (Result * bool * option ApiErr) := gfun (
  let* job := get_job in
  let* x := ecall (EBudgetCheck job podName) in
  let '(reason, checkErr) := x in
  if reason ==s reasonBudgetAllowed then
    do* metric "RecordBudgetCheck" ["allowed"] 0 in
    do* setCondition now ConditionDisruptionBudgetChecked "True" reasonBudgetAllowed
          "A dry-run eviction of the source was allowed" in
    gret (NoRequeue, true, None)
  else if reason ==s reasonBudgetExhausted then
    do* metric "RecordBudgetCheck" ["budget_exhausted"] 0 in
    ginvoke (deferForBudget reason checkErr)
  else if reason ==s reasonMigrationsInFlight then
    do* metric "RecordBudgetCheck" ["in_flight"] 0 in
    ginvoke (deferForBudget reason checkErr)
  else
    do* metric "RecordBudgetCheck" ["check_error"] 0 in
    if match checkErr with Some e => IsNotFound e | None => false end then
      let* e := ginvoke failSourceGone in gret (NoRequeue, false, e)
    else ginvoke (deferForBudget reasonBudgetCheckError checkErr)).

End JobSide.

(** ** The checkers *)

Definition EvictionBudgetChecker_Check {S R} (job : PodMigrationJob) (podName : string)
    : gom resp S R (string * option ApiErr) :=
  let uid := if j_targetUID job !=s "" then Some (j_targetUID job) else None in
  let* e := ecall (EEvict (j_namespace job) podName (mkEvictOpts None uid true)) in
  match e with
  | None => gret (reasonBudgetAllowed, None)
  | Some err =>
      if IsTooManyRequests err && match budget_cause err with Some _ => true | None => false end then
        gret (reasonBudgetExhausted, Some err)
      else gret (reasonBudgetCheckError, Some err)
  end.

(** The in-memory reservations: by PDB, the job UIDs and when they reserved. *)
Definition Reservations : Type := gmap string (gmap string Z).

Definition pastBudgetCheck (job : PodMigrationJob) : bool :=
  match j_phase job with Snapshotting | Evicting | Restoring => true | _ => false end.

Definition podCountsHealthy (pod : Pod) : bool :=
  if p_deleting pod then false
  else match List.find (fun c => c_type c ==s "Ready") (p_conditions pod) with
       | Some c => c_status c ==s "True"
       | None => false
       end.

Definition pdb_key (pdb : PodDisruptionBudget) : string :=
  m_namespace (pdb_meta pdb) +s "/" +s m_name (pdb_meta pdb).

Definition cachedBudgetRefusal (source : Pod) (pdb : PodDisruptionBudget) : option ApiErr :=
  if negb (podCountsHealthy source) then None
  else
    let refuse cause :=
      Some (mkErr (TooManyRequests (Some cause)) "Cannot evict pod as it would violate the pod's disruption budget.") in
    let name := m_name (pdb_meta pdb) in
    if pdb_observedGeneration pdb <? m_generation (pdb_meta pdb) then
      refuse ("The disruption budget " +s name +s " is still being processed by the server.")
    else if pdb_disruptionsAllowed pdb =? 0 then
      refuse ("The disruption budget " +s name +s " needs " +s pretty (pdb_desiredHealthy pdb) +s
              " healthy pods and has " +s pretty (pdb_currentHealthy pdb) +s " currently")
    else None.

Section InFlight.
Context `{SelectorLib}.
Context (now : Z).

(** The last job of a UID, as the code's map has it. *)
Definition job_by_uid (jobs : list PodMigrationJob) (uid : string) : option PodMigrationJob :=
  List.find (fun j => j_uid j ==s uid) (rev jobs).

Definition reservation_holds (jobs : list PodMigrationJob) (uid : string) (at_ : Z) : bool :=
  match job_by_uid jobs uid with
  | None => false
  | Some job =>
      negb (pastBudgetCheck job || (j_phase job ==p Failed) || (j_phase job ==p Succeeded) ||
            (j_phase job ==p SucceededWithoutRestore) || (inFlightReservationTTL <? Sub now at_))
  end.

Definition pruneReservations (jobs : list PodMigrationJob) (res : gmap string Z) : gmap string Z :=
  filter (fun ua => reservation_holds jobs ua.1 ua.2 = true) res.

Definition pod_by_uid (pods : list Pod) (uid : string) : option Pod :=
  List.find (fun p => p_uid p ==s uid) (rev pods).

(** A migration in flight adds its source, if it is there and not terminating. *)
Definition count_migration (job : PodMigrationJob) (pods : list Pod) (reservations : gmap string Z)
    (m : gmap string string) (other : PodMigrationJob) : gmap string string :=
  if (j_uid other ==s j_uid job) || (j_targetUID other ==s "") then m
  else if negb (bool_decide (is_Some (reservations !! j_uid other))) && negb (pastBudgetCheck other) then m
  else match pod_by_uid pods (j_targetUID other) with
       | Some pod => if p_deleting pod then m else <[p_uid pod := j_name other]> m
       | None => m
       end.

(** The sources of the other migrations in flight: pod UID -> job name. *)
Definition in_flight (job : PodMigrationJob) (jobs : list PodMigrationJob) (pods : list Pod)
    (reservations : gmap string Z) : gmap string string :=
  fold_left (count_migration job pods reservations) jobs ∅.

Definition healthy_count (pods : list Pod) (disrupted : gmap string string) : Z :=
  Z.of_nat (length (List.filter (fun p => negb (bool_decide (is_Some (disrupted !! p_uid p))) && podCountsHealthy p) pods)).

(** What remains healthy once the source is disrupted too. *)
Definition remaining_healthy (source : Pod) (pods : list Pod) (disrupted : gmap string string) : Z :=
  healthy_count pods disrupted - (if podCountsHealthy source then 1 else 0).

Definition in_flight_refusal (pdb : PodDisruptionBudget) (healthy : Z) (inFlight : gmap string string) : ApiErr :=
  mkErr OtherErr ("PodDisruptionBudget " +s m_name (pdb_meta pdb) +s " needs " +s pretty (pdb_desiredHealthy pdb) +s
    " healthy pods, and " +s pretty healthy +s " would remain while " +s pretty (Z.of_nat (size inFlight)) +s
    " other migrations are in flight (" +s Join (SortStrings (map snd (map_to_list inFlight))) ", " +s ")").

Definition always_allow (pdb : PodDisruptionBudget) : bool :=
  match pdb_unhealthyPodEvictionPolicy pdb with Some p => p ==s "AlwaysAllow" | None => false end.

Definition checkPDB {R} (job : PodMigrationJob) (source : Pod) (pdb : PodDisruptionBudget) (reserve : bool)
    : gom resp Reservations R (string * option ApiErr) :=
  if negb (podCountsHealthy source) && always_allow pdb then gret (reasonBudgetAllowed, None)
  else
    let* x := ecall (EListJobs (j_namespace job) AllJobs) in
    match x with
    | inl err => gret (reasonBudgetCheckError, Some (wrapf "listing migration jobs: " err))
    | inr jobs =>
        let* y := ecall (EListPods (j_namespace job) (PodsMatching (pdb_selector pdb))) in
        match y with
        | inl err => gret (reasonBudgetCheckError, Some (wrapf "listing the PDB's pods: " err))
        | inr pods =>
            let* reserved := gget in
            let reservations := pruneReservations jobs (default ∅ (reserved !! pdb_key pdb)) in
            do* gmodify (fun m => match m !! pdb_key pdb with
                                  | Some _ => <[pdb_key pdb := reservations]> m
                                  | None => m
                                  end) in
            let inFlight := in_flight job jobs pods reservations in
            let healthy := remaining_healthy source pods inFlight in
            if healthy <? pdb_desiredHealthy pdb then
              gret (reasonMigrationsInFlight, Some (in_flight_refusal pdb healthy inFlight))
            else
              do* gwhen reserve (gmodify (fun m =>
                    <[pdb_key pdb := <[j_uid job := now]> (default ∅ (m !! pdb_key pdb))]> m)) in
              gret (reasonBudgetAllowed, None)
        end
    end.

Definition covers_source (source : Pod) (pdb : PodDisruptionBudget) : bool :=
  match LabelSelectorAsSelector (pdb_selector pdb) with
  | None => false
  | Some matches => matches (p_labels source)
  end.

(** [for _, cov := range covering { if reason != Allowed { return } }] *)
Definition check_covering (job : PodMigrationJob) (source : Pod) (covering : list PodDisruptionBudget) (reserve : bool)
    : gom resp Reservations (string * option ApiErr) unit :=
  giter covering (fun pdb =>
    let* x := checkPDB job source pdb reserve in
    if fst x !=s reasonBudgetAllowed then greturn x else gret tt).

Definition InFlightBudgetChecker_Check (job : PodMigrationJob) (podName : string)
    : fn resp Reservations (string * option ApiErr) := gfun (
  let* x := ecall (EGetPod Cache (j_namespace job) podName) in
  match x with
  | inl err =>
      if negb (IsNotFound err) then gret (reasonBudgetCheckError, Some (wrapf "reading the source pod: " err))
      else EvictionBudgetChecker_Check job podName
  | inr source =>
      let* y := ecall (EListPDBs (j_namespace job)) in
      match y with
      | inl err => gret (reasonBudgetCheckError, Some (wrapf "listing PodDisruptionBudgets: " err))
      | inr pdbs =>
          let covering := List.filter (covers_source source) pdbs in
          do* match covering with
              | [pdb] => match cachedBudgetRefusal source pdb with
                         | Some refusal => greturn (reasonBudgetExhausted, Some refusal)
                         | None => gret tt
                         end
              | _ => gret tt
              end in
          do* check_covering job source covering false in
          let* d := EvictionBudgetChecker_Check job podName in
          do* (if fst d !=s reasonBudgetAllowed then greturn d else gret tt) in
          do* check_covering job source covering true in
          gret (reasonBudgetAllowed, None)
      end
  end).

End InFlight.

(** ** Wake-up (budget_wakeup.go) *)

Definition pdbMayHaveFreedBudget_Update (old new : PodDisruptionBudget) : bool :=
  (pdb_disruptionsAllowed old <? pdb_disruptionsAllowed new) || (pdb_currentHealthy old <? pdb_currentHealthy new).

Section Wakeup.
Context `{KubeLib} `{SelectorLib}.

(** The jobs to wake, appended to the state. *)
Definition wake_one (matches : gmap string string -> bool) (job : PodMigrationJob)
    : gom resp (list (string * string)) (list (string * string)) unit :=
  if negb (WaitingForDisruptionBudget job) then gret tt
  else
    let* x := ecall (EGetPod Cache (j_namespace job) (j_podName job)) in
    match x with
    | inl _ => gret tt
    | inr source =>
        if negb (matches (p_labels source)) then gret tt
        else gmodify (fun reqs => (reqs ++ [(j_namespace job, j_name job)])%list)
    end.

Definition budgetWaitersForPDB (pdb : PodDisruptionBudget)
    : fn resp (list (string * string)) (list (string * string)) := gfun (
  match LabelSelectorAsSelector (pdb_selector pdb) with
  | None => gret []
  | Some matches =>
      let* x := ecall (EListJobs (m_namespace (pdb_meta pdb)) AllJobs) in
      match x with
      | inl _ => gret []
      | inr jobs => do* giter jobs (wake_one matches) in gget
      end
  end).

End Wakeup.
