(* ===== verification/Instances.v ===== *)
(** * Concrete libraries and objects for runs

    Functions that satisfy the laws of the library classes, and sample objects:
    with them the witnesses run the modelled handlers. *)
From Stdlib Require Import Ascii.
From S2P Require Import Prelude Effects GoLib Kube Interfaces Engine PodUtil Timeout JobBase Fence Budget.

(** ** Library functions *)

#[refine, export] Instance no_jitter : JitterLib := {| Jitter d := d |}.
Proof. intros d Hd. assert (0 <= d / 5) by (apply Z.div_pos; lia). lia. Defined.

#[refine, export] Instance match_labels : SelectorLib := {|
  LabelSelectorAsSelector sel :=
    match sel with
    | None => Some (fun _ => false)
    | Some kvs => Some (fun l => forallb (fun kv => sget l kv.1 ==s kv.2) kvs)
    end |}.
Proof. done. Defined.

#[export] Existing Instance KubeRef.kube_ref.

(** ** Sample objects *)

Definition sample_reconciler : Reconciler :=
  mkReconciler true true true false None None None 0 0 0 0 (30 * Second).

Definition sample_meta : ObjectMeta :=
  mkMeta "pmj-web" "shop" "" "uid-job" "1" 1 ∅ ∅ (1000 * Second) None None [] [].

Definition sample_job (p : JobPhase) : PodMigrationJob :=
  mkJob sample_meta (mkJobSpec "web-0" "uid-pod") 
    (mkJobStatus p "" [] "node-a" None None None None false "" "" false []).

Definition sample_pod : Pod :=
  mkPod (mkMeta "web-0" "shop" "" "uid-pod" "7" 0 ∅ ∅ (500 * Second) None None
           [mkOwnerReference "ReplicaSet" "web" "uid-rs" true "apps/v1"] [])
    "node-a" (Some "gvisor") [] [] [] [] [] PodRunning "" ""
    [mkCond "Ready" "True" "" "" 0 (600 * Second)]
    [mkCS "app" (mkState None true None) None 0 "containerd://1"] [].

(** An API server that has the job [job] and the pod [pod], and accepts every write. *)
Definition accept (job : PodMigrationJob) (pod : Pod) (e : Ev) : resp e :=
  match e return resp e with
  | EGetJob _ _ _ => inr job
  | EGetPod _ _ _ => inr pod
  | EListPods _ _ => inr []
  | EListVolumeAttachments _ => inr []
  | EPatchJobStatus _ new => inr new
  | EPatchJob _ _ new => inr new
  | EUpdateJob new => inr new
  | EUpdateJobStatus new => inr new
  | EUpdatePod p => inr p
  | EDeleteJob _ _ | EPatchPodLabel _ _ _ _ _ | EPatchPodReady _ _ _ _ _ _ | EDeletePod _ _ | EEvict _ _ _
  | ECleanup _ _ _ | ECompleteRestore _ _ _ _ => None
  | EEnsureTrigger _ _ _ => inr NoRequeue
  | EBudgetCheck _ _ => (reasonBudgetAllowed, None)
  | e => answer_fail e
  end.

Definition static (reply : forall e, resp e) (s : unit) (e : Ev) : unit * resp e := (tt, reply e).

(** The trace and the result of a run against a server that answers by [reply]. *)
Definition trace_of {A} (reply : forall e, resp e) (p : prog resp A) : @trace Ev resp := snd (fst (run (static reply) tt p)).
Definition result_of {A} (reply : forall e, resp e) (p : prog resp A) : A := snd (run (static reply) tt p).

Lemma exec_static {A} reply (p : prog resp A) : exec p (trace_of reply p) (result_of reply p).
Proof. apply run_exec. Qed.

Lemma trace_of_call {A} reply e (k : resp e -> prog resp A) :
  trace_of reply (Call e k) = existT e (reply e) :: tl (trace_of reply (Call e k)).
Proof. unfold trace_of. simpl. by destruct (run (static reply) tt (k (reply e))) as [[? ?] ?]. Qed.

(** The trace's call [n], as the theorems split a trace. *)
Ltac at_call n := symmetry; apply (take_drop_middle _ n); vm_compute; reflexivity.

(** A job that failed while its source was fenced, and its source. *)
Definition fenced_condition : Condition := mkCond ConditionSourceFenced "True" ReasonFenced "" 1 (1010 * Second).

Definition failed_fenced_job : PodMigrationJob :=
  set_completionTime (Some (1020 * Second)) (set_conditions [fenced_condition] (sample_job Failed)).

(** ** Servers and reconcilers of the scenarios *)

Definition at_1100 : Z := 1100 * Second.

(** A snapshot engine that verifies restores and completes them. *)
Definition completer : Engine :=
  mkEngine "completer" [] (e_eligible GKEPodSnapshots) [] (e_guarantees GKEPodSnapshots) None None true true true.

Definition completing_reconciler : Reconciler :=
  mkReconciler true true true false (Some completer) None None 0 0 0 0 (30 * Second).

(** The snapshot is Ready, and the engine confirms the restore. *)
Definition snapshotted (job : PodMigrationJob) (e : Ev) : resp e :=
  match e return resp e with
  | ECheckStatus _ _ _ => inr (Some (mkSnapStatus PhaseReady "snap-1" "" "" 0))
  | EVerifyRestore _ _ _ => inr (mkRestoreVerdict Restored "" "restored" true)
  | e => accept job sample_pod e
  end.

(** The source is gone. *)
Definition podless (job : PodMigrationJob) (e : Ev) : resp e :=
  match e return resp e with
  | EGetPod _ _ _ => inl (mkErr NotFound "")
  | e => accept job sample_pod e
  end.

Definition with_volume : PodMigrationJob := set_pvsToDetach ["pv-1"] (sample_job Evicting).
Definition evicting_marked : PodMigrationJob :=
  set_j_annotations {[ "pod-migration.gke.io/evicting-since" := "2026-01-01T00:00:00Z" ]} (sample_job Evicting).
Definition restored_job : PodMigrationJob :=
  set_restoringStartTime (Some (1050 * Second)) (set_restoredPodUID "uid-pod"
    (set_restoredPodName "web-0" (set_consumed true (sample_job Restoring)))).
Definition crashed_job : PodMigrationJob :=
  set_completionTime (Some (1020 * Second)) (set_restoredPodName "web-0"
    (set_conditions [mkCond ConditionRestoreCrashed "True" "" "" 1 (1010 * Second)] (sample_job Failed))).
Definition stale_job : PodMigrationJob := set_completionTime (Some (10 * Second)) (sample_job Succeeded).
