(* ===== verification/BudgetLaws.v ===== *)
(** * What the disruption budget check guarantees

    Admissions never overcommit a budget: the sources of all the migrations in
    flight or reserved, the admitted one included, leave the budget its healthy
    pods.  An admission was preceded by an accepted dry-run eviction, and holds a
    reservation under every budget that covers the source.  The recheck delay of
    a waiting job is bounded. *)
From Stdlib Require Import Eqdep.
From S2P Require Import Prelude Effects GoLib Kube Interfaces Timeout JobBase Budget Instances.

(** ** The migrations in flight *)

Section InFlight.
Context `{SelectorLib}.

(** The job is in flight under the budget, or holds a reservation. *)
Definition engaged (res : gmap string Z) (j : PodMigrationJob) : bool :=
  bool_decide (is_Some (res !! j_uid j)) || pastBudgetCheck j.

(** The pod with UID [u] is the live source of an engaged job. *)
Definition disrupted (jobs : list PodMigrationJob) (pods : list Pod) (res : gmap string Z) (u : string) : bool :=
  existsb (fun j => engaged res j && (j_targetUID j !=s "") && (j_targetUID j ==s u) &&
    match pod_by_uid pods u with Some p => negb (p_deleting p) | None => false end) jobs.

(** The healthy pods that no engaged migration takes away. *)
Definition undisturbed (jobs : list PodMigrationJob) (pods : list Pod) (res : gmap string Z) : list Pod :=
  List.filter (fun p => negb (disrupted jobs pods res (p_uid p)) && podCountsHealthy p) pods.

Lemma pod_by_uid_uid pods u p : pod_by_uid pods u = Some p -> p_uid p = u /\ In p pods.
Proof.
  unfold pod_by_uid. intros [Hin Hu]%List.find_some. bool_props. by rewrite <- in_rev in Hin.
Qed.

(** What one job adds to the map. *)
Definition counts (job : PodMigrationJob) (pods : list Pod) (res : gmap string Z) (u : string)
    (other : PodMigrationJob) : Prop :=
  j_uid other <> j_uid job /\ j_targetUID other <> "" /\ engaged res other = true /\ j_targetUID other = u /\
  exists p, pod_by_uid pods u = Some p /\ p_deleting p = false.

Lemma in_flight_from job jobs pods res m u :
  is_Some (fold_left (count_migration job pods res) jobs m !! u) <->
  is_Some (m !! u) \/ exists other, In other jobs /\ counts job pods res u other.
Proof.
  revert m. induction jobs as [|o jobs IH]; intros m; simpl.
  { split; [by left|]. intros [Hm|(? & [] & _)]. done. }
  rewrite IH. clear IH.
  assert (Hskip : ~ counts job pods res u o ->
    (is_Some (m !! u) \/ (exists x, In x jobs /\ counts job pods res u x)) <->
    (is_Some (m !! u) \/ (exists x, (o = x \/ In x jobs) /\ counts job pods res u x))).
  { intros Hn. split; intros [?|(x & Hx & Hc)]; [by left|right; eauto|by left|right].
    destruct Hx as [<-|Hx]; [done|eauto]. }
  unfold count_migration, counts, engaged in *.
  destruct (j_uid o ==s j_uid job) eqn:Hu; simpl; [apply Hskip; bool_props; naive_solver|].
  destruct (j_targetUID o ==s "") eqn:Ht; simpl; [apply Hskip; bool_props; naive_solver|].
  rewrite <- negb_orb. destruct (_ || pastBudgetCheck o) eqn:He; simpl; [|apply Hskip; naive_solver].
  bool_props. destruct (pod_by_uid pods (j_targetUID o)) as [p|] eqn:Hp; [|apply Hskip; naive_solver].
  destruct (p_deleting p) eqn:Hd; [apply Hskip; intros (_ & _ & _ & <- & q & Hq & ?); congruence|].
  destruct (pod_by_uid_uid _ _ _ Hp) as [Hpu _]. rewrite Hpu. clear Hskip.
  destruct (decide (j_targetUID o = u)) as [<-|Hne].
  - rewrite lookup_insert_eq. split; [intros _; right|intros _; left; by eexists].
    exists o. split; [by left|]. repeat split; [congruence..|]. by exists p.
  - rewrite lookup_insert_ne by done. naive_solver.
Qed.

Lemma in_flight_spec job jobs pods res u :
  is_Some (in_flight job jobs pods res !! u) <-> exists other, In other jobs /\ counts job pods res u other.
Proof.
  unfold in_flight. rewrite in_flight_from, lookup_empty. split; [|by right]. by intros [[? [=]]|].
Qed.

Lemma disrupted_spec jobs pods res u :
  disrupted jobs pods res u = true <->
  exists j, In j jobs /\ engaged res j = true /\ j_targetUID j <> "" /\ j_targetUID j = u /\
    exists p, pod_by_uid pods u = Some p /\ p_deleting p = false.
Proof.
  unfold disrupted. rewrite existsb_exists. split.
  - intros (j & Hj & Hb). exists j. destruct (pod_by_uid pods u) as [p|]; [|by rewrite andb_false_r in Hb].
    bool_props. destruct (p_deleting p) eqn:Hd; naive_solver.
  - intros (j & Hj & He & Ht & Hu & p & Hp & Hd). exists j. split; [done|].
    rewrite Hp, Hd, He, Hu, seqb_refl. simpl. rewrite !andb_true_r. apply negb_true_iff, seqb_false. congruence.
Qed.
End InFlight.

(** ** Counting *)

Lemma filter_at_most_one_more {A} (f : A -> string) (P Q : A -> bool) k l :
  NoDup (map f l) -> (forall x, In x l -> P x = true -> Q x = true \/ f x = k) ->
  (length (List.filter P l) <= length (List.filter Q l) + 1)%nat.
Proof.
  intros Hnd. induction l as [|a l IH]; intros HPQ; simpl in *; [lia|].
  apply NoDup_cons in Hnd as [Ha Hnd]. specialize (IH Hnd (fun x Hx => HPQ x (or_intror Hx))).
  destruct (P a) eqn:HP; simpl; [|destruct (Q a); simpl; lia].
  destruct (HPQ a (or_introl eq_refl) HP) as [->|Hk]; simpl; [lia|].
  assert (length (List.filter P l) <= length (List.filter Q l))%nat; [|destruct (Q a); simpl; lia].
  clear IH Hnd. induction l as [|b l IH]; simpl in *; [lia|].
  assert (f b <> k) by (intros Hb; apply Ha; rewrite Hk, <- Hb; by left).
  assert (length (List.filter P l) <= length (List.filter Q l))%nat.
  { apply IH; [set_solver|intros x [->|Hx]; auto]. }
  destruct (P b) eqn:HPb; simpl; [|destruct (Q b); simpl; lia].
  destruct (HPQ b (or_intror (or_introl eq_refl)) HPb) as [->|]; [simpl; lia|done].
Qed.

Lemma filter_length_le {A} (P Q : A -> bool) l :
  (forall x, In x l -> P x = true -> Q x = true) -> (length (List.filter P l) <= length (List.filter Q l))%nat.
Proof.
  induction l as [|a l IH]; intros HPQ; simpl; [lia|]. specialize (IH (fun x Hx => HPQ x (or_intror Hx))).
  destruct (P a) eqn:HP; [rewrite (HPQ a (or_introl eq_refl) HP)|destruct (Q a)]; simpl; lia.
Qed.

Section Admission.
Context `{SelectorLib}.
Context (now : Z) (job : PodMigrationJob) (source : Pod).

(** Admitting [job] disturbs its source, and nothing else. *)
Lemma admitted_disrupted jobs pods res u :
  (forall j, In j jobs -> j_uid j = j_uid job -> j_targetUID j = p_uid source) ->
  disrupted jobs pods (<[j_uid job := now]> res) u = true ->
  is_Some (in_flight job jobs pods res !! u) \/ u = p_uid source.
Proof.
  intros Hj (j & Hin & He & Ht & Hu & Hp)%disrupted_spec.
  destruct (decide (j_uid j = j_uid job)) as [Hid|Hid]; [right; rewrite <- Hu; by apply Hj|left].
  apply in_flight_spec. exists j. split; [done|]. repeat split; try done.
  unfold engaged in *. by rewrite lookup_insert_ne in He.
Qed.

(** The count of the check is below what the admission leaves. *)
Lemma remaining_undisturbed jobs pods res :
  NoDup (map p_uid pods) ->
  (forall j, In j jobs -> j_uid j = j_uid job -> j_targetUID j = p_uid source) ->
  (forall p, In p pods -> p_uid p = p_uid source -> podCountsHealthy p = true -> podCountsHealthy source = true) ->
  remaining_healthy source pods (in_flight job jobs pods res) <=
  Z.of_nat (length (undisturbed jobs pods (<[j_uid job := now]> res))).
Proof.
  intros Hnd Hj Hs. unfold remaining_healthy, healthy_count, undisturbed.
  assert (Hd : forall p, In p pods ->
    negb (bool_decide (is_Some (in_flight job jobs pods res !! p_uid p))) && podCountsHealthy p = true ->
    negb (disrupted jobs pods (<[j_uid job := now]> res) (p_uid p)) && podCountsHealthy p = true \/
    (p_uid p = p_uid source /\ podCountsHealthy p = true)).
  { intros p Hp [Hn Hh]%andb_prop. rewrite Hh, andb_true_r.
    destruct (disrupted _ _ _ (p_uid p)) eqn:Hdis; [|by left].
    apply admitted_disrupted in Hdis as [Hi|Hu]; [|by right|done].
    by rewrite bool_decide_eq_true_2 in Hn. }
  destruct (podCountsHealthy source) eqn:Hh.
  - match goal with |- Z.of_nat ?a - 1 <= Z.of_nat ?b => enough (a <= b + 1)%nat by lia end.
    eapply filter_at_most_one_more; [exact Hnd|]. intros p Hp HP.
    destruct (Hd p Hp HP) as [|[? _]]; [by left|right; eassumption].
  - rewrite Z.sub_0_r. apply inj_le, filter_length_le. intros p Hp HP.
    destruct (Hd p Hp HP) as [|[Hu Hhp]]; [done|]. specialize (Hs p Hp Hu Hhp). congruence.
Qed.

(** What a check with reservation that allowed the migration leaves, by the lists it read. *)
Definition keeps_budget (pdb : PodDisruptionBudget) (h : @trace Ev resp) (m' : Reservations) : Prop :=
  forall jobs pods,
    In (existT (EListJobs (j_namespace job) AllJobs) (inr jobs)) h ->
    In (existT (EListPods (j_namespace job) (PodsMatching (pdb_selector pdb))) (inr pods)) h ->
    NoDup (map p_uid pods) ->
    (forall j, In j jobs -> j_uid j = j_uid job -> j_targetUID j = p_uid source) ->
    (forall p, In p pods -> p_uid p = p_uid source -> podCountsHealthy p = true -> podCountsHealthy source = true) ->
    pdb_desiredHealthy pdb <= Z.of_nat (length (undisturbed jobs pods (default ∅ (m' !! pdb_key pdb)))).

Lemma checkPDB_keeps pdb m (Qr : @trace Ev resp -> Reservations -> unit -> Prop) :
  podCountsHealthy source || negb (always_allow pdb) = true ->
  wpg (open (fun _ _ => True)) (checkPDB now job source pdb true) [] m Qr
    (fun h m' x => fst x = reasonBudgetAllowed -> keeps_budget pdb h m').
Proof.
  intros Hal. unfold checkPDB.
  replace (negb (podCountsHealthy source) && always_allow pdb) with false
    by (by destruct (podCountsHealthy source), (always_allow pdb)).
  unfold ecall. repeat gstep; try done; intros _.
  intros jobs' pods' Hj Hp Hnd Hu Hs.
  destruct Hj as [Hj|[Hj|[]]]; [discriminate Hj|apply inj_pair2 in Hj as [= <-]].
  destruct Hp as [Hp|[Hp|[]]]; [apply inj_pair2 in Hp as [= <-]|discriminate Hp].
  bool_props. etrans; [eassumption|]. etrans; [by apply remaining_undisturbed|].
  unfold Reservations in *. rewrite lookup_insert_eq. simpl.
  destruct (m !! pdb_key pdb) as [res|] eqn:Hm; simpl; [by rewrite (lookup_insert_eq)|by rewrite Hm].
Qed.

(** C24: An admission never overcommits a budget: when a check with reservation
    allows the migration, the healthy pods that no migration in flight or
    reserved takes away, this one's source included among those taken, are as
    many as the budget needs, by the lists of jobs and pods the check read.  (An
    unhealthy source under AlwaysAllow is let go unchecked, as the eviction API
    does.)  The lists are relied on to have distinct pod UIDs, to know the job's
    target by its UID, and not to show as healthy a source read as unhealthy. *)
Theorem admission_keeps_budget pdb m t m' e jobs pods :
  exec (checkPDB (R:=unit) now job source pdb true m) t (m', inr (reasonBudgetAllowed, e)) ->
  podCountsHealthy source || negb (always_allow pdb) = true ->
  In (existT (EListJobs (j_namespace job) AllJobs) (inr jobs)) t ->
  In (existT (EListPods (j_namespace job) (PodsMatching (pdb_selector pdb))) (inr pods)) t ->
  NoDup (map p_uid pods) ->
  (forall j, In j jobs -> j_uid j = j_uid job -> j_targetUID j = p_uid source) ->
  (forall p, In p pods -> p_uid p = p_uid source -> podCountsHealthy p = true -> podCountsHealthy source = true) ->
  pdb_desiredHealthy pdb <= Z.of_nat (length (undisturbed jobs pods (default ∅ (m' !! pdb_key pdb)))).
Proof.
  intros Hx Hal Hj Hp. pose proof (checkPDB_keeps pdb m (fun _ _ _ => True) Hal) as Hw.
  apply wp_sound with (1 := Hw) in Hx as [_ Hq]; [|apply fair_open].
  rewrite app_nil_r in Hq. apply Hq; [done|by apply -> in_rev..].
Qed.
End Admission.

(** ** The whole check *)

Section Check.
Context `{SelectorLib}.
Context (now : Z) (job : PodMigrationJob) (podName : string).
Abbreviation any_call := (open (fun _ _ => True)).

(** The job's reservation under a budget, of this check. *)
Definition held (m : Reservations) (key : string) : Prop := m !! key ≫= (.!! j_uid job) = Some now.

(** The budget lets the source go, or holds its reservation. *)
Definition settled (source : Pod) (m : Reservations) (pdb : PodDisruptionBudget) : Prop :=
  podCountsHealthy source || negb (always_allow pdb) = false \/ held m (pdb_key pdb).

Definition dry_run : Ev :=
  EEvict (j_namespace job) podName (mkEvictOpts None (if j_targetUID job !=s "" then Some (j_targetUID job) else None) true).

Lemma held_insert m k key : held m k -> held (<[key := <[j_uid job := now]> (default ∅ (m !! key))]> m) k.
Proof.
  unfold held, Reservations in *. intros Hk. destruct (decide (key = k)) as [->|Hne].
  - rewrite lookup_insert_eq. simpl. by rewrite lookup_insert_eq.
  - by rewrite lookup_insert_ne.
Qed.

Lemma held_self m key (res : gmap string Z) : held (<[key := <[j_uid job := now]> res]> m) key.
Proof. unfold held, Reservations in *. rewrite lookup_insert_eq. simpl. by rewrite lookup_insert_eq. Qed.

(** A check of one budget: it extends the history, and when it allows the
    migration it settles that budget and keeps the others settled. *)
Lemma checkPDB_settles source pdb reserve h m (Qr : @trace Ev resp -> Reservations -> string * option ApiErr -> Prop) :
  wpg any_call (checkPDB now job source pdb reserve) h m Qr (fun h' m' x =>
    incl h h' /\ (fst x = reasonBudgetAllowed -> reserve = true ->
      settled source m' pdb /\ forall k, held m k -> held m' k)).
Proof.
  unfold checkPDB, ecall. destruct (_ && _) eqn:Hal.
  - gstep. simpl. split; [apply incl_refl|]. intros _ _. split; [|done]. left.
    by destruct (podCountsHealthy source), (always_allow pdb).
  - repeat gstep; try exact I; (split; [intros ? ?; simpl; tauto|intros Ha Hr]); try discriminate Ha; try congruence.
    split; [right; apply held_self|]. intros k Hh. destruct (decide (pdb_key pdb = k)) as [<-|Hk]; [apply held_self|].
    unfold held, Reservations in *. rewrite lookup_insert_ne by done. case_match; [|done]. by rewrite lookup_insert_ne.
Qed.

(** The loop over the covering budgets. *)
Lemma check_covering_settles source pdbs h m (Qr : @trace Ev resp -> Reservations -> string * option ApiErr -> Prop) reserve :
  (forall h m x, fst x <> reasonBudgetAllowed -> Qr h m x) ->
  wpg any_call (check_covering now job source pdbs reserve) h m Qr (fun h' m' _ =>
    incl h h' /\ (reserve = true -> Forall (settled source m') pdbs /\ forall k, held m k -> held m' k)).
Proof.
  intros HQ. unfold check_covering. revert h m. induction pdbs as [|pdb pdbs IH]; intros h m; simpl.
  { gstep. split; [apply incl_refl|]. by split. }
  gstep. gstep. eapply wpg_conseq; [apply (checkPDB_settles source pdb reserve h m Qr)|done|].
  intros h1 m1 x [Hi Hs]. destruct (fst x !=s reasonBudgetAllowed) eqn:Hx; bool_props; gstep; [by apply HQ|].
  eapply wpg_weaken; [apply IH|]. intros h2 m2 _ [Hi' Hs']. split; [by eapply incl_tran|]. intros Hr.
  destruct (Hs Hx Hr) as [Hp Hk]. destruct (Hs' Hr) as [Hps Hk']. split; [|by auto].
  constructor; [|done]. destruct Hp as [|Hp]; [by left|right; by apply Hk'].
Qed.

(** What an allowed check did: an accepted dry run, and, unless the source is
    gone from the cache, every covering budget settled. *)
Definition admitted (h : @trace Ev resp) (m' : Reservations) : Prop :=
  In (existT dry_run None) h /\
  ((exists err, In (existT (EGetPod Cache (j_namespace job) podName) (inl err)) h /\ IsNotFound err = true) \/
   exists source pdbs,
     In (existT (EGetPod Cache (j_namespace job) podName) (inr source)) h /\
     In (existT (EListPDBs (j_namespace job)) (inr pdbs)) h /\
     Forall (fun pdb => covers_source source pdb = true -> settled source m' pdb) pdbs).

Lemma dry_run_allowed {S R} h (s : S) (Qr : @trace Ev resp -> S -> R -> Prop) :
  wpg any_call (EvictionBudgetChecker_Check job podName) h s Qr (fun h' s' x =>
    s' = s /\ incl h h' /\ (fst x = reasonBudgetAllowed -> In (existT dry_run None) h')).
Proof.
  unfold EvictionBudgetChecker_Check, ecall. repeat gstep; try exact I; subst;
    (split; [done|split; [intros ? ?; simpl; tauto|intros Ha]]); try discriminate Ha. by left.
Qed.

(** The checks of a found source: the budgets, the dry run, the budgets again with reservation. *)
Lemma checks_settle source pdbs h m (Q : @trace Ev resp -> Reservations -> string * option ApiErr -> Prop) :
  (forall h m x, fst x <> reasonBudgetAllowed -> Q h m x) ->
  (forall h' m' x, incl h h' -> In (existT dry_run None) h' -> Forall (settled source m') pdbs -> Q h' m' x) ->
  wpg any_call
    (do* check_covering now job source pdbs false in
     let* d := EvictionBudgetChecker_Check job podName in
     do* (if fst d !=s reasonBudgetAllowed then greturn d else gret tt) in
     do* check_covering now job source pdbs true in
     gret (reasonBudgetAllowed, None)) h m Q Q.
Proof.
  intros Hno Hyes.
  gstep. eapply wpg_weaken; [by apply check_covering_settles|]. intros h1 m1 _ [Hi1 _].
  gstep. eapply wpg_weaken; [apply dry_run_allowed|]. intros h2 m2 d (-> & Hi2 & Hd).
  gstep. destruct (fst d !=s reasonBudgetAllowed) eqn:Ha; bool_props; gstep; [by apply Hno|].
  gstep. eapply wpg_weaken; [by apply check_covering_settles|]. intros h3 m3 _ [Hi3 Hs].
  gstep. apply Hyes; [by eauto using incl_tran| |by apply Hs]. apply Hi3, Hd, Ha.
Qed.

Lemma Check_admits m :
  wpf any_call (InFlightBudgetChecker_Check now job podName) [] m
    (fun h m' x => fst x = reasonBudgetAllowed -> admitted h m').
Proof.
  unfold InFlightBudgetChecker_Check, ecall. do 3 gstep; [exact I|]. destruct x as [err|source].
  - destruct (negb (IsNotFound err)) eqn:He; [by gstep|]. bool_props.
    eapply wpg_weaken; [apply dry_run_allowed|]. intros h1 s1 x1 (-> & Hi & Hd) Ha.
    split; [by apply Hd|]. left. exists err. split; [|done]. apply Hi. by left.
  - gstep. gstep; [exact I|]. destruct x as [err|pdbs]; [by gstep|]. cbv zeta. gstep.
    assert (Hrest : forall covering, covering = List.filter (covers_source source) pdbs ->
      wpg any_call
        (do* check_covering now job source covering false in
         let* d := EvictionBudgetChecker_Check job podName in
         do* (if fst d !=s reasonBudgetAllowed then greturn d else gret tt) in
         do* check_covering now job source covering true in
         gret (reasonBudgetAllowed, @None ApiErr))
        [existT (EListPDBs (j_namespace job)) (inr pdbs);
         existT (EGetPod Cache (j_namespace job) podName) (inr source)] m
        (fun h m' x => fst x = reasonBudgetAllowed -> admitted h m')
        (fun h m' x => fst x = reasonBudgetAllowed -> admitted h m')).
    { intros covering ->. apply checks_settle; [done|]. intros h' m' x1 Hi Hd Hs _. split; [done|]. right.
      exists source, pdbs. split; [apply Hi; simpl; tauto|]. split; [apply Hi; by left|].
      apply Forall_forall. intros pdb Hin Hc. rewrite Forall_forall in Hs. apply Hs.
      apply list_elem_of_In, filter_In. split; [by apply list_elem_of_In|done]. }
    repeat case_match; gstep; try done; by apply Hrest.
Qed.

(** An admission by the in-flight checker was backed by an accepted dry-run
    eviction of the source (under its UID when the job has one); and when the
    source was in the cache, every budget of the namespace that covers it either
    lets unhealthy pods go, or holds this job's reservation, of this check. *)
Theorem check_admits_settled m t m' e :
  exec (InFlightBudgetChecker_Check now job podName m) t (m', (reasonBudgetAllowed, e)) -> admitted (rev t) m'.
Proof.
  intros Hx. pose proof (wpf_exec _ _ _ _ _ _ _ (Check_admits m) Hx (fair_open _ _)) as [_ Hq]. by apply Hq.
Qed.
End Check.

(** ** The recheck of a waiting job *)

Section Recheck.
Context `{JitterLib}.
Context (now : Z).

(** A job that waits for its budget is looked at again after 1 to 36
    seconds, and no later than a second past its deadline (or in a second), so
    the deadline's failure is not delayed; whatever the condition's time and the
    deadline, int64 overflow included. *)
Theorem budget_recheck_bounds cond deadline :
  Second <= budgetRecheckAfter now cond deadline <= 36 * Second /\
  budgetRecheckAfter now cond deadline <= Z.max Second (Sub deadline now + Second).
Proof.
  unfold budgetRecheckAfter. set (interval := match cond with Some _ => _ | None => _ end).
  assert (Hi : 5 * Second <= interval <= 30 * Second).
  { unfold interval, budgetRecheckInterval, budgetRecheckMaxInterval. destruct cond; unfold Second; lia. }
  pose proof (jitter_range interval ltac:(unfold Second in *; lia)) as Hj.
  assert (interval / 5 <= 6 * Second) by (apply Z.div_le_upper_bound; unfold Second in *; lia).
  assert (Hu : i64 (Sub deadline now + Second) <= Sub deadline now + Second).
  { pose proof (Sub_range deadline now) as Hs. unfold is_int64, int64_min, int64_max in *.
    destruct (decide (Sub deadline now + Second <= 9223372036854775807)).
    - rewrite i64_id; [done|]. unfold is_int64, int64_min, int64_max, Second in *. lia.
    - pose proof (i64_range (Sub deadline now + Second)). unfold is_int64, int64_min, int64_max in *. lia. }
  cbv zeta. destruct (_ <? _) eqn:Hd; bool_props; unfold Second in *; lia.
Qed.
End Recheck.

(** ** Witnesses *)

Definition web_labels : gmap string string := {[ "app" := "web" ]}.
Definition web_pod (name uid : string) : Pod :=
  mkPod (mkMeta name "shop" "" uid "7" 0 ∅ web_labels (500 * Second) None None [] []) "node-a" None [] [] [] [] []
    PodRunning "" "" [mkCond "Ready" "True" "" "" 0 (600 * Second)] [] [].
Definition web_pdb : PodDisruptionBudget :=
  mkPDB (mkMeta "web-pdb" "shop" "" "uid-pdb" "3" 1 ∅ ∅ 0 None None [] []) (Some [("app", "web")]) 1 1 2 1 None.
Definition web_source : Pod := web_pod "web-0" "uid-pod".

(** A namespace with two pods, one of them a pending job's source, and a budget that needs one. *)
Definition web_server (e : Ev) : resp e :=
  match e return resp e with
  | EListJobs _ _ => inr [sample_job Pending]
  | EListPods _ _ => inr [web_source; web_pod "web-1" "uid-pod1"]
  | EListPDBs _ => inr [web_pdb]
  | e => accept (sample_job Pending) web_source e
  end.

Definition reserve_run := checkPDB (R:=unit) at_1100 (sample_job Pending) web_source web_pdb true ∅.
Definition check_run := InFlightBudgetChecker_Check at_1100 (sample_job Pending) "web-0" ∅.

Lemma admission_keeps_budget_witness :
  let m' := fst (result_of web_server reserve_run) in
  1 <= Z.of_nat (length (undisturbed [sample_job Pending] [web_source; web_pod "web-1" "uid-pod1"]
                          (default ∅ (m' !! "shop/web-pdb")))).
Proof.
  eapply (admission_keeps_budget at_1100 (sample_job Pending) web_source web_pdb ∅ (trace_of web_server reserve_run)
            (fst (result_of web_server reserve_run)) None).
  - replace (_, inr _) with (result_of web_server reserve_run) by (vm_compute; reflexivity). apply exec_static.
  - reflexivity.
  - left. reflexivity.
  - right. left. reflexivity.
  - vm_compute. repeat constructor; set_solver.
  - intros j [<-|[]] _. reflexivity.
  - reflexivity.
Defined.

Lemma check_admits_settled_witness :
  admitted at_1100 (sample_job Pending) "web-0" (rev (trace_of web_server check_run)) (fst (result_of web_server check_run)).
Proof.
  eapply (check_admits_settled at_1100 (sample_job Pending) "web-0" ∅ _ _ None).
  replace (_, (_, _)) with (result_of web_server check_run) by (vm_compute; reflexivity). apply exec_static.
Defined.
