(* ===== verification/AssignmentLaws.v ===== *)
(** * The assignment of jobs to new pods, proved

    [FindUnassignedActivePMJ] answers only a job of the pod's workload whose
    source was seen gone and which no pod was seen to have; of the pods that
    contend for one job, the collision rule lets exactly one keep it. *)
From Stdlib Require Import Sorting.Permutation Sorting.Sorted.
From S2P Require Import Prelude Effects GoLib Kube Interfaces Calls PodUtil Timeout JobBase Assignment Instances.

(** ** Candidates *)

Lemma filterCandidates_sound c jobs j : In j (filterCandidates c jobs) -> In j jobs /\ is_candidate c j = true.
Proof.
  unfold filterCandidates. destruct (_ && _); [done|]. rewrite SliceStable_In, filter_In. done.
Qed.

Section Find.
Context {S R : Type} (M : @monitor Ev resp) `{!Tolerant M}.
Context (ns : string) (c : Claim) (Qr : @trace Ev resp -> S -> R -> Prop).
Abbreviation post A := (@trace Ev resp -> S -> A -> Prop).

(** What the pod may take over: a job listed for its claim, or, for a pod named
    by its operator, one recorded as a bare pod's. *)
Definition candidate_for (j : PodMigrationJob) : Prop :=
  is_candidate c j = true \/ (legacy_claim c = true /\ is_candidate (bare_claim (cl_podName c)) j = true).

Definition listed (h : trace) (j : PodMigrationJob) : Prop :=
  exists q jobs, saw h (EListJobs ns q) (inr jobs) /\ In j jobs.

(** The source was seen gone where the job's phase requires it. *)
Definition source_seen_gone (h : trace) (j : PodMigrationJob) : Prop :=
  requiresSourceGone (j_phase j) = false \/ (j_podName j = "") \/
  (exists err, saw h (EGetPod Cache ns (j_podName j)) (inl err) /\ IsNotFound err = true) \/
  (exists p, saw h (EGetPod Cache ns (j_podName j)) (inr p) /\
     (isSourcePodAlive p = false \/ (j_targetUID j <> "" /\ p_uid p <> j_targetUID j))) \/
  (exists sel pods, saw h (EListPods ns (PodsMatching sel)) (inr pods) /\ source_listed pods j = false).

Definition seen_unassigned (h : trace) (j : PodMigrationJob) : Prop :=
  saw h (EListPods ns (PodsAssignedTo (j_name j))) (inr []) \/
  (exists sel pods, saw h (EListPods ns (PodsMatching sel)) (inr pods) /\ listed_as_assigned pods (j_name j) = false).

(** No live sibling was seen to share the key of an operator's pod. *)
Definition seen_unambiguous (h : trace) (j : PodMigrationJob) : Prop :=
  let p := cl_parent c in
  operator_claim c = false \/ pa_name p = "" \/
  exists pods, saw h (EListPods ns AllPods) (inr pods) /\
    forall q, In q pods -> ambiguous_sibling (pa_name p) (pa_kind p) (pa_uid p) (cl_replicaKey c)
                             [j_targetUID j; j_podName j; cl_podName c] q = false.

Definition takeable (h : trace) (j : PodMigrationJob) : Prop :=
  candidate_for j /\ listed h j /\ source_seen_gone h j /\ seen_unassigned h j /\ seen_unambiguous h j.

Definition answers_takeable (h : trace) (x : res string) : Prop :=
  forall name, x = inr name -> name <> "" -> exists j, j_name j = name /\ takeable h j.

Lemma answers_none h : answers_takeable h (inr "").
Proof. by intros name [= <-]. Qed.

Lemma answers_error h err : answers_takeable h (inl err).
Proof. done. Qed.

Lemma wpg_ambiguous j h s (Q : post (res bool)) :
  (forall h' x, extends h h' -> (x = inr false -> seen_unambiguous h' j) -> Q h' s x) ->
  wpg M (ambiguous ns c j) h s Qr Q.
Proof.
  intros HQ. unfold ambiguous, HasAmbiguousOperatorSibling. gstep.
  2: { gstep. apply HQ; [apply extends_refl|]. by left. }
  gstep. gstep.
  - gstep. gstep. apply HQ; [apply extends_refl|]. intros _. right. left.
    apply orb_prop in Heqb0 as [Hb|Hb]; bool_props.
    + apply orb_prop in Hb as [Hb|Hb]; bool_props; [|done].
      unfold operator_claim in Heqb. rewrite Hb in Heqb. by rewrite andb_false_r in Heqb.
    + unfold operator_claim in Heqb. by rewrite Hb in Heqb.
  - unfold ecall. gstep. gstep; [by apply tolerant|]. gstep.
    + repeat gstep. apply HQ; [by apply extends_cons; [|apply extends_refl]|done].
    + repeat gstep. apply HQ; [by apply extends_cons; [|apply extends_refl]|].
      destruct (List.find _ _) eqn:Hf; [done|]. intros _. right. right. eexists. split; [apply saw_now|].
      intros q Hq. by eapply List.find_none in Hf.
Qed.

Lemma wpg_source_blocks j h s (Q : post bool) :
  (forall h' b, extends h h' -> (b = false -> source_seen_gone h' j) -> Q h' s b) ->
  wpg M (source_blocks ns j) h s Qr Q.
Proof.
  intros HQ. unfold source_blocks, ecall. gstep.
  - gstep. gstep; [by apply tolerant|]. gstep; gstep; (apply HQ; [by apply extends_cons; [|apply extends_refl]|]).
    + intros Hn%negb_false_iff. right. right. left. eexists. split; [apply saw_now|done].
    + intros Hb. right. right. right. left. eexists. split; [apply saw_now|].
      apply andb_false_iff in Hb as [?|?]; [by left|]. right. by bool_props.
  - gstep. apply HQ; [apply extends_refl|]. intros _.
    apply andb_false_iff in Heqb as [?|?]; [by left|]. right. left. by bool_props.
Qed.

Lemma seen_gone_extends h h' j : extends h h' -> source_seen_gone h j -> source_seen_gone h' j.
Proof.
  intros Hh [?|[?|[(x & ? & ?)|[(x & ? & ?)|(sel & x & ? & ?)]]]]; [by left|by right; left|..];
    right; right; [left|right; left|right; right].
  - exists x. split; [by eapply saw_extends|done].
  - exists x. split; [by eapply saw_extends|done].
  - exists sel, x. split; [by eapply saw_extends|done].
Qed.

Lemma unambiguous_extends h h' j : extends h h' -> seen_unambiguous h j -> seen_unambiguous h' j.
Proof.
  intros Hh [?|[?|(x & ? & ?)]]; [by left|by right; left|]. right. right.
  exists x. split; [by eapply saw_extends|done].
Qed.

Lemma listed_extends h h' j : extends h h' -> listed h j -> listed h' j.
Proof. intros Hh (q & x & ? & ?). exists q, x. split; [by eapply saw_extends|done]. Qed.

Hint Resolve seen_gone_extends unambiguous_extends listed_extends extends_trans answers_none answers_error : podmig.

(** The candidates of a loop: each was listed for the claim. *)
Definition candidates_of (h : trace) (l : list PodMigrationJob) : Prop :=
  forall j, In j l -> candidate_for j /\ listed h j.

Lemma candidates_extends h h' l : extends h h' -> candidates_of h l -> candidates_of h' l.
Proof. intros Hh Hl j [? ?]%Hl. split; [done|]. by eapply listed_extends. Qed.

Lemma candidates_rest h h' j l : candidates_of h (j :: l) -> extends h h' -> candidates_of h' l.
Proof. intros Hl Hh k Hk. eapply candidates_extends; [done|exact Hl|]. by right. Qed.

Lemma wpg_first_unassigned l h s (Q : post (res string)) :
  candidates_of h l -> (forall h' x, extends h h' -> answers_takeable h' x -> Q h' s x) ->
  wpg M (first_unassigned ns c l) h s Qr Q.
Proof.
  revert h Q. induction l as [|j l IH]; intros h Q Hl HQ; simpl.
  { gstep. apply HQ; eauto with podmig. }
  gstep. apply wpg_ambiguous. intros h1 a Hh1 Hu. destruct a as [err|[]].
  { gstep. apply HQ; eauto with podmig. }
  { gstep. apply HQ; eauto with podmig. }
  gstep. apply wpg_source_blocks. intros h2 b Hh2 Hg. destruct b.
  { apply IH; [|eauto with podmig]. eapply candidates_rest; [exact Hl|eauto with podmig]. }
  gstep. unfold isPMJAssignedToPod, ecall. gstep. gstep; [by apply tolerant|].
  assert (Hx : forall y, extends h2 (existT (EListPods ns (PodsAssignedTo (j_name j))) y :: h2)).
  { intros y. by apply extends_cons; [|apply extends_refl]. }
  gstep; gstep.
  { apply HQ; eauto with podmig. }
  destruct l0 as [|p ps]; simpl.
  - gstep. apply HQ; [eauto with podmig|]. intros name [= <-] _. exists j. split; [done|].
    destruct (Hl j (or_introl eq_refl)) as [Hc Hj]. split; [done|].
    split; [eauto with podmig|]. split; [eauto with podmig|]. split; [left; apply saw_now|eauto 6 with podmig].
  - apply IH; [|eauto with podmig]. eapply candidates_rest; [exact Hl|eauto with podmig].
Qed.

Lemma wpg_first_unlisted sel pods l h s (Q : post (res string)) :
  saw h (EListPods ns (PodsMatching sel)) (inr pods) -> candidates_of h l ->
  (forall h' x, extends h h' -> answers_takeable h' x -> Q h' s x) ->
  wpg M (first_unlisted ns c pods l) h s Qr Q.
Proof.
  revert h Q. induction l as [|j l IH]; intros h Q Hp Hl HQ; simpl.
  { gstep. apply HQ; eauto with podmig. }
  gstep. apply wpg_ambiguous. intros h1 a Hh1 Hu.
  assert (Hnext : wpg M (first_unlisted ns c pods l) h1 s Qr Q).
  { apply IH; [by eapply saw_extends| |eauto with podmig]. eapply candidates_rest; [exact Hl|done]. }
  destruct a as [err|[]]; [gstep; apply HQ; auto with podmig..|].
  gstep; [done|]. gstep; [|done]. gstep. apply HQ; [done|]. intros name [= <-] _. exists j. split; [done|].
  destruct (Hl j (or_introl eq_refl)) as [Hc Hj]. bool_props.
  split; [done|]. split; [eauto with podmig|]. split; [|split; [right|auto]].
  - apply andb_false_iff in Heqb as [?|?]; [by left|]. do 4 right. exists sel, pods. split; [by eapply saw_extends|done].
  - exists sel, pods. split; [by eapply saw_extends|done].
Qed.

Lemma filter_candidates h q jobs :
  saw h (EListJobs ns q) (inr jobs) -> candidates_of h (filterCandidates c jobs).
Proof. intros Hs j [Hj Hc]%filterCandidates_sound. split; [by left|by exists q, jobs]. Qed.

Lemma filter_bare h q jobs :
  legacy_claim c = true -> saw h (EListJobs ns q) (inr jobs) ->
  candidates_of h (filterCandidates (bare_claim (cl_podName c)) jobs).
Proof. intros Hl Hs j [Hj Hc]%filterCandidates_sound. split; [by right|by exists q, jobs]. Qed.

Lemma wpg_FindUnassigned indexed h s (Q : post (res string)) :
  (forall h' x, extends h h' -> answers_takeable h' x -> Q h' s x) ->
  wpg M (FindUnassignedActivePMJ ns c indexed) h s Qr Q.
Proof.
  intros HQ. unfold FindUnassignedActivePMJ. destruct indexed; unfold find_indexed, find_live, ecall.
  - cbv zeta. gstep; [gstep; apply HQ; auto with podmig|]. gstep. gstep; [by apply tolerant|].
    match goal with |- wpg _ _ ?hh _ _ _ => set (h1 := hh) end.
    assert (Hh : extends h h1) by (by apply extends_cons; [|apply extends_refl]).
    destruct x as [err|jobs]; [gstep; apply HQ; auto with podmig|]. cbv zeta. gstep.
    apply (wpg_weaken _ _ _ _ _ (fun h' s' l => s' = s /\ extends h1 h' /\ candidates_of h' l)).
    + assert (Hc : candidates_of h1 (filterCandidates c jobs)) by (eapply filter_candidates, saw_now).
      destruct (filterCandidates c jobs) eqn:Hf; [destruct (legacy_claim c) eqn:Hl|]; [|gstep; auto with podmig..].
      gstep. gstep; [by apply tolerant|].
      match goal with |- wpg _ _ ?hh _ _ _ => assert (Hh2 : extends h1 hh) by (by apply extends_cons; [|apply extends_refl]) end.
      destruct x as [err|bare]; gstep; (split; [done|]); (split; [done|]); [by eapply candidates_extends|].
      eapply filter_bare; [done|apply saw_now].
    + intros h2 s2 l (-> & Hh2 & Hc). apply wpg_first_unassigned; [done|eauto with podmig].
  - gstep. gstep; [by apply tolerant|].
    match goal with |- wpg _ _ ?hh _ _ _ => set (h1 := hh) end.
    assert (Hh : extends h h1) by (by apply extends_cons; [|apply extends_refl]).
    destruct x as [err|jobs]; [gstep; apply HQ; auto with podmig|]. cbv zeta.
    match goal with |- wpg _ (match ?ll with _ => _ end) _ _ _ _ => set (l := ll) end.
    assert (Hc : candidates_of h1 l).
    { unfold l. destruct (filterCandidates c jobs) eqn:Hf; [|rewrite <- Hf; eapply filter_candidates, saw_now].
      destruct (legacy_claim c) eqn:Hl; [eapply filter_bare; [done|apply saw_now]|done]. }
    destruct l as [|j l]; [gstep; apply HQ; auto with podmig|]. gstep. gstep; [by apply tolerant|].
    match goal with |- wpg _ _ ?hh _ _ _ => assert (Hh2 : extends h1 hh) by (by apply extends_cons; [|apply extends_refl]) end.
    destruct x as [err|pods]; [gstep; apply HQ; eauto with podmig|].
    eapply wpg_first_unlisted; [apply saw_now|by eapply candidates_extends|eauto with podmig].
Qed.
End Find.

(** ** Runs *)

#[local] Instance open_tolerant : Tolerant (open (fun _ _ => True)).
Proof. by intros h e _. Qed.

(** A function body run from the state [tt]. *)
Definition runs {A} (m : gom resp unit unit A) (t : @trace Ev resp) (a : A) : Prop := exec (m tt) t (tt, inr a).

Lemma runs_wpg {A} (m : gom resp unit unit A) t a (Q : @trace Ev resp -> unit -> A -> Prop) :
  wpg (open (fun _ _ => True)) m [] tt (fun _ _ _ => False) Q -> runs m t a -> Q (rev t) tt a.
Proof.
  intros Hw Hx. destruct (wp_sound _ _ _ _ _ _ Hw Hx (fair_open _ _)) as [_ HQ]. by rewrite app_nil_r in HQ.
Qed.

(** A pod is assigned only a job it may take over, with the indexes or from
    live lists: listed, unconsumed, of its workload (and its replica, where the
    kind tells replicas apart), in Snapshotting, Evicting or Restoring; its source
    seen gone unless it is Restoring; seen assigned to no pod; and, for an
    operator's pod, with no live sibling seen under the same key. *)
Theorem find_unassigned_sound ns c indexed t name :
  runs (FindUnassignedActivePMJ ns c indexed) t (inr name) -> name <> "" ->
  exists j, j_name j = name /\ takeable ns c (rev t) j.
Proof.
  intros Hx Hn. refine (runs_wpg _ _ _ (fun h _ x => answers_takeable ns c h x) _ Hx _ eq_refl Hn).
  by apply wpg_FindUnassigned.
Qed.

(** ** Collisions *)

Lemma contender_order a b :
  contender_less a b = time_name_less (m_creationTimestamp (p_meta a)) (p_name a) (m_creationTimestamp (p_meta b)) (p_name b).
Proof. done. Qed.

(** The winner comes before every other contender. *)
Lemma winner_first l w :
  winner l = Some w -> In w l /\ forall q, In q l -> contender_less q w = false.
Proof.
  intros Hw. assert (Hh : head (SliceStable contender_less l) = Some w) by (destruct l as [|? [|? ?]]; done).
  assert (Hs : StronglySorted (not_after contender_less) (SliceStable contender_less l)).
  { apply SliceStable_sorted; intros *; rewrite !contender_order.
    - apply time_name_asym.
    - apply time_name_le_trans. }
  pose proof (SliceStable_perm contender_less l) as Hp.
  destruct (SliceStable contender_less l) as [|w' l']; [done|]. injection Hh as ->.
  split; [eapply Permutation_in; [by symmetry|by left]|]. intros q Hq.
  eapply Permutation_in in Hq; [|exact Hp]. destruct Hq as [<-|Hq].
  - rewrite contender_order. apply time_name_irrefl.
  - inversion Hs as [|? ? _ Hall]. rewrite Forall_forall in Hall. by apply Hall, list_elem_of_In.
Qed.

Lemma winner_some a b l : winner (a :: b :: l) <> None.
Proof.
  unfold winner. pose proof (SliceStable_perm contender_less (a :: b :: l)) as Hp.
  destruct (SliceStable _ _); [|done]. symmetry in Hp. by apply Permutation_nil in Hp.
Qed.

(** One winner, in whatever order the contenders are listed. *)
Lemma winner_unique l l' w w' :
  Permutation l l' -> NoDup (map p_name l) -> winner l = Some w -> winner l' = Some w' -> w = w'.
Proof.
  intros Hp Hn [Hw Hm]%winner_first [Hw' Hm']%winner_first.
  apply (NoDup_map_inj p_name l); [done|done|eapply Permutation_in; [by symmetry|done]|].
  assert (H1 : contender_less w' w = false) by (apply Hm; eapply Permutation_in; [by symmetry|done]).
  assert (H2 : contender_less w w' = false) by (apply Hm'; eapply Permutation_in; [exact Hp|done]).
  rewrite contender_order in H1, H2. by apply (time_name_total _ _ _ _ H2 H1).
Qed.

(** A pass of [pod] over the collision of job [pmj], which read [job] and [pods]. *)
Definition resolves (pmj : string) (job : PodMigrationJob) (pods : list Pod) (pod : Pod) (parent : Parent)
    (corrected : string) (changed : bool) : Prop :=
  exists t, runs (ResolveCollision pod pmj parent)
    (existT (EGetJob Cache (p_namespace pod) pmj) (inr job) ::
     existT (EListPods (p_namespace pod) (PodsAssignedTo pmj)) (inr pods) :: t) (inr (corrected, changed)).

Lemma resolves_winner pmj job pods pod parent corrected changed :
  resolves pmj job pods pod parent corrected changed ->
  match winner (List.filter (contender job) pods) with
  | None => changed = false
  | Some w => changed = negb (p_uid w ==s p_uid pod)
  end.
Proof.
  intros [t Hx]. unfold runs, ResolveCollision, ecall, gbind, gcall in Hx. cbn [pbind] in Hx.
  apply exec_answered in Hx. cbn [pbind] in Hx. apply exec_answered in Hx. cbn [pbind] in Hx.
  destruct (winner _) as [w|]; [destruct (p_uid w ==s p_uid pod)|].
  - apply exec_inv in Hx as [_ Hx]. by injection Hx.
  - apply exec_pbind in Hx as (t1 & t2 & [s1 [r1|[err|alt]]] & -> & _ & Hx); simpl in Hx;
      apply exec_inv in Hx as [_ Hx]; by inversion Hx.
  - apply exec_inv in Hx as [_ Hx]. by injection Hx.
Qed.

Lemma winner_none l (a b : Pod) : winner l = None -> In a l -> In b l -> a = b.
Proof.
  destruct l as [|x [|y l]]; intros Hw; [done| |by apply winner_some in Hw].
  by intros [<-|[]] [<-|[]].
Qed.

(** A collision has exactly one winner: of the pods that contend for a job,
    whose passes read the same contenders in any order, one keeps the job and
    every other gives it up (for another job, or for none). *)
Theorem collision_one_winner pmj job pods :
  NoDup (map p_name pods) -> List.filter (contender job) pods <> [] ->
  exists w, In w pods /\ contender job w = true /\
    forall pods' b parent corrected changed, Permutation pods pods' -> In b pods -> contender job b = true ->
      resolves pmj job pods' b parent corrected changed -> (changed = false <-> p_uid b = p_uid w).
Proof.
  intros Hn He. set (l := List.filter (contender job) pods) in *.
  assert (Hl : NoDup (map p_name l)) by (by apply NoDup_map_filter).
  assert (Hw : exists w, In w l /\ (winner l = None \/ winner l = Some w)).
  { destruct (winner l) as [w|] eqn:Hw; [exists w; split; [by apply winner_first in Hw as [? _]|by right]|].
    destruct l as [|w l']; [done|]. exists w. split; [by left|by left]. }
  destruct Hw as (w & Hin & Hw). exists w. pose proof Hin as [Hwp Hwc]%filter_In. split; [done|]. split; [done|].
  intros pods' b parent corrected changed Hp Hb Hbc Hr%resolves_winner.
  pose proof (filter_perm (contender job) _ _ Hp) as Hpl. fold l in Hpl.
  assert (Hbl : In b l) by (by apply filter_In).
  destruct (winner (List.filter (contender job) pods')) as [w'|] eqn:Hw'.
  - assert (w = w') as <-.
    { destruct Hw as [Hw|Hw]; [|by eapply winner_unique].
      apply winner_first in Hw' as [Hin' _]. eapply Permutation_in in Hin'; [|by symmetry]. by eapply winner_none. }
    rewrite Hr. split; [intros Hc%negb_false_iff; by bool_props|intros ->; by rewrite seqb_refl].
  - subst changed. split; [|done]. intros _. f_equal.
    eapply winner_none; [exact Hw'| |]; eapply Permutation_in; [exact Hpl|done|exact Hpl|done].
Qed.

(** ** Witnesses *)

(** A server that lists an Evicting job of a bare pod that is gone. *)
Definition evicted_listed (e : Ev) : resp e :=
  match e return resp e with
  | EListJobs _ _ => inr [sample_job Evicting]
  | e => podless (sample_job Evicting) e
  end.

Lemma find_unassigned_sound_witness :
  exists j, j_name j = "pmj-web" /\
    takeable "shop" (bare_claim "web-0")
      (rev (trace_of evicted_listed (FindUnassignedActivePMJ (S := unit) (R := unit) "shop" (bare_claim "web-0") true tt))) j.
Proof.
  apply (find_unassigned_sound "shop" (bare_claim "web-0") true); [|done].
  pose proof (exec_static evicted_listed (FindUnassignedActivePMJ (S := unit) (R := unit) "shop" (bare_claim "web-0") true tt)) as Hx.
  unfold runs. vm_compute result_of in Hx. exact Hx.
Defined.

Definition contending (name : string) (created : Z) : Pod :=
  with_p_annotations {[ AnnotationAssignedPMJ := "pmj-web" ]}
    (empty_pod (mkMeta name "shop" "" ("uid-" +s name) "1" 0 ∅ ∅ created None None [] [])).

Lemma collision_one_winner_witness :
  exists w, In w [contending "b" 1; contending "a" 2] /\ contender (sample_job Evicting) w = true /\
    forall pods' b parent corrected changed, Permutation [contending "b" 1; contending "a" 2] pods' ->
      In b [contending "b" 1; contending "a" 2] -> contender (sample_job Evicting) b = true ->
      resolves "pmj-web" (sample_job Evicting) pods' b parent corrected changed -> (changed = false <-> p_uid b = p_uid w).
Proof.
  apply (collision_one_winner "pmj-web" (sample_job Evicting) [contending "b" 1; contending "a" 2]).
  - repeat constructor; set_solver.
  - vm_compute. discriminate.
Defined.
