(* ===== verification/Spawn.v ===== *)
(** * The job a trigger creates, and the cache's index keys
    (internal/util/preemption.go, internal/controller/indexers.go)

    What the eviction webhook and the node preemption controller record on a new
    PodMigrationJob: the parent workload, the keys that tell its replicas apart,
    the migration timeout and the snapshot policy. *)
From S2P Require Import Prelude GoLib Kube Timeout PodUtil JobBase Assignment.

Definition AnnotationPodSnapshotPolicy : string := "pod-migration.gke.io/pod-snapshot-policy".
Definition TriggerSourceEviction : string := "eviction-webhook".

(** [if v != "" { m[k] = v }] *)
Definition put (k v : string) (m : gmap string string) : gmap string string :=
  if v !=s "" then <[k := v]> m else m.

Definition parent_labels (p : Parent) : gmap string string :=
  if pa_name p !=s "" then
    put LabelParentUID (pa_uid p) (<[LabelParentKind := pa_kind p]> (<[LabelParentName := pa_name p]> ∅))
  else ∅.

Definition jobLabels (pod : Pod) (p : Parent) (triggerSource : string) : gmap string string :=
  let copy to from m := put to (sget (p_labels pod) from) m in
  put LabelTriggerSource triggerSource
    (copy LabelJobCompletionIndex LabelJobCompletionIndex
      (copy LabelControllerRevisionHash LabelControllerRevisionHash
        (copy LabelPodTemplateHash DefaultDeploymentUniqueLabelKey (parent_labels p)))).

(** The timeout annotation of the job: the pod's own one when it is valid, else
    the timeout computed from its memory, when that is not the default. *)
Definition timeout_annotation (pod : Pod) (defaultTimeout : Z) (m : gmap string string) : gmap string string :=
  let baseTimeout := if defaultTimeout <=? 0 then DefaultMigrationTimeout else defaultTimeout in
  let rawTimeout := sget (p_annotations pod) AnnotationMigrationTimeout in
  let effectiveTimeout := CalculateMigrationTimeout rawTimeout (CalculatePodMemoryRequest (Some pod)) baseTimeout in
  if negb (effectiveTimeout =? baseTimeout) || (rawTimeout !=s "") then
    match ParseClampedTimeout rawTimeout with
    | Some _ => <[AnnotationMigrationTimeout := rawTimeout]> m
    | None => if negb (effectiveTimeout =? baseTimeout)
              then <[AnnotationMigrationTimeout := DurationString effectiveTimeout]> m else m
    end
  else m.

Definition jobAnnotations (pod : Pod) (p : Parent) (policyName : string) (defaultTimeout : Z) (triggerSource : string)
    : gmap string string :=
  let replica := if negb (IsBuiltInWorkloadKind (pa_kind p))
                 then put AnnotationReplicaIdentityKey (default "" (ResolveOperatorReplicaKey pod (pa_kind p))) ∅ else ∅ in
  put AnnotationTriggerSource triggerSource
    (put AnnotationPodSnapshotPolicy policyName (timeout_annotation pod defaultTimeout replica)).

Definition BuildPMJLabelsAndAnnotationsForPolicy (pod : Pod) (p : Parent) (policyName : string) (defaultTimeout : Z)
    (triggerSource : string) : gmap string string * gmap string string :=
  (jobLabels pod p triggerSource, jobAnnotations pod p policyName defaultTimeout triggerSource).

(** The job of a pod with this name, with the labels and annotations a trigger gives it. *)
Definition new_job (ns jobName podName uid : string) (labels annotations : gmap string string) : PodMigrationJob :=
  mkJob (mkMeta jobName ns "" "" "" 0 labels annotations zero_time None None [] []) (mkJobSpec podName uid) empty_status.

(** ** The values of the cache's indexes *)

Definition PodNodeNameIndexValue (pod : Pod) : list string :=
  if p_nodeName pod ==s "" then [] else [p_nodeName pod].

Definition VolumeAttachmentPVIndexValue (va : VolumeAttachment) : list string :=
  match va_pv va with
  | Some pv => if pv ==s "" then [] else [pv]
  | None => []
  end.

Definition PMJSnapshotRefIndexValue (job : PodMigrationJob) : list string :=
  if j_snapshotRef job !=s "" then [j_snapshotRef job] else [].

(** ** A new job is found again

    The job a pod's migration creates belongs to the workload the pod's
    replacement will resolve to. *)

Lemma sget_put_eq k v m : m !! k = None -> sget (put k v m) k = v.
Proof.
  intros Hm. unfold put. destruct (v ==s "") eqn:Hv; simpl; [|apply sget_insert_eq].
  apply seqb_true in Hv as ->. unfold sget. by rewrite Hm.
Qed.

Lemma put_ne k k' v m : k <> k' -> put k v m !! k' = m !! k'.
Proof. intros Hk. unfold put. destruct (_ !=s _); [by rewrite lookup_insert_ne|done]. Qed.

Lemma sget_put_ne k k' v m : k <> k' -> sget (put k v m) k' = sget m k'.
Proof. intros Hk. unfold sget. by rewrite put_ne. Qed.

Lemma timeout_annotation_ne pod d m k : k <> AnnotationMigrationTimeout -> timeout_annotation pod d m !! k = m !! k.
Proof.
  intros Hk. unfold timeout_annotation.
  repeat match goal with
  | |- context [if ?b then _ else _] => destruct b
  | |- context [match ?x with Some _ => _ | None => _ end] => destruct x
  end; try done; by rewrite lookup_insert_ne.
Qed.

Lemma built_in_kinds k : IsBuiltInWorkloadKind k = false -> (k ==s "Deployment") = false /\ (k ==s "Job") = false /\ (k ==s "StatefulSet") = false.
Proof. unfold IsBuiltInWorkloadKind. intros H. by repeat split; bool_props; apply seqb_false. Qed.

Lemma jobLabels_parent pod p src :
  pa_name p <> "" ->
  sget (jobLabels pod p src) LabelParentName = pa_name p /\
  sget (jobLabels pod p src) LabelParentKind = pa_kind p /\
  sget (jobLabels pod p src) LabelParentUID = pa_uid p /\
  sget (jobLabels pod p src) LabelPodTemplateHash = sget (p_labels pod) DefaultDeploymentUniqueLabelKey /\
  sget (jobLabels pod p src) LabelJobCompletionIndex = sget (p_labels pod) LabelJobCompletionIndex.
Proof.
  intros Hp. unfold jobLabels, parent_labels. apply seqb_false in Hp. rewrite Hp. simpl negb. cbv iota.
  repeat split; repeat rewrite sget_put_ne by done.
  - by rewrite sget_insert_ne, sget_insert_eq.
  - by rewrite sget_insert_eq.
  - by apply sget_put_eq.
  - apply sget_put_eq. repeat rewrite put_ne by done. by repeat rewrite lookup_insert_ne by done.
  - apply sget_put_eq. repeat rewrite put_ne by done. by repeat rewrite lookup_insert_ne by done.
Qed.

Lemma jobAnnotations_key pod p pol d src :
  IsBuiltInWorkloadKind (pa_kind p) = false ->
  sget (jobAnnotations pod p pol d src) AnnotationReplicaIdentityKey = default "" (ResolveOperatorReplicaKey pod (pa_kind p)).
Proof.
  intros Hk. unfold jobAnnotations. rewrite Hk. simpl negb. cbv iota. rewrite !sget_put_ne by done.
  unfold sget at 1. rewrite timeout_annotation_ne by done. by apply sget_put_eq.
Qed.

(** What a replacement of [pod] shares with it: the labels that tell its
    workload's replicas apart, and for stable-name pods the name. *)
Record replaces (parent : Parent) (pod pod' : Pod) : Prop := {
  same_hash : sget (p_labels pod') DefaultDeploymentUniqueLabelKey = sget (p_labels pod) DefaultDeploymentUniqueLabelKey;
  same_index : sget (p_labels pod') LabelJobCompletionIndex = sget (p_labels pod) LabelJobCompletionIndex;
  same_key : IsBuiltInWorkloadKind (pa_kind parent) = false -> exists k, k <> "" /\
    ResolveOperatorReplicaKey pod (pa_kind parent) = Some k /\ ResolveOperatorReplicaKey pod' (pa_kind parent) = Some k;
  same_name : pa_name parent = "" \/ pa_kind parent = "StatefulSet" -> p_name pod' = p_name pod }.

(** C20: The labels and annotations a trigger writes on a pod's job are those the
    assignment reads: through every phase in which the job owns new pods, until
    it is consumed, the replacement of the pod (same parent and replica) is
    matched with the job. *)
Theorem spawned_job_claimed (pod pod' : Pod) (parent : Parent) (policy src : string) (d : Z) (j : PodMigrationJob) :
  replaces parent pod pod' ->
  (j_labels j, j_annotations j) = BuildPMJLabelsAndAnnotationsForPolicy pod parent policy d src ->
  j_podName j = p_name pod ->
  consumed (j_status j) = false -> owns_new_pods (j_phase j) = true ->
  is_candidate (claim_of pod' parent) j = true.
Proof.
  intros [Hh Hi Hk Hn] [= Hl Ha] Hp Hc Ho.
  unfold is_candidate. rewrite Hc, Ho. replace (same_workload (claim_of pod' parent) j) with true; [done|]. symmetry.
  unfold same_workload, claim_of. cbn -[IsBuiltInWorkloadKind ResolveOperatorReplicaKey]. rewrite Hl, Hp, Hh, Hi.
  destruct (pa_name parent ==s "") eqn:Hpn.
  - apply seqb_true in Hpn. rewrite Hn, seqb_refl by auto. simpl. unfold jobLabels, parent_labels.
    rewrite Hpn. simpl. repeat rewrite sget_put_ne by done. done.
  - apply seqb_false in Hpn. destruct (jobLabels_parent pod parent src Hpn) as (-> & -> & -> & -> & ->).
    rewrite !seqb_refl. simpl. rewrite !andb_false_r. destruct (IsBuiltInWorkloadKind (pa_kind parent)) eqn:Hb.
    + destruct (pa_kind parent ==s "StatefulSet") eqn:Hst; [|done].
      apply seqb_true in Hst. rewrite Hn, seqb_refl by auto. done.
    + destruct (Hk eq_refl) as (k & Hne & Hk1 & Hk2). destruct (built_in_kinds _ Hb) as (_ & _ & ->). simpl.
      unfold JobReplicaIdentityKey. rewrite Ha, jobAnnotations_key by done. rewrite Hk1, Hk2. simpl.
      apply seqb_false in Hne. rewrite Hne. cbn. by rewrite Hne, seqb_refl.
Qed.

Definition web_pod (name uid : string) : Pod :=
  with_p_labels (<[DefaultDeploymentUniqueLabelKey := "7d9f"]> ∅) (empty_pod (meta_named "default" name uid)).
Definition web_parent : Parent := mkParent "web" "Deployment" "d-1".
Definition web_job : PodMigrationJob :=
  let '(l, a) := BuildPMJLabelsAndAnnotationsForPolicy (web_pod "web-a" "uid-a") web_parent "psp" (10 * Minute) TriggerSourceEviction in
  set_phase Evicting (new_job "default" "pmj-web-a-uid-a" "web-a" "uid-a" l a).

Lemma spawned_job_claimed_witness : is_candidate (claim_of (web_pod "web-b" "uid-b") web_parent) web_job = true.
Proof.
  apply (spawned_job_claimed (web_pod "web-a" "uid-a") (web_pod "web-b" "uid-b") web_parent "psp" TriggerSourceEviction
           (10 * Minute) web_job); try reflexivity.
  split; try reflexivity; [done|]. intros [Hn|Hn]; discriminate Hn.
Defined.
