(* ===== verification/Watches.v ===== *)
(** * Indexes and watches (controller/indexers.go and the controllers' set-up)

    [RegisterFieldIndexes]: the cache's indexes, by the kind of object and the key,
    with the values they extract.  [mapSnapshotToPMJ], [shouldWatchCRD] and the
    set-up functions: which changes wake which objects. *)
From S2P Require Import Prelude Effects GoLib Kube Interfaces Budget Assignment Spawn.

(** ** Indexes *)

Inductive IndexField :=
| PodIndex (key : string) (value : Pod -> list string)
| JobIndex (key : string) (value : PodMigrationJob -> list string)
| VolumeAttachmentIndex (key : string) (value : VolumeAttachment -> list string).

Definition PodAssignedPMJIndex : string := "pod.podmigration.gke.io/assigned-pmj".
Definition PodNodeNameIndex : string := "spec.nodeName".
Definition VolumeAttachmentPVIndex : string := "spec.source.persistentVolumeName".
Definition PMJParentKeyIndex : string := "pmj.podmigration.gke.io/parent-key".
Definition PMJSnapshotRefIndex : string := ".status.snapshotRef".

(** The fields that are registered, in the order of the calls. *)
Definition RegisterFieldIndexes : list IndexField :=
  [PodIndex PodAssignedPMJIndex PodAssignedPMJIndexValue; PodIndex PodNodeNameIndex PodNodeNameIndexValue;
   VolumeAttachmentIndex VolumeAttachmentPVIndex VolumeAttachmentPVIndexValue; JobIndex PMJParentKeyIndex PMJParentKeyIndexValue;
   JobIndex PMJSnapshotRefIndex PMJSnapshotRefIndexValue].

(** The value function registered under a key. *)
Fixpoint pod_index (key : string) (l : list IndexField) : option (Pod -> list string) :=
  match l with
  | [] => None
  | PodIndex k value :: l => if k ==s key then Some value else pod_index key l
  | _ :: l => pod_index key l
  end.
Fixpoint job_index (key : string) (l : list IndexField) : option (PodMigrationJob -> list string) :=
  match l with
  | [] => None
  | JobIndex k value :: l => if k ==s key then Some value else job_index key l
  | _ :: l => job_index key l
  end.

(** ** The jobs of a snapshot *)

Definition mapSnapshotToPMJ (namespace snapName : string) : prog resp (list (string * string)) :=
  if (snapName ==s "") || (namespace ==s "") then Done []
  else Call (EListJobs namespace (JobsWithSnapshot snapName)) (fun x =>
    Done (match x with inl _ => [] | inr jobs => map (fun job => (j_namespace job, j_name job)) jobs end)).

(** ** Set-up *)

Inductive WatchKind := WatchJobs | WatchPods | WatchNodes | WatchPodMigrations | WatchTriggers | WatchSnapshots | WatchPDBs.
(** What a change enqueues: the object, the job that owns it, or what a function answers. *)
Inductive Enqueue := Itself | OwnerJob | SnapshotJobs | BudgetWaiters | JobPods | NamespacePeers.
Definition Watch : Type := WatchKind * Enqueue.

(** The REST mapper's answer for a kind. *)
Inductive RESTMapping := Mapped | NoMatch | MappingFailed (err : string).

Definition shouldWatchCRD (m : RESTMapping) : string + bool :=
  match m with Mapped => inr true | NoMatch => inr false | MappingFailed err => inl err end.

(** The watches of the job controller, or why its set-up fails. *)
Definition SetupJobWatches (psmt snap : RESTMapping) (hasBudgetChecker : bool) : string + list Watch :=
  match shouldWatchCRD psmt with
  | inl err => inl err
  | inr watchPSMT =>
      match shouldWatchCRD snap with
      | inl err => inl err
      | inr watchSnap =>
          inr ([(WatchJobs, Itself)] ++ (if watchPSMT : bool then [(WatchTriggers, OwnerJob)] else []) ++
               (if watchSnap : bool then [(WatchSnapshots, SnapshotJobs)] else []) ++
               (if hasBudgetChecker then [(WatchPDBs, BudgetWaiters)] else []))%list
      end
  end.

Definition SetupGateWatches : list Watch := [(WatchPods, Itself); (WatchJobs, JobPods)].
Definition SetupNodeWatches : list Watch := [(WatchNodes, Itself)].
Definition SetupPodMigrationWatches : list Watch := [(WatchPodMigrations, Itself); (WatchPodMigrations, NamespacePeers)].
