(* ===== verification/IndexLaws.v ===== *)
(** * Searching with the indexes

    On a store that does not change, the search for a new pod's job finds the same
    job with the indexes and with a scan of the namespace, and a change of a snapshot
    wakes exactly the jobs that record it. *)
From Stdlib Require Import Permutation.
From S2P Require Import Prelude Effects GoLib Kube Interfaces Calls PodUtil Timeout JobBase Assignment Instances AssignmentLaws Spawn Watches.

(** ** A store *)

Record Store := mkStore { st_jobs : list PodMigrationJob; st_pods : list Pod }.

Definition enabled (p : Pod) : bool := sget (p_labels p) "pod-migration.gke.io/enabled" ==s "true".

(** An object is listed under a key if the index extracts it. *)
Definition under {A} (value : option (A -> list string)) (key : string) (l : list A) : list A :=
  match value with Some value => List.filter (fun x => existsb (String.eqb key) (value x)) l | None => [] end.

(** The calls of a search, answered from the store by what is registered. *)
Definition from_store (ns : string) (st : Store) (e : Ev) : resp e -> Prop :=
  match e return resp e -> Prop with
  | EListJobs ns' q => fun x => ns' = ns -> x = inr (match q with
      | AllJobs => st_jobs st
      | JobsWithParent key => under (job_index PMJParentKeyIndex RegisterFieldIndexes) key (st_jobs st)
      | JobsWithSnapshot ref => under (job_index PMJSnapshotRefIndex RegisterFieldIndexes) ref (st_jobs st)
      end)
  | EListPods ns' q => fun x => ns' = ns -> match q with
      | AllPods => x = inr (st_pods st)
      | PodsAssignedTo pmj => x = inr (under (pod_index PodAssignedPMJIndex RegisterFieldIndexes) pmj (st_pods st))
      | PodsMatching sel => sel = Some [("pod-migration.gke.io/enabled", "true")] -> x = inr (List.filter enabled (st_pods st))
      | PodsOnNode _ => True
      end
  | EGetPod Cache ns' name => fun x => ns' = ns ->
      match List.find (fun p => p_name p ==s name) (st_pods st) with
      | Some p => x = inr p
      | None => exists err, x = inl err /\ IsNotFound err = true
      end
  | _ => fun _ => True
  end.
Abbreviation answered ns st := (mkMonitor (fun _ _ => True) (from_store ns st)).

(** ** The search as a scan *)

Section Scan.
Context (ns : string) (c : Claim) (st : Store).

(** A live sibling shares the key of the operator's pod. *)
Definition sibling_here (job : PodMigrationJob) : bool :=
  let p := cl_parent c in
  operator_claim c && (pa_name p !=s "") && (pa_kind p !=s "") &&
  existsb (ambiguous_sibling (pa_name p) (pa_kind p) (pa_uid p) (cl_replicaKey c) [j_targetUID job; j_podName job; cl_podName c]) (st_pods st).

(** The job's source lives, and must be gone. *)
Definition source_here (job : PodMigrationJob) : bool :=
  requiresSourceGone (j_phase job) &&
  existsb (fun p => isSourcePodAlive p && (p_name p ==s j_podName job) && ((j_targetUID job ==s "") || (p_uid p ==s j_targetUID job))) (st_pods st).

(** A pod is assigned the job. *)
Definition taken (job : PodMigrationJob) : bool := existsb (fun p => sget (p_annotations p) AnnotationAssignedPMJ ==s j_name job) (st_pods st).

Fixpoint pick (candidates : list PodMigrationJob) : string :=
  match candidates with
  | [] => ""
  | job :: rest => if sibling_here job then "" else if source_here job || taken job then pick rest else j_name job
  end.

Definition search_scan : string :=
  let candidates := filterCandidates c (st_jobs st) in
  pick (match candidates with
        | [] => if legacy_claim c then filterCandidates (bare_claim (cl_podName c)) (st_jobs st) else []
        | _ => candidates
        end).

(** Names tell objects apart, a UID is one pod's, and the pods that count are opted in. *)
Record tidy : Prop := {
  tidy_names : NoDup (map p_name (st_pods st));
  tidy_jobs j : In j (st_jobs st) -> j_name j <> "" /\ j_podName j <> "";
  tidy_kind : pa_name (cl_parent c) <> "" -> pa_kind (cl_parent c) <> "";
  tidy_uid p j : In p (st_pods st) -> In j (st_jobs st) -> j_targetUID j <> "" -> p_uid p = j_targetUID j -> p_name p = j_podName j;
  tidy_sources p j : In p (st_pods st) -> In j (st_jobs st) -> p_name p = j_podName j -> isSourcePodAlive p = true -> enabled p = true;
  tidy_assigned p : In p (st_pods st) -> sget (p_annotations p) AnnotationAssignedPMJ <> "" -> enabled p = true }.

Context (Htidy : tidy).
Abbreviation M := (answered ns st).

Lemma filter_implied {A} (f g : A -> bool) l : (forall x, In x l -> f x = true -> g x = true) -> List.filter f (List.filter g l) = List.filter f l.
Proof.
  induction l as [|x l IH]; intros H; simpl; [done|]. rewrite <- IH by (intros; apply H; [by right|done]).
  destruct (g x) eqn:Hg; simpl; [done|]. destruct (f x) eqn:Hf; [|done]. rewrite H in Hg; [done|by left|done].
Qed.

(** What the filter keeps is under the key it is searched by. *)
Lemma candidate_under c' key :
  (pa_name (cl_parent c') <> "" \/ cl_podName c' <> "" -> key = FormatParentKey (pa_name (cl_parent c')) (pa_kind (cl_parent c')) (cl_podName c')) ->
  (pa_name (cl_parent c') <> "" -> pa_kind (cl_parent c') <> "") ->
  filterCandidates c' (under (job_index PMJParentKeyIndex RegisterFieldIndexes) key (st_jobs st)) = filterCandidates c' (st_jobs st).
Proof.
  intros Hkey Hk. unfold filterCandidates. change (under _ ?k ?l) with (List.filter (fun j => existsb (String.eqb k) (PMJParentKeyIndexValue j)) l).
  rewrite (filter_implied (is_candidate c')); [done|]. intros j Hj Hc. destruct (tidy_jobs Htidy j Hj) as [_ Hp].
  unfold is_candidate, same_workload in Hc. destruct (consumed _); [done|]. unfold PMJParentKeyIndexValue.
  destruct (pa_name (cl_parent c') ==s "") eqn:Hn.
  - apply seqb_true in Hn. destruct (_ || _) eqn:Ho in Hc; [done|]. bool_props.
    match goal with H : j_podName j = _ |- _ => rewrite H in * end. rewrite Hkey by (by right). unfold FormatParentKey. rewrite Hn. simpl.
    match goal with H : sget _ LabelParentName = "" |- _ => rewrite H end. apply seqb_false in Hp as ->. simpl. by rewrite String.eqb_refl.
  - destruct (_ || _) eqn:Ho in Hc; [done|]. bool_props. rewrite Hkey by (by left). unfold FormatParentKey.
    match goal with H : sget _ LabelParentName = _ |- _ => rewrite H end. match goal with H : sget _ LabelParentKind = _ |- _ => rewrite H end.
    specialize (Hk Hn). apply seqb_false in Hn as ->, Hk as ->. simpl. by rewrite String.eqb_refl.
Qed.

Lemma find_some {A} (f : A -> bool) l : match List.find f l with Some _ => true | None => false end = existsb f l.
Proof. induction l as [|x l IH]; simpl; [done|]. by destruct (f x). Qed.

(** The calls of the search, answered from the store. *)
Lemma wpg_sibling_here job h s Qr (Q : @trace Ev resp -> unit -> res bool -> Prop) :
  (forall h', Q h' s (inr (sibling_here job))) -> wpg M (ambiguous (R := unit) ns c job) h s Qr Q.
Proof.
  intros HQ. unfold ambiguous, sibling_here in *. destruct (operator_claim c) eqn:Ho; [|by gstep]. unfold operator_claim in Ho. bool_props.
  gstep. unfold HasAmbiguousOperatorSibling, ecall. gstep.
  - gstep. gstep. assert ((pa_name (cl_parent c) !=s "") && (pa_kind (cl_parent c) !=s "") = false) as He.
    { destruct (pa_name (cl_parent c) ==s ""), (pa_kind (cl_parent c) ==s ""); try done. destruct (cl_replicaKey c ==s "") eqn:Hk; [bool_props; done|done]. }
    simpl in HQ. specialize (HQ h). by rewrite He in HQ.
  - bool_props. gstep. apply (wpg_call M (EListPods _ _)); [done|]. intros x Hx. specialize (Hx eq_refl). cbn in x, Hx. subst x. gstep. gstep.
    apply seqb_false in H2, H3. simpl in HQ. rewrite H2, H3 in HQ. simpl in HQ. rewrite <- find_some in HQ. by destruct (List.find _ _).
Qed.

Lemma find_named (A B : Pod -> bool) n l : NoDup (map p_name l) ->
  existsb (fun p => A p && (p_name p ==s n) && B p) l = match List.find (fun p => p_name p ==s n) l with Some p => A p && B p | None => false end.
Proof.
  induction l as [|p l IH]; simpl; [done|]. intros Hn. apply NoDup_cons in Hn as [Hp Hn]. destruct (p_name p ==s n) eqn:He; [|by rewrite andb_false_r, IH].
  rewrite andb_true_r, IH by done. destruct (List.find _ l) as [q|] eqn:Hf; [|by rewrite orb_false_r].
  apply List.find_some in Hf as [Hq Hqn]. bool_props. exfalso. apply Hp, list_elem_of_In. rewrite He, <- Hqn. by apply in_map.
Qed.

Lemma wpg_source job h s Qr (Q : @trace Ev resp -> unit -> bool -> Prop) :
  In job (st_jobs st) -> (forall h', Q h' s (source_here job)) -> wpg M (source_blocks (R := unit) ns job) h s Qr Q.
Proof.
  intros Hj HQ. unfold source_blocks, source_here in *. destruct (tidy_jobs Htidy job Hj) as [_ Hp]. apply seqb_false in Hp. rewrite Hp.
  destruct (requiresSourceGone _); [|apply wpg_ret, HQ]. simpl in *. unfold ecall. gstep. apply (wpg_call M (EGetPod _ _ _)); [done|]. intros x Hx.
  specialize (Hx eq_refl). rewrite find_named in HQ by apply (tidy_names Htidy). destruct (List.find _ _) as [p|].
  - cbn in x, Hx. subst x. by gstep.
  - destruct Hx as (err & -> & He). gstep. by rewrite He.
Qed.

Lemma source_listed_here job : In job (st_jobs st) ->
  requiresSourceGone (j_phase job) && source_listed (List.filter enabled (st_pods st)) job = source_here job.
Proof.
  intros Hj. unfold source_here. f_equal. apply eq_true_iff_eq. destruct (tidy_jobs Htidy job Hj) as [_ Hp]. unfold source_listed.
  apply seqb_false in Hp. rewrite Hp. pose proof (fun p Hin => tidy_uid Htidy p job Hin Hj) as Huid.
  pose proof (fun p Hin => tidy_sources Htidy p job Hin Hj) as Hen.
  revert Hen. generalize enabled isSourcePodAlive. intros E L Hen.
  destruct (j_targetUID job ==s "") eqn:Hu; simpl; rewrite !existsb_exists; bool_props;
    setoid_rewrite filter_In; repeat setoid_rewrite andb_true_iff; repeat setoid_rewrite seqb_true; naive_solver.
Qed.

Lemma listed_taken job : In job (st_jobs st) -> listed_as_assigned (List.filter enabled (st_pods st)) (j_name job) = taken job.
Proof.
  intros Hj. destruct (tidy_jobs Htidy job Hj) as [Hn _]. unfold listed_as_assigned, taken. apply eq_true_iff_eq. rewrite !existsb_exists.
  split; intros (p & Hin & H).
  - apply filter_In in Hin as [Hin _]. exists p. split; [done|]. unfold sget. by destruct (p_annotations p !! AnnotationAssignedPMJ).
  - bool_props. exists p. rewrite filter_In. split; [split; [done|]; apply (tidy_assigned Htidy); [done|by rewrite H]|].
    unfold sget in H. destruct (p_annotations p !! AnnotationAssignedPMJ); simpl in H; [by rewrite H, String.eqb_refl|]. by destruct Hn.
Qed.

Lemma wpg_assigned job h s Qr (Q : @trace Ev resp -> unit -> res bool -> Prop) :
  In job (st_jobs st) -> (forall h', Q h' s (inr (taken job))) -> wpg M (isPMJAssignedToPod (R := unit) ns (j_name job)) h s Qr Q.
Proof.
  intros Hj HQ. destruct (tidy_jobs Htidy job Hj) as [Hn _]. unfold isPMJAssignedToPod, ecall. gstep. apply (wpg_call M (EListPods _ _)); [done|].
  intros x Hx. specialize (Hx eq_refl). cbn in x, Hx. subst x. gstep.
  enough ((match List.filter (fun p => existsb (String.eqb (j_name job)) (PodAssignedPMJIndexValue p)) (st_pods st) with [] => false | _ => true end) = taken job) as -> by done.
  unfold taken. induction (st_pods st) as [|p l IH]; simpl; [done|].
  assert (existsb (String.eqb (j_name job)) (PodAssignedPMJIndexValue p) = (sget (p_annotations p) AnnotationAssignedPMJ ==s j_name job)) as ->.
  { unfold PodAssignedPMJIndexValue. destruct (sget _ _ ==s "") eqn:He; simpl; [|by rewrite orb_false_r, String.eqb_sym].
    bool_props. rewrite He. symmetry. by apply seqb_false. }
  by destruct (sget _ _ ==s j_name job).
Qed.

Lemma wpg_pick_indexed l h s Qr (Q : @trace Ev resp -> unit -> res string -> Prop) :
  (forall j, In j l -> In j (st_jobs st)) -> (forall h', Q h' s (inr (pick l))) -> wpg M (first_unassigned (R := unit) ns c l) h s Qr Q.
Proof.
  revert h. induction l as [|job l IH]; intros h Hl HQ; simpl in *; [by gstep|].
  gstep. apply wpg_sibling_here. intros h1. destruct (sibling_here job); [by gstep|].
  gstep. apply wpg_source; [auto|]. intros h2. destruct (source_here job); simpl in HQ; [by apply IH; auto|].
  gstep. apply wpg_assigned; [auto|]. intros h3. destruct (taken job); [by apply IH; auto|by gstep].
Qed.

Lemma wpg_pick_live l h s Qr (Q : @trace Ev resp -> unit -> res string -> Prop) :
  (forall j, In j l -> In j (st_jobs st)) -> (forall h', Q h' s (inr (pick l))) ->
  wpg M (first_unlisted (R := unit) ns c (List.filter enabled (st_pods st)) l) h s Qr Q.
Proof.
  revert h. induction l as [|job l IH]; intros h Hl HQ; simpl in *; [by gstep|].
  gstep. apply wpg_sibling_here. intros h1. destruct (sibling_here job); [by gstep|].
  rewrite source_listed_here, listed_taken by auto.
  destruct (source_here job); simpl in HQ; [by apply IH; auto|]. destruct (taken job); simpl; [by apply IH; auto|by gstep].
Qed.

Lemma candidate_of_store c' j : In j (filterCandidates c' (st_jobs st)) -> In j (st_jobs st).
Proof. intros H. exact (proj1 (filterCandidates_sound _ _ _ H)). Qed.

(** A pod without a parent and a name is nobody's replacement. *)
Lemma no_candidates c' : pa_name (cl_parent c') = "" -> cl_podName c' = "" -> filterCandidates c' (st_jobs st) = [].
Proof.
  intros Hn Hp. destruct (filterCandidates c' (st_jobs st)) as [|j l] eqn:Hf; [done|]. exfalso.
  assert (In j (filterCandidates c' (st_jobs st))) as Hj by (rewrite Hf; by left). apply filterCandidates_sound in Hj as [Hj Hc].
  destruct (tidy_jobs Htidy j Hj) as [_ Hpn]. unfold is_candidate, same_workload in Hc. rewrite Hn, Hp in Hc. apply seqb_false in Hpn.
  rewrite Hpn in Hc. by destruct (consumed _).
Qed.

Lemma wpg_search_scan indexed h s Qr (Q : @trace Ev resp -> unit -> res string -> Prop) :
  (forall h', Q h' s (inr search_scan)) -> wpg M (FindUnassignedActivePMJ (R := unit) ns c indexed) h s Qr Q.
Proof.
  intros HQ. unfold search_scan in HQ. pose proof candidate_of_store as Hc. destruct indexed; simpl.
  - unfold find_indexed, ecall. cbv zeta. destruct (FormatParentKey _ _ _ ==s "") eqn:Hkey.
    { gstep. enough (search_scan = "") as Hs by (unfold search_scan in Hs; by rewrite <- Hs). unfold search_scan.
      assert (pa_name (cl_parent c) = "" /\ cl_podName c = "") as [Hn Hp].
      { unfold FormatParentKey in Hkey. destruct (pa_name (cl_parent c) ==s "") eqn:Hn; simpl in Hkey.
        - destruct (cl_podName c ==s "") eqn:Hp; simpl in Hkey; bool_props; [done|]. by destruct (cl_podName c).
        - bool_props. pose proof (tidy_kind Htidy Hn) as Hk. apply seqb_false in Hk. rewrite Hk in Hkey. simpl in Hkey. by destruct (pa_name (cl_parent c)). }
      rewrite !no_candidates by done. by destruct (legacy_claim c). }
    gstep. apply (wpg_call M (EListJobs _ _)); [done|]. intros x Hx. specialize (Hx eq_refl). cbn in x.
    assert (x = inr (under (job_index PMJParentKeyIndex RegisterFieldIndexes) (FormatParentKey (pa_name (cl_parent c)) (pa_kind (cl_parent c)) (cl_podName c)) (st_jobs st))) as -> by exact Hx.
    rewrite candidate_under by (done || apply (tidy_kind Htidy)).
    gstep. eapply wpg_weaken with (Q' := fun _ s' l => s' = s /\ l = match filterCandidates c (st_jobs st) with
        | [] => if legacy_claim c then filterCandidates (bare_claim (cl_podName c)) (st_jobs st) else [] | _ => filterCandidates c (st_jobs st) end).
    + destruct (filterCandidates c (st_jobs st)); [|by gstep]. destruct (legacy_claim c); [|by gstep]. unfold ecall. gstep.
      apply (wpg_call M (EListJobs _ _)); [done|]. intros y Hy. specialize (Hy eq_refl). cbn in y.
      assert (y = inr (under (job_index PMJParentKeyIndex RegisterFieldIndexes) (cl_podName c +s "/Pod") (st_jobs st))) as -> by exact Hy.
      gstep. split; [done|]. apply candidate_under; [|done]. simpl. intros [?|Hp]; [done|]. unfold FormatParentKey. simpl.
      by apply seqb_false in Hp as ->.
    + intros h' s' l [-> ->]. apply wpg_pick_indexed; [|done]. intros j. destruct (filterCandidates c (st_jobs st)) eqn:Hf; [|rewrite <- Hf; apply Hc].
      destruct (legacy_claim c); [apply Hc|done].
  - unfold find_live, ecall. gstep. apply (wpg_call M (EListJobs _ _)); [done|]. intros x Hx. specialize (Hx eq_refl). cbn in x, Hx. subst x. cbv zeta.
    set (cands := match filterCandidates c (st_jobs st) with [] => if legacy_claim c then _ else _ | _ => _ end) in HQ.
    replace (if match filterCandidates c (st_jobs st) with [] => legacy_claim c | _ => false end then
        filterCandidates (bare_claim (cl_podName c)) (st_jobs st) else filterCandidates c (st_jobs st)) with cands
      by (unfold cands; by destruct (filterCandidates c (st_jobs st)), (legacy_claim c)).
    assert (forall j, In j cands -> In j (st_jobs st)) as Hin.
    { intros j. unfold cands. destruct (filterCandidates c (st_jobs st)) eqn:Hf; [|rewrite <- Hf; apply Hc]. destruct (legacy_claim c); [apply Hc|done]. }
    clearbody cands. destruct cands as [|j l]; [by gstep|]. gstep. apply (wpg_call M (EListPods _ _)); [done|]. intros y Hy.
    specialize (Hy eq_refl eq_refl). cbn in y, Hy. subst y. by apply wpg_pick_live.
Qed.
End Scan.

(** The index-backed search for a new pod's job is a scan of the namespace.  On a
    store that does not change, whose cache answers from the registered indexes, the
    search with the indexes and the search without them both answer what a plain scan
    says: the first candidate (of the pod's workload, or recorded for its name by an
    older controller) whose source does not live and that no pod holds, and none if a
    live sibling makes the pod's identity ambiguous. *)
Theorem search_equals_scan ns c st indexed t answer :
  tidy c st -> exec (FindUnassignedActivePMJ (S := unit) (R := unit) ns c indexed tt) t (tt, inr answer) -> fair (answered ns st) t ->
  answer = inr (search_scan c st).
Proof.
  intros Ht Hx Hf. destruct (wp_sound _ _ _ _ _ _ (wpg_search_scan ns c st Ht indexed [] tt (fun _ _ _ => True) (fun _ _ x => x = inr (search_scan c st)) (fun _ => eq_refl)) Hx Hf)
    as [_ Ha]. exact Ha.
Qed.

(** A snapshot's change wakes exactly the jobs that record it. *)
Theorem snapshot_wakes_its_jobs ns st snapName t requests :
  snapName <> "" -> ns <> "" -> (forall j, In j (st_jobs st) -> j_namespace j = ns) ->
  exec (mapSnapshotToPMJ ns snapName) t requests -> fair (answered ns st) t ->
  forall name, In (ns, name) requests <-> exists j, In j (st_jobs st) /\ j_name j = name /\ j_snapshotRef j = snapName.
Proof.
  intros Hs Hn Hns Hx Hf name. unfold mapSnapshotToPMJ in Hx. apply seqb_false in Hs as Hs', Hn as Hn'. rewrite Hs', Hn' in Hx.
  apply exec_inv in Hx as (x & t' & -> & Hx). apply Forall_cons in Hf as [Ha _]. specialize (Ha eq_refl). cbn in x, Ha. subst x.
  apply exec_inv in Hx as [_ ->]. rewrite in_map_iff. unfold PMJSnapshotRefIndexValue. split.
  - intros (j & [= _ Hnm] & Hj). apply filter_In in Hj as [Hj He]. exists j. split_and!; [done..|].
    destruct (j_snapshotRef j ==s "") eqn:Hr; simpl in He; [done|]. rewrite orb_false_r in He. bool_props. done.
  - intros (j & Hj & <- & Hr). exists j. split; [by rewrite (Hns j Hj)|]. apply filter_In. split; [done|].
    rewrite Hr, Hs'. simpl. by rewrite String.eqb_refl.
Qed.

(** ** The theorems apply *)

Definition sample_store : Store :=
  mkStore [set_snapshotRef "ps-web-0" (sample_job Evicting)]
    [with_p_labels {[ "pod-migration.gke.io/enabled" := "true" ]} (with_p_annotations {[ AnnotationAssignedPMJ := "pmj-other" ]} (contending "web-1" 5))].

(** The server with that store. *)
Definition store_answer (e : Ev) : resp e :=
  match e return resp e with
  | EListJobs _ q => inr (match q with
      | AllJobs => st_jobs sample_store
      | JobsWithParent key => under (job_index PMJParentKeyIndex RegisterFieldIndexes) key (st_jobs sample_store)
      | JobsWithSnapshot ref => under (job_index PMJSnapshotRefIndex RegisterFieldIndexes) ref (st_jobs sample_store)
      end)
  | EListPods _ q => inr (match q with
      | PodsAssignedTo pmj => under (pod_index PodAssignedPMJIndex RegisterFieldIndexes) pmj (st_pods sample_store)
      | PodsMatching _ => List.filter enabled (st_pods sample_store)
      | _ => st_pods sample_store
      end)
  | EGetPod _ _ name => match List.find (fun p => p_name p ==s name) (st_pods sample_store) with Some p => inr p | None => inl (mkErr NotFound "not found") end
  | e => answer_fail e
  end.

Lemma store_answer_fair ns {A} (p : prog resp A) : fair (answered ns sample_store) (trace_of store_answer p).
Proof.
  apply run_fair. intros [] e.
  destruct e as [src ? ?|src ? ?|? |? ?|? ? ?|? ?|? q|?|? q|?|?|? ?|?|? ?|? ?|? ?|?|? ? ?|?|?|? ?|?|? ? ? ? ?|? ? ? ? ? ?|? ?|? ? ?|? ? ?|? ? ?|? ? ?|? ? ?|? ? ? ?|? ? ?|? ?|? ?|?|? ?|?|? ? ? ?|? ? ?|?|?];
    try exact I.
  - destruct src; [|exact I]. cbn -[List.find]. intros _. destruct (List.find _ _); [done|]. by eexists.
  - by destruct q.
  - by destruct q.
Qed.

Lemma sample_store_tidy : tidy (bare_claim "web-0") sample_store.
Proof.
  constructor; simpl.
  - repeat constructor; set_solver.
  - intros j [<-|[]]. by split.
  - done.
  - intros p j [<-|[]] [<-|[]] _ Hu. discriminate Hu.
  - intros p j [<-|[]] [<-|[]] Hn. discriminate Hn.
  - intros p [<-|[]] _. vm_compute. reflexivity.
Qed.

Lemma search_equals_scan_witness :
  search_scan (bare_claim "web-0") sample_store = "pmj-web" /\
  forall indexed answer, result_of store_answer (FindUnassignedActivePMJ (S := unit) (R := unit) "shop" (bare_claim "web-0") indexed tt) = (tt, inr answer) ->
    answer = inr (search_scan (bare_claim "web-0") sample_store).
Proof.
  split; [vm_compute; reflexivity|]. intros indexed answer Hr.
  apply (search_equals_scan "shop" (bare_claim "web-0") sample_store indexed
    (trace_of store_answer (FindUnassignedActivePMJ (S := unit) (R := unit) "shop" (bare_claim "web-0") indexed tt)) answer sample_store_tidy).
  - rewrite <- Hr. apply exec_static.
  - apply store_answer_fair.
Defined.

Lemma snapshot_wakes_its_jobs_witness : In ("shop", "pmj-web") (result_of store_answer (mapSnapshotToPMJ "shop" "ps-web-0")).
Proof.
  apply (snapshot_wakes_its_jobs "shop" sample_store "ps-web-0" (trace_of store_answer (mapSnapshotToPMJ "shop" "ps-web-0"))); [done|done| | | |].
  - by intros j [<-|[]].
  - apply exec_static.
  - apply store_answer_fair.
  - exists (set_snapshotRef "ps-web-0" (sample_job Evicting)). split_and!; [by left|done|done].
Defined.
