(* ===== verification/Admission.v ===== *)
(** * Admission requests and responses (internal/webhook)

    What the webhooks' handlers see of an [admission.Request], and the responses
    they build.  [admission.PatchResponseFromRaw] computes the JSON patch between
    the raw object and the marshalled one: the response is represented by the
    object that the patch produces. *)
From S2P Require Import Prelude Effects GoLib Kube Interfaces.

(** The request: its object is what the decoder makes of the raw one. *)
Record AdmissionRequest := mkRequest {
  rq_operation : string;
  rq_subResource : string;
  rq_namespace : string;
  rq_name : string;
  rq_dryRun : option bool;
  rq_pod : res Pod }.

Inductive Response :=
| Allowed (message : string)
| Errored (code : Z) (err : ApiErr)
| PatchTo (pod : Pod)
| Denied (code : Z) (message : string).

Definition StatusBadRequest : Z := 400.
Definition StatusNotFound : Z := 404.
Definition StatusTooManyRequests : Z := 429.
Definition StatusInternalServerError : Z := 500.

(** The API server goes on with the request. *)
Definition admits (r : Response) : bool :=
  match r with Allowed _ | PatchTo _ => true | Errored _ _ | Denied _ _ => false end.

Definition denied404 (msg : string) : Response := Denied StatusNotFound msg.
Definition denied429 (msg : string) : Response := Denied StatusTooManyRequests msg.
