(* ===== verification/FenceWebhook.v ===== *)
(** * The fence webhook (internal/webhook/fence_webhook.go)

    Every pod status write of a fenced pod is rewritten so that Ready stays
    False with the fence's reason.  The response is a JSON patch of the raw
    object; [apply_patch] gives the RFC 6902 meaning of its operations on the
    list of conditions. *)
From Stdlib Require Import Ascii.
From S2P Require Import Prelude Effects GoLib Kube Interfaces Fence Instances.

Record fenceCondition := mkFenceCondition {
  f_type : string; f_status : string; f_reason : string; f_message : string; f_lastTransitionTime : string }.
#[export] Instance fenceCondition_eq_dec : EqDecision fenceCondition.
Proof. solve_decision. Defined.

(** The part of a Pod that the webhook decodes. *)
Record fencePod := mkFencePod { fp_labels : gmap string string; fp_conditions : option (list fenceCondition) }.

Inductive PatchValue := PStr (s : string) | PCond (c : fenceCondition) | PConds (l : list fenceCondition).
Record PatchOp := mkPatchOp { po_operation : string; po_path : string; po_value : PatchValue }.

(** The request; a raw object that is absent or does not decode is [None]. *)
Record FenceRequest := mkFenceRequest {
  fr_operation : string; fr_subResource : string; fr_object : option fencePod; fr_oldObject : option fencePod }.

Inductive FenceResponse := FAllowed (message : string) | FPatched (message : string) (patches : list PatchOp).

Definition findFenceCondition (conds : list fenceCondition) (condType : string) : option fenceCondition :=
  List.find (fun c => f_type c ==s condType) conds.

(** The index of the first Ready condition. *)
Fixpoint ready_index (i : nat) (conds : list fenceCondition) : option (nat * fenceCondition) :=
  match conds with
  | [] => None
  | c :: rest => if f_type c ==s "Ready" then Some (i, c) else ready_index (S i) rest
  end.

Definition fence_ltt (stored : option fenceCondition) (now : Z) : string :=
  match stored with
  | Some c => if (f_status c ==s "False") && (f_lastTransitionTime c !=s "") then f_lastTransitionTime c
              else FormatRFC3339 now
  | None => FormatRFC3339 now
  end.

Definition want (stored : option fenceCondition) (now : Z) : fenceCondition :=
  mkFenceCondition "Ready" "False" ReasonPodMigrationFenced FenceReadyMessage (fence_ltt stored now).

Definition cond_path (i : nat) : string := "/status/conditions/" +s pretty i.
#[local] Arguments cond_path : simpl never.

Definition fencePatches (conds : list fenceCondition) (stored : option fenceCondition) (now : Z) : list PatchOp :=
  let want := want stored now in
  match ready_index 0 conds with
  | None => match conds with
            | [] => [mkPatchOp "add" "/status/conditions" (PConds [want])]
            | _ => [mkPatchOp "add" "/status/conditions/-" (PCond want)]
            end
  | Some (idx, c) =>
      if bool_decide (c = want) then []
      else
        let base := cond_path idx in
        [mkPatchOp "add" (base +s "/status") (PStr (f_status want));
         mkPatchOp "add" (base +s "/reason") (PStr (f_reason want));
         mkPatchOp "add" (base +s "/message") (PStr (f_message want));
         mkPatchOp "add" (base +s "/lastTransitionTime") (PStr (f_lastTransitionTime want))]
  end.

Definition recordFence {R} (action : string) (r : R) : gom resp unit R R :=
  do* ecall (EMetric "RecordFenceWebhookRequest" [action] 0) in gret r.

Definition PodFenceMutator_Handle (now : Z) (req : FenceRequest) : fn resp unit FenceResponse := gfun (
  if (fr_operation req !=s "UPDATE") || (fr_subResource req !=s "status") then
    recordFence "skipped" (FAllowed "not a pod status update")
  else
    match fr_object req with
    | None => recordFence "decode_error" (FAllowed "undecodable pod")
    | Some pod =>
        if sget (fp_labels pod) LabelFenced !=s "true" then recordFence "not_fenced" (FAllowed "pod is not fenced")
        else
          match fp_conditions pod with
          | None => recordFence "skipped" (FAllowed "no status in the update")
          | Some conds =>
              let stored := match fr_oldObject req with
                            | Some old => match fp_conditions old with
                                          | Some l => findFenceCondition l "Ready"
                                          | None => None
                                          end
                            | None => None
                            end in
              match fencePatches conds stored now with
              | [] => recordFence "unchanged" (FAllowed "already fenced")
              | patches => recordFence "fenced" (FPatched "held Ready at False for a fenced pod" patches)
              end
          end
    end).

(** ** What a patch does to the conditions *)

Definition set_field (field v : string) (c : fenceCondition) : fenceCondition :=
  let '(mkFenceCondition t s r m l) := c in
  if field ==s "status" then mkFenceCondition t v r m l
  else if field ==s "reason" then mkFenceCondition t s v m l
  else if field ==s "message" then mkFenceCondition t s r v l
  else if field ==s "lastTransitionTime" then mkFenceCondition t s r m v
  else c.

(** RFC 6902's add: on the list itself, at its end, and on a member of an element. *)
Definition apply_op (conds : list fenceCondition) (op : PatchOp) : list fenceCondition :=
  match po_value op with
  | PConds l => if po_path op ==s "/status/conditions" then l else conds
  | PCond c => if po_path op ==s "/status/conditions/-" then (conds ++ [c])%list else conds
  | PStr v =>
      match after_last (po_path op) "/" with
      | Some field => imap (fun i c => if po_path op ==s cond_path i +s "/" +s field then set_field field v c else c) conds
      | None => conds
      end
  end.

Definition apply_patch (conds : list fenceCondition) (ops : list PatchOp) : list fenceCondition := fold_left apply_op ops conds.

(** The conditions that are stored after the request. *)
Definition admitted (conds : list fenceCondition) (r : FenceResponse) : list fenceCondition :=
  match r with FAllowed _ => conds | FPatched _ ops => apply_patch conds ops end.

Lemma after_last_app s c t : no_char c t = true -> after_last (s +s String c t) c = Some t.
Proof.
  intros Ht. assert (after_last (String c t) c = Some t) as Hc.
  { simpl. rewrite Ascii.eqb_refl. enough (after_last t c = None) as -> by done.
    unfold no_char in Ht. induction t as [|d t IH]; simpl in *; [done|].
    apply andb_true_iff in Ht as [Hd Ht]. apply negb_true_iff in Hd. by rewrite IH, Hd. }
  induction s as [|d s IH]; [done|]. change (after_last (String d (s +s String c t)) c = Some t). simpl. by rewrite IH.
Qed.

Lemma length_append s t : String.length (s +s t) = (String.length s + String.length t)%nat.
Proof. induction s as [|c s IH]; simpl; [done|]. by rewrite IH. Qed.

Lemma append_inv_tail s1 s2 t : s1 +s t = s2 +s t -> s1 = s2.
Proof.
  revert s2. induction s1 as [|c s1 IH]; intros [|d s2] H; [done|..].
  - apply (f_equal String.length) in H. rewrite !length_append in H. simpl in H. lia.
  - apply (f_equal String.length) in H. rewrite !length_append in H. simpl in H. lia.
  - simpl in H. injection H as -> H. f_equal. by apply IH.
Qed.

Lemma cond_path_inj i j t : cond_path i +s t = cond_path j +s t -> i = j.
Proof.
  intros H%append_inv_tail. unfold cond_path in H. apply (inj (String.append _)) in H. by apply (inj pretty) in H.
Qed.

(** A member is set in the one element the path names. *)
Lemma apply_field conds idx field v :
  no_char "/" field = true ->
  apply_op conds (mkPatchOp "add" (cond_path idx +s "/" +s field) (PStr v)) = alter (set_field field v) idx conds.
Proof.
  intros Hf. unfold apply_op. simpl po_value. simpl po_path. cbv iota.
  change ("/" +s field) with (String "/" field). rewrite after_last_app by done.
  apply list_eq. intros i. rewrite list_lookup_imap. destruct (decide (i = idx)) as [->|Hne].
  - rewrite list_lookup_alter_eq. destruct (conds !! idx); [|done]. cbn [fmap option_fmap option_map]. by rewrite seqb_refl.
  - rewrite list_lookup_alter_ne by congruence. destruct (conds !! i); [|done]. cbn [fmap option_fmap option_map].
    destruct (_ ==s _) eqn:He; [|done]. apply seqb_true in He. apply cond_path_inj in He. congruence.
Qed.

Lemma ready_index_spec i conds :
  match ready_index i conds with
  | None => findFenceCondition conds "Ready" = None
  | Some (n, c) => exists k, n = (i + k)%nat /\ conds !! k = Some c /\ findFenceCondition conds "Ready" = Some c /\
      f_type c = "Ready" /\
      (forall f, (forall x, f_type (f x) = f_type x) -> findFenceCondition (alter f k conds) "Ready" = Some (f c))
  end.
Proof.
  revert i. induction conds as [|c conds IH]; intros i; simpl; [done|].
  destruct (f_type c ==s "Ready") eqn:Hc; simpl.
  - exists 0%nat. split; [lia|]. split; [done|]. split; [done|]. split; [by apply seqb_true|]. intros f Hf. simpl. by rewrite Hf, Hc.
  - specialize (IH (S i)). destruct (ready_index (S i) conds) as [[n c']|]; [|done].
    destruct IH as (k & -> & Hk & Hfind & Ht & Hall). exists (S k). split; [lia|]. split; [done|]. split; [done|]. split; [done|].
    intros f Hf. simpl. rewrite Hc. by apply Hall.
Qed.

(** ** The fence holds *)

Definition fenced_request (req : FenceRequest) (pod : fencePod) (conds : list fenceCondition) : Prop :=
  fr_operation req = "UPDATE" /\ fr_subResource req = "status" /\ fr_object req = Some pod /\
  sget (fp_labels pod) LabelFenced = "true" /\ fp_conditions pod = Some conds.

Definition storedReady (req : FenceRequest) : option fenceCondition :=
  old ← fr_oldObject req; l ← fp_conditions old; findFenceCondition l "Ready".

(** The conditions of the other types, in order. *)
Definition others (conds : list fenceCondition) : list fenceCondition :=
  List.filter (fun c => f_type c !=s "Ready") conds.

Lemma others_alter f k conds c :
  conds !! k = Some c -> f_type c = "Ready" -> (forall x, f_type (f x) = f_type x) -> others (alter f k conds) = others conds.
Proof.
  intros Hk Hc Hf. revert k Hk. unfold others. induction conds as [|d conds IH]; intros [|k] Hk; [done|done|..].
  - injection Hk as ->. simpl. by rewrite Hf, Hc.
  - change (alter f (S k) (d :: conds)) with (d :: alter f k conds). cbn [List.filter]. by rewrite (IH k).
Qed.

Lemma set_field_type field v c : f_type (set_field field v c) = f_type c.
Proof. destruct c. simpl. by repeat destruct (_ ==s _). Qed.

(** What the patch of a list makes of it. *)
Lemma fencePatches_apply conds stored now :
  let conds' := apply_patch conds (fencePatches conds stored now) in
  findFenceCondition conds' "Ready" = Some (want stored now) /\ others conds' = others conds.
Proof.
  unfold fencePatches. pose proof (ready_index_spec 0 conds) as Hr.
  destruct (ready_index 0 conds) as [[n c]|].
  - destruct Hr as (k & -> & Hk & Hfind & Hc & Hall). simpl. case_bool_decide as Hw; [by subst c|].
    change (f_type c = f_type (want stored now)) in Hc.
    unfold apply_patch. cbn [fold_left]. rewrite !(apply_field _ _ "status"), !(apply_field _ _ "reason"),
      !(apply_field _ _ "message"), !(apply_field _ _ "lastTransitionTime") by done.
    rewrite !list_alter_alter_eq. split.
    + rewrite Hall by (intros x; cbn; by rewrite !set_field_type). f_equal. destruct c as [t s r m l].
      cbn in Hc. by subst t.
    + by eapply others_alter; [| |intros x; cbn; rewrite !set_field_type].
  - destruct conds as [|d conds]; [done|]. unfold apply_patch. cbn [fold_left apply_op po_value po_path]. rewrite seqb_refl.
    unfold findFenceCondition, others in *. split.
    + revert Hr. generalize (d :: conds) as l. intros l. induction l as [|x l IH]; simpl; [done|].
      destruct (f_type x ==s "Ready"); [done|apply IH].
    + by rewrite List.filter_app, app_nil_r.
Qed.

(** A handled request: the response's patch, whatever the metric call answers. *)
Lemma handle_fenced now req pod conds t r :
  fenced_request req pod conds -> exec (PodFenceMutator_Handle now req tt) t (tt, r) ->
  admitted conds r = apply_patch conds (fencePatches conds (storedReady req) now).
Proof.
  intros (Ho & Hs & Hobj & Hl & Hc) Hx. unfold PodFenceMutator_Handle, gfun in Hx.
  rewrite Ho, Hs, Hobj, Hl, Hc in Hx. rewrite !seqb_refl in Hx. cbn [negb orb] in Hx.
  fold (storedReady req) in Hx || idtac. unfold storedReady.
  match type of Hx with context [fencePatches conds ?st now] => set (stored := st) in Hx end.
  replace (old ← fr_oldObject req; l ← fp_conditions old; findFenceCondition l "Ready") with stored
    by (unfold stored; destruct (fr_oldObject req) as [old|]; [cbn; by destruct (fp_conditions old)|done]).
  destruct (fencePatches conds stored now) as [|p ps]; unfold recordFence, gbind, ecall, gcall, gret in Hx; cbn in Hx;
    apply exec_inv in Hx as ([] & t' & -> & Hx); apply exec_inv in Hx as [-> [= ->]]; reflexivity.
Qed.

Lemma FormatRFC3339_nonempty t : FormatRFC3339 t <> "".
Proof.
  unfold FormatRFC3339, format_utc. destruct (civil_from_days _) as [[y m] d]. intros H.
  apply (f_equal String.length) in H. rewrite length_append in H. simpl in H. lia.
Qed.

(** C19: The fence webhook never lets a fenced pod's Ready be anything but False
    with the fence's reason and message: the stored conditions are those of the
    write with only Ready replaced, and once stored, that condition (its
    transition time too) survives every later status write, whatever it says. *)
Theorem fence_holds_ready now req pod conds t r :
  fenced_request req pod conds -> exec (PodFenceMutator_Handle now req tt) t (tt, r) ->
  let stored := admitted conds r in
  (exists ltt, findFenceCondition stored "Ready" =
     Some (mkFenceCondition "Ready" "False" ReasonPodMigrationFenced FenceReadyMessage ltt)) /\
  others stored = others conds /\
  (forall now' req' pod' conds' t' r',
     fenced_request req' pod' conds' -> storedReady req' = findFenceCondition stored "Ready" ->
     exec (PodFenceMutator_Handle now' req' tt) t' (tt, r') ->
     findFenceCondition (admitted conds' r') "Ready" = findFenceCondition stored "Ready").
Proof.
  intros Hreq Hx stored. assert (stored = apply_patch conds (fencePatches conds (storedReady req) now)) as Hst
    by (by eapply handle_fenced).
  destruct (fencePatches_apply conds (storedReady req) now) as [Hf Ho]. rewrite <- Hst in Hf, Ho.
  split; [by eexists|]. split; [done|]. intros now' req' pod' conds' t' r' Hreq' Hst' Hx'.
  rewrite (handle_fenced _ _ _ _ _ _ Hreq' Hx'), Hst'. destruct (fencePatches_apply conds' (findFenceCondition stored "Ready") now') as [-> _].
  rewrite Hf. f_equal. unfold want. f_equal. simpl. enough (fence_ltt (storedReady req) now <> "") as Hne%seqb_false by by rewrite Hne.
  unfold fence_ltt. destruct (storedReady req) as [c|]; [|apply FormatRFC3339_nonempty].
  destruct (_ && _) eqn:Hb; [|apply FormatRFC3339_nonempty]. bool_props. done.
Qed.

Definition kubelet_conditions : list fenceCondition :=
  [mkFenceCondition "PodScheduled" "True" "" "" "2026-01-01T00:00:00Z"; mkFenceCondition "Ready" "True" "" "" "2026-01-01T00:00:00Z"].

Definition kubelet_write : FenceRequest :=
  mkFenceRequest "UPDATE" "status"
    (Some (mkFencePod {[ LabelFenced := "true" ]}
      (Some kubelet_conditions)))
    None.

Lemma fence_holds_ready_witness :
  let r := snd (result_of answer_fail (PodFenceMutator_Handle at_1100 kubelet_write tt)) in
  others (admitted kubelet_conditions r) = [mkFenceCondition "PodScheduled" "True" "" "" "2026-01-01T00:00:00Z"].
Proof.
  intros r. refine (proj1 (proj2 (fence_holds_ready at_1100 kubelet_write _ kubelet_conditions _ r _ (exec_static answer_fail _)))).
  by repeat split.
Defined.
