(* ===== verification/StatusWebhook.v ===== *)
(** * The pod status webhook (internal/webhook/pod_status_webhook.go)

    A Job's pod that is being migrated exits 0 when its checkpoint stops it.  The
    webhook turns that Succeeded into a failure with exit code 137, so that the
    Job controller replaces the pod; every other status write passes. *)
From S2P Require Import Prelude Effects GoLib Kube Interfaces Calls Assignment Admission Instances.

Definition migrated_status (cs : ContainerStatus) : ContainerStatus :=
  match st_terminated (cs_state cs) with
  | Some t =>
      if t_exitCode t =? 0 then
        mkCS (cs_name cs)
          (mkState (st_waiting (cs_state cs)) (st_running (cs_state cs))
             (Some (mkTerminated "CheckpointBeforeDelete" 137 "Container was checkpointed and stopped during migration.")))
          (cs_lastTermination cs) (cs_restartCount cs) (cs_containerID cs)
      else cs
  | None => cs
  end.

(** The pod the kubelet's Succeeded is replaced by. *)
Definition failed_by_migration (p : Pod) : Pod :=
  mkPod (p_meta p) (p_nodeName p) (p_runtimeClassName p) (p_containers p) (p_initContainers p)
    (p_schedulingGates p) (p_readinessGates p) (p_claims p)
    PodFailed "EvictedByMigration"
    "Pod was evicted and checkpointed during migration. Forcing failure to trigger rescheduling."
    (p_conditions p) (map migrated_status (p_containerStatuses p)) (p_initContainerStatuses p).

(** What the handler takes from the job: its target's UID and its phase. *)
Definition JobView : Type := string * JobPhase.
Definition view (job : PodMigrationJob) : JobView := (j_targetUID job, j_phase job).

Definition owned_by_job (p : Pod) : bool := existsb (fun o => or_kind o ==s "Job") (m_owners (p_meta p)).

Section Status.
Context (hasAPIReader : bool).
Abbreviation W A := (gom resp unit Response A).

(** The cached read; an unreadable cache stands for a job that is snapshotting. *)
Definition readCached (pod : Pod) (pmjName : string) : W JobView :=
  let* x := ecall (EGetJob Cache (p_namespace pod) pmjName) in
  match x with
  | inr job => gret (view job)
  | inl err => if IsNotFound err then greturn (Allowed "no active migration job") else gret (p_uid pod, Snapshotting)
  end.

(** The live read first, when there is a live reader. *)
Definition readJob (pod : Pod) (pmjName : string) : W JobView :=
  if hasAPIReader then
    let* x := ecall (EGetJob Live (p_namespace pod) pmjName) in
    match x with
    | inr job => gret (view job)
    | inl err => if IsNotFound err then greturn (Allowed "no active migration job") else readCached pod pmjName
    end
  else readCached pod pmjName.

(** The answer for a pod whose job is [v]. *)
Definition judgeCompletion (pod : Pod) (v : JobView) : Response :=
  let '(uid, phase) := v in
  if uid !=s p_uid pod then Allowed "PMJ UID mismatch"
  else if negb (phase ==p Snapshotting) && negb (phase ==p Evicting) then Allowed "migration not active"
  else PatchTo (failed_by_migration pod).

Definition PodStatusMutator_Handle (req : AdmissionRequest) : fn resp unit Response := gfun (
  if rq_subResource req !=s "status" then gret (Allowed "not a status update")
  else
    match rq_pod req with
    | inl err => gret (Errored StatusBadRequest err)
    | inr pod =>
        if sget (p_labels pod) "pod-migration.gke.io/enabled" !=s "true" then gret (Allowed "pod not opted in")
        else if negb (owned_by_job pod) then gret (Allowed "pod is not owned by a Job")
        else if negb (bool_decide (p_phase pod = PodSucceeded)) then gret (Allowed "pod phase is not Succeeded")
        else
          let pmjName := FormatPMJName (p_name pod) (p_uid pod) in
          let* pmj := readJob pod pmjName in
          gret (judgeCompletion pod pmj)
    end).

(** ** What the reads say of the pod's job *)

Inductive Knowledge := NoJob | KnownJob (j : PodMigrationJob) | Unreadable.

(** From the reads made, the first one first: the answer of the first that
    found the job or its absence. *)
Fixpoint known (t : @trace Ev resp) : Knowledge :=
  match t with
  | [] => Unreadable
  | existT e x :: t' =>
      match e return resp e -> Knowledge with
      | EGetJob _ _ _ => fun x =>
          match x with
          | inr j => KnownJob j
          | inl err => if IsNotFound err then NoJob else known t'
          end
      | _ => fun _ => known t'
      end x
  end.

(** Only migration explains the completion: its job has the source checkpointed
    or being evicted, or no read could say. *)
Definition migrating (pod : Pod) (k : Knowledge) : bool :=
  match k with
  | NoJob => false
  | KnownJob j => (j_targetUID j ==s p_uid pod) && ((j_phase j ==p Snapshotting) || (j_phase j ==p Evicting))
  | Unreadable => true
  end.

Definition completed_job_pod (req : AdmissionRequest) (pod : Pod) : Prop :=
  rq_subResource req = "status" /\ rq_pod req = inr pod /\
  sget (p_labels pod) "pod-migration.gke.io/enabled" = "true" /\ owned_by_job pod = true /\ p_phase pod = PodSucceeded.

Lemma judge_migrating pod j :
  (judgeCompletion pod (view j) = PatchTo (failed_by_migration pod) <-> migrating pod (KnownJob j) = true) /\
  (migrating pod (KnownJob j) = false -> exists msg, judgeCompletion pod (view j) = Allowed msg).
Proof.
  simpl. destruct (j_targetUID j ==s p_uid pod), (j_phase j ==p Snapshotting), (j_phase j ==p Evicting); simpl;
    split; try (split; done); try done; intros _; by eexists.
Qed.

Lemma failed_no_success p cs t :
  In cs (p_containerStatuses (failed_by_migration p)) -> st_terminated (cs_state cs) = Some t -> t_exitCode t <> 0.
Proof.
  simpl. rewrite in_map_iff. intros (cs0 & <- & _). unfold migrated_status.
  destruct (st_terminated (cs_state cs0)) as [t0|] eqn:H0; [|by rewrite H0].
  destruct (t_exitCode t0 =? 0) eqn:He; simpl; [by intros [= <-]|].
  rewrite H0. intros [= <-]. by bool_props.
Qed.

(** One read: its answer decides, unless it is an error other than not-found. *)
Lemma readCached_known pod n (f : JobView -> gom resp unit Response Response) t r :
  (forall v, f v = gret (judgeCompletion pod v)) ->
  exec (gfun (gbind (readCached pod n) f) tt) t (tt, r) ->
  (r = PatchTo (failed_by_migration pod) <-> migrating pod (known t) = true) /\
  (migrating pod (known t) = false -> exists msg, r = Allowed msg) /\
  exists x, t = [existT (EGetJob Cache (p_namespace pod) n) x].
Proof.
  intros Hf Hx. unfold readCached, gfun, gbind, ecall, gcall in Hx. simpl in Hx.
  apply exec_inv in Hx as (x & t' & -> & Hx). destruct x as [err|job]; simpl in Hx.
  - destruct (IsNotFound err) eqn:Hn; simpl in Hx; [|rewrite Hf in Hx; unfold gret in Hx; simpl in Hx; rewrite seqb_refl in Hx];
      apply exec_inv in Hx as [-> [= ->]]; simpl; rewrite Hn; simpl; repeat split; eauto; done.
  - rewrite Hf in Hx. apply exec_inv in Hx as [-> [= ->]]. simpl known.
    destruct (judge_migrating pod job) as [H1 H2]. eauto.
Qed.

(** The completion of a Job's opted-in pod is turned into a failure exactly
    when, by the first read that could tell, the migration job of this very pod
    is Snapshotting or Evicting, or when no read could tell (the webhook fails
    toward the failure, never toward an error that would let the success
    through); otherwise it is allowed unchanged.  The failed pod is Failed and
    no container of it exited 0; at most two reads are made, and nothing else. *)
Theorem completion_intercepted req pod t r :
  completed_job_pod req pod -> exec (PodStatusMutator_Handle req tt) t (tt, r) ->
  (r = PatchTo (failed_by_migration pod) <-> migrating pod (known t) = true) /\
  (migrating pod (known t) = false -> exists msg, r = Allowed msg) /\
  p_phase (failed_by_migration pod) = PodFailed /\
  (forall cs st, In cs (p_containerStatuses (failed_by_migration pod)) -> st_terminated (cs_state cs) = Some st -> t_exitCode st <> 0) /\
  (length t <= 2)%nat /\ Forall (fun s => exists src, called s = EGetJob src (p_namespace pod) (FormatPMJName (p_name pod) (p_uid pod))) t.
Proof.
  intros (Hs & Hp & He & Ho & Hph) Hx. unfold PodStatusMutator_Handle, gfun in Hx.
  rewrite Hs, Hp, He, Ho, Hph in Hx. rewrite !seqb_refl in Hx. cbn [negb] in Hx.
  rewrite bool_decide_eq_true_2 in Hx by done. cbn [negb] in Hx.
  enough ((r = PatchTo (failed_by_migration pod) <-> migrating pod (known t) = true) /\
          (migrating pod (known t) = false -> exists msg, r = Allowed msg) /\ (length t <= 2)%nat /\
          Forall (fun s => exists src, called s = EGetJob src (p_namespace pod) (FormatPMJName (p_name pod) (p_uid pod))) t)
    as (H1 & H2 & H3 & H4) by (repeat (split; [done || apply failed_no_success|]); done).
  revert Hx. generalize (FormatPMJName (p_name pod) (p_uid pod)) as n. intros n Hx. unfold readJob in Hx. destruct hasAPIReader.
  - unfold gbind at 1 2, ecall, gcall in Hx. simpl in Hx.
    apply exec_inv in Hx as (x & t' & -> & Hx). destruct x as [err|job]; simpl in Hx.
    + destruct (IsNotFound err) eqn:Hn; simpl in Hx.
      * apply exec_inv in Hx as [-> [= ->]]. simpl. rewrite Hn. repeat split; eauto; done.
      * apply (readCached_known pod n) in Hx as (H1 & H2 & x & ->); [|done]. simpl known. rewrite Hn.
        split; [done|]. split; [done|]. split; [done|]. repeat constructor; by eexists.
    + apply exec_inv in Hx as [-> [= ->]]. destruct (judge_migrating pod job) as [H1 H2].
      split; [done|]. split; [done|]. split; [simpl; lia|]. repeat constructor. by eexists.
  - apply (readCached_known pod n) in Hx as (H1 & H2 & x & ->); [|done].
    split; [done|]. split; [done|]. split; [simpl; lia|]. repeat constructor. by eexists.
Qed.
End Status.

(** A completed pod of a Job whose migration job cannot be read. *)
Definition completed_pod : Pod :=
  mkPod (mkMeta "batch-0" "shop" "" "uid-pod" "7" 0 {[ "pod-migration.gke.io/enabled" := "true" ]} ∅ (500 * Second) None None
           [mkOwnerReference "Job" "batch" "uid-batch" true "batch/v1"] [])
    "node-a" (Some "gvisor") [] [] [] [] [] PodSucceeded "" "" []
    [mkCS "app" (mkState None false (Some (mkTerminated "Completed" 0 ""))) None 0 "containerd://1"] [].
Definition completion_request : AdmissionRequest := mkRequest "UPDATE" "status" "shop" "batch-0" None (inr completed_pod).

Definition unreadable (e : Ev) : resp e :=
  match e return resp e with EGetJob _ _ _ => inl (mkErr InternalError "timeout") | e => answer_fail e end.

Lemma completion_intercepted_witness :
  snd (result_of unreadable (PodStatusMutator_Handle true completion_request tt)) = PatchTo (failed_by_migration completed_pod).
Proof.
  refine (proj2 (proj1 (completion_intercepted true completion_request completed_pod
    (trace_of unreadable (PodStatusMutator_Handle true completion_request tt)) _ _ _)) _).
  - by repeat split.
  - exact (exec_static unreadable (PodStatusMutator_Handle true completion_request tt)).
  - vm_compute. reflexivity.
Defined.
