(* ===== verification/PodGate.v ===== *)
(** * The pod gate reconciler (internal/controller/pod_gate_controller.go)

    A replacement pod is created with a scheduling gate.  The reconciler holds it
    until its job's snapshot is durable, then orders the restore, records the pod
    as the job's one consumer and opens the gate; every other release orders the
    cold-start bypass. *)
From S2P Require Import Prelude Effects GoLib Kube Interfaces Eligibility Engine PodUtil JobBase Assignment ActiveMigration.

(** The pod being reconciled, and the job the deferred check observes. *)
Record GateState := mkGateState { g_pod : Pod; g_job : option PodMigrationJob }.

(** [PodGateReconciler]: its optional API reader, recorder, invariant engine and engine registry. *)
Record GateReconciler := mkGateReconciler {
  gr_hasAPIReader : bool;
  gr_hasRecorder : bool;
  gr_invariantsEnabled : bool;
  gr_engines : option Registry }.

Section Gate.
Context `{KubeLib} `{DNSLib}.
Context (r : GateReconciler) (now : Z) (ns name : string).
Abbreviation G R A := (gom resp GateState R A).

Definition apiReader : Source := if gr_hasAPIReader r then Live else Cache.

Definition mod_pod {R} (f : Pod -> Pod) : G R unit := gmodify (fun s => mkGateState (f (g_pod s)) (g_job s)).
Definition mod_gjob {R} (f : PodMigrationJob -> PodMigrationJob) : G R unit :=
  gmodify (fun s => mkGateState (g_pod s) (f <$> g_job s)).
Definition get_pod {R} : G R Pod := let* s := gget in gret (g_pod s).

(** [r.Update(ctx, pod)] *)
Definition updatePod {R} : G R (option ApiErr) :=
  let* pod := get_pod in
  let* x := ecall (EUpdatePod pod) in
  match x with
  | inl err => gret (Some err)
  | inr pod' => do* mod_pod (fun _ => pod') in gret None
  end.

Definition removeGate (pod : Pod) : Pod :=
  with_p_gates (List.filter (fun g => g !=s MigrationGate) (p_schedulingGates pod)) pod.

(** ** Restore orders *)

Definition jobRestoreOrderer (job : PodMigrationJob) : res RestoreOrderer :=
  match gr_engines r with
  | None => inr gke_orderer
  | Some reg =>
      match ForJob reg (Some job) with
      | inl err => if bool_decide (e_kind err = EngineNotRegistered) then inl err else inr gke_orderer
      | inr eng => inr (default gke_orderer (e_orderer eng))
      end
  end.

Definition podRestoreOrderer {R} (pod : Pod) : G R RestoreOrderer :=
  match gr_engines r with
  | None => gret gke_orderer
  | Some reg =>
      let* x := ActivePodMigration (p_namespace pod) in
      let pm := match x with inr pm => pm | inl _ => None end in
      gret (match fst (ForPod reg (Some pod) pm) with
            | Some eng => default gke_orderer (e_orderer eng)
            | None => gke_orderer
            end)
  end.

(** [_ = orderer.OrderColdStartBypass(pod)]: a failed order leaves the pod. *)
Definition bypass (o : RestoreOrderer) (pod : Pod) : Pod :=
  match OrderColdStartBypass o pod with inr pod' => pod' | inl _ => pod end.

Definition unassign (pod : Pod) : Pod := with_p_annotations (delete AnnotationAssignedPMJ (p_annotations pod)) pod.

Definition releaseWithColdStartBypass {R} (job : option PodMigrationJob) : G R unit :=
  do* mod_pod unassign in
  do* match job with
      | Some j => match jobRestoreOrderer j with
                  | inr orderer => mod_pod (bypass orderer)
                  | inl _ => gret tt
                  end
      | None => gret tt
      end in
  let* pod := get_pod in
  let* orderer := podRestoreOrderer pod in
  do* mod_pod (bypass orderer) in
  mod_pod removeGate.

(** ** The recorded consumer *)

Definition is_consumer (job : PodMigrationJob) (p : Pod) : bool :=
  (sget (p_annotations p) AnnotationAssignedPMJ ==s j_name job) && (p_uid p ==s j_restoredPodUID job).

(** The API server's word on the consumer, by its recorded name. *)
Definition confirmConsumer {R} (ns : string) (job : PodMigrationJob) : G R (res bool) :=
  let* x := ecall (EGetPod apiReader ns (j_restoredPodName job)) in
  match x with
  | inr apiPod => gret (inr (p_uid apiPod ==s j_restoredPodUID job))
  | inl err => if IsNotFound err then gret (inr false) else gret (inl err)
  end.

(** Each branch of the cached read confirms against the API server; only an
    error of the cache other than not-found does not. *)
Definition checkConsumerPodExists {R} (ns : string) (job : PodMigrationJob) : G R (res bool) :=
  if j_restoredPodUID job ==s "" then gret (inr false)
  else if j_restoredPodName job !=s "" then
    let* x := ecall (EGetPod Cache ns (j_restoredPodName job)) in
    match x with
    | inr _ => confirmConsumer ns job
    | inl err => if negb (IsNotFound err) then gret (inl err) else confirmConsumer ns job
    end
  else
    let* x := (if gr_hasAPIReader r then ecall (EListPodsLive ns) else ecall (EListPods ns AllPods)) in
    match x with
    | inl err => gret (inl err)
    | inr pods => gret (inr (existsb (is_consumer job) pods))
    end.

(** ** The deferred invariant check *)

Definition evaluateGateInvariants {R} (err : option ApiErr) : G R unit :=
  let* s := gget in
  let pod := g_pod s in
  if negb (gr_invariantsEnabled r) || match err with Some _ => true | None => false end then gret tt
  else
    let assigned := sget (p_annotations pod) AnnotationAssignedPMJ in
    let* job :=
      (match g_job s with
       | Some j => gret (Some j)
       | None =>
           if assigned !=s "" then
             let* x := ecall (EGetJob Cache (p_namespace pod) assigned) in
             gret (match x with inr j => Some j | inl _ => None end)
           else gret None
       end) in
    let* targeting :=
      (if p_uid pod !=s "" then
         let* x := ecall (EGetJob Cache (p_namespace pod) (FormatPMJName (p_name pod) (p_uid pod))) in
         gret (match x with inr j => if j_targetUID j ==s p_uid pod then [j] else [] | inl _ => [] end)
       else gret []) in
    let* _ := ecall (EInvariants (mkSnapshot now "PodGateReconciler" job (Some pod) None [] [] targeting false false
                       false false []
                       (match gr_engines r with Some reg => Some (Registry_InspectRestoreOrder (Some reg)) | None => None end))) in
    gret tt.

(** ** Reconcile *)

(** [return ctrl.Result{}, r.Update(ctx, pod)] *)
Definition update_and_return : G Outcome Outcome :=
  let* e := updatePod in gret (NoRequeue, e).

Definition cold_start (job : option PodMigrationJob) : G Outcome Outcome :=
  do* releaseWithColdStartBypass job in update_and_return.

(** [r.Status().Update(ctx, job)] of the observed job; its error ends the pass. *)
Definition saveStatus (f : PodMigrationJob -> PodMigrationJob) (job : PodMigrationJob) : G Outcome PodMigrationJob :=
  let job := f job in
  do* mod_gjob (fun _ => job) in
  let* x := ecall (EUpdateJobStatus job) in
  match x with
  | inl err => greturn (NoRequeue, Some err)
  | inr job' => do* mod_gjob (fun _ => job') in gret job'
  end.

Definition record_consumer (pod : Pod) (job : PodMigrationJob) : PodMigrationJob :=
  set_restoredPodName (p_name pod) (set_restoredPodUID (p_uid pod) (set_consumed true job)).

(** The consumer of a restore: its gate is not open yet. *)
Definition record_restore (pod : Pod) (job : PodMigrationJob) : PodMigrationJob :=
  set_restoringStartTime (Some now) (set_gateReleased false (record_consumer pod job)).

(** The assigned job concluded without a restore, or has no snapshot. *)
Definition fallBack (job : PodMigrationJob) : G Outcome Outcome :=
  let* pod := get_pod in
  let* job := (if negb (consumed (j_status job)) then saveStatus (record_consumer pod) job else gret job) in
  cold_start (Some job).

(** A job that another pod consumed: taken over only when its consumer went away
    before its gate was opened.  Falls through with the job taken over. *)
Definition adopt (job : PodMigrationJob) : G Outcome PodMigrationJob :=
  let* pod := get_pod in
  if consumed (j_status job) && (j_restoredPodUID job !=s p_uid pod) then
    if negb (j_phase job ==p Restoring) || gateReleased (j_status job) then
      let* o := cold_start (Some job) in greturn o
    else
      let* x := checkConsumerPodExists ns job in
      match x with
      | inl err => greturn (NoRequeue, Some err)
      | inr true => greturn (RequeueAfter (5 * Second), None)
      | inr false => saveStatus (record_restore pod) job
      end
  else gret job.

(** The snapshot is durable: order its restore, record the consumer, open the gate. *)
Definition restoreRelease (job : PodMigrationJob) : G Outcome Outcome :=
  let* job := adopt job in
  let* pod := get_pod in
  match jobRestoreOrderer job with
  | inl err => gret (NoRequeue, Some err)
  | inr orderer =>
      match OrderRestore orderer pod job with
      | inl err => gret (NoRequeue, Some err)
      | inr pod' =>
          do* mod_pod (fun _ => pod') in
          let* job := (if negb (consumed (j_status job)) then saveStatus (record_restore pod') job else gret job) in
          do* (if negb (gateReleased (j_status job)) then
                 let released := set_gateReleased true job in
                 do* mod_gjob (fun _ => released) in
                 let* x := ecall (EPatchJobStatus job released) in
                 match x with
                 | inl err => greturn (NoRequeue, Some err)
                 | inr job' => mod_gjob (fun _ => job')
                 end
               else gret tt) in
          do* mod_pod removeGate in
          let* e := updatePod in
          match e with
          | Some err => gret (NoRequeue, Some err)
          | None =>
              let* pod := get_pod in
              do* gwhen (gr_hasRecorder r)
                    (ecall (EEvent (about_pod pod) "Normal" "MigrationRestoreReleased"
                       ("Removed scheduling gate " +s MigrationGate +s " and injected snapshot restore annotation"))) in
              gret (NoRequeue, None)
          end
      end
  end.

Definition withJob (job : PodMigrationJob) : G Outcome Outcome :=
  do* gmodify (fun s => mkGateState (g_pod s) (Some job)) in
  if (j_phase job ==p Restoring) || (j_phase job ==p Succeeded) || (j_phase job ==p SucceededWithoutRestore) ||
     (j_phase job ==p Failed) then
    if (j_phase job ==p Failed) || (j_phase job ==p SucceededWithoutRestore) || (j_snapshotRef job ==s "")
    then fallBack job
    else restoreRelease job
  else gret (RequeueAfter (30 * Second), None).

(** The informer's not-found: only the API server tells deleted from not yet synced. *)
Definition jobMissing (pmj : string) : G Outcome Outcome :=
  let* x := ecall (EGetJob apiReader ns pmj) in
  match x with
  | inr _ => gret (RequeueAfter (2 * Second), None)
  | inl err => if negb (IsNotFound err) then gret (NoRequeue, Some err) else cold_start None
  end.

Definition reconcileAssigned (assignedPMJ : string) : G Outcome Outcome :=
  let* pod := get_pod in
  let* x := ResolveParentWorkload pod in
  match (match x with inl err => if IsNotFound err then inr no_parent else inl err | inr p => inr p end) with
  | inl err => gret (NoRequeue, Some err)
  | inr parent =>
      let* x := ResolveCollision pod assignedPMJ parent in
      match x with
      | inl err => gret (NoRequeue, Some err)
      | inr (correctedPMJ, true) =>
          if correctedPMJ !=s "" then
            do* mod_pod (fun p => with_p_annotations (<[AnnotationAssignedPMJ := correctedPMJ]> (p_annotations p)) p) in
            update_and_return
          else cold_start None
      | inr (correctedPMJ, false) =>
          let* x := ecall (EGetJob Cache ns correctedPMJ) in
          match x with
          | inl err => if IsNotFound err then jobMissing correctedPMJ else gret (NoRequeue, Some err)
          | inr job => withJob job
          end
      end
  end.

Definition reconcileGate : fn resp GateState Outcome := gfun (
  let* pod := get_pod in
  if negb (podHasMigrationGate pod) then gret (NoRequeue, None)
  else if p_deleting pod then gret (NoRequeue, None)
  else
    let assignedPMJ := sget (p_annotations pod) AnnotationAssignedPMJ in
    if assignedPMJ ==s "" then cold_start None
    else reconcileAssigned assignedPMJ).

Definition reconcilePod : fn resp GateState Outcome := gfun (
  let* o := ginvoke reconcileGate in
  do* evaluateGateInvariants (snd o) in
  gret o).

Definition ReconcileGate : prog resp Outcome :=
  Call (EGetPod Cache ns name) (fun x =>
    match x with
    | inl err =>
        if IsNotFound err then
          Call (EForget ("PodGateReconciler/pod/" +s ns +s "/" +s name)) (fun _ => Done (NoRequeue, None))
        else Done (NoRequeue, Some err)
    | inr pod => pbind (reconcilePod (mkGateState pod None)) (fun '(_, o) => Done o)
    end).

(** The pods to reconcile when a job changes: namespace and name. *)
Definition mapPMJToPods (job : PodMigrationJob) : prog resp (list (string * string)) :=
  Call (EListPods (j_namespace job) (PodsAssignedTo (j_name job))) (fun x =>
    Done ((j_namespace job, j_podName job) ::
          match x with inr pods => map (fun p => (p_namespace p, p_name p)) pods | inl _ => [] end)).
End Gate.
