(* ===== verification/PodGateLaws.v ===== *)
(** * What the pod gate reconciler guarantees

    A gate is opened only with an order for the runtime: the cold-start bypass,
    on a pod that no longer names a job, or the restore of a durable snapshot
    whose job already records this pod as its consumer and its gate as open.  A
    job another pod consumed is taken over only while it is Restoring, before its
    gate was opened, and with its consumer confirmed gone.  A gated pod is never
    forgotten. *)
From S2P Require Import Prelude Effects GoLib Kube Interfaces Calls Eligibility Engine PodUtil JobBase Assignment.
From S2P Require Import ActiveMigration Timeout Instances PodGate.

(** ** The restore orders of an engine

    What the reconciler relies on: an order is written in the annotations, leaves
    the assignment alone, and can be read back. *)
Class LawfulOrderer (o : RestoreOrderer) : Prop := {
  order_restore_pod : forall p j p', OrderRestore o p j = inr p' ->
    exists a, p' = with_p_annotations a p;
  order_bypass_pod : forall p, exists a, OrderColdStartBypass o p = inr (with_p_annotations a p) /\
    a !! AnnotationAssignedPMJ = p_annotations p !! AnnotationAssignedPMJ;
  order_bypass_read : forall p p', OrderColdStartBypass o p = inr p' -> InspectRestoreOrder o p' = ("", true, true);
  order_reads_annotations : forall p p', p_annotations p = p_annotations p' ->
    InspectRestoreOrder o p = InspectRestoreOrder o p' }.

#[export] Instance gke_lawful : LawfulOrderer gke_orderer.
Proof.
  split; simpl.
  - intros p j p'. unfold gke_OrderRestore. destruct (_ ==s _); [done|]. intros [= <-]. by eexists.
  - intros p. eexists. split; [done|]. by rewrite lookup_insert_ne.
  - intros p p' [= <-]. unfold gke_InspectRestoreOrder. cbn. by rewrite lookup_insert_eq.
  - intros p p' Hp. unfold gke_InspectRestoreOrder. by rewrite Hp.
Qed.

(** ** Quiet functions of the reconciler *)

Section Quiet.
Context {S R : Type} `{KubeLib}.

Lemma quiet_ResolveParent pod : quiet (S := S) (R := R) (ResolveParentWorkload pod).
Proof.
  unfold ResolveParentWorkload. generalize no_parent as fallback.
  induction (m_owners (p_meta pod)) as [|ref rest IH]; intros fallback; simpl; quiet_tac; apply IH.
Qed.

Lemma quiet_ambiguous ns c job : quiet (S := S) (R := R) (ambiguous ns c job).
Proof. unfold ambiguous, HasAmbiguousOperatorSibling. quiet_tac. Qed.

Lemma quiet_first_unassigned ns c l : quiet (S := S) (R := R) (first_unassigned ns c l).
Proof.
  induction l as [|job l IH]; simpl; [quiet_tac|].
  apply quiet_bind; [apply quiet_ambiguous|intros a].
  unfold source_blocks, isPMJAssignedToPod. quiet_tac; apply IH.
Qed.

Lemma quiet_first_unlisted ns c pods l : quiet (S := S) (R := R) (first_unlisted ns c pods l).
Proof.
  induction l as [|job l IH]; simpl; [quiet_tac|].
  apply quiet_bind; [apply quiet_ambiguous|intros a]. quiet_tac; apply IH.
Qed.

Lemma quiet_Find ns c b : quiet (S := S) (R := R) (FindUnassignedActivePMJ ns c b).
Proof.
  unfold FindUnassignedActivePMJ, find_indexed, find_live.
  quiet_tac; first [apply quiet_first_unassigned|apply quiet_first_unlisted].
Qed.

Lemma quiet_ResolveCollision pod pmj parent : quiet (S := S) (R := R) (ResolveCollision pod pmj parent).
Proof. unfold ResolveCollision. quiet_tac; apply quiet_Find. Qed.

Lemma quiet_ActivePodMigration ns : quiet (S := S) (R := R) (ActivePodMigration ns).
Proof. unfold ActivePodMigration. quiet_tac. Qed.
End Quiet.
#[export] Hint Resolve quiet_ResolveParent quiet_Find quiet_ResolveCollision quiet_ActivePodMigration : podmig.

(** ** The contract of a pass *)

Section Contract.
Context `{KubeLib} `{DNSLib}.
Context (r : GateReconciler) (now : Z) (ns name : string) (pod0 : Pod).

(** The orderers that a pass may use. *)
Definition serves (o : RestoreOrderer) : Prop :=
  o = gke_orderer \/
  exists reg n e, gr_engines r = Some reg /\ byName reg !! n = Some e /\ e_orderer e = Some o.

(** The gate is open, and the pod starts cold. *)
Definition cold_started (p : Pod) : Prop :=
  podHasMigrationGate p = false /\ p_annotations p !! AnnotationAssignedPMJ = None /\ p_uid p = p_uid pod0 /\
  exists o, serves o /\ InspectRestoreOrder o p = ("", true, true).

(** A job with a durable snapshot to restore. *)
Definition restorable (j : PodMigrationJob) : Prop :=
  (j_phase j = Restoring \/ j_phase j = Succeeded) /\ j_snapshotRef j <> "".

(** The job as the pass read it, or as the API server has it since its write. *)
Definition known (h : trace) (j : PodMigrationJob) : Prop :=
  (exists pmj, saw h (EGetJob Cache ns pmj) (inr j)) \/ (exists new, saw h (EUpdateJobStatus new) (inr j)).

(** The job is restored into this pod and no other. *)
Definition consumer_recorded (h : trace) (j : PodMigrationJob) : Prop :=
  known h j /\ restorable j /\ consumed (j_status j) = true /\ j_restoredPodUID j = p_uid pod0.

Definition opening_recorded (h : trace) (j : PodMigrationJob) : Prop :=
  gateReleased (j_status j) = true \/ exists x, saw h (EPatchJobStatus j (set_gateReleased true j)) (inr x).

(** The gate is open, and the pod restores a snapshot. *)
Definition restore_released (h : trace) (p : Pod) : Prop :=
  exists o ordered j q, jobRestoreOrderer r ordered = inr o /\ OrderRestore o pod0 ordered = inr q /\ p = removeGate q /\
    j_snapshotRef j = j_snapshotRef ordered /\ consumer_recorded h j /\ opening_recorded h j.

(** The recorded consumer is gone, on the API server's word. *)
Definition consumer_gone (h : trace) (j : PodMigrationJob) : Prop :=
  j_restoredPodUID j = "" \/
  (exists err, saw h (EGetPod (apiReader r) ns (j_restoredPodName j)) (inl err) /\ IsNotFound err = true) \/
  (exists p, saw h (EGetPod (apiReader r) ns (j_restoredPodName j)) (inr p) /\ p_uid p <> j_restoredPodUID j) \/
  (exists pods, (saw h (EListPodsLive ns) (inr pods) \/ saw h (EListPods ns AllPods) (inr pods)) /\
     existsb (is_consumer j) pods = false).

(** The writes of the consumer. *)
Definition takes_over (h : trace) (j new : PodMigrationJob) : Prop :=
  (new = record_consumer pod0 j /\ consumed (j_status j) = false /\
   (j_phase j = Failed \/ j_phase j = SucceededWithoutRestore \/ j_snapshotRef j = "")) \/
  (new = record_restore now pod0 j /\ restorable j /\
   (consumed (j_status j) = false \/
    (j_phase j = Restoring /\ gateReleased (j_status j) = false /\ consumer_gone h j))).

Definition gate_call (h : trace) (e : Ev) : Prop :=
  match e with
  | EUpdatePod p =>
      (exists pmj, pmj <> "" /\ p = with_p_annotations (<[AnnotationAssignedPMJ := pmj]> (p_annotations pod0)) pod0) \/
      cold_started p \/ restore_released h p
  | EUpdateJobStatus new => exists pmj j, saw h (EGetJob Cache ns pmj) (inr j) /\ takes_over h j new
  | EPatchJobStatus j new => new = set_gateReleased true j /\ consumer_recorded h j
  | e => benign e = true
  end.

(** What the reconciler reads back of its status updates: what it wrote. *)
Definition consumer_record (j : PodMigrationJob) : JobPhase * string * (bool * string * bool) :=
  (j_phase j, j_snapshotRef j, (consumed (j_status j), j_restoredPodUID j, gateReleased (j_status j))).

Definition gate_honest (e : Ev) : resp e -> Prop :=
  match e return resp e -> Prop with
  | EUpdateJobStatus new => fun x => match x with inr j => consumer_record j = consumer_record new | inl _ => True end
  | _ => fun _ => True
  end.

Definition Gate : @monitor Ev resp := mkMonitor gate_call gate_honest.

#[local] Instance Gate_tolerant : Tolerant Gate.
Proof. intros h []; simpl; done. Qed.

(** A pass is over with an error, a requeue, or the pod updated (which brings it back). *)
Definition settled (h : trace) (o : Outcome) : Prop :=
  snd o <> None \/ 0 < r_requeueAfter (fst o) \/ exists p p', saw h (EUpdatePod p) (inr p').

(** ** Rules *)

Context (lawful : forall o, serves o -> LawfulOrderer o).
Abbreviation post A := (@trace Ev resp -> GateState -> A -> Prop).

(** Only the annotations of the pod changed. *)
Definition same_pod (p : Pod) : Prop := exists a, p = with_p_annotations a pod0.

Lemma same_pod_refl : same_pod pod0.
Proof. exists (p_annotations pod0). by destruct pod0 as [[]]. Qed.

Lemma serves_default reg n e : gr_engines r = Some reg -> byName reg !! n = Some e -> serves (default gke_orderer (e_orderer e)).
Proof. intros Hr He. destruct (e_orderer e) as [o|] eqn:Ho; [right; by eexists _, _, _|by left]. Qed.

Lemma ForJob_registered reg j eng : ForJob reg j = inr eng -> exists n, byName reg !! n = Some eng.
Proof.
  unfold ForJob, Default. repeat dmatch; try done; intros; simplify_eq; eauto.
Qed.

Lemma ForPod_registered reg p pm eng b : ForPod reg p pm = (Some eng, b) -> exists n, byName reg !! n = Some eng.
Proof. unfold ForPod. repeat dmatch; try done. intros. simplify_eq. eauto. Qed.

Lemma jobRestoreOrderer_serves j o : jobRestoreOrderer r j = inr o -> serves o.
Proof.
  unfold jobRestoreOrderer. destruct (gr_engines r) as [reg|] eqn:Hr; [|intros [= <-]; by left].
  destruct (ForJob reg (Some j)) as [err|eng] eqn:Hf.
  - case_bool_decide; [done|]. intros [= <-]. by left.
  - intros [= <-]. apply ForJob_registered in Hf as [n Hn]. by eapply serves_default.
Qed.

Lemma wpg_podRestoreOrderer {R} p h s (Qr : post R) (Q : post RestoreOrderer) :
  (forall h' o, extends h h' -> serves o -> Q h' s o) -> wpg Gate (podRestoreOrderer r p) h s Qr Q.
Proof.
  intros HQ. unfold podRestoreOrderer. destruct (gr_engines r) as [reg|] eqn:Hr.
  - gstep. apply quiet_ActivePodMigration; [exact _|]. intros h' x Hh. gstep. apply HQ; [done|].
    destruct (ForPod _ _ _) as [[eng|] b] eqn:Hf; simpl; [|by left].
    apply ForPod_registered in Hf as [n Hn]. by eapply serves_default.
  - gstep. apply HQ; [apply extends_refl|by left].
Qed.

(** A pod on the way to a cold start. *)
Definition unassigned (p : Pod) : Prop :=
  exists a, p = with_p_annotations a pod0 /\ a !! AnnotationAssignedPMJ = None.

Lemma unassigned_bypass o p : serves o -> unassigned p -> unassigned (bypass o p).
Proof.
  intros Ho (a & -> & Ha). destruct (lawful o Ho) as [_ Hb _ _]. unfold bypass.
  destruct (Hb (with_p_annotations a pod0)) as (b & -> & Hl). exists b. split; [done|]. by rewrite Hl.
Qed.

Lemma gate_removed p : podHasMigrationGate (removeGate p) = false.
Proof.
  unfold podHasMigrationGate, contains, removeGate. cbn [p_schedulingGates with_p_gates]. apply existsb_false.
  intros g [_ Hg]%filter_In. apply negb_true_iff in Hg. by rewrite String.eqb_sym.
Qed.

Lemma cold_bypass o p : serves o -> unassigned p -> cold_started (removeGate (bypass o p)).
Proof.
  intros Ho Hp. split; [apply gate_removed|]. pose proof (unassigned_bypass o p Ho Hp) as (a & Ha & Hn).
  split; [by rewrite Ha|]. split; [by rewrite Ha|]. exists o. split; [done|].
  destruct (lawful o Ho) as [_ Hb Hi Hr]. rewrite (Hr (removeGate (bypass o p)) (bypass o p)) by done. 
  unfold bypass in *. destruct (Hb p) as (b & Hpb & _). rewrite Hpb. by eapply Hi.
Qed.

Lemma same_pod_unassign p : same_pod p -> unassigned (unassign p).
Proof. intros [a ->]. eexists. split; [done|]. cbn. apply lookup_delete_eq. Qed.

Lemma wpg_get_pod {R} h s (Qr : post R) (Q : post Pod) : Q h s (g_pod s) -> wpg Gate get_pod h s Qr Q.
Proof. intros HQ. unfold get_pod. by repeat gstep. Qed.

Lemma wpg_update_and_return h s (Qr : post Outcome) (Q : post Outcome) :
  gate_call h (EUpdatePod (g_pod s)) -> (forall h' s' o, settled h' o -> Q h' s' o) ->
  wpg Gate update_and_return h s Qr Q.
Proof.
  intros Hc HQ. unfold update_and_return, updatePod, mod_pod, ecall. repeat gstep. apply wpg_get_pod. repeat gstep.
  - exact Hc.
  - apply HQ. by left.
  - apply HQ. right. right. eexists _, _. apply saw_now.
Qed.

Lemma wpg_cold_start job h s (Qr : post Outcome) (Q : post Outcome) :
  same_pod (g_pod s) -> (forall h' s' o, settled h' o -> Q h' s' o) ->
  wpg Gate (cold_start r job) h s Qr Q.
Proof.
  intros Hp HQ. unfold cold_start, releaseWithColdStartBypass, mod_pod. do 4 gstep.
  apply (wpg_weaken _ _ _ _ _ (fun _ s' _ => unassigned (g_pod s'))).
  - apply same_pod_unassign in Hp. destruct job as [j|]; repeat gstep; [done| |done].
    cbn. apply unassigned_bypass; [by eapply jobRestoreOrderer_serves|done].
  - intros h1 s1 _ H1. gstep. apply wpg_get_pod. gstep. apply wpg_podRestoreOrderer. intros h2 o _ Ho.
    repeat gstep. apply wpg_update_and_return; [|done]. right. left. by apply cold_bypass.
Qed.

(** A status update whose answer is read back. *)
Lemma wpg_saveStatus f job h s (Qr : post Outcome) (Q : post PodMigrationJob) :
  gate_call h (EUpdateJobStatus (f job)) ->
  (forall h' s' err, Qr h' s' (NoRequeue, Some err)) ->
  (forall s' j, g_pod s' = g_pod s -> consumer_record j = consumer_record (f job) ->
     Q (existT (EUpdateJobStatus (f job)) (inr j) :: h) s' j) ->
  wpg Gate (saveStatus f job) h s Qr Q.
Proof.
  intros Hc Hr HQ. unfold saveStatus, mod_gjob, ecall. repeat gstep; [exact Hc|by apply Hr|].
  by apply HQ.
Qed.

Lemma wpg_checkConsumer j h s (Qr : post Outcome) (Q : post (res bool)) :
  (forall h' x, extends h h' -> match x with inr false => consumer_gone h' j | _ => True end -> Q h' s x) ->
  wpg Gate (checkConsumerPodExists r ns j) h s Qr Q.
Proof.
  intros HQ.
  assert (Hconfirm : forall h0, extends h h0 -> wpg Gate (confirmConsumer r ns j) h0 s Qr Q).
  { intros h0 Hh. unfold confirmConsumer, ecall. repeat gstep; try done;
      (apply HQ; [by apply extends_cons|]); try done.
    - right. left. eexists. split; [apply saw_now|done].
    - destruct (_ ==s _) eqn:E; [done|]. bool_props. right. right. left. eexists. split; [apply saw_now|done]. }
  unfold checkConsumerPodExists. gstep.
  { gstep. apply HQ; [apply extends_refl|]. bool_props. by left. }
  gstep.
  - unfold ecall at 1. repeat gstep; try done.
    + apply HQ; [apply extends_cons; [done|apply extends_refl]|done].
    + apply Hconfirm, extends_cons; [done|apply extends_refl].
    + apply Hconfirm, extends_cons; [done|apply extends_refl].
  - gstep. apply (wpg_weaken _ _ _ _ _ (fun h' s' x => s' = s /\ extends h h' /\ forall pods, x = inr pods ->
      saw h' (EListPodsLive ns) (inr pods) \/ saw h' (EListPods ns AllPods) (inr pods))).
    + assert (Hx : forall e (x : resp e), benign e = true -> extends h (existT e x :: h))
        by (intros; apply extends_cons; [done|apply extends_refl]).
      destruct (gr_hasAPIReader r); (split; [reflexivity|]); intros x _; simpl in x;
        (split; [done|split; [by apply Hx|]]); intros pods ->; [left|right]; apply saw_now.
    + intros h1 s1 x (-> & Hh & Hx). repeat gstep; (apply HQ; [done|]); [done|].
      destruct (existsb _ _) eqn:E; [done|]. right. right. right. eexists. split; [by apply Hx|exact E].
Qed.

(** ** The handlers *)

Section Handlers.
Context (Q : post Outcome).
Context (over : forall h s o, settled h o -> Q h s o).

Lemma safe_fallBack job pmj h s :
  g_pod s = pod0 -> saw h (EGetJob Cache ns pmj) (inr job) ->
  (j_phase job = Failed \/ j_phase job = SucceededWithoutRestore \/ j_snapshotRef job = "") ->
  wpg Gate (fallBack r job) h s Q Q.
Proof.
  intros Hp Hj Hc. unfold fallBack. gstep. apply wpg_get_pod. rewrite Hp. gstep. gstep.
  - bool_props. apply wpg_saveStatus.
    + exists pmj, job. split; [done|]. by left.
    + intros h' s' err. apply over. by left.
    + intros s' j Hs _. apply wpg_cold_start; [|done]. rewrite Hs, Hp. apply same_pod_refl.
  - gstep. apply wpg_cold_start; [|done]. rewrite Hp. apply same_pod_refl.
Qed.

Lemma consumer_record_eq a b : consumer_record a = consumer_record b ->
  j_phase a = j_phase b /\ j_snapshotRef a = j_snapshotRef b /\ consumed (j_status a) = consumed (j_status b) /\
  j_restoredPodUID a = j_restoredPodUID b /\ gateReleased (j_status a) = gateReleased (j_status b).
Proof. unfold consumer_record. by intros [= ? ? ? ? ?]. Qed.

(** After the job was taken over: it is restorable, and this pod's if it has a consumer. *)
Definition taken (h : trace) (s : GateState) (job j : PodMigrationJob) : Prop :=
  g_pod s = pod0 /\ known h j /\ restorable j /\ j_snapshotRef j = j_snapshotRef job /\
  ((consumed (j_status j) = true /\ j_restoredPodUID j = p_uid pod0) \/ (j = job /\ consumed (j_status j) = false)).

Lemma recorded_restorable j job :
  restorable job -> consumer_record j = consumer_record (record_restore now pod0 job) ->
  restorable j /\ j_snapshotRef j = j_snapshotRef job /\ consumed (j_status j) = true /\ j_restoredPodUID j = p_uid pod0.
Proof.
  intros [Hp Hs] (H1 & H2 & H3 & H4 & _)%consumer_record_eq. split; [|done]. split; [by rewrite H1|by rewrite H2].
Qed.

Lemma safe_adopt job pmj h s (Q' : post PodMigrationJob) :
  g_pod s = pod0 -> saw h (EGetJob Cache ns pmj) (inr job) -> restorable job ->
  (forall h' s' j, saw h' (EGetJob Cache ns pmj) (inr job) -> taken h' s' job j -> Q' h' s' j) ->
  wpg Gate (adopt r now ns job) h s Q Q'.
Proof.
  intros Hp Hj Hr HQ. unfold adopt. gstep. apply wpg_get_pod. rewrite Hp. gstep.
  2: { gstep. apply HQ; [done|]. split; [done|]. split; [left; by eexists|]. split; [done|]. split; [done|].
       destruct (consumed (j_status job)); [left|by right]. simpl in *. by bool_props. }
  apply andb_prop in Heqb as [Hc Hu]. gstep.
  - gstep. apply wpg_cold_start; [rewrite Hp; apply same_pod_refl|]. intros. gstep. by apply over.
  - gstep. apply wpg_checkConsumer. intros h1 x Hh Hx. destruct x as [err|[]].
    + gstep. apply over. by left.
    + gstep. apply over. right. left. by vm_compute.
    + apply orb_false_elim in Heqb as [Hph Hg]. apply negb_false_iff, bool_decide_eq_true_1 in Hph.
      apply wpg_saveStatus.
      * exists pmj, job. split; [by eapply saw_extends|]. right. split; [done|]. split; [done|]. by right.
      * intros. apply over. by left.
      * intros s2 j Hs Hrec. destruct (recorded_restorable j job Hr Hrec) as (? & ? & ? & ?).
        apply HQ; [by eapply saw_later, saw_extends|]. split; [congruence|].
        split; [right; eexists; apply saw_now|]. split; [done|]. split; [done|]. by left.
Qed.

(** The record of the consumer and of the open gate, then the gate. *)
Lemma safe_record job pmj h s p (Q' : post PodMigrationJob) j :
  same_pod p -> saw h (EGetJob Cache ns pmj) (inr job) -> restorable job -> g_pod s = p -> 
  known h j /\ restorable j /\ j_snapshotRef j = j_snapshotRef job /\
  ((consumed (j_status j) = true /\ j_restoredPodUID j = p_uid pod0) \/ (j = job /\ consumed (j_status j) = false)) ->
  (forall h' s' j', g_pod s' = p -> consumer_recorded h' j' -> j_snapshotRef j' = j_snapshotRef job -> Q' h' s' j') ->
  wpg Gate (if negb (consumed (j_status j)) then saveStatus (record_restore now p) j else gret j) h s Q Q'.
Proof.
  intros [a ->] Hj Hr Hp (Hk & Hrj & Hsn & Hc) HQ. gstep; bool_props.
  - destruct Hc as [[Hc _]|[-> _]]; [congruence|].
    apply wpg_saveStatus.
    + exists pmj, job. split; [done|]. right. split; [done|]. split; [done|]. by left.
    + intros. apply over. by left.
    + intros s2 j2 Hs Hrec. destruct (recorded_restorable j2 job Hr Hrec) as (? & ? & ? & ?).
      apply HQ; [congruence| |done]. split; [right; eexists; apply saw_now|done].
  - gstep. destruct Hc as [[_ Hu]|[_ Hc]]; [|congruence]. by apply HQ.
Qed.

Lemma safe_restoreRelease job pmj h s :
  g_pod s = pod0 -> saw h (EGetJob Cache ns pmj) (inr job) -> restorable job ->
  wpg Gate (restoreRelease r now ns job) h s Q Q.
Proof.
  intros Hp Hj Hr. unfold restoreRelease. gstep. eapply safe_adopt; [done..|].
  intros h1 s1 ordered Hj1 (Hp1 & Ht). gstep. apply wpg_get_pod. rewrite Hp1.
  destruct (jobRestoreOrderer r ordered) as [err|o] eqn:Ho; [gstep; apply over; by left|].
  destruct (OrderRestore o pod0 ordered) as [err|q] eqn:Hq; [gstep; apply over; by left|].
  destruct (lawful o (jobRestoreOrderer_serves _ _ Ho)) as [Hrest _ _ _]. destruct (Hrest _ _ _ Hq) as [a Ha].
  unfold mod_pod, mod_gjob. do 3 gstep. eapply (safe_record job pmj); [by exists a|done|done|done|exact Ht|].
  intros h2 s2 j Hp2 Hrec Hsn. gstep.
  apply (wpg_weaken _ _ _ _ _ (fun h' s' _ => g_pod s' = q /\ consumer_recorded h' j /\ opening_recorded h' j)).
  - gstep; [|gstep; bool_props; split; [done|split; [done|by left]]].
    unfold ecall. repeat gstep.
    + split; [done|exact Hrec].
    + apply over. by left.
    + split; [done|]. split; [|right; eexists; apply saw_now].
      destruct Hrec as ([[n Hk]|[n Hk]] & Hrec); (split; [|done]); [left|right]; exists n; by apply saw_later.
  - intros h3 s3 _ (Hp3 & Hrec3 & Hop3). unfold updatePod, mod_pod, ecall. do 4 gstep.
    apply wpg_get_pod. repeat gstep.
    + right. right. exists o, ordered, j, q. cbn [g_pod]. rewrite Hp3. destruct Ht as (_ & _ & Hs & _).
      repeat (split; [done|]). split; [congruence|done].
    + apply over. by left.
    + apply wpg_get_pod. gstep. gstep.
      * split; [reflexivity|]. intros x1 _. apply over. right. right. eexists _, _. apply saw_later, saw_now.
      * gstep. apply over. right. right. eexists _, _. apply saw_now.
Qed.

Lemma durable_phases p (empty b : bool) :
  (p ==p Restoring) || (p ==p Succeeded) || (p ==p SucceededWithoutRestore) || (p ==p Failed) = true ->
  (p ==p Failed) || (p ==p SucceededWithoutRestore) || empty = b ->
  if b then p = Failed \/ p = SucceededWithoutRestore \/ empty = true
  else (p = Restoring \/ p = Succeeded) /\ empty = false.
Proof. intros ? <-. destruct p, empty; vm_compute; naive_solver. Qed.

Lemma safe_withJob job pmj h s :
  g_pod s = pod0 -> saw h (EGetJob Cache ns pmj) (inr job) -> wpg Gate (withJob r now ns job) h s Q Q.
Proof.
  intros Hp Hj. unfold withJob. gstep. gstep. gstep; [|gstep; apply over; right; left; by vm_compute].
  gstep.
  - eapply safe_fallBack; [done..|]. apply (durable_phases _ _ _ Heqb) in Heqb0 as [?|[?|?]]; bool_props; auto.
  - eapply safe_restoreRelease; [done..|]. apply (durable_phases _ _ _ Heqb) in Heqb0 as [? ?]. by bool_props.
Qed.

Lemma safe_reconcileAssigned pmj h s :
  g_pod s = pod0 -> wpg Gate (reconcileAssigned r now ns pmj) h s Q Q.
Proof.
  intros Hp. assert (Hs : same_pod (g_pod s)) by (rewrite Hp; apply same_pod_refl).
  unfold reconcileAssigned. gstep. apply wpg_get_pod. rewrite Hp. gstep.
  apply quiet_ResolveParent; [exact _|]. intros h1 x _.
  destruct (match x with inl err => _ | inr p => _ end) as [err|parent]; [gstep; apply over; by left|].
  gstep. apply quiet_ResolveCollision; [exact _|]. intros h2 [err|[corrected []]] _; [gstep; apply over; by left| |].
  - gstep; [|by apply wpg_cold_start; [|auto]]. unfold mod_pod. do 2 gstep. apply wpg_update_and_return; [|auto].
    left. exists corrected. bool_props. cbn. by rewrite Hp.
  - gstep. unfold ecall at 1. gstep; [done|]. gstep; [gstep|].
    + unfold jobMissing, ecall. gstep. gstep; [done|]. gstep; [gstep; [gstep; apply over; by left|]|].
      * by apply wpg_cold_start; [|auto].
      * gstep. apply over. right. left. by vm_compute.
    + gstep. apply over. by left.
    + eapply safe_withJob; [done|apply saw_now].
Qed.
End Handlers.

Definition gate_settled (h : trace) (o : Outcome) : Prop :=
  podHasMigrationGate pod0 = false \/ p_deleting pod0 = true \/ settled h o.

Lemma settled_extends h h' o : extends h h' -> gate_settled h o -> gate_settled h' o.
Proof.
  intros Hh [?|[?|[?|[?|(p & p' & ?)]]]]; [by left|by right; left|right; right..];
    [by left|by right; left|right; right]. exists p, p'. by eapply saw_extends.
Qed.

Lemma safe_reconcilePod :
  wpf Gate (reconcilePod r now ns) [] (mkGateState pod0 None) (fun h _ o => gate_settled h o).
Proof.
  unfold reconcilePod. gstep. gstep.
  apply wpg_invoke, (wpf_conseq _ _ _ _ _ (fun h _ o => gate_settled h o)).
  - unfold reconcileGate. gstep. gstep. apply wpg_get_pod. gstep; [gstep; left; by bool_props|].
    gstep; [gstep; by right; left|]. cbv zeta.
    assert (Hover : forall h (s : GateState) o, settled h o -> gate_settled h o) by (intros; by right; right).
    gstep; [apply wpg_cold_start; [apply same_pod_refl|eauto]|by apply safe_reconcileAssigned].
  - intros h s o Ho. gstep.
    assert (Hq : quiet (R := Outcome) (evaluateGateInvariants r now (snd o))).
    { unfold evaluateGateInvariants. quiet_tac. }
    apply Hq; [exact _|]. intros h' [] Hh. gstep. by eapply settled_extends.
Qed.
End Contract.

(** ** Passes *)

Section Pass.
Context `{KubeLib} `{DNSLib}.
Context (r : GateReconciler) (now : Z) (ns name : string) (pod0 : Pod).
Context (lawful : forall o, serves r o -> LawfulOrderer o).

(** A pass that read [pod0], made the calls [t] after that and ended in [o]. *)
Definition gate_pass (t : @trace Ev resp) (o : Outcome) : Prop :=
  exec (ReconcileGate r now ns name) (existT (EGetPod Cache ns name) (inr pod0) :: t) o /\
  Forall (fun s => gate_honest (projT1 s) (projT2 s)) t.

Lemma gate_pass_safe t o :
  gate_pass t o -> obeys (Gate r now ns pod0) [] t /\ gate_settled pod0 (rev t) o.
Proof.
  intros [Hx Hf]. unfold ReconcileGate in Hx. apply exec_answered in Hx.
  apply exec_pbind in Hx as (t1 & t2 & [s o'] & -> & Hx & Hd). apply exec_inv in Hd as [-> ->].
  rewrite app_nil_r in *. by apply (wpf_exec _ _ _ _ _ _ _ (safe_reconcilePod r now ns pod0 lawful) Hx).
Qed.

(** The pass called [e] after the calls [before], newest first. *)
Definition gate_calls (before after : @trace Ev resp) (o : Outcome) (e : Ev) (x : resp e) : Prop :=
  gate_pass (rev before ++ existT e x :: after) o.

Lemma gate_allowed before after o e x : gate_calls before after o e x -> gate_call r now ns pod0 before e.
Proof. intros [Hx _]%gate_pass_safe. apply obeys_at in Hx. by rewrite rev_involutive in Hx. Qed.

(** C9: The gate of a pod is opened only with an order for its runtime: the
    cold-start bypass, on a pod that no longer names a job; or the restore of a
    durable snapshot, of a Restoring or Succeeded job that records this pod as its
    consumer and the gate as open, both acknowledged by the API server before. *)
Theorem gate_opens_with_order before after o p x :
  gate_calls before after o (EUpdatePod p) x -> podHasMigrationGate pod0 = true -> podHasMigrationGate p = false ->
  cold_started r pod0 p \/ restore_released r ns pod0 before p.
Proof. intros [(pmj & _ & ->)|?]%gate_allowed Hg Hp; [|done]. change (podHasMigrationGate pod0 = false) in Hp. congruence. Qed.

(** C10: A job is given to this pod only as it was read: unconsumed; or Restoring,
    its gate not recorded as open, and its recorded consumer gone on the API
    server's word.  A Failed or restoreless job is only marked consumed. *)
Theorem gate_consumes_once before after o new x :
  gate_calls before after o (EUpdateJobStatus new) x ->
  exists pmj j, saw before (EGetJob Cache ns pmj) (inr j) /\ takes_over r now ns pod0 before j new.
Proof. by intros ?%gate_allowed. Qed.

(** A pass makes no write but of the pod, of the job's consumer and of its
    open gate; it never moves a job to another phase or snapshot. *)
Theorem gate_keeps_phase before after o e x :
  gate_calls before after o e x -> benign e = false ->
  match e with
  | EUpdatePod _ => True
  | EUpdateJobStatus new => exists pmj j, saw before (EGetJob Cache ns pmj) (inr j) /\
      j_phase new = j_phase j /\ j_snapshotRef new = j_snapshotRef j
  | EPatchJobStatus j new => j_phase new = j_phase j /\ j_snapshotRef new = j_snapshotRef j /\
      j_restoredPodUID j = p_uid pod0
  | _ => False
  end.
Proof.
  intros Hc%gate_allowed Hb. destruct e; simpl in Hc, Hb; try congruence; try done.
  - destruct Hc as (-> & _ & _ & _ & Hu). done.
  - destruct Hc as (pmj & j & Hs & Ht). exists pmj, j. split; [done|]. by destruct Ht as [[-> _]|[-> _]].
Qed.

(** A gated pod is never forgotten: a pass over a gated pod that is not being
    deleted ends with an error or a delayed requeue (it runs again), or has
    updated the pod (whose event brings it back while its gate is closed). *)
Theorem gated_pod_retried t o :
  gate_pass t o -> podHasMigrationGate pod0 = true -> p_deleting pod0 = false ->
  snd o <> None \/ 0 < r_requeueAfter (fst o) \/ exists p p', saw (rev t) (EUpdatePod p) (inr p').
Proof. intros [_ [Hg|[Hg|Hs]]]%gate_pass_safe ? ?; [congruence|congruence|exact Hs]. Qed.
End Pass.

(** ** Witnesses *)

Definition gate_reconciler : GateReconciler := mkGateReconciler true true true None.

Lemma gate_reconciler_lawful o : serves gate_reconciler o -> LawfulOrderer o.
Proof. intros [->|(reg & n & e & [=] & _)]. apply gke_lawful. Qed.

Definition replacement : Pod :=
  with_p_gates [MigrationGate] (with_p_annotations {[ AnnotationAssignedPMJ := "pmj-web" ]}
    (empty_pod (mkMeta "web-1" "shop" "" "uid-new" "9" 0 ∅ ∅ (1060 * Second) None None [] []))).

Definition durable_job : PodMigrationJob := set_snapshotRef "snap-1" (sample_job Restoring).

(** An API server with the gated replacement and its job, of which an earlier
    replacement is the consumer. *)
Definition gated (job : PodMigrationJob) (e : Ev) : resp e :=
  match e return resp e with
  | EGetPod Cache _ _ => inr replacement
  | EGetPod Live _ _ => inl (mkErr NotFound "")
  | e => accept job replacement e
  end.

Definition stranded_job : PodMigrationJob :=
  set_restoredPodUID "uid-old" (set_restoredPodName "web-1" (set_consumed true durable_job)).

Definition gate_honestb (s : @step Ev resp) : bool :=
  let 'existT e x := s in
  match e return resp e -> bool with
  | EUpdateJobStatus new => fun x => match x with inr j => bool_decide (consumer_record j = consumer_record new) | inl _ => true end
  | _ => fun _ => true
  end x.

Lemma gate_honestb_honest s : gate_honestb s = true -> gate_honest (projT1 s) (projT2 s).
Proof. destruct s as [[] []]; simpl; try done; apply bool_decide_eq_true_1. Qed.

Definition gate_run (reply : forall e, resp e) : @trace Ev resp :=
  let _ := dns_ref in tl (trace_of reply (ReconcileGate gate_reconciler at_1100 "shop" "web-1")).

Definition gate_result (reply : forall e, resp e) : Outcome :=
  let _ := dns_ref in result_of reply (ReconcileGate gate_reconciler at_1100 "shop" "web-1").

Lemma gate_run_pass (reply : forall e, resp e) :
  reply (EGetPod Cache "shop" "web-1") = inr replacement -> forallb gate_honestb (gate_run reply) = true ->
  @gate_pass _ dns_ref gate_reconciler at_1100 "shop" "web-1" replacement (gate_run reply) (gate_result reply).
Proof.
  intros Hp Hf. split.
  - unfold gate_run, gate_result. cbv zeta. pose proof (exec_static reply (@ReconcileGate _ dns_ref gate_reconciler at_1100 "shop" "web-1")) as Hx.
    unfold ReconcileGate in *. rewrite trace_of_call in Hx. rewrite Hp in Hx. exact Hx.
  - apply Forall_forall. intros s Hs. apply gate_honestb_honest. rewrite forallb_forall in Hf. by apply Hf, list_elem_of_In.
Qed.

(** A run's call number [n], which passes the test [ok]. *)
Definition gate_passes (reply : forall e, resp e) (n : nat) (ok : @step Ev resp -> bool) : bool :=
  match gate_run reply !! n with Some s => ok s | None => false end && forallb gate_honestb (gate_run reply).

Lemma gate_run_calls (reply : forall e, resp e) n ok :
  reply (EGetPod Cache "shop" "web-1") = inr replacement -> gate_passes reply n ok = true ->
  exists before after e x, ok (existT e x) = true /\
    @gate_calls _ dns_ref gate_reconciler at_1100 "shop" "web-1" replacement before after (gate_result reply) e x.
Proof.
  unfold gate_passes. intros Hp [Hok Hf]%andb_prop. destruct (gate_run reply !! n) as [[e x]|] eqn:He; [|done].
  exists (rev (take n (gate_run reply))), (drop (S n) (gate_run reply)), e, x. split; [done|].
  unfold gate_calls. rewrite rev_involutive, take_drop_middle by done. by apply gate_run_pass.
Qed.

Ltac gate_run_of reply n ok :=
  let b := fresh "before" in let a := fresh "after" in let e := fresh "e" in let x := fresh "x" in
  let Hok := fresh "Hok" in let Hc := fresh "Hc" in
  destruct (gate_run_calls reply n ok eq_refl) as (b & a & e & x & Hok & Hc);
    [vm_compute; reflexivity|];
  destruct e; try discriminate Hok; cbn in Hok.

Lemma gate_opens_with_order_witness :
  exists before p, cold_started gate_reconciler replacement p \/ restore_released gate_reconciler "shop" replacement before p.
Proof.
  gate_run_of (gated durable_job) 5%nat
    (fun s : @step Ev resp => match projT1 s with EUpdatePod p => negb (podHasMigrationGate p) | _ => false end).
  exists before, pod. apply negb_true_iff in Hok.
  exact (gate_opens_with_order _ _ _ _ _ gate_reconciler_lawful _ _ _ _ _ Hc eq_refl Hok).
Defined.

Lemma gate_consumes_once_witness :
  exists before new pmj j, saw before (EGetJob Cache "shop" pmj) (inr j) /\
    takes_over gate_reconciler at_1100 "shop" replacement before j new.
Proof.
  gate_run_of (gated stranded_job) 5%nat
    (fun s : @step Ev resp => match projT1 s with EUpdateJobStatus _ => true | _ => false end).
  exists before, job. exact (gate_consumes_once _ _ _ _ _ gate_reconciler_lawful _ _ _ _ _ Hc).
Defined.

Lemma gate_keeps_phase_witness :
  exists before pmj j new, saw before (EGetJob Cache "shop" pmj) (inr j) /\
    j_phase new = j_phase j /\ j_snapshotRef new = j_snapshotRef j.
Proof.
  gate_run_of (gated (sample_job Failed)) 3%nat
    (fun s : @step Ev resp => match projT1 s with EUpdateJobStatus _ => true | _ => false end).
  destruct (@gate_keeps_phase _ dns_ref _ _ _ _ _ gate_reconciler_lawful _ _ _ _ _ Hc eq_refl) as (pmj & j & Hj).
  by exists before, pmj, j, job.
Defined.

Lemma gated_pod_retried_witness :
  let o := gate_result (gated (sample_job Snapshotting)) in
  snd o <> None \/ 0 < r_requeueAfter (fst o) \/
  exists p p', saw (rev (gate_run (gated (sample_job Snapshotting)))) (EUpdatePod p) (inr p').
Proof.
  apply (@gated_pod_retried _ dns_ref gate_reconciler at_1100 "shop" "web-1" replacement gate_reconciler_lawful); [|reflexivity|reflexivity].
  apply gate_run_pass; [reflexivity|vm_compute; reflexivity].
Defined.
