(* ===== verification/GateWebhook.v ===== *)
(** * The replacement webhook (internal/webhook/replacement_webhook.go)

    At its creation an opted-in pod is either given the scheduling gate and the
    job it takes over, or, when no job waits for it, ordered to start cold. *)
From S2P Require Import Prelude Effects GoLib Kube Interfaces Calls Engine PodUtil JobBase Assignment AssignmentLaws.
From S2P Require Import Admission PodGateLaws Instances.

Definition with_namespace (ns : string) (m : ObjectMeta) : ObjectMeta :=
  mkMeta (m_name m) ns (m_generateName m) (m_uid m) (m_resourceVersion m) (m_generation m)
    (m_labels m) (m_annotations m) (m_creationTimestamp m) (m_deletionTimestamp m)
    (m_deletionGracePeriodSeconds m) (m_owners m) (m_finalizers m).

(** [if pod.Namespace == "" { pod.Namespace = req.Namespace }] *)
Definition namespaced (req : AdmissionRequest) (pod : Pod) : Pod :=
  if p_namespace pod ==s "" then with_p_meta (with_namespace (rq_namespace req) (p_meta pod)) pod else pod.

(** The pod held for the job [pmj]. *)
Definition gated_for (pmj : string) (pod : Pod) : Pod :=
  with_p_annotations (<[AnnotationAssignedPMJ := pmj]> (p_annotations pod))
    (with_p_gates (p_schedulingGates pod ++ [MigrationGate])%list pod).

(** The answer for a pod that no job waits for. *)
Definition cold_start (pod : Pod) : Response :=
  if sget (p_annotations pod) gkeRestoreAnnotation !=s "" then
    Allowed "preserving pre-existing podsnapshot.gke.io/ps-name annotation"
  else PatchTo (with_p_annotations (<[gkeRestoreAnnotation := ""]> (p_annotations pod)) pod).

Definition hold (pmj : string) (pod : Pod) : Response :=
  if podHasMigrationGate pod then Allowed "scheduling gate already present" else PatchTo (gated_for pmj pod).

Section Gate.
Context (hasAPIReader : bool).
Abbreviation W A := (gom resp unit Response A).

(** A parent that is gone leaves a bare pod; another error answers 500. *)
Definition parentOf (pod : Pod) : W Parent :=
  let* x := ResolveParentWorkload pod in
  match x with
  | inr p => gret p
  | inl err => if IsNotFound err then gret no_parent else greturn (Errored StatusInternalServerError err)
  end.

Definition findPMJ (ns : string) (c : Claim) (indexed : bool) : W string :=
  let* x := FindUnassignedActivePMJ ns c indexed in
  match x with
  | inr name => gret name
  | inl err => greturn (Errored StatusInternalServerError err)
  end.

Definition replica_key (pod : Pod) (parent : Parent) (otherwise : string) : string :=
  if negb (IsBuiltInWorkloadKind (pa_kind parent)) then default "" (ResolveOperatorReplicaKey pod (pa_kind parent)) else otherwise.

Definition pod_claim (pod : Pod) (parent : Parent) (replicaKey : string) : Claim :=
  mkClaim (p_name pod) parent (sget (p_labels pod) DefaultDeploymentUniqueLabelKey)
    (sget (p_labels pod) LabelJobCompletionIndex) replicaKey.

(** The search through the API server, after a miss of the cache. *)
Definition findLivePMJ (pod : Pod) (replicaKey : string) : W string :=
  let* liveParent := parentOf pod in
  findPMJ (p_namespace pod) (pod_claim pod liveParent (replica_key pod liveParent replicaKey)) false.

Definition PodGateInjector_Handle (req : AdmissionRequest) : fn resp unit Response := gfun (
  match rq_pod req with
  | inl err => gret (Errored StatusBadRequest err)
  | inr pod0 =>
      let pod := namespaced req pod0 in
      if sget (p_labels pod) "pod-migration.gke.io/enabled" !=s "true" then gret (Allowed "pod not opted in")
      else
        let* parent := parentOf pod in
        let replicaKey := replica_key pod parent "" in
        let* cached := findPMJ (rq_namespace req) (pod_claim pod parent replicaKey) true in
        let* assignedPMJ := (if (cached ==s "") && hasAPIReader then findLivePMJ pod replicaKey else gret cached) in
        if assignedPMJ ==s "" then gret (cold_start pod)
        else gret (hold assignedPMJ pod)
  end).

End Gate.

(** ** When the live search finds nothing *)

Definition live_candidates (c : Claim) (jobs : list PodMigrationJob) : list PodMigrationJob :=
  let candidates := filterCandidates c jobs in
  if match candidates with [] => legacy_claim c | _ => false end
  then filterCandidates (bare_claim (cl_podName c)) jobs else candidates.

(** The pods that have opted in, as the live search lists them. *)
Definition enabled_pods : PodQuery := PodsMatching (Some [("pod-migration.gke.io/enabled", "true")]).

(** By the listed pods, the job's source is still alive while its phase needs it
    gone, or another pod has the job. *)
Definition passed_over (pods : list Pod) (j : PodMigrationJob) : bool :=
  requiresSourceGone (j_phase j) && source_listed pods j || listed_as_assigned pods (j_name j).

(** A live sibling of the operator's pod shares the key of a candidate. *)
Definition sibling_seen (ns : string) (c : Claim) (h : @trace Ev resp) : Prop :=
  let p := cl_parent c in
  exists pods q j, saw h (EListPods ns AllPods) (inr pods) /\ In q pods /\
    ambiguous_sibling (pa_name p) (pa_kind p) (pa_uid p) (cl_replicaKey c) [j_targetUID j; j_podName j; cl_podName c] q = true.

(** The API server's list of jobs (which all have names) holds none that the pod could take. *)
Definition refused (ns : string) (c : Claim) (h : @trace Ev resp) : Prop :=
  exists jobs, saw h (EListJobs ns AllJobs) (inr jobs) /\
    ((forall j, In j jobs -> j_name j <> "") ->
     live_candidates c jobs = [] \/ sibling_seen ns c h \/
     exists pods, saw h (EListPods ns enabled_pods) (inr pods) /\
       forall j, In j (live_candidates c jobs) -> passed_over pods j = true).

Section Live.
Context {S R : Type} (M : @monitor Ev resp) `{!Tolerant M} (ns : string) (c : Claim) (Qr : @trace Ev resp -> S -> R -> Prop).

Lemma sibling_extends h h' : extends h h' -> sibling_seen ns c h -> sibling_seen ns c h'.
Proof. intros Hh (pods & q & j & Hs & Hq). exists pods, q, j. split; [by eapply saw_extends|done]. Qed.

Lemma refused_extends h h' : extends h h' -> refused ns c h -> refused ns c h'.
Proof.
  intros Hh (jobs & Hs & Hj). exists jobs. split; [by eapply saw_extends|].
  intros Hn. destruct (Hj Hn) as [?|[?|(pods & Hp & Ha)]]; [by left|right; left; by eapply sibling_extends|].
  right. right. exists pods. split; [by eapply saw_extends|done].
Qed.

Lemma wpg_ambiguous_sibling j h s (Q : @trace Ev resp -> S -> res bool -> Prop) :
  (forall h' x, extends h h' -> (x = inr true -> sibling_seen ns c h') -> Q h' s x) ->
  wpg M (ambiguous ns c j) h s Qr Q.
Proof.
  intros HQ. unfold ambiguous, HasAmbiguousOperatorSibling. gstep; [|gstep; apply HQ; eauto with podmig; done].
  gstep. gstep; [gstep; gstep; apply HQ; eauto with podmig; done|].
  unfold ecall. gstep. gstep; [by apply tolerant|]. gstep; repeat gstep; (apply HQ; [by apply extends_cons; [|apply extends_refl]|]); [done|].
  destruct (List.find _ _) as [q|] eqn:Hf; [|done]. intros _. apply List.find_some in Hf as [Hq Ha].
  eexists _, q, j. split; [apply saw_now|done].
Qed.

Lemma wpg_first_unlisted_none pods l h s :
  wpg M (first_unlisted ns c pods l) h s Qr (fun h' s' x => extends h h' /\ s' = s /\ (x = inr "" -> (forall j, In j l -> j_name j <> "") ->
    sibling_seen ns c h' \/ forall j, In j l -> passed_over pods j = true)).
Proof.
  revert h. induction l as [|j l IH]; intros h; simpl.
  { gstep. split; [apply extends_refl|]. split; [done|]. by right. }
  gstep. apply wpg_ambiguous_sibling. intros h1 a Hh1 Ha.
  assert (Hnext : passed_over pods j = true ->
    wpg M (first_unlisted ns c pods l) h1 s Qr (fun h' s' x => extends h h' /\ s' = s /\ (x = inr "" -> (forall k, j = k \/ In k l -> j_name k <> "") ->
      sibling_seen ns c h' \/ forall k, j = k \/ In k l -> passed_over pods k = true))).
  { intros Hj. eapply wpg_weaken; [apply IH|]. intros h2 s2 x (Hh2 & -> & Hx). split; [by eapply extends_trans|]. split; [done|].
    intros Hn Hnames. destruct (Hx Hn) as [Hs|Hall]; [auto|by left|]. right. intros k [<-|Hk]; auto. }
  destruct a as [err|[]]; [by gstep|gstep; split; [done|]; split; [done|]; left; auto|].
  gstep; [apply Hnext; unfold passed_over; by rewrite Heqb|].
  gstep; [|apply Hnext; unfold passed_over; apply orb_true_iff; right; by apply negb_false_iff].
  gstep. split; [done|]. split; [done|]. intros [= Hn] Hnames. by destruct (Hnames j (or_introl eq_refl)).
Qed.

Lemma live_candidates_listed jobs j : In j (live_candidates c jobs) -> In j jobs.
Proof. unfold live_candidates. cbv zeta. case_match; by intros [? _]%filterCandidates_sound. Qed.

Lemma wpg_live_none h s :
  wpg M (FindUnassignedActivePMJ ns c false) h s Qr (fun h' s' x => x = inr "" -> refused ns c h').
Proof.
  unfold FindUnassignedActivePMJ, find_live, ecall. gstep. gstep; [by apply tolerant|].
  destruct x as [err|jobs]; [by gstep|]. cbv zeta. fold (live_candidates c jobs).
  destruct (live_candidates c jobs) as [|j l] eqn:Hl.
  - gstep. intros _. exists jobs. split; [apply saw_now|]. by left.
  - gstep. gstep; [by apply tolerant|]. destruct x as [err|pods]; [by gstep|].
    eapply wpg_weaken; [apply wpg_first_unlisted_none|]. intros h' s' x (Hh & _ & Hx) Hn. exists jobs.
    split; [eauto with podmig|]. intros Hnames. right. destruct (Hx Hn) as [Hs|Hall]; [|by left|right].
    + intros k Hk. apply Hnames, live_candidates_listed. by rewrite Hl.
    + rewrite Hl. exists pods. split; [eauto with podmig|done].
Qed.

(** The live search answers a job the pod may take over, or there is none. *)
Lemma wpg_find_live h s (Q : @trace Ev resp -> S -> res string -> Prop) :
  (forall h' x, extends h h' -> answers_takeable ns c h' x -> (x = inr "" -> refused ns c h') -> Q h' s x) ->
  wpg M (FindUnassignedActivePMJ ns c false) h s Qr Q.
Proof.
  intros HQ. eapply wpg_weaken; [apply wpg_and|].
  - apply (wpg_FindUnassigned M ns c Qr false h s (fun h' s' x => s' = s /\ extends h h' /\ answers_takeable ns c h' x)). auto.
  - apply (wpg_live_none h s).
  - intros h' s' x [(-> & Hh & Ha) Hr]. by apply HQ.
Qed.
End Live.

(** ** The answer *)

#[local] Instance any_tolerant : Tolerant (open (fun _ _ => True)).
Proof. by intros h e _. Qed.

(** A search of this request: by the pod's name and replica keys, under some parent. *)
Definition searches_for (pod : Pod) (c : Claim) : Prop := exists parent key, c = pod_claim pod parent key.

(** [name] is a job that, by the reads [h], the pod may take over. *)
Definition takes (req : AdmissionRequest) (pod : Pod) (h : @trace Ev resp) (name : string) : Prop :=
  exists ns c j, (ns = rq_namespace req \/ ns = p_namespace pod) /\ searches_for pod c /\ j_name j = name /\ takeable ns c h j.

Definition gate_answer (hasAPIReader : bool) (req : AdmissionRequest) (pod : Pod) (h : @trace Ev resp) (r : Response) : Prop :=
  (exists err, r = Errored StatusInternalServerError err) \/
  (exists name, name <> "" /\ takes req pod h name /\ r = hold name pod) \/
  ((hasAPIReader = true -> exists c, searches_for pod c /\ refused (p_namespace pod) c h) /\ r = cold_start pod).

Lemma takeable_extends ns c h h' j : extends h h' -> takeable ns c h j -> takeable ns c h' j.
Proof.
  intros Hh (H1 & H2 & H3 & H4 & H5). split; [done|]. split; [by eapply listed_extends|].
  split; [by eapply seen_gone_extends|]. split; [|by eapply unambiguous_extends].
  destruct H4 as [H4|(sel & pods & H4 & H4')]; [left; by eapply saw_extends|right].
  exists sel, pods. split; [by eapply saw_extends|done].
Qed.

Section Answer.
Context (hasAPIReader : bool) (req : AdmissionRequest) (pod : Pod).
Abbreviation M := (open (fun (_ : @trace Ev resp) (_ : Ev) => True)).
Abbreviation returns := (fun (h : @trace Ev resp) (_ : unit) (r : Response) => gate_answer hasAPIReader req pod h r).

Lemma answer_error h err : gate_answer hasAPIReader req pod h (Errored StatusInternalServerError err).
Proof. left. by eexists. Qed.

Lemma wpg_parentOf h (Q : @trace Ev resp -> unit -> Parent -> Prop) :
  (forall h' p, extends h h' -> Q h' tt p) -> wpg M (parentOf pod) h tt returns Q.
Proof.
  intros HQ. unfold parentOf. gstep. apply quiet_ResolveParent; [apply _|]. intros h' x Hh.
  destruct x as [err|p]; [gstep; gstep; [auto|apply answer_error]|gstep; auto].
Qed.

Lemma wpg_findLive h key (Q : @trace Ev resp -> unit -> string -> Prop) :
  (forall h' name, (name <> "" -> takes req pod h' name) ->
     (name = "" -> exists c, searches_for pod c /\ refused (p_namespace pod) c h') -> Q h' tt name) ->
  wpg M (findLivePMJ pod key) h tt returns Q.
Proof.
  intros HQ. unfold findLivePMJ. gstep. apply wpg_parentOf. intros h1 p Hh1. unfold findPMJ. gstep.
  apply wpg_find_live; [apply _|]. intros h2 x Hh2 Ha Hr. destruct x as [err|name]; gstep; [apply answer_error|].
  apply HQ.
  - intros Hn. destruct (Ha name eq_refl Hn) as (j & Hj & Ht). eexists _, _, j.
    split; [by right|]. split; [by eexists _, _|]. by split.
  - intros ->. eexists. split; [by eexists _, _|]. by apply Hr.
Qed.

Lemma wpg_gate_answer pod0 h :
  rq_pod req = inr pod0 -> pod = namespaced req pod0 -> sget (p_labels pod) "pod-migration.gke.io/enabled" = "true" ->
  wpf M (PodGateInjector_Handle hasAPIReader req) h tt returns.
Proof.
  intros Hp Hpod He. unfold PodGateInjector_Handle. rewrite Hp. cbv zeta. rewrite <- Hpod, He, seqb_refl. cbn [negb].
  gstep. gstep. apply wpg_parentOf. intros h1 p Hh1. unfold findPMJ at 1. gstep. gstep.
  apply wpg_FindUnassigned; [apply _|]. intros h2 x Hh2 Ha. destruct x as [err|name]; gstep; [apply answer_error|].
  assert (name <> "" -> takes req pod h2 name) as Ht.
  { intros Hn. destruct (Ha name eq_refl Hn) as (j & Hj & Ht). eexists _, _, j.
    split; [by left|]. split; [by eexists _, _|]. by split. }
  clear Ha. gstep. destruct ((name ==s "") && hasAPIReader) eqn:Hl.
  - apply wpg_findLive. intros h3 found Hf Hr. destruct (found ==s "") eqn:Hn; gstep; bool_props; right; [right|left]; eauto.
  - gstep. destruct (name ==s "") eqn:Hn; gstep; bool_props; right; [right|left]; [|eauto].
    split; [|done]. intros ->. done.
Qed.
End Answer.


(** A pod of a workload that no job waits for. *)
Definition scaled_up : Pod :=
  with_p_meta (mkMeta "web-9" "" "web-" "" "" 0 {[ "pod-migration.gke.io/enabled" := "true" ]} ∅ zero_time None None
                 [mkOwnerReference "StatefulSet" "web" "uid-sts" true "apps/v1"] []) sample_pod.
Definition creation : AdmissionRequest := mkRequest "CREATE" "" "shop" "" None (inr scaled_up).

Definition no_jobs (e : Ev) : resp e :=
  match e return resp e with EListJobs _ _ => inr [] | e => answer_fail e end.

