(* ===== verification/EvictionGate.v ===== *)
(** * The eviction webhook (internal/webhook/eviction_webhook.go)

    An eviction of an opted-in pod starts its migration and is answered 429
    until the checkpoint is complete; the evictor retries.  The answer must come
    before the API server gives up, so the calls share a deadline ([handlerBudget]):
    past it they fail, which the environment's answers cover. *)
From S2P Require Import Prelude Effects GoLib Kube Interfaces Calls Eligibility Engine PodUtil JobBase Budget Assignment.
From S2P Require Import ActiveMigration Spawn Admission.

Definition defaultHandlerBudget : Z := 4 * Second.

(** The "timeout" parameter of the request's URL, if it is a positive duration. *)
Definition contextWithAdmissionTimeout (timeout : string) : option Z :=
  match ParseDuration timeout with
  | Some d => if d <=? 0 then None else Some d
  | None => None
  end.

Definition handlerBudget (timeout : option Z) : Z :=
  match timeout with
  | Some d => d - Z.quot d 5
  | None => defaultHandlerBudget
  end.

(** The handler's optional members. *)
Record EvictionGate := mkEvictionGate {
  eg_hasAPIReader : bool;
  eg_hasRecorder : bool;
  eg_defaultMigrationTimeout : Z;
  eg_eligibility : option RuntimeClassPolicy;
  eg_engines : option Registry }.

Definition staleOriginDrainPostCompletionWindow : Z := 15 * Second.

Section Gate.
Context `{KubeLib} `{DNSLib}.
Context (a : EvictionGate) (now : Z).
Abbreviation W A := (gom resp unit Response A).

(** A nil policy is the default one. *)
Definition eligibilityPolicy : RuntimeClassPolicy :=
  match eg_eligibility a with
  | Some p => p
  | None => default (mkPolicy ∅ false) defaultPolicy
  end.

(** A registry routes only to registered engines, so that an engine is nil only
    when none serves the pod. *)
Definition engineFor (pod : Pod) (pm : option PodMigration) : option Engine :=
  match eg_engines a with
  | Some reg => let '(eng, ok) := ForPod reg (Some pod) pm in if ok : bool then eng else None
  | None => Some GKEPodSnapshots
  end.

Definition record (pod : Pod) (type reason message : string) : W unit :=
  gwhen (eg_hasRecorder a) (ecall (EEvent (about_pod pod) type reason message)).

(** A read of the cache; a miss is confirmed by the API server. *)
Definition getJob (ns name : string) : W (res PodMigrationJob) :=
  let* x := ecall (EGetJob Cache ns name) in
  match x with
  | inl err => if IsNotFound err && eg_hasAPIReader a then ecall (EGetJob Live ns name) else gret (inl err)
  | inr job => gret (inr job)
  end.

(** ** The job a replacement was made for *)

Definition isStaleOriginDrainRetry (pod : Pod) (job : PodMigrationJob) : W bool :=
  if (j_podName job !=s p_name pod) || (j_targetUID job ==s p_uid pod) then gret false
  else
    let originNodeName := originNodeName (j_status job) in
    if (originNodeName ==s "") || (p_nodeName pod ==s originNodeName) then gret false
    else
      let* ok :=
        (if p_nodeName pod !=s "" then
           let* x := ecall (EGetNode (p_nodeName pod)) in
           gret (match x with inl _ => false | inr targetNode => negb (n_unschedulable targetNode) end)
         else gret true) in
      if negb ok then gret false
      else
        let* x := ecall (EGetNode originNodeName) in
        gret (match x with inl _ => false | inr originNode => n_unschedulable originNode end).

Definition migration_in_flight (p : JobPhase) : bool := (p ==p Snapshotting) || (p ==p Evicting) || (p ==p Restoring).

(** [(restoringJob, staleOriginDrain)] *)
Definition checkAssignedMigrationJob (pod : Pod) : W (res (string * bool)) :=
  let name := sget (p_annotations pod) AnnotationAssignedPMJ in
  if name ==s "" then gret (inr ("", false))
  else
    let* x := getJob (p_namespace pod) name in
    match x with
    | inl err => if IsNotFound err then gret (inr ("", false)) else gret (inl err)
    | inr job =>
        if (j_restoredPodUID job !=s "") && (j_restoredPodUID job !=s p_uid pod) then gret (inr ("", false))
        else
          let inFlight := migration_in_flight (j_phase job) in
          let recentCompletion :=
            (j_phase job ==p Succeeded) &&
            match completionTime (j_status job) with
            | Some t => Sub now t <=? staleOriginDrainPostCompletionWindow
            | None => false
            end in
          let* stale := (if inFlight || recentCompletion then isStaleOriginDrainRetry pod job else gret false) in
          if stale : bool then gret (inr (j_name job, true))
          else if inFlight then gret (inr (j_name job, false))
          else gret (inr ("", false))
    end.

(** ** The phases of the handler *)

(** The job of this pod, if there is one: [true] when a job that timed out
    waiting for the disruption budget was deleted. *)
Definition existingJob (ns jobName : string) : W bool :=
  let* x := getJob ns jobName in
  match x with
  | inr job =>
      if (j_phase job ==p Evicting) || (j_phase job ==p Succeeded) then greturn (Allowed "migration checkpoint complete")
      else if FailedOnDisruptionBudget job then
        let* e := ecall (EDeleteJob job (Some (j_uid job))) in
        match e with
        | Some delErr =>
            if negb (IsNotFound delErr) then
              greturn (denied429 "replacing a migration job that timed out waiting for the PodDisruptionBudget, retrying")
            else gret true
        | None => gret true
        end
      else if (j_phase job ==p Failed) || (j_phase job ==p SucceededWithoutRestore) then
        greturn (Allowed "migration concluded without restore, falling back to cold eviction")
      else if WaitingForDisruptionBudget job then
        greturn (denied429 "migration job waiting for the PodDisruptionBudget to allow a disruption; nothing has been checkpointed")
      else greturn (denied429 ("migration job in progress: status " +s phase_string (j_phase job)))
  | inl err =>
      if negb (IsNotFound err) then greturn (denied429 "transient error reading migration job status, retrying")
      else gret false
  end.

Definition ownRestore (pod : Pod) : W unit :=
  let* x := checkAssignedMigrationJob pod in
  match x with
  | inl _ => greturn (denied429 "transient error reading the migration job that restored this pod, retrying")
  | inr (restoringJob, stale) =>
      if stale : bool then
        greturn (denied404 ("origin pod " +s p_name pod +s " was already evicted by migration job " +s restoringJob +s
                            " and replaced by pod UID " +s p_uid pod))
      else if restoringJob !=s "" then
        greturn (denied429 ("pod is still being restored by migration job " +s restoringJob +s "; retrying after that job concludes"))
      else gret tt
  end.

Definition pickEngine (pod : Pod) : W Engine :=
  let* x := ActivePodMigration (p_namespace pod) in
  match x with
  | inl _ => greturn (denied429 "transient error reading the namespace's PodMigration, retrying")
  | inr pm =>
      match engineFor pod pm with
      | None =>
          greturn (Allowed ("No snapshot engine serves runtime class " +s RuntimeClassLabel (p_runtimeClassName pod) +s ", skipping migration"))
      | Some eng =>
          let verdict := e_eligible eng pod None in
          if negb (v_ok verdict) then greturn (Allowed (v_reason verdict))
          else
            let '(ok, reason) := AllowsFencing (Some pod) (Some eng) in
            if negb ok then
              do* record pod "Warning" "MigrationSkippedUnfencedEngine" (reason +s "; allowing cold eviction") in
              greturn (Allowed ("skipping migration: " +s reason))
            else gret eng
      end
  end.

Definition workloadOf (pod : Pod) : W Parent :=
  let* x := ResolveParentWorkload pod in
  match x with
  | inr p => gret p
  | inl err => if IsNotFound err then gret no_parent
               else greturn (denied429 "transient error resolving parent workload, retrying")
  end.

(** An operator's pod needs a replica key that nothing shares. *)
Definition checkReplicaKey (pod : Pod) (parent : Parent) (jobName : string) : W unit :=
  if IsBuiltInWorkloadKind (pa_kind parent) then gret tt
  else
    let replicaKey := default "" (ResolveOperatorReplicaKey pod (pa_kind parent)) in
    if replicaKey ==s "" then
      do* record pod "Warning" "MigrationSkippedNoReplicaKey"
            ("Pod is owned by operator " +s pa_kind parent +s "/" +s pa_name parent +s
             " but has no resolvable replica identity key; allowing cold eviction") in
      greturn (Allowed "skipping migration: operator-owned pod has no resolvable replica identity key")
    else
      let* x := HasAmbiguousOperatorSibling (p_namespace pod) (pa_name parent) (pa_kind parent) (pa_uid parent) replicaKey
                  [p_uid pod; p_name pod] in
      match x with
      | inl _ => greturn (denied429 "transient error checking replica key ambiguity, retrying")
      | inr (Some sibling) =>
          do* record pod "Warning" "MigrationSkippedAmbiguousReplicaKey"
                ("Operator-owned pod replica identity " +s Quote replicaKey +s " is shared with sibling pod " +s sibling +s
                 "; refusing migration and allowing cold eviction") in
          greturn (Allowed ("skipping migration: operator-owned pod replica identity " +s Quote replicaKey +s
                            " is ambiguous (shared with sibling pod " +s sibling +s ")"))
      | inr None =>
          let* y := HasActivePMJWithReplicaKey (p_namespace pod) (pa_name parent) (pa_kind parent) replicaKey jobName in
          match y with
          | inl _ => greturn (denied429 "transient error checking PMJ replica key ambiguity, retrying")
          | inr (Some existing) =>
              do* record pod "Warning" "MigrationSkippedAmbiguousReplicaKey"
                    ("Operator-owned pod replica identity " +s Quote replicaKey +s " is already in-flight under migration job " +s
                     existing +s "; refusing migration and allowing cold eviction") in
              greturn (Allowed ("skipping migration: operator-owned pod replica identity " +s Quote replicaKey +s
                                " already in flight on job " +s existing))
          | inr None => gret tt
          end
      end.

Definition resolvePolicy (eng : Engine) (pod : Pod) : W PolicyRef :=
  let* x := ecall (EResolvePolicy (e_name eng) pod) in
  match x with
  | inl _ => greturn (denied429 "transient error resolving snapshot policy, retrying")
  | inr (Some policy) => gret policy
  | inr None =>
      do* record pod "Warning" "MigrationSkippedNoPolicy"
            "Pod is opted into live migration, but no matching Ready manual+stop PodSnapshotPolicy was found; allowing cold eviction" in
      greturn (Allowed "skipping migration: no valid manual+stop policy found")
  end.

(** The job of this migration; the engine picked for the pod serves it to the end. *)
Definition evictionJob (ns podName : string) (pod : Pod) (parent : Parent) (policy : PolicyRef) (eng : Engine) : PodMigrationJob :=
  let '(labels, annotations) :=
    BuildPMJLabelsAndAnnotationsForPolicy pod parent (pr_name policy) (eg_defaultMigrationTimeout a) TriggerSourceEviction in
  new_job ns (FormatPMJName (p_name pod) (p_uid pod)) podName (p_uid pod) labels (<[AnnotationEngine := e_name eng]> annotations).

Definition createJob (pod : Pod) (restartedAfterBudgetWait : bool) (job : PodMigrationJob) : W Response :=
  let* x := ecall (ECreateJob job) in
  match x with
  | inl err =>
      gret (if IsAlreadyExists err then denied429 "migration job already exists, retrying"
            else denied429 "failed to create migration job, retrying")
  | inr _ =>
      do* gwhen restartedAfterBudgetWait (record pod "Normal" "MigrationRestartedAfterBudgetWait"
            "The previous migration job timed out waiting for the PodDisruptionBudget without a checkpoint; started a new one") in
      gret (denied429 "migration job spawned")
  end.

(** What makes the webhook leave an eviction alone, before it looks at jobs. *)
Definition out_of_scope (pod : Pod) : option string :=
  if negb (IsPodMigrationEnabled pod) then Some "feature not enabled"
  else if negb (Allows eligibilityPolicy (p_runtimeClassName pod)) then
    Some ("Pod runtime class " +s RuntimeClassLabel (p_runtimeClassName pod) +s " is not migratable (allowed: " +s
          PolicyString eligibilityPolicy +s "), skipping migration")
  else if HasPDBEvictionTimedOut pod then Some "skipping migration: prior migration timed out on PDB budget"
  else None.

(** The migration of a pod that is in scope. *)
Definition migrate (req : AdmissionRequest) (pod : Pod) : W Response :=
  let jobName := FormatPMJName (p_name pod) (p_uid pod) in
  let* restartedAfterBudgetWait := existingJob (rq_namespace req) jobName in
  do* ownRestore pod in
  if negb (AreReadinessGatesSatisfied pod) then gret (Allowed "skipping migration: pod readiness gates not satisfied")
  else
    let* eng := pickEngine pod in
    let* parent := workloadOf pod in
    do* checkReplicaKey pod parent jobName in
    let* policy := resolvePolicy eng pod in
    createJob pod restartedAfterBudgetWait (evictionJob (rq_namespace req) (rq_name req) pod parent policy eng).

Definition EvictionGate_Handle (req : AdmissionRequest) : fn resp unit Response := gfun (
  if rq_subResource req !=s "eviction" then gret (Allowed "not an eviction request")
  else if match rq_dryRun req with Some b => b | None => false end then gret (Allowed "dry-run allowed")
  else
    let* x := ecall (EGetPod Cache (rq_namespace req) (rq_name req)) in
    match x with
    | inl err => gret (if IsNotFound err then Allowed "pod already deleted" else Allowed "failing open due to transient error")
    | inr pod =>
        match out_of_scope pod with
        | Some reason => gret (Allowed reason)
        | None => migrate req pod
        end
    end).

End Gate.
