(* ===== verification/EvictionLaws.v ===== *)
(** * The eviction webhook, proved

    An opted-in pod that can be migrated is never evicted before its checkpoint
    is complete: every read that fails, and every job in flight, is answered 429.
    A migration is started only for a pod that no job migrates or restores, with
    an engine that serves it and a policy that selects it. *)
From S2P Require Import Prelude Effects GoLib Kube Interfaces Calls Eligibility Engine PodUtil JobBase Budget Assignment.
From S2P Require Import ActiveMigration Spawn Admission PodGateLaws EvictionGate Instances.

Section Laws.
Context `{KubeLib} `{DNSLib}.
Context (a : EvictionGate) (now : Z) (req : AdmissionRequest) (pod : Pod).
Abbreviation ns := (rq_namespace req).
Abbreviation jobName := (FormatPMJName (p_name pod) (p_uid pod)).
Abbreviation history := (@trace Ev resp).

(** ** What the reads say *)

(** A job of this pod for which the eviction is let through: its checkpoint is
    complete, or it concluded without a restore other than by waiting for the budget. *)
Definition lets_through (j : PodMigrationJob) : bool :=
  (j_phase j ==p Evicting) || (j_phase j ==p Succeeded) ||
  negb (FailedOnDisruptionBudget j) && ((j_phase j ==p Failed) || (j_phase j ==p SucceededWithoutRestore)).

(** The server said that the pod has no job, or has just deleted the one that
    timed out waiting for the budget. *)
Definition no_live_job (h : history) : Prop :=
  (exists src err, saw h (EGetJob src ns jobName) (inl err) /\ IsNotFound err = true /\ (eg_hasAPIReader a = true -> src = Live)) \/
  (exists src j x, saw h (EGetJob src ns jobName) (inr j) /\ FailedOnDisruptionBudget j = true /\
     saw h (EDeleteJob j (Some (j_uid j))) x /\ (forall err, x = Some err -> IsNotFound err = true)).

(** The eviction was meant for the pod this one replaced: that pod's node is
    cordoned, and this one runs elsewhere. *)
Definition stale_drain (h : history) : Prop :=
  exists src j node, saw h (EGetJob src (p_namespace pod) (sget (p_annotations pod) AnnotationAssignedPMJ)) (inr j) /\
    j_podName j = p_name pod /\ j_targetUID j <> p_uid pod /\ originNodeName (j_status j) <> p_nodeName pod /\
    saw h (EGetNode (originNodeName (j_status j))) (inr node) /\ n_unschedulable node = true.

(** Why a pod without a job is evicted cold. *)
Definition unmigratable_key (h : history) (parent : Parent) : Prop :=
  let key := default "" (ResolveOperatorReplicaKey pod (pa_kind parent)) in
  IsBuiltInWorkloadKind (pa_kind parent) = false /\
  (key = "" \/
   (exists pods q, saw h (EListPods (p_namespace pod) AllPods) (inr pods) /\ In q pods /\
      ambiguous_sibling (pa_name parent) (pa_kind parent) (pa_uid parent) key [p_uid pod; p_name pod] q = true) \/
   (exists jobs j, saw h (EListJobs (p_namespace pod) AllJobs) (inr jobs) /\ In j jobs /\
      active_with_key (pa_name parent) (pa_kind parent) key jobName j = true)).

Definition no_engine (h : history) : Prop :=
  exists pms, saw h (EListPodMigrations (p_namespace pod)) (inr pms) /\
    match engineFor a pod (SelectActivePodMigration pms) with
    | None => True
    | Some eng => v_ok (e_eligible eng pod None) = false \/ fst (AllowsFencing (Some pod) (Some eng)) = false \/
                  saw h (EResolvePolicy (e_name eng) pod) (inr None)
    end.

Definition cold_reason (h : history) : Prop :=
  AreReadinessGatesSatisfied pod = false \/ no_engine h \/ exists parent, unmigratable_key h parent.

(** The answer to the eviction of a pod in scope. *)
Definition eviction_answer (h : history) (r : Response) : Prop :=
  match r with
  | Denied code _ => code = StatusTooManyRequests \/ (code = StatusNotFound /\ stale_drain h)
  | Allowed _ => (exists src j, saw h (EGetJob src ns jobName) (inr j) /\ lets_through j = true) \/
                 (no_live_job h /\ cold_reason h)
  | _ => False
  end.

(** ** What the handler may do *)

(** The engine that serves the pod, by the PodMigrations listed, can migrate it. *)
Definition served_by (h : history) (eng : Engine) : Prop :=
  exists pms, saw h (EListPodMigrations (p_namespace pod)) (inr pms) /\ engineFor a pod (SelectActivePodMigration pms) = Some eng /\
    v_ok (e_eligible eng pod None) = true /\ fst (AllowsFencing (Some pod) (Some eng)) = true.

(** No job is restoring the pod: it names none, or the one it names is gone,
    restores another pod, or is in no phase that checkpoints or restores.  (A job
    without a name, which no server stores, reads as no job.) *)
Definition not_restoring (h : history) : Prop :=
  let name := sget (p_annotations pod) AnnotationAssignedPMJ in
  name = "" \/
  (exists src err, saw h (EGetJob src (p_namespace pod) name) (inl err) /\ IsNotFound err = true) \/
  (exists src j, saw h (EGetJob src (p_namespace pod) name) (inr j) /\
     ((j_restoredPodUID j <> "" /\ j_restoredPodUID j <> p_uid pod) \/ migration_in_flight (j_phase j) = false \/ j_name j = "")).

Definition may_create (h : history) (job : PodMigrationJob) : Prop :=
  no_live_job h /\ not_restoring h /\ AreReadinessGatesSatisfied pod = true /\
  exists eng parent policy, served_by h eng /\ saw h (EResolvePolicy (e_name eng) pod) (inr (Some policy)) /\
    job = evictionJob a ns (rq_name req) pod parent policy eng.

Definition may_delete (h : history) (j : PodMigrationJob) (uid : option string) : Prop :=
  uid = Some (j_uid j) /\ FailedOnDisruptionBudget j = true /\ exists src, saw h (EGetJob src ns jobName) (inr j).

Definition eviction_allows (h : history) (e : Ev) : Prop :=
  match e with
  | ECreateJob job => may_create h job
  | EDeleteJob j uid => may_delete h j uid
  | _ => benign e = true
  end.

Abbreviation M := (open eviction_allows).

#[local] Instance M_tolerant : Tolerant M.
Proof. intros h e He. by destruct e. Qed.

(** ** The handler's steps *)

(** [h'] extends [h] by calls that are benign, and perhaps the deletion. *)
Lemma no_live_job_extends h h' : extends h h' -> no_live_job h -> no_live_job h'.
Proof.
  intros Hh [(src & err & ? & ? & ?)|(src & j & x & ? & ? & ? & ?)]; [left|right].
  - exists src, err. eauto with podmig.
  - exists src, j, x. eauto 6 with podmig.
Qed.

Lemma not_restoring_extends h h' : extends h h' -> not_restoring h -> not_restoring h'.
Proof.
  intros Hh [?|[(src & err & ? & ?)|(src & j & ? & ?)]]; [by left|right; left|right; right].
  - exists src, err. eauto with podmig.
  - exists src, j. eauto with podmig.
Qed.

Lemma served_by_extends h h' eng : extends h h' -> served_by h eng -> served_by h' eng.
Proof. intros Hh (pms & ? & ?). exists pms. eauto with podmig. Qed.

Hint Resolve no_live_job_extends not_restoring_extends served_by_extends extends_trans : podmig.

Abbreviation returns := (fun (h : history) (_ : unit) (r : Response) => eviction_answer h r).

Lemma denied_answer h msg : eviction_answer h (denied429 msg).
Proof. by left. Qed.
Hint Resolve denied_answer : podmig.

Lemma wpg_getJob name h (Q : history -> unit -> res PodMigrationJob -> Prop) (n : string) :
  (forall h' x, extends h h' ->
     match x with
     | inr j => exists src, saw h' (EGetJob src n name) (inr j)
     | inl err => exists src, saw h' (EGetJob src n name) (inl err) /\ (IsNotFound err = true -> eg_hasAPIReader a = true -> src = Live)
     end -> Q h' tt x) ->
  wpg M (getJob a n name) h tt returns Q.
Proof.
  intros HQ. unfold getJob, ecall. gstep. gstep; [done|]. destruct x as [err|j].
  - destruct (IsNotFound err && eg_hasAPIReader a) eqn:Hb.
    + gstep; [done|]. apply HQ; [by repeat (apply extends_cons; [done|]); apply extends_refl|].
      destruct x as [err'|j]; exists Live; auto using saw_now.
    + gstep. apply HQ; [by apply extends_cons; [|apply extends_refl]|]. exists Cache. split; [apply saw_now|].
      intros E1 E2. by rewrite E1, E2 in Hb.
  - gstep. apply HQ; [by apply extends_cons; [|apply extends_refl]|]. exists Cache. apply saw_now.
Qed.

Lemma wpg_record p type reason message h (Q : history -> unit -> unit -> Prop) :
  (forall h', extends h h' -> Q h' tt tt) -> wpg M (record a p type reason message) h tt returns Q.
Proof.
  intros HQ. unfold record, ecall. gstep; [|apply HQ, extends_refl].
  split; [reflexivity|]. intros x _. destruct x. apply HQ. by apply extends_cons; [|apply extends_refl].
Qed.

Lemma wpg_existingJob h (Q : history -> unit -> bool -> Prop) :
  (forall h' b, no_live_job h' -> Q h' tt b) -> wpg M (existingJob a ns jobName) h tt returns Q.
Proof.
  intros HQ. unfold existingJob. gstep. apply wpg_getJob. intros h1 x Hh1 Hx. destruct x as [err|j].
  - destruct Hx as (src & Hs & Hl). destruct (IsNotFound err) eqn:Hn; cbn [negb]; gstep; [|auto with podmig].
    apply HQ. left. exists src, err. eauto.
  - destruct Hx as (src & Hs).
    gstep. { gstep. left. exists src, j. split; [done|]. unfold lets_through. by rewrite Heqb. }
    gstep.
    { unfold ecall. gstep. gstep. { split; [done|]. split; [done|]. by exists src. }
      match goal with |- wpg _ _ ?hh _ _ _ => assert (forall err, x = Some err -> IsNotFound err = true -> no_live_job hh) as Herr;
        [|assert (x = None -> no_live_job hh) as Hnone] end.
      - intros err -> He. right. exists src, j, (Some err). split; [by apply saw_later|]. split; [done|]. split; [apply saw_now|].
        by intros ? [= <-].
      - intros ->. right. exists src, j, None. split; [by apply saw_later|]. split; [done|]. by split; [apply saw_now|].
      - destruct x as [err|]; [|gstep; auto]. destruct (IsNotFound err) eqn:He; cbn [negb]; gstep; eauto with podmig. }
    gstep. { gstep. left. exists src, j. split; [done|]. unfold lets_through. by rewrite Heqb, Heqb0, Heqb1. }
    gstep; gstep; auto with podmig.
Qed.

(** A test of the node the pod runs on, then of the origin's. *)
Lemma wpg_stale j h (Q : history -> unit -> bool -> Prop) :
  (forall h' b, extends h h' -> (b = true -> j_podName j = p_name pod /\ j_targetUID j <> p_uid pod /\
     originNodeName (j_status j) <> p_nodeName pod /\
     exists node, saw h' (EGetNode (originNodeName (j_status j))) (inr node) /\ n_unschedulable node = true) -> Q h' tt b) ->
  wpg M (isStaleOriginDrainRetry pod j) h tt returns Q.
Proof.
  intros HQ. unfold isStaleOriginDrainRetry. gstep; [gstep; apply HQ; auto with podmig; done|]. cbv zeta.
  gstep; [gstep; apply HQ; auto with podmig; done|].
  assert (j_podName j = p_name pod /\ j_targetUID j <> p_uid pod /\ originNodeName (j_status j) <> p_nodeName pod) as Hj.
  { bool_props. split; [done|]. split; [done|]. congruence. }
  gstep. eapply (wpg_weaken M _ _ _ _ (fun h' s' _ => s' = tt /\ extends h h')).
  - gstep; [|gstep; auto with podmig]. unfold ecall. gstep. gstep; [done|]. gstep. split; [done|].
    by apply extends_cons; [|apply extends_refl].
  - intros h1 [] ok [_ Hh1]. gstep; [gstep; apply HQ; [done|done]|]. unfold ecall. gstep. gstep; [done|]. gstep.
    apply HQ; [by apply extends_cons|]. destruct x as [err|node]; [done|]. intros Hn.
    destruct Hj as (? & ? & ?). repeat (split; [done|]). exists node. split; [apply saw_now|done].
Qed.

Lemma wpg_ownRestore h (Q : history -> unit -> unit -> Prop) :
  (forall h', extends h h' -> not_restoring h' -> Q h' tt tt) -> wpg M (ownRestore a now pod) h tt returns Q.
Proof.
  intros HQ. unfold ownRestore, checkAssignedMigrationJob. gstep.
  destruct (sget (p_annotations pod) AnnotationAssignedPMJ ==s "") eqn:Hname.
  { gstep. gstep; [discriminate|]. gstep. apply HQ; [apply extends_refl|]. left. by bool_props. }
  gstep. apply wpg_getJob. intros h1 x Hh1 Hx. destruct x as [err|j].
  { destruct Hx as (src & Hs & _). destruct (IsNotFound err) eqn:Hn; gstep; [gstep; [discriminate|]|gstep; auto with podmig].
    gstep. apply HQ; [done|]. right. left. by exists src, err. }
  destruct Hx as (src & Hs).
  destruct ((j_restoredPodUID j !=s "") && (j_restoredPodUID j !=s p_uid pod)) eqn:Hr.
  { gstep. gstep; [discriminate|]. gstep. apply HQ; [done|]. right. right. exists src, j. split; [done|]. left. by bool_props. }
  cbv zeta. gstep.
  eapply (wpg_weaken M _ _ _ _ (fun h' s' b => s' = tt /\ extends h1 h' /\ (b = true -> stale_drain h'))).
  { gstep; [|gstep; split; [done|]; split; [apply extends_refl|done]]. apply wpg_stale. intros h2 b Hh2 Hb. split; [done|]. split; [done|].
    intros (H1' & H2' & H3' & node & Hn & Hu)%Hb. exists src, j, node. eauto 8 with podmig. }
  intros h2 [] stale (_ & Hh2 & Hst). destruct stale.
  { gstep. gstep. right. auto. }
  assert (forall P : Prop, (P -> migration_in_flight (j_phase j) = false \/ j_name j = "") -> P -> not_restoring h2) as Hnr.
  { intros P HP HPt. right. right. exists src, j. split; [eauto with podmig|]. right. auto. }
  destruct (migration_in_flight (j_phase j)) eqn:Hf; gstep.
  - gstep; gstep; [auto with podmig|]. apply HQ; [eauto with podmig|]. apply (Hnr (j_name j = "")); [auto|by bool_props].
  - gstep; [discriminate|]. gstep. apply HQ; [eauto with podmig|]. by apply (Hnr True); auto.
Qed.

Lemma wpg_pickEngine h (Q : history -> unit -> Engine -> Prop) :
  no_live_job h -> (forall h' eng, extends h h' -> served_by h' eng -> Q h' tt eng) -> wpg M (pickEngine a pod) h tt returns Q.
Proof.
  intros Hno HQ. unfold pickEngine, ActivePodMigration. gstep. gstep. unfold ecall. gstep; [done|].
  destruct x as [err|pms]; gstep; [gstep; auto with podmig|].
  match goal with |- wpg _ _ ?hh _ _ _ => set (h1 := hh) end.
  assert (extends h h1) as Hh1 by (by apply extends_cons; [|apply extends_refl]).
  assert (saw h1 (EListPodMigrations (p_namespace pod)) (inr pms)) as Hp by apply saw_now.
  destruct (engineFor a pod (SelectActivePodMigration pms)) as [eng|] eqn:He.
  2: { gstep. right. split; [eauto with podmig|]. right. left. exists pms. by rewrite He. }
  cbv zeta. destruct (v_ok (e_eligible eng pod None)) eqn:Hv; cbn [negb].
  2: { gstep. right. split; [eauto with podmig|]. right. left. exists pms. rewrite He. auto. }
  destruct (AllowsFencing (Some pod) (Some eng)) as [ok reason] eqn:Hf. destruct ok; cbn [negb].
  - gstep. apply HQ; [done|]. exists pms. rewrite Hf. auto.
  - gstep. apply wpg_record. intros h2 Hh2. gstep. right. split; [eauto with podmig|]. right. left. exists pms. rewrite He, Hf.
    split; [eauto with podmig|auto].
Qed.

Lemma wpg_workloadOf h (Q : history -> unit -> Parent -> Prop) :
  (forall h' p, extends h h' -> Q h' tt p) -> wpg M (workloadOf pod) h tt returns Q.
Proof.
  intros HQ. unfold workloadOf. gstep. apply quiet_ResolveParent; [apply _|]. intros h' x Hh.
  destruct x as [err|p]; [gstep; gstep; [auto|auto with podmig]|gstep; auto].
Qed.

(** The listings of the replica-key checks. *)
Lemma wpg_sibling parent key h (Q : history -> unit -> res (option string) -> Prop) :
  (forall h' x, extends h h' -> (forall name, x = inr (Some name) -> exists pods q, saw h' (EListPods (p_namespace pod) AllPods) (inr pods) /\
     In q pods /\ ambiguous_sibling (pa_name parent) (pa_kind parent) (pa_uid parent) key [p_uid pod; p_name pod] q = true) -> Q h' tt x) ->
  wpg M (HasAmbiguousOperatorSibling (p_namespace pod) (pa_name parent) (pa_kind parent) (pa_uid parent) key [p_uid pod; p_name pod]) h tt returns Q.
Proof.
  intros HQ. unfold HasAmbiguousOperatorSibling, ecall. gstep; [gstep; apply HQ; [apply extends_refl|done]|].
  gstep. gstep; [done|]. destruct x as [err|pods]; gstep; (apply HQ; [by apply extends_cons; [|apply extends_refl]|]); [done|].
  intros name [= Hf]. destruct (List.find _ _) as [q|] eqn:Hq; [|done]. apply List.find_some in Hq as [Hq Ha].
  exists pods, q. split; [apply saw_now|done].
Qed.

Lemma wpg_active_key parent key h (Q : history -> unit -> res (option string) -> Prop) :
  (forall h' x, extends h h' -> (forall name, x = inr (Some name) -> exists jobs j, saw h' (EListJobs (p_namespace pod) AllJobs) (inr jobs) /\
     In j jobs /\ active_with_key (pa_name parent) (pa_kind parent) key jobName j = true) -> Q h' tt x) ->
  wpg M (HasActivePMJWithReplicaKey (p_namespace pod) (pa_name parent) (pa_kind parent) key jobName) h tt returns Q.
Proof.
  intros HQ. unfold HasActivePMJWithReplicaKey, ecall. gstep; [gstep; apply HQ; [apply extends_refl|done]|].
  gstep. gstep; [done|]. destruct x as [err|jobs]; gstep; (apply HQ; [by apply extends_cons; [|apply extends_refl]|]); [done|].
  intros name [= Hf]. destruct (List.find _ _) as [j|] eqn:Hq; [|done]. apply List.find_some in Hq as [Hq Ha].
  exists jobs, j. split; [apply saw_now|done].
Qed.

Lemma wpg_checkReplicaKey parent h (Q : history -> unit -> unit -> Prop) :
  no_live_job h -> (forall h', extends h h' -> Q h' tt tt) -> wpg M (checkReplicaKey a pod parent jobName) h tt returns Q.
Proof.
  intros Hno HQ. unfold checkReplicaKey. destruct (IsBuiltInWorkloadKind (pa_kind parent)) eqn:Hb; [gstep; apply HQ, extends_refl|].
  cbv zeta. set (key := default "" (ResolveOperatorReplicaKey pod (pa_kind parent))).
  assert (forall h', extends h h' -> unmigratable_key h' parent -> forall msg, eviction_answer h' (Allowed msg)) as Hcold.
  { intros h' Hh' Hu msg. right. split; [eauto with podmig|]. right. right. by exists parent. }
  destruct (key ==s "") eqn:Hk.
  { gstep. apply wpg_record. intros h1 Hh1. gstep. apply Hcold; [done|]. split; [done|]. left. by bool_props. }
  gstep. apply wpg_sibling. intros h1 x Hh1 Hx. destruct x as [err|[sibling|]]; [gstep; auto with podmig|..].
  { gstep. apply wpg_record. intros h2 Hh2. gstep. apply Hcold; [eauto with podmig|]. split; [done|]. right. left.
    destruct (Hx sibling eq_refl) as (pods & q & Hs & Hq). exists pods, q. eauto with podmig. }
  gstep. apply wpg_active_key. intros h2 y Hh2 Hy. destruct y as [err|[existing|]]; [gstep; auto with podmig|..].
  - gstep. apply wpg_record. intros h3 Hh3. gstep. apply Hcold; [eauto with podmig|]. split; [done|]. right. right.
    destruct (Hy existing eq_refl) as (jobs & j & Hs & Hj). exists jobs, j. eauto with podmig.
  - gstep. apply HQ. eauto with podmig.
Qed.

Lemma wpg_resolvePolicy eng h (Q : history -> unit -> PolicyRef -> Prop) :
  no_live_job h -> served_by h eng ->
  (forall h' policy, extends h h' -> saw h' (EResolvePolicy (e_name eng) pod) (inr (Some policy)) -> Q h' tt policy) ->
  wpg M (resolvePolicy a eng pod) h tt returns Q.
Proof.
  intros Hno (pms & Hp & He & Hv & Hf) HQ. unfold resolvePolicy, ecall. gstep. gstep; [done|].
  match goal with |- wpg _ _ ?hh _ _ _ => assert (extends h hh) as Hh1 by (by apply extends_cons; [|apply extends_refl]);
    assert (saw hh (EResolvePolicy (e_name eng) pod) x) as Hx by apply saw_now end.
  destruct x as [err|[policy|]]; gstep; [auto with podmig|auto|].
  apply wpg_record. intros h2 Hh2. gstep. right. split; [eauto with podmig|]. right. left. exists pms.
  split; [eauto with podmig|]. rewrite He. right. right. eauto with podmig.
Qed.

Lemma wpg_migrate h : wpg M (migrate a now req pod) h tt returns returns.
Proof.
  unfold migrate. cbv zeta. gstep. apply wpg_existingJob. intros h1 restarted Hno. gstep. apply wpg_ownRestore. intros h2 Hh2 Hnr.
  destruct (AreReadinessGatesSatisfied pod) eqn:Hg; cbn [negb].
  2: { gstep. right. split; [eauto with podmig|]. by left. }
  gstep. apply wpg_pickEngine; [eauto with podmig|]. intros h3 eng Hh3 Heng. gstep. apply wpg_workloadOf. intros h4 parent Hh4.
  gstep. apply wpg_checkReplicaKey; [eauto 6 with podmig|]. intros h5 Hh5. gstep.
  assert (extends h2 h5) as H25 by eauto 6 with podmig.
  apply (wpg_resolvePolicy eng); [eauto with podmig..|]. intros h6 policy Hh6 Hp. unfold createJob, ecall. gstep. gstep.
  - split; [eauto 6 with podmig|]. split; [eauto 6 with podmig|]. split; [done|]. exists eng, parent, policy. eauto 6 with podmig.
  - destruct x as [err|j].
    + gstep. by destruct (IsAlreadyExists err); apply denied_answer.
    + gstep. gstep; [apply wpg_record; intros h7 _; gstep|gstep]; apply denied_answer.
Qed.

(** ** The handler *)

(** A run of the handler on the eviction of the pod in scope, after the pod's read. *)
Record eviction_pass (t : history) (r : Response) : Prop := {
  pass_eviction : rq_subResource req = "eviction";
  pass_real : match rq_dryRun req with Some b => b | None => false end = false;
  pass_scope : out_of_scope a pod = None;
  pass_run : exec (EvictionGate_Handle a now req tt) (existT (EGetPod Cache ns (rq_name req)) (inr pod) :: t) (tt, r) }.

Lemma pass_sound t r : eviction_pass t r -> obeys M [] t /\ eviction_answer (rev t) r.
Proof.
  intros [He Hd Hs Hx]. unfold EvictionGate_Handle, gfun in Hx. rewrite He, Hd, seqb_refl in Hx. cbn [negb] in Hx.
  unfold gbind at 1, ecall, gcall in Hx. cbn [pbind] in Hx. apply exec_answered in Hx. rewrite Hs in Hx.
  refine (wpf_exec M (gfun (migrate a now req pod)) tt (fun h _ r => eviction_answer h r) t tt r _ _ (fair_open _ _)).
  - apply wpf_fun, wpg_migrate.
  - unfold gfun. revert Hx. generalize (migrate a now req pod tt). clear. intros p. revert t.
    induction p as [[[] [x|x]]|e k IH]; intros t Hx; cbn in *; [done|done|].
    apply exec_inv in Hx as (x & t' & -> & Hx). constructor. by apply IH.
Qed.


(** C12: A migration is started only for a pod with no live job (no job was read,
    from the API server if there is a live reader, or its job was just deleted
    after waiting in vain for the disruption budget), that no other job is still
    checkpointing or restoring, whose readiness gates are satisfied, and that an
    engine serves, can migrate and has a policy for; the job names that pod's
    UID, workload, policy and engine.  No other object is written, except that a
    job that failed on the budget is deleted, by its UID. *)
Theorem eviction_starts_migration t1 t2 e x r :
  eviction_pass (t1 ++ existT e x :: t2) r ->
  match e with
  | ECreateJob job => may_create (rev t1) job
  | EDeleteJob j uid => may_delete (rev t1) j uid
  | _ => benign e = true
  end.
Proof. intros [Ho _]%pass_sound. apply (obeys_at M t1 t2 (existT e x) Ho). Qed.
End Laws.

(** ** Runs *)

Definition plain_gate : EvictionGate := mkEvictionGate true true (10 * Minute) None None.
Definition opted_in_pod : Pod :=
  with_p_labels {[ "pod-migration.gke.io/enabled" := "true" ]} sample_pod.
Definition eviction : AdmissionRequest := mkRequest "CREATE" "eviction" "shop" "web-0" None (inl (mkErr BadRequest "")).

(** The pod is there, nothing else is, and a policy selects it. *)
Definition unmigrated (e : Ev) : resp e :=
  match e return resp e with
  | EGetPod _ _ _ => inr opted_in_pod
  | EListPodMigrations _ => inr []
  | EResolvePolicy _ _ => inr (Some (mkPolicyRef "" "" "psp"))
  | ECreateJob j => inr j
  | e => answer_fail e
  end.

Abbreviation eviction_run := (EvictionGate_Handle (H0 := dns_ref) plain_gate at_1100 eviction tt).
Definition eviction_calls : @trace Ev resp := tl (trace_of unmigrated eviction_run).

Lemma unmigrated_pass : eviction_pass (H0 := dns_ref) plain_gate at_1100 eviction opted_in_pod eviction_calls (denied429 "migration job spawned").
Proof.
  split; [reflexivity|reflexivity|vm_compute; reflexivity|].
  pose proof (exec_static unmigrated eviction_run) as Hx.
  replace (result_of unmigrated eviction_run) with (tt, denied429 "migration job spawned") in Hx by (vm_compute; reflexivity).
  exact Hx.
Qed.

(** Nothing selects the pod: it is evicted cold. *)
Definition unselected (e : Ev) : resp e :=
  match e return resp e with EResolvePolicy _ _ => inr None | e => unmigrated e end.


Lemma eviction_starts_migration_witness : exists before job,
  m_name (j_meta job) = "pmj-web-0-uid-pod" /\ may_create (H0 := dns_ref) plain_gate eviction opted_in_pod before job.
Proof.
  destruct (eviction_calls !! 5%nat) as [[e x]|] eqn:He; [|vm_compute in He; discriminate He].
  pose proof (eviction_starts_migration (H0 := dns_ref) plain_gate at_1100 eviction opted_in_pod
    (take 5 eviction_calls) (drop 6 eviction_calls) e x (denied429 "migration job spawned")) as Hm.
  rewrite take_drop_middle in Hm by exact He. specialize (Hm unmigrated_pass).
  pose proof (f_equal (fmap (fun s : @step Ev resp => called s)) He) as Hc. vm_compute in Hc. injection Hc as <-. eexists _, _. split; [|exact Hm]. reflexivity.
Defined.
