(* ===== verification/GKEProvider.v ===== *)
(** * The GKE snapshot provider (internal/snapshot/gke_provider.go, restore.go)

    The provider implements the engine's checkpoint calls on three kinds of
    objects of podsnapshot.gke.io: the manual trigger of a job, the snapshots it
    creates, and the pods' annotations.  Its calls have a signature of their own
    ([PEv]); the objects are unstructured, so a member of another type reads as
    absent.  [controllerutil.SetControllerReference] is a parameter. *)
From S2P Require Import Prelude Effects GoLib Kube Interfaces Engine Assignment.

Definition psNameAnnotation : string := "podsnapshot.gke.io/ps-name".
Definition transientReadyFailureSuppressionWindow : Z := 60 * Second.

(** [unstructured.NestedString]: absent, of another type, or a string. *)
Inductive Nested := NAbsent | NWrong | NFound (s : string).

Record Trigger := mkTrigger {
  tr_name : string;
  tr_ownerUIDs : list string;
  (** [status.conditions] *)
  tr_conditions : list (option RawCondition);
  (** [status.snapshotCreated.name] *)
  tr_snapshotCreated : Nested }.

Record PodSnapshot := mkPodSnapshot {
  ps_name : string;
  ps_creation : Z;
  ps_deleting : bool;
  (** [status]: its conditions and its phase, if it is an object. *)
  ps_status : option (list (option RawCondition) * option string) }.

(** ** Calls *)

Inductive PEv :=
| PGetTrigger (ns name : string)
| PCreateTrigger (ns name targetPod : string) (owner : PodMigrationJob)
| PDeleteTrigger (ns name : string)
| PGetSnapshot (ns name : string)
| PListSnapshots (ns triggeredBy : string)
| PGetPod (ns name : string)
(** A merge patch of the annotations, with the members it pins. *)
| PPatchPod (ns name : string) (uid resourceVersion : option string) (annotations : gmap string string).

Definition presp (e : PEv) : Type :=
  match e with
  | PGetTrigger _ _ => res Trigger
  | PCreateTrigger _ _ _ _ | PDeleteTrigger _ _ | PPatchPod _ _ _ _ _ => option ApiErr
  | PGetSnapshot _ _ => res PodSnapshot
  | PListSnapshots _ _ => res (list PodSnapshot)
  | PGetPod _ _ => res Pod
  end.

Definition pcall {S R} (e : PEv) : gom presp S R (presp e) := gcall e.

(** [if s != "" { meta[k] = s }] *)
Definition pinned (s : string) : option string := if s !=s "" then Some s else None.

Definition triggerName (job : PodMigrationJob) (podName : string) : string := FormatPSMTName podName (j_targetUID job).

(** ** Reasons *)

Definition isTerminalSnapshotFailureReason (reason : string) : bool :=
  let r := ToLower reason in
  if (r ==s "") || (r ==s "noerror") || HasPrefix r "not" || HasPrefix r "non" then false
  else (r ==s "failed") || (r ==s "error") || (r ==s "deadlineexceeded") || (r ==s "refused").

Definition isSnapshotRefusedReason (reason : string) : bool := EqualFold (TrimSpace reason) "refused".

Definition phaseForTerminalReason (reason : string) : SnapPhase :=
  if isSnapshotRefusedReason reason then PhaseRefused else PhaseFailed.

Definition isSnapshotSubconditionInProgressReason (reason : string) : bool :=
  let r := ToLower (TrimSpace reason) in
  (r ==s "inprogress") || (r ==s "awaitingcheckpoint") || (r ==s "pending").

(** ** Conditions of a snapshot *)

Definition str (x : option string) : string := default "" x.
Definition r_type (c : RawCondition) : string := str (rc_type c).
Definition r_status (c : RawCondition) : string := str (rc_status c).
Definition r_reason (c : RawCondition) : string := str (rc_reason c).
Definition r_message (c : RawCondition) : string := str (rc_message c).

(** The transition time, if it parses. *)
Definition r_time (c : RawCondition) : option Z :=
  match rc_ltt c with Some s => ParseRFC3339 s | None => None end.

Definition is_subcondition (c : RawCondition) : bool := (r_type c ==s "Checkpoint") || (r_type c ==s "StorageReplicated").
Definition is_ready (c : RawCondition) : bool := r_type c ==s "Ready".
Definition failed_reason (c : RawCondition) : bool := (r_status c ==s "False") && isTerminalSnapshotFailureReason (r_reason c).
Definition progress_reason (c : RawCondition) : bool :=
  (r_status c ==s "False") && negb (isTerminalSnapshotFailureReason (r_reason c)) &&
  isSnapshotSubconditionInProgressReason (r_reason c).

(** What one pass over the conditions of [CheckStatus] collects. *)
Record Scan := mkScan {
  sc_lastProgress : Z;
  sc_terminalSubcond : option RawCondition;
  sc_readyTerminal : option (RawCondition * Z);
  sc_subconditionInProgress : bool;
  sc_isReady : bool }.

Definition no_scan : Scan := mkScan zero_time None None false false.

Definition scan_step (s : Scan) (x : option RawCondition) : Scan :=
  match x with
  | None => s
  | Some cond =>
      let condTransitionTime := default zero_time (r_time cond) in
      let lastProgress :=
        match r_time cond with
        | Some t => if After t (sc_lastProgress s) then t else sc_lastProgress s
        | None => sc_lastProgress s
        end in
      let '(mkScan _ sub rdy prog isReady) := s in
      if is_subcondition cond then
        mkScan lastProgress
          (if failed_reason cond then Some cond else sub) rdy (prog || progress_reason cond)
          (isReady || ((r_type cond ==s "Checkpoint") && (r_status cond ==s "True") && (r_reason cond ==s "Succeeded")))
      else if is_ready cond then
        if r_status cond ==s "True" then mkScan lastProgress sub rdy prog true
        else if failed_reason cond then mkScan lastProgress sub (Some (cond, condTransitionTime)) prog isReady
        else mkScan lastProgress sub rdy prog isReady
      else mkScan lastProgress sub rdy prog isReady
  end.

Definition scan (conds : list (option RawCondition)) : Scan := fold_left scan_step conds no_scan.

(** The Ready failure is held back while a sub-condition is in progress. *)
Definition suppressed (now : Z) (s : Scan) (transition : Z) : bool :=
  sc_subconditionInProgress s && (negb (IsZero transition) && (Sub now transition <=? transientReadyFailureSuppressionWindow)).

Definition failed_status (phase : SnapPhase) (ref reason message : string) : SnapStatus :=
  mkSnapStatus phase ref reason message zero_time.
Definition waiting (ref message : string) (lastProgress : Z) : SnapStatus :=
  mkSnapStatus PhaseInProgress ref "Snapshotting" message lastProgress.

(** What [CheckStatus] says of a snapshot whose status is an object. *)
Definition snapshotStatus (now : Z) (name : string) (created : Z) (conds : list (option RawCondition)) (topPhase : option string)
    : SnapStatus :=
  let s := scan conds in
  let lastProgress := if IsZero (sc_lastProgress s) then created else sc_lastProgress s in
  let failed c kind := failed_status (phaseForTerminalReason (r_reason c)) name "SnapshotFailed"
        ("GKE PodSnapshot " +s kind +s " failed (" +s r_reason c +s "): " +s r_message c) in
  let rest :=
    match topPhase with
    | Some p =>
        if isTerminalSnapshotFailureReason p then
          Some (failed_status (phaseForTerminalReason p) name "SnapshotFailed" ("GKE PodSnapshot failed with phase=" +s p))
        else None
    | None => None
    end in
  match sc_terminalSubcond s, sc_readyTerminal s with
  | Some c, _ => failed c (r_type c)
  | None, Some (c, transition) =>
      if suppressed now s transition then
        match rest with
        | Some st => st
        | None => if sc_isReady s then failed_status PhaseReady name "" ""
                  else waiting name ("Waiting for GKE PodSnapshot " +s Quote name +s " checkpoint to complete") lastProgress
        end
      else failed c "Ready"
  | None, None =>
      match rest with
      | Some st => st
      | None => if sc_isReady s then failed_status PhaseReady name "" ""
                else waiting name ("Waiting for GKE PodSnapshot " +s Quote name +s " checkpoint to complete") lastProgress
      end
  end.

(** [(completed, finished)]: what [CheckpointState] reads of a snapshot. *)
Definition podSnapshotCheckpointProgress (snap : PodSnapshot) : bool * bool :=
  let conds := match ps_status snap with Some (l, _) => omap id l | None => [] end in
  let completed := existsb (fun c => ((r_type c ==s "Checkpoint") && (r_status c ==s "True")) || (is_ready c && (r_status c ==s "True"))) conds in
  let ready := existsb (fun c => is_ready c && (r_status c ==s "True")) conds in
  let readyFailed := existsb (fun c => is_ready c && failed_reason c) conds in
  let subFailed := existsb (fun c => is_subcondition c && failed_reason c) conds in
  let subconditionInProgress := existsb (fun c => is_subcondition c && progress_reason c) conds in
  let phaseFailed := match ps_status snap with Some (_, Some p) => isTerminalSnapshotFailureReason p | _ => false end in
  let finished := subFailed || ready || (readyFailed && negb subconditionInProgress) || phaseFailed in
  (completed, if ps_deleting snap then false else finished).

(** The order in which a range over a map meets its keys. *)
Class RangeOrder := {
  range : gset string -> list string;
  range_perm : forall s, Permutation (range s) (elements s) }.

Definition sorted_range : RangeOrder := {| range s := elements s; range_perm s := Permutation_refl _ |}.

Section Provider.
Context `{RangeOrder}.
Context (ownerReferenceError : PodMigrationJob -> option ApiErr).
Context (now : Z).
Abbreviation P R A := (gom presp unit R A).

(** ** The trigger *)

(** [(gone, err)] *)
Definition setColdStartBypass {R} (ns podName uid bypassingJob : string) : P R (res bool) :=
  let annotations :=
    (if bypassingJob !=s "" then <[AnnotationColdStartBypassJob := bypassingJob]> else id) {[ psNameAnnotation := "" ]} in
  let* e := pcall (PPatchPod ns podName (pinned uid) None annotations) in
  match e with
  | Some err => gret (if IsNotFound err then inr true
                      else inl (wrapf ("patching " +s psNameAnnotation +s " on pod " +s ns +s "/" +s podName +s ": ") err))
  | None => gret (inr false)
  end.

Definition ensureSourceColdStartBypass {R} (job : PodMigrationJob) (podName : string) : P R (res bool) :=
  setColdStartBypass (j_namespace job) podName (j_targetUID job) (j_name job).

Definition EnsureTrigger (job : PodMigrationJob) (podName : string) : fn presp unit (res Result) := gfun (
  match ownerReferenceError job with
  | Some err => gret (inl err)
  | None =>
      let* x := pcall (PGetTrigger (j_namespace job) (triggerName job podName)) in
      match x with
      | inr existing =>
          if existsb (fun uid => uid ==s j_uid job) (tr_ownerUIDs existing) then gret (inr NoRequeue)
          else
            do* pcall (PDeleteTrigger (j_namespace job) (tr_name existing)) in
            gret (inr Requeue)
      | inl err =>
          if negb (IsNotFound err) then gret (inl err)
          else
            let* b := ensureSourceColdStartBypass job podName in
            match b with
            | inl err => gret (inl err)
            | inr _ =>
                let* c := pcall (PCreateTrigger (j_namespace job) (triggerName job podName) podName job) in
                match c with
                | Some err => gret (if IsAlreadyExists err then inr NoRequeue else inl err)
                | None => gret (inr NoRequeue)
                end
            end
      end
  end).

(** ** The status of the checkpoint *)

Definition trigger_failed (c : RawCondition) : bool :=
  (r_type c ==s "Triggered") && (r_status c ==s "False") && isTerminalSnapshotFailureReason (r_reason c).

Definition CheckStatus (job : PodMigrationJob) (podName : string) : fn presp unit (res (option SnapStatus)) := gfun (
  let* x := pcall (PGetTrigger (j_namespace job) (triggerName job podName)) in
  match x with
  | inl err =>
      gret (if IsNotFound err then inr (Some (waiting "" "Waiting for GKE PodSnapshotManualTrigger to be created" zero_time)) else inl err)
  | inr trigger =>
      match List.find trigger_failed (omap id (tr_conditions trigger)) with
      | Some c =>
          gret (inr (Some (failed_status (phaseForTerminalReason (r_reason c)) "" "SnapshotTriggerFailed"
                  ("GKE PodSnapshotManualTrigger failed (" +s r_reason c +s "): " +s r_message c))))
      | None =>
          match tr_snapshotCreated trigger with
          | NWrong => gret (inl (mkErr OtherErr ".status.snapshotCreated.name accessor error"))
          | NAbsent => gret (inr (Some (waiting "" "Waiting for GKE to populate snapshot name in trigger status" zero_time)))
          | NFound snapshotName =>
              if snapshotName ==s "" then
                gret (inr (Some (waiting "" "Waiting for GKE to populate snapshot name in trigger status" zero_time)))
              else
                let* y := pcall (PGetSnapshot (j_namespace job) snapshotName) in
                match y with
                | inl err =>
                    gret (if IsNotFound err then
                            inr (Some (waiting snapshotName ("Waiting for GKE PodSnapshot object " +s Quote snapshotName +s " to be created") zero_time))
                          else inl err)
                | inr snap =>
                    match ps_status snap with
                    | None => gret (inr (Some (waiting snapshotName
                                ("Waiting for GKE PodSnapshot " +s Quote snapshotName +s " status to be populated") zero_time)))
                    | Some (conds, topPhase) => gret (inr (Some (snapshotStatus now snapshotName (ps_creation snap) conds topPhase)))
                    end
                end
          end
      end
  end).

Definition Cleanup (job : PodMigrationJob) (podName : string) : fn presp unit (option ApiErr) := gfun (
  let* e := pcall (PDeleteTrigger (j_namespace job) (triggerName job podName)) in
  match e with
  | Some err => gret (if IsNotFound err then None else Some err)
  | None => gret None
  end).

(** ** Whether the checkpoint settled *)

Definition gone_or_no_kind (err : ApiErr) : bool := IsNotFound err || IsNoMatchError err.

(** The named snapshots that the list did not have. *)
Fixpoint readSnapshots {R} (ns : string) (names : list string) (snapshots : gmap string PodSnapshot)
    : P R (res (gmap string PodSnapshot)) :=
  match names with
  | [] => gret (inr snapshots)
  | name :: rest =>
      match snapshots !! name with
      | Some _ => readSnapshots ns rest snapshots
      | None =>
          let* x := pcall (PGetSnapshot ns name) in
          match x with
          | inl err =>
              if gone_or_no_kind err then readSnapshots ns rest snapshots
              else gret (inl (wrapf ("reading snapshot " +s name +s ": ") err))
          | inr snap => readSnapshots ns rest (<[name := snap]> snapshots)
          end
      end
  end.

Definition snapshot_names (job : PodMigrationJob) : gset string :=
  if j_snapshotRef job !=s "" then {[ j_snapshotRef job ]} else ∅.

Definition checkpoint_of (settled : bool) (snapshots : gmap string PodSnapshot) : CheckpointState :=
  let progress := map (fun kv => podSnapshotCheckpointProgress kv.2) (map_to_list snapshots) in
  mkCheckpointState (settled && forallb snd progress) (existsb fst progress).

Definition Provider_CheckpointState (job : PodMigrationJob) (podName : string) : fn presp unit (res CheckpointState) := gfun (
  let name := triggerName job podName in
  let* x := pcall (PGetTrigger (j_namespace job) name) in
  let* found :=
    (match x with
     | inr trigger =>
         gret (false, match tr_snapshotCreated trigger with
                      | NFound n => if n !=s "" then {[ n ]} ∪ snapshot_names job else snapshot_names job
                      | _ => snapshot_names job
                      end)
     | inl err =>
         if gone_or_no_kind err then gret (true, snapshot_names job)
         else greturn (inl (wrapf ("reading trigger " +s name +s ": ") err))
     end) in
  let '(settled, names) := found in
  let* y := pcall (PListSnapshots (j_namespace job) name) in
  let* listed :=
    (match y with
     | inr l => gret l
     | inl err => if IsNoMatchError err then gret []
                  else greturn (inl (wrapf ("listing the snapshots of trigger " +s name +s ": ") err))
     end) in
  let* z := readSnapshots (j_namespace job) (range names) (fold_left (fun m s => <[ps_name s := s]> m) listed ∅) in
  match z with
  | inl err => gret (inl err)
  | inr snapshots => gret (inr (checkpoint_of settled snapshots))
  end).

(** ** The end of a restore *)

Definition setRestoreCompleted {R} (ns podName uid resourceVersion snapshotRef : string) : P R (res bool) :=
  let* e := pcall (PPatchPod ns podName (pinned uid) (pinned resourceVersion)
                     (<[AnnotationRestoreCompleted := snapshotRef]> {[ psNameAnnotation := "" ]})) in
  match e with
  | Some err =>
      gret (if IsNotFound err then inr true
            else inl (wrapf ("patching " +s psNameAnnotation +s " and " +s AnnotationRestoreCompleted +s " on pod " +s ns +s "/" +s podName +s ": ") err))
  | None => gret (inr false)
  end.

Definition CompleteRestore (job : PodMigrationJob) (podName podUID : string) : fn presp unit (option ApiErr) := gfun (
  let snapRef := j_snapshotRef job in
  let ns := j_namespace job in
  let completing := wrapf ("completing the restore of " +s ns +s "/" +s podName +s ": ") in
  let* x := pcall (PGetPod ns podName) in
  match x with
  | inl err => gret (if IsNotFound err then None else Some (wrapf ("getting replacement pod " +s ns +s "/" +s podName +s ": ") err))
  | inr current =>
      let order := sget (p_annotations current) psNameAnnotation in
      if (podUID !=s "") && (p_uid current !=s podUID) then gret None
      else if (snapRef !=s "") && (order ==s "") && (sget (p_annotations current) AnnotationRestoreCompleted ==s snapRef) then gret None
      else if (snapRef ==s "") || (order !=s snapRef) then gret None
      else
        let* r := setRestoreCompleted ns podName (p_uid current) (m_resourceVersion (p_meta current)) snapRef in
        match r with
        | inr _ => gret None
        | inl err =>
            let* y := pcall (PGetPod ns podName) in
            match y with
            | inl getErr => gret (if IsNotFound getErr then None else Some (completing err))
            | inr cur => gret (if (podUID !=s "") && (p_uid cur !=s podUID) then None else Some (completing err))
            end
        end
  end).
End Provider.
