(* ===== verification/GKEProviderLaws.v ===== *)
(** * The GKE snapshot provider, proved

    A checkpoint is triggered only once the source is ordered to start cold; a
    snapshot is Ready, failed or in progress exactly by its conditions; and the
    reading of the checkpoint that settles a failed migration never contradicts
    a Ready snapshot. *)
From S2P Require Import Prelude Effects GoLib Kube Interfaces Engine Assignment GKEProvider Instances.

(** ** The trigger *)

Section Trigger.
Context (ownerReferenceError : PodMigrationJob -> option ApiErr).
Context (job : PodMigrationJob) (podName : string).
Abbreviation history := (@trace PEv presp).
Abbreviation ns := (j_namespace job).
Abbreviation name := (triggerName job podName).

(** The source is ordered to start cold, or it is gone; the patch pins its UID. *)
Definition source_bypassed (h : history) : Prop :=
  exists annotations x, seen h (PPatchPod ns podName (pinned (j_targetUID job)) None annotations) x /\
    annotations !! psNameAnnotation = Some "" /\
    (j_name job <> "" -> annotations !! AnnotationColdStartBypassJob = Some (j_name job)) /\
    (x = None \/ exists err, x = Some err /\ IsNotFound err = true).

Definition trigger_absent (h : history) : Prop := exists err, seen h (PGetTrigger ns name) (inl err) /\ IsNotFound err = true.
Definition owned (t : Trigger) : bool := existsb (fun uid => uid ==s j_uid job) (tr_ownerUIDs t).

Definition trigger_allows (h : history) (e : PEv) : Prop :=
  match e with
  | PCreateTrigger n t target owner => n = ns /\ t = name /\ target = podName /\ owner = job /\ trigger_absent h /\ source_bypassed h
  | PDeleteTrigger n t => n = ns /\ exists tr, seen h (PGetTrigger ns name) (inr tr) /\ t = tr_name tr /\ owned tr = false
  | PPatchPod n p _ _ _ => n = ns /\ p = podName /\ trigger_absent h
  | _ => True
  end.

(** What the result says: [NoRequeue] when the trigger is the job's or was just
    created (perhaps by a racing pass), a requeue after a stale trigger was deleted. *)
Definition trigger_result (h : history) (r : res Result) : Prop :=
  match r with
  | inl _ => True
  | inr r =>
      (r = NoRequeue /\ ((exists tr, seen h (PGetTrigger ns name) (inr tr) /\ owned tr = true) \/
         (exists x, seen h (PCreateTrigger ns name podName job) x /\ (x = None \/ exists err, x = Some err /\ IsAlreadyExists err = true)))) \/
      (r = Requeue /\ exists tr x, seen h (PGetTrigger ns name) (inr tr) /\ owned tr = false /\ seen h (PDeleteTrigger ns (tr_name tr)) x)
  end.

Lemma wpf_EnsureTrigger : wpf (open trigger_allows) (EnsureTrigger ownerReferenceError job podName) [] tt (fun h _ r => trigger_result h r).
Proof.
  unfold EnsureTrigger, ensureSourceColdStartBypass, setColdStartBypass, pcall. gstep.
  gstep; [gstep; exact I|]. gstep. gstep; [exact I|]. destruct x as [err|tr].
  - destruct (IsNotFound err) eqn:Hn; cbn [negb]; [|gstep; exact I]. gstep. cbv zeta. gstep. gstep; [split; [done|]; split; [done|]; exists err; eauto with history|].
    assert (forall x0 : option ApiErr, (x0 = None \/ exists err, x0 = Some err /\ IsNotFound err = true) ->
      wpg (open trigger_allows) (let* c := gcall (PCreateTrigger ns name podName job) in
         match c with Some err => gret (if IsAlreadyExists err then inr NoRequeue else inl err) | None => gret (inr NoRequeue) end)
        [existT (PPatchPod ns podName (pinned (j_targetUID job)) None
            ((if j_name job !=s "" then <[AnnotationColdStartBypassJob := j_name job]> else id) {[ psNameAnnotation := "" ]})) x0;
         existT (PGetTrigger ns name) (inl err)] tt (fun h _ r => trigger_result h r) (fun h _ r => trigger_result h r)) as Hcreate.
    { intros x0 Hx0. gstep. gstep.
      - repeat (split; [done|]). split; [exists err; split; [eauto with history|done]|]. eexists _, x0. split; [eauto with history|].
        split; [|split; [|done]].
        + destruct (_ !=s _); [rewrite lookup_insert_ne by done|]; by simplify_map_eq.
        + intros Hj%seqb_false. rewrite Hj. simpl. by rewrite lookup_insert_eq.
      - gstep; gstep; [destruct (IsAlreadyExists a) eqn:Ha; [|exact I]|]; left; (split; [done|]); right; eexists; (split; [apply seen_now|]); eauto. }
    destruct x as [err'|]; gstep; [destruct (IsNotFound err') eqn:Hn'; [|gstep; exact I]|]; apply Hcreate; eauto.
  - destruct (existsb (fun uid => uid ==s j_uid job) (tr_ownerUIDs tr)) eqn:Ho.
    + gstep. left. split; [done|]. left. exists tr. eauto with history.
    + gstep. gstep; [split; [done|]; exists tr; eauto with history|]. gstep. right. split; [done|]. exists tr, x. eauto with history.
Qed.

(** C17: A checkpoint is triggered only when no trigger of the job was found and
    the source pod, pinned by its UID, has just been ordered to start cold on
    its next restart (or is gone); a trigger is deleted only when it belongs to
    another job; and the call succeeds only when the trigger is the job's own or
    was just created. *)
Theorem trigger_after_bypass t r :
  exec (EnsureTrigger ownerReferenceError job podName tt) t (tt, r) ->
  trigger_result (rev t) r /\
  forall t1 e x t2, t = t1 ++ existT e x :: t2 -> trigger_allows (rev t1) e.
Proof.
  intros Hx. destruct (wpf_exec _ _ _ _ _ _ _ wpf_EnsureTrigger Hx (fair_open _ _)) as [Ho Hr]. split; [done|].
  intros t1 e x t2 ->. exact (obeys_at _ t1 t2 (existT e x) Ho).
Qed.
End Trigger.

(** ** The status of a snapshot *)

Definition conditions_of (conds : list (option RawCondition)) : list RawCondition := omap id conds.

(** A sub-condition reports a terminal failure. *)
Definition subcondition_failed (l : list RawCondition) : bool := existsb (fun c => is_subcondition c && failed_reason c) l.
Definition subcondition_progress (l : list RawCondition) : bool := existsb (fun c => is_subcondition c && progress_reason c) l.

(** Ready's own failure is recent. *)
Definition recent (now : Z) (c : RawCondition) : bool :=
  let t := default zero_time (r_time c) in
  negb (IsZero t) && (Sub now t <=? transientReadyFailureSuppressionWindow).

(** Ready reports a terminal failure that a checkpoint in progress does not hold back. *)
Definition ready_failed (now : Z) (l : list RawCondition) : bool :=
  existsb (fun c => is_ready c && failed_reason c && negb (subcondition_progress l && recent now c)) l.

Definition phase_failed (topPhase : option string) : bool :=
  match topPhase with Some p => isTerminalSnapshotFailureReason p | None => false end.

(** The checkpoint is durable: Ready, or Checkpoint succeeded. *)
Definition durable (l : list RawCondition) : bool :=
  existsb (fun c => (is_ready c && (r_status c ==s "True")) ||
    ((r_type c ==s "Checkpoint") && (r_status c ==s "True") && (r_reason c ==s "Succeeded"))) l.

Definition snapshot_failed (now : Z) (l : list RawCondition) (topPhase : option string) : bool :=
  subcondition_failed l || ready_failed now l || phase_failed topPhase.

Definition ready_conditions (l : list RawCondition) : list RawCondition := List.filter is_ready l.

Lemma sub_not_ready c : is_subcondition c = true -> is_ready c = false.
Proof. unfold is_subcondition, is_ready. intros [->%seqb_true| ->%seqb_true]%orb_prop; reflexivity. Qed.

Lemma checkpoint_sub c : (r_type c ==s "Checkpoint") = true -> is_subcondition c = true.
Proof. unfold is_subcondition. by intros ->. Qed.

(** One turn of the loop, on each component. *)
Lemma scan_step_some s c :
  let s' := scan_step s (Some c) in
  (sc_terminalSubcond s' = if is_subcondition c && failed_reason c then Some c else sc_terminalSubcond s) /\
  (sc_readyTerminal s' = if is_ready c && failed_reason c then Some (c, default zero_time (r_time c)) else sc_readyTerminal s) /\
  sc_subconditionInProgress s' = (sc_subconditionInProgress s || (is_subcondition c && progress_reason c)) /\
  sc_isReady s' = (sc_isReady s || ((is_ready c && (r_status c ==s "True")) ||
    ((r_type c ==s "Checkpoint") && (r_status c ==s "True") && (r_reason c ==s "Succeeded")))).
Proof.
  destruct s as [lp sub rdy prog isr]. unfold scan_step. destruct (is_subcondition c) eqn:Hs.
  - rewrite (sub_not_ready c Hs). by repeat split.
  - assert ((r_type c ==s "Checkpoint") = false) as Hc.
    { destruct (r_type c ==s "Checkpoint") eqn:Hc; [|done]. by rewrite (checkpoint_sub c Hc) in Hs. }
    rewrite Hc. destruct (is_ready c); [|by rewrite !orb_false_r].
    unfold failed_reason. destruct (r_status c ==s "True") eqn:Ht; simpl; rewrite ?orb_true_r, ?orb_false_r.
    + apply seqb_true in Ht as ->. by repeat split.
    + destruct (_ && _); simpl; by rewrite ?orb_false_r.
Qed.

#[local] Arguments scan_step : simpl never.

(** The scan of the list, from what was collected before. *)
Lemma scan_from l s :
  let s' := fold_left scan_step l s in
  (sc_terminalSubcond s' = None <-> sc_terminalSubcond s = None /\ subcondition_failed (conditions_of l) = false) /\
  sc_subconditionInProgress s' = (sc_subconditionInProgress s || subcondition_progress (conditions_of l)) /\
  sc_isReady s' = (sc_isReady s || durable (conditions_of l)) /\
  (forall x, sc_terminalSubcond s' = Some x -> sc_terminalSubcond s = Some x \/ failed_reason x = true).
Proof.
  revert s. induction l as [|[c|] l IH]; intros s; simpl.
  - rewrite !orb_false_r. split; [tauto|]. auto.
  - destruct (IH (scan_step s (Some c))) as (H1 & H2 & H3 & H4). destruct (scan_step_some s c) as (E1 & _ & E3 & E4).
    rewrite E3 in H2. rewrite E4 in H3. rewrite E1 in H1, H4. unfold subcondition_failed, subcondition_progress, durable in *. simpl.
    split; [|split; [|split]].
    + rewrite H1. destruct (is_subcondition c && failed_reason c) eqn:Hf; simpl; naive_solver.
    + by rewrite H2, orb_assoc.
    + by rewrite H3, !orb_assoc.
    + intros x Hx. destruct (H4 x Hx) as [H5|H5]; [|by right]. destruct (is_subcondition c && failed_reason c) eqn:Hf; [|by left].
      simplify_eq. apply andb_prop in Hf as [_ Hf]. by right.
  - apply (IH s).
Qed.

(** With one Ready condition, its failure is the one collected. *)
Lemma scan_ready l s :
  (length (ready_conditions (conditions_of l)) <= 1)%nat -> (sc_readyTerminal s <> None -> ready_conditions (conditions_of l) = []) ->
  sc_readyTerminal (fold_left scan_step l s) =
    match List.find (fun c => is_ready c && failed_reason c) (conditions_of l) with
    | Some c => Some (c, default zero_time (r_time c))
    | None => sc_readyTerminal s
    end.
Proof.
  revert s. induction l as [|[c|] l IH]; intros s Hl Hs; simpl in *; [done| |by apply IH].
  destruct (scan_step_some s c) as (_ & E2 & _). unfold ready_conditions in *. simpl in *. destruct (is_ready c) eqn:Hr; simpl in *.
  - assert (List.filter is_ready (conditions_of l) = []) as Hnil by (destruct (List.filter is_ready (conditions_of l)); [done|simpl in Hl; lia]).
    rewrite IH; [|rewrite Hnil; simpl; lia|done]. rewrite E2.
    assert (List.find (fun c => is_ready c && failed_reason c) (conditions_of l) = None) as ->.
    { destruct (List.find _ _) as [d|] eqn:Hd; [|done]. apply List.find_some in Hd as [Hin Hd]. apply andb_prop in Hd as [Hd _].
      assert (In d (List.filter is_ready (conditions_of l))) as Hin' by (by apply filter_In). by rewrite Hnil in Hin'. }
    by destruct (failed_reason c).
  - rewrite IH; [|done|by rewrite E2]. by rewrite E2.
Qed.

Lemma existsb_find {A} (f : A -> bool) l : existsb f l = match List.find f l with Some _ => true | None => false end.
Proof. induction l as [|a l IH]; simpl; [done|]. by destruct (f a). Qed.

(** What the Ready failure found makes of the list. *)
Lemma ready_failed_find now l :
  (length (ready_conditions l) <= 1)%nat ->
  ready_failed now l = match List.find (fun c => is_ready c && failed_reason c) l with
                       | Some c => negb (subcondition_progress l && recent now c)
                       | None => false
                       end.
Proof.
  unfold ready_failed. generalize (subcondition_progress l) as b. intros b Hl. induction l as [|c l IH]; simpl; [done|].
  unfold ready_conditions in *. simpl in Hl. destruct (is_ready c) eqn:Hr; simpl in *; [|by apply IH].
  assert (List.filter is_ready l = []) as Hnil by (destruct (List.filter is_ready l); [done|simpl in Hl; lia]).
  assert (existsb (fun c => is_ready c && failed_reason c && negb (b && recent now c)) l = false) as Hno.
  { apply existsb_false. intros d Hd. destruct (is_ready d) eqn:Hd'; [|done].
    assert (In d (List.filter is_ready l)) as Hin' by (by apply filter_In). by rewrite Hnil in Hin'. }
  destruct (failed_reason c); simpl; [by rewrite Hno, orb_false_r|].
  rewrite Hno. destruct (List.find _ _) as [d|] eqn:Hd; [|done]. apply List.find_some in Hd as [Hin Hd].
  apply andb_prop in Hd as [Hd _]. assert (In d (List.filter is_ready l)) as Hin' by (by apply filter_In). by rewrite Hnil in Hin'.
Qed.

Lemma terminal_phase reason : phaseForTerminalReason reason = PhaseFailed \/ phaseForTerminalReason reason = PhaseRefused.
Proof. unfold phaseForTerminalReason. destruct (isSnapshotRefusedReason reason); auto. Qed.

(** The three outcomes, from what the list holds. *)
Lemma snapshotStatus_phase now name created conds topPhase :
  let l := conditions_of conds in
  let st := snapshotStatus now name created conds topPhase in
  (length (ready_conditions l) <= 1)%nat ->
  ss_ref st = name /\
  if snapshot_failed now l topPhase then ss_phase st = PhaseFailed \/ ss_phase st = PhaseRefused
  else ss_phase st = if durable l then PhaseReady else PhaseInProgress.
Proof.
  intros l st Hl. unfold st, snapshotStatus, snapshot_failed.
  pose proof (scan_from conds no_scan) as (H1 & H2 & H3 & H4).
  pose proof (scan_ready conds no_scan Hl (fun Hn => False_ind _ (Hn eq_refl))) as H5.
  fold (scan conds) in *. rewrite (ready_failed_find now l Hl). fold l in H1, H2, H3, H5. simpl in H1, H2, H3, H5.
  unfold suppressed. rewrite H2, H3, H5. clear H2 H3 H5. destruct (sc_terminalSubcond (scan conds)) as [c|] eqn:Hsub.
  - split; [done|]. destruct (subcondition_failed l) eqn:Hf; [|naive_solver]. apply terminal_phase.
  - destruct (subcondition_failed l) eqn:Hf; [naive_solver|]. simpl.
    destruct (List.find (fun c => is_ready c && failed_reason c) l) as [c|]; simpl.
    + unfold recent. destruct (_ && _); simpl; [|split; [done|apply terminal_phase]].
      unfold phase_failed. destruct topPhase as [p|]; [destruct (isTerminalSnapshotFailureReason p); [split; [done|apply terminal_phase]|]|];
        by destruct (durable l).
    + unfold phase_failed. destruct topPhase as [p|]; [destruct (isTerminalSnapshotFailureReason p); [split; [done|apply terminal_phase]|]|];
        by destruct (durable l).
Qed.

(** C18: On a snapshot with one Ready condition, [CheckStatus] says failed (or
    refused) exactly when a sub-condition or the phase failed, or Ready did and
    no running checkpoint holds that back (60 seconds at most); Ready exactly
    when nothing failed and Ready is True or the checkpoint succeeded; in
    progress otherwise.  And [CheckpointState], which decides whether the source
    of a failed migration may go back into service, agrees: a snapshot once Ready
    counts as completed, and a failed one, without a running checkpoint, as
    settled. *)
Theorem snapshot_status_exact now name created deleting conds topPhase :
  let l := conditions_of conds in
  let st := snapshotStatus now name created conds topPhase in
  let '(completed, finished) := podSnapshotCheckpointProgress (mkPodSnapshot name created deleting (Some (conds, topPhase))) in
  (length (ready_conditions l) <= 1)%nat ->
  ((ss_phase st = PhaseFailed \/ ss_phase st = PhaseRefused) <-> snapshot_failed now l topPhase = true) /\
  (ss_phase st = PhaseReady <-> snapshot_failed now l topPhase = false /\ durable l = true) /\
  (ss_phase st = PhaseInProgress <-> snapshot_failed now l topPhase = false /\ durable l = false) /\
  (ss_phase st = PhaseReady -> completed = true) /\
  (snapshot_failed now l topPhase = true -> subcondition_progress l = false -> deleting = false -> finished = true).
Proof.
  intros l st. destruct (podSnapshotCheckpointProgress _) as [completed finished] eqn:Hp. intros Hl.
  destruct (snapshotStatus_phase now name created conds topPhase Hl) as [_ Hph]. fold l st in Hph.
  unfold podSnapshotCheckpointProgress in Hp. simpl in Hp. fold (conditions_of conds) l in Hp. injection Hp as Hc Hfin.
  assert (durable l = true -> completed = true) as Hdur.
  { intros Hd. rewrite <- Hc. unfold durable in Hd. apply existsb_exists in Hd as (c & Hin & Hd). apply existsb_exists. exists c.
    split; [done|]. destruct (r_type c ==s "Checkpoint"), (r_status c ==s "True"), (is_ready c); simpl in *; done. }
  assert (snapshot_failed now l topPhase = true -> subcondition_progress l = false -> deleting = false -> finished = true) as Hset.
  { intros Hf Hpr ->. rewrite <- Hfin. unfold snapshot_failed in Hf. unfold subcondition_progress in Hpr. rewrite Hpr. simpl. rewrite andb_true_r.
    apply orb_prop in Hf as [Hf|Hf]; [apply orb_prop in Hf as [Hf|Hf]|].
    - unfold subcondition_failed in Hf. by rewrite Hf.
    - unfold ready_failed in Hf. apply existsb_exists in Hf as (c & Hin & Hf). apply andb_prop in Hf as [Hf _].
      assert (existsb (fun c => is_ready c && failed_reason c) l = true) as -> by (apply existsb_exists; by exists c).
      by rewrite !orb_true_r.
    - unfold phase_failed in Hf. destruct topPhase; [rewrite Hf|done]. by rewrite orb_true_r. }
  destruct (snapshot_failed now l topPhase) eqn:Hf.
  - destruct Hph as [Hph|Hph]; rewrite Hph; naive_solver.
  - destruct (durable l) eqn:Hd; rewrite Hph; naive_solver.
Qed.

Definition raw (type status reason : string) : option RawCondition :=
  Some (mkRawCondition (Some type) (Some status) (Some reason) None None).

(** Ready failed while the checkpoint is running, with no time to hold it back by. *)
Lemma snapshot_status_exact_witness :
  ss_phase (snapshotStatus at_1100 "snap" 0 [raw "Checkpoint" "False" "InProgress"; raw "Ready" "False" "Failed"] None) = PhaseFailed \/
  ss_phase (snapshotStatus at_1100 "snap" 0 [raw "Checkpoint" "False" "InProgress"; raw "Ready" "False" "Failed"] None) = PhaseRefused.
Proof.
  pose proof (snapshot_status_exact at_1100 "snap" 0 false [raw "Checkpoint" "False" "InProgress"; raw "Ready" "False" "Failed"] None) as H.
  simpl in H. destruct H as [H _]; [lia|]. apply H. vm_compute. reflexivity.
Defined.

(** ** The end of a restore *)

Section Complete.
Context (job : PodMigrationJob) (podName podUID : string).
Abbreviation history := (@trace PEv presp).

(** The replacement as it was read: of the recorded UID, and still ordered to
    restore the job's snapshot. *)
Definition restores_snapshot (p : Pod) : Prop :=
  (podUID = "" \/ p_uid p = podUID) /\ j_snapshotRef job <> "" /\ sget (p_annotations p) psNameAnnotation = j_snapshotRef job.

Definition complete_allows (h : history) (e : PEv) : Prop :=
  match e with
  | PGetPod n p => n = j_namespace job /\ p = podName
  | PPatchPod n p uid rv annotations =>
      exists q, seen h (PGetPod (j_namespace job) podName) (inr q) /\ restores_snapshot q /\
        n = j_namespace job /\ p = podName /\ uid = pinned (p_uid q) /\ rv = pinned (m_resourceVersion (p_meta q)) /\
        annotations = <[AnnotationRestoreCompleted := j_snapshotRef job]> {[ psNameAnnotation := "" ]} /\
        Forall (fun s => match projT1 s with PPatchPod _ _ _ _ _ => False | _ => True end) h
  | _ => False
  end.

(** Nothing is left to do: the last read or write says so. *)
Definition nothing_left (h : history) : Prop :=
  match h with
  | existT (PGetPod _ _) x :: _ =>
      match x with inl err => IsNotFound err = true | inr q => ~ restores_snapshot q \/ (podUID <> "" /\ p_uid q <> podUID) end
  | existT (PPatchPod _ _ _ _ _) x :: _ => forall err, x = Some err -> IsNotFound err = true
  | _ => False
  end.

Lemma wpf_CompleteRestore :
  wpf (open complete_allows) (CompleteRestore job podName podUID) [] tt (fun h _ r => r = None -> nothing_left h).
Proof.
  unfold CompleteRestore, setRestoreCompleted, pcall. gstep. cbv zeta. gstep. gstep; [done|]. destruct x as [err|q].
  { gstep. simpl. by destruct (IsNotFound err). }
  set (order := sget (p_annotations q) psNameAnnotation).
  assert (forall P : Prop, (restores_snapshot q -> P) -> (podUID !=s "") && (p_uid q !=s podUID) = false ->
    (j_snapshotRef job ==s "") || (order !=s j_snapshotRef job) = false -> P) as Hok.
  { intros P HP Hu Ho. apply HP. apply orb_false_iff in Ho as [Ho1 Ho2]. split; [|split]; [|by bool_props|by bool_props].
    apply andb_false_iff in Hu as [Hu|Hu]; [left|right]; by bool_props. }
  destruct ((podUID !=s "") && (p_uid q !=s podUID)) eqn:Hu.
  { gstep. intros _. right. by bool_props. }
  destruct ((j_snapshotRef job !=s "") && (order ==s "") && (sget (p_annotations q) AnnotationRestoreCompleted ==s j_snapshotRef job)) eqn:Hd.
  { gstep. intros _. left. intros (_ & Hne & Ho). bool_props. fold order in Ho. congruence. }
  destruct ((j_snapshotRef job ==s "") || (order !=s j_snapshotRef job)) eqn:Ho.
  { gstep. intros _. left. intros (_ & Hne & Ho'). fold order in Ho'. apply orb_prop in Ho as [Ho|Ho]; bool_props; done. }
  gstep. gstep. gstep.
  - exists q. split; [by left|]. split; [by apply Hok|]. repeat (split; [done|]). by repeat constructor.
  - destruct x as [err|]; gstep.
    2: { gstep. by intros _. }
    destruct (IsNotFound err) eqn:Hn; gstep; [intros _ err' [= <-]; done|].
    gstep; [done|]. gstep; gstep; [simpl; by destruct (IsNotFound a)|].
    destruct ((podUID !=s "") && (p_uid p !=s podUID)) eqn:Hc; [|done]. intros _. right. by bool_props.
Qed.

(** Completing a restore writes at most once, only to the replacement as it
    was just read (its UID and resource version pinned), and only while it still
    carries the order to restore the job's snapshot; the write replaces that
    order by the cold-start bypass and records the restore.  Success means that
    the replacement was patched, is gone, or has no such order any more. *)
Theorem complete_restore_once t r :
  exec (CompleteRestore job podName podUID tt) t (tt, r) ->
  (r = None -> nothing_left (rev t)) /\ forall t1 e x t2, t = t1 ++ existT e x :: t2 -> complete_allows (rev t1) e.
Proof.
  intros Hx. destruct (wpf_exec _ _ _ _ _ _ _ wpf_CompleteRestore Hx (fair_open _ _)) as [Ho Hr]. split; [done|].
  intros t1 e x t2 ->. exact (obeys_at _ t1 t2 (existT e x) Ho).
Qed.
End Complete.

(** ** Runs *)

(** No trigger, a source that takes its order, and a replacement with its restore order. *)
Definition replaced_pod : Pod := with_p_annotations {[ psNameAnnotation := "snap-1" ]} sample_pod.
Definition provider_accepts (e : PEv) : presp e :=
  match e return presp e with
  | PGetTrigger _ _ => inl (mkErr NotFound "")
  | PGetPod _ _ => inr replaced_pod
  | PGetSnapshot _ _ => inl (mkErr NotFound "")
  | PListSnapshots _ _ => inr []
  | PCreateTrigger _ _ _ _ | PDeleteTrigger _ _ | PPatchPod _ _ _ _ _ => None
  end.

Definition provider_run {A} (p : prog presp A) := run (fun (_ : unit) e => (tt, provider_accepts e)) tt p.

Lemma provider_exec {A} (p : prog presp A) : exec p (snd (fst (provider_run p))) (snd (provider_run p)).
Proof. apply run_exec. Qed.

Abbreviation trigger_run := (EnsureTrigger (fun _ => None) (sample_job Snapshotting) "web-0" tt).

Lemma trigger_after_bypass_witness : exists h, source_bypassed (sample_job Snapshotting) "web-0" h.
Proof.
  destruct (trigger_after_bypass (fun _ => None) (sample_job Snapshotting) "web-0" (snd (fst (provider_run trigger_run))) (inr NoRequeue))
    as [_ Ht].
  { pose proof (provider_exec trigger_run) as Hx.
    replace (snd (provider_run trigger_run)) with (tt, inr NoRequeue : res Result) in Hx by (vm_compute; reflexivity). exact Hx. }
  eexists. refine (proj2 (proj2 (proj2 (proj2 (proj2 (Ht (take 2 (snd (fst (provider_run trigger_run)))) (PCreateTrigger _ _ _ _) None [] _)))))).
  vm_compute. reflexivity.
Defined.

Abbreviation completion_run := (CompleteRestore (set_snapshotRef "snap-1" (sample_job Restoring)) "web-0" "uid-pod" tt).

Lemma complete_restore_once_witness :
  nothing_left (set_snapshotRef "snap-1" (sample_job Restoring)) "uid-pod" (rev (snd (fst (provider_run completion_run)))).
Proof.
  refine (proj1 (complete_restore_once (set_snapshotRef "snap-1" (sample_job Restoring)) "web-0" "uid-pod" _ None _) eq_refl).
  pose proof (provider_exec completion_run) as Hx.
  replace (snd (provider_run completion_run)) with (tt, None : option ApiErr) in Hx by (vm_compute; reflexivity). exact Hx.
Defined.
