(* ===== verification/PolicyLookup.v ===== *)
(** * The snapshot policy of a pod (internal/util/preemption.go)

    A pod is migrated only under the newest Ready, manual PodSnapshotPolicy of its
    namespace that selects it, and only if that policy stops the pod after the
    checkpoint.  The policies are unstructured: a member of another type reads
    as absent. *)
From Stdlib Require Import Sorting.Permutation.
From S2P Require Import Prelude Effects GoLib Kube Interfaces Budget GKEProvider Instances.

Record SnapshotPolicy := mkSnapshotPolicy {
  psp_name : string;
  psp_creation : Z;
  (** [metadata.managedFields]: whether the operation is Update, and its time *)
  psp_managed : list (bool * option Z);
  (** [spec.triggerConfig.type] and [spec.triggerConfig.postCheckpoint] *)
  psp_triggerType : option string;
  psp_postCheckpoint : option string;
  (** [spec.selector], if it is an object that decodes to a LabelSelector *)
  psp_selector : option Selector;
  (** [status.conditions] *)
  psp_conditions : option (list (option RawCondition)) }.

Definition LatestUpdate (obj : SnapshotPolicy) : Z :=
  fold_left (fun latest (field : bool * option Z) =>
    if fst field then match snd field with
                      | Some t => if After t latest then t else latest
                      | None => latest
                      end
    else latest) (psp_managed obj) (psp_creation obj).

Section Lookup.
Context `{SelectorLib}.

Definition policy_ready (psp : SnapshotPolicy) : bool :=
  match psp_conditions psp with
  | None => false
  | Some conds => existsb (fun c => (r_type c ==s "Ready") && (r_status c ==s "True")) (omap id conds)
  end.

Definition policy_selects (podLabels : gmap string string) (psp : SnapshotPolicy) : bool :=
  match psp_selector psp with
  | None => false
  | Some sel => match LabelSelectorAsSelector (Some sel) with
                | None => false
                | Some matches => matches podLabels
                end
  end.

(** The body of the loop: whether the policy is kept. *)
Definition policy_matches (podLabels : gmap string string) (psp : SnapshotPolicy) : bool :=
  if negb (bool_decide (psp_triggerType psp = Some "manual")) then false
  else if negb (policy_selects podLabels psp) then false
  else policy_ready psp.

(** The newest first. *)
Definition newer (a b : SnapshotPolicy) : bool := LatestUpdate b <? LatestUpdate a.

(** What is answered of the list. *)
Definition latest_stop_policy (items : list SnapshotPolicy) (podLabels : gmap string string) : option SnapshotPolicy :=
  match SliceStable newer (List.filter (policy_matches podLabels) items) with
  | [] => None
  | latest :: _ => if bool_decide (psp_postCheckpoint latest = Some "stop") then Some latest else None
  end.

Definition FindLatestReadyManualStopPSP (listed : res (list SnapshotPolicy)) (podLabels : gmap string string) : res (option SnapshotPolicy) :=
  match listed with
  | inl err => if IsNoMatchError err then inr None else inl (wrapf "failed to list PSPs: " err)
  | inr items => inr (latest_stop_policy items podLabels)
  end.

(** [GKEPodSnapshots.ResolvePolicy] *)
Definition gke_ResolvePolicy (listed : res (list SnapshotPolicy)) (pod : Pod) : res (option PolicyRef) :=
  match FindLatestReadyManualStopPSP listed (p_labels pod) with
  | inl err => inl err
  | inr None => inr None
  | inr (Some psp) => inr (Some (mkPolicyRef "podsnapshot.gke.io" "PodSnapshotPolicy" (psp_name psp)))
  end.

(** ** The first of a stable sort *)

(** [p] is the first of the newest of [l]. *)
Definition first_newest (l : list SnapshotPolicy) (p : SnapshotPolicy) : Prop :=
  exists before after, l = (before ++ p :: after)%list /\
    (forall q, In q before -> LatestUpdate q < LatestUpdate p) /\ (forall q, In q after -> LatestUpdate q <= LatestUpdate p).

Lemma sort_head l : match SliceStable newer l with [] => l = [] | p :: _ => first_newest l p end.
Proof.
  induction l as [|x l IH]; simpl; [done|]. destruct (SliceStable newer l) as [|p rest]; simpl.
  - subst l. exists [], []. split; [done|]. by split.
  - destruct IH as (b & a & -> & Hb & Ha). unfold newer at 1. destruct (LatestUpdate x <? LatestUpdate p) eqn:Hx; bool_props.
    + exists (x :: b), a. split; [done|]. split; [|done]. intros q [<-|Hq]; [done|auto].
    + exists [], (b ++ p :: a). split; [done|]. split; [done|]. intros q Hq. apply in_app_or in Hq as [Hq|[<-|Hq]]; [|lia|].
      * specialize (Hb q Hq). lia.
      * specialize (Ha q Hq). lia.
Qed.

Lemma first_newest_unique l p q : first_newest l p -> first_newest l q -> p = q.
Proof.
  intros (b & a & -> & Hb & Ha) (b' & a' & Hl & Hb' & Ha'). revert b' Hl Hb Hb'.
  induction b as [|x b IH]; intros [|x' b'] Hl Hb Hb'; simpl in *; [by injection Hl|..]; injection Hl as E Hl.
  - assert (LatestUpdate q <= LatestUpdate p) by (apply Ha; rewrite Hl; apply in_or_app; right; by left).
    specialize (Hb' x' (or_introl eq_refl)). rewrite <- E in Hb'. lia.
  - assert (LatestUpdate p <= LatestUpdate q) by (apply Ha'; rewrite <- Hl; apply in_or_app; right; by left).
    specialize (Hb x (or_introl eq_refl)). rewrite E in Hb. lia.
  - eapply (IH b'); [done| |]; intros y Hy; [apply Hb|apply Hb']; by right.
Qed.

(** The policy of a pod is exactly the newest (the first listed of those of
    one time) of its namespace's policies that are manual, select it and are
    Ready, provided that one stops the pod: an older stop policy is never used in
    its place.  A missing kind means no policy; any other list error is reported. *)
Theorem policy_lookup_exact listed pod :
  match gke_ResolvePolicy listed pod with
  | inl err => exists e, listed = inl e /\ e_kind e = e_kind err /\ IsNoMatchError e = false
  | inr None => (exists e, listed = inl e /\ IsNoMatchError e = true) \/
                exists items, listed = inr items /\ forall p, first_newest (List.filter (policy_matches (p_labels pod)) items) p ->
                  psp_postCheckpoint p <> Some "stop"
  | inr (Some ref) => exists items p, listed = inr items /\ pr_name ref = psp_name p /\
      first_newest (List.filter (policy_matches (p_labels pod)) items) p /\ psp_postCheckpoint p = Some "stop"
  end.
Proof.
  unfold gke_ResolvePolicy, FindLatestReadyManualStopPSP. destruct listed as [err|items].
  - destruct (IsNoMatchError err) eqn:He; [left; eauto|]. by exists err.
  - unfold latest_stop_policy. pose proof (sort_head (List.filter (policy_matches (p_labels pod)) items)) as Hs.
    destruct (SliceStable newer (List.filter (policy_matches (p_labels pod)) items)) as [|p rest].
    + right. exists items. split; [done|]. rewrite Hs. intros p (b & a & Hl & _). by destruct b.
    + case_bool_decide as Hp; [by exists items, p|]. right. exists items. split; [done|].
      intros q Hq. by rewrite (first_newest_unique _ _ _ Hq Hs).
Qed.
End Lookup.

(** ** Sizes in messages *)

(** [float64(x)/unit] with two decimals: the quotient by a power of two is exact,
    and %.2f rounds it to the nearest, ties to the even digit. *)
Definition round_half_even (num den : Z) : Z :=
  let q := num / den in
  let r := num mod den in
  if 2 * r <? den then q else if den <? 2 * r then q + 1 else if Z.even q then q else q + 1.

Definition format_unit (b unit : Z) (suffix : string) : string :=
  let cents := round_half_even (f64_trunc (f64_of_Z b) * 100) unit in
  pretty (cents / 100) +s "." +s pad 2 (cents mod 100) +s suffix.

Definition FormatBytes (b : Z) : string :=
  let kib := 1024 in
  let mib := kib * kib in
  let gib := mib * kib in
  if gib <=? b then format_unit b gib "Gi"
  else if mib <=? b then format_unit b mib "Mi"
  else if kib <=? b then format_unit b kib "Ki"
  else pretty b +s "B".

Example format_gib : FormatBytes (15 * 1024 * 1024 * 1024 + 5368709) = "15.00Gi" /\ FormatBytes 1536 = "1.50Ki" /\
  FormatBytes 512 = "512B" /\ FormatBytes 1843 = "1.80Ki".
Proof. by vm_compute. Qed.
