(* ===== verification/NodePreemption.v ===== *)
(** * The node preemption reconciler (internal/controller/node_preemption_controller.go)

    When a node announces its termination, the reconciler starts the migration of
    the opted-in pods it runs, the smallest first, as long as their memory fits
    the node's recovery budget.  Its state is the pods it has already dealt with,
    by UID, with the maps and lists of one pass. *)
From S2P Require Import Prelude Effects GoLib Kube Interfaces Calls Eligibility Engine PodUtil JobBase Assignment.
From S2P Require Import Timeout ActiveMigration Spawn PolicyLookup.

Definition DefaultSpotPreemptionNodeBudget : Z := 15 * 1024 * 1024 * 1024.
Definition processedTTL : Z := 10 * Minute.

Record Candidate := mkCandidate {
  cd_pod : Pod; cd_engine : Engine; cd_policy : PolicyRef; cd_size : Z; cd_parent : Parent }.

Record NodePreemptionReconciler := mkNodePreemption {
  np_hasAPIReader : bool;
  np_hasRecorder : bool;
  np_spotPreemptionBudget : Z;
  np_policy : option RuntimeClassPolicy;
  np_engines : option Registry }.

(** [processedPods], which outlives a pass, and the pass's [activePodMigrations]
    and [candidates]. *)
Record PreemptionState := mkPreemptionState {
  ns_processed : gmap string Z;
  ns_seen : gmap string (option PodMigration);
  ns_candidates : list Candidate }.

Section Reconcile.
Context `{KubeLib} `{DNSLib}.
Context (r : NodePreemptionReconciler) (now : Z).
Abbreviation N R A := (gom resp PreemptionState R A).

Definition preemptionPolicy : RuntimeClassPolicy :=
  match np_policy r with Some p => p | None => default (mkPolicy ∅ false) defaultPolicy end.

(** As for the eviction webhook, an engine is nil only when none serves the pod. *)
Definition preemptionEngine (pod : Pod) (pm : option PodMigration) : option Engine :=
  match np_engines r with
  | Some reg => let '(eng, ok) := ForPod reg (Some pod) pm in if ok : bool then eng else None
  | None => Some GKEPodSnapshots
  end.

Definition record_event {R} (target : EventTarget) (type reason message : string) : N R unit :=
  gwhen (np_hasRecorder r) (ecall (EEvent target type reason message)).

Definition mark_processed {R} (pod : Pod) : N R unit :=
  gmodify (fun s => mkPreemptionState (<[p_uid pod := now]> (ns_processed s)) (ns_seen s) (ns_candidates s)).

(** A skip that is announced once: an event, a metric, and the pod is remembered. *)
Definition skip (pod : Pod) (reason metricReason message : string) : N unit unit :=
  do* record_event (about_pod pod) "Warning" reason message in
  do* ecall (EMetric "RecordSpotPreemptionSkipped" [metricReason] 0) in
  do* mark_processed pod in
  greturn tt.

(** The active PodMigration of the namespace, looked up once a pass. *)
Definition activePodMigration (ns : string) : N unit (option PodMigration) :=
  let* s := gget in
  match ns_seen s !! ns with
  | Some pm => gret pm
  | None =>
      let* x := ActivePodMigration ns in
      match x with
      | inl _ => greturn tt
      | inr pm =>
          do* gmodify (fun s => mkPreemptionState (ns_processed s) (<[ns := pm]> (ns_seen s)) (ns_candidates s)) in
          gret pm
      end
  end.

(** What the pod itself must be to be migrated off the node. *)
Definition preemptible (node : Node) (pod : Pod) : bool :=
  if p_nodeName pod !=s m_name (n_meta node) then false
  else if (p_namespace pod ==s "kube-system") || (p_namespace pod ==s "pod-migration-system") then false
  else if p_deleting pod then false
  else if negb (bool_decide (p_phase pod = PodRunning)) then false
  else if negb (IsPodMigrationEnabled pod) then false
  else if negb (AreReadinessGatesSatisfied pod) then false
  else if negb (Allows preemptionPolicy (p_runtimeClassName pod)) then false
  else if HasPDBEvictionTimedOut pod then false
  else true.

(** Falls through when neither the cache nor the API server has a job for the pod. *)
Definition without_job (pod : Pod) : N unit unit :=
  let jobName := FormatPMJName (p_name pod) (p_uid pod) in
  let* x := ecall (EGetJob Cache (p_namespace pod) jobName) in
  match x with
  | inr _ => greturn tt
  | inl err =>
      if negb (IsNotFound err) then greturn tt
      else if np_hasAPIReader r then
        let* y := ecall (EGetJob Live (p_namespace pod) jobName) in
        match y with
        | inr _ => greturn tt
        | inl err => if negb (IsNotFound err) then greturn tt else gret tt
        end
      else gret tt
  end.

Definition candidateEngine (node : Node) (pod : Pod) : N unit Engine :=
  let* pm := activePodMigration (p_namespace pod) in
  match preemptionEngine pod pm with
  | None => greturn tt
  | Some eng =>
      if negb (v_ok (e_eligible eng pod (Some node))) then greturn tt
      else
        let '(ok, reason) := AllowsFencing (Some pod) (Some eng) in
        if negb ok then
          do* skip pod "MigrationSkippedUnfencedEngine" "unfenced_engine" (reason +s "; skipping spot preemption migration") in
          greturn tt
        else gret eng
  end.

Definition candidatePolicy (eng : Engine) (pod : Pod) : N unit PolicyRef :=
  let* x := ecall (EResolvePolicy (e_name eng) pod) in
  match x with
  | inl _ => greturn tt
  | inr (Some policy) => gret policy
  | inr None =>
      do* skip pod "MigrationSkippedNoPolicy" "no_policy"
            "Pod is opted into live migration, but no matching Ready manual+stop PodSnapshotPolicy was found; skipping spot preemption migration" in
      greturn tt
  end.

Definition candidateSize (pod : Pod) : N unit Z :=
  let '(footprintBytes, known) := CalculatePodMemoryFootprint (Some pod) in
  if negb known || (footprintBytes <=? 0) then
    do* skip pod "MigrationSkippedUnknownMemory" "unknown_memory"
          "Pod has zero memory request and limit (BestEffort QoS); cannot budget spot preemption migration" in
    greturn tt
  else gret footprintBytes.

Definition candidateParent (pod : Pod) : N unit Parent :=
  let* x := ResolveParentWorkload pod in
  match x with
  | inr p => gret p
  | inl err => if IsNotFound err then gret no_parent else greturn tt
  end.

Definition candidateKey (pod : Pod) (parent : Parent) : N unit unit :=
  if IsBuiltInWorkloadKind (pa_kind parent) then gret tt
  else
    let replicaKey := default "" (ResolveOperatorReplicaKey pod (pa_kind parent)) in
    if replicaKey ==s "" then
      skip pod "MigrationSkippedNoReplicaKey" "no_replica_key"
        ("Pod is owned by operator " +s pa_kind parent +s "/" +s pa_name parent +s
         " but has no resolvable replica identity key; skipping spot preemption migration")
    else
      let* x := HasAmbiguousOperatorSibling (p_namespace pod) (pa_name parent) (pa_kind parent) (pa_uid parent) replicaKey
                  [p_uid pod; p_name pod] in
      match x with
      | inl _ => greturn tt
      | inr (Some sibling) =>
          skip pod "MigrationSkippedAmbiguousReplicaKey" "ambiguous_replica_key"
            ("Operator-owned pod replica identity " +s Quote replicaKey +s " is shared with sibling pod " +s sibling +s
             "; skipping spot preemption migration")
      | inr None =>
          let* y := HasActivePMJWithReplicaKey (p_namespace pod) (pa_name parent) (pa_kind parent) replicaKey
                      (FormatPMJName (p_name pod) (p_uid pod)) in
          match y with
          | inl _ => greturn tt
          | inr (Some existing) =>
              skip pod "MigrationSkippedAmbiguousReplicaKey" "ambiguous_replica_key"
                ("Operator-owned pod replica identity " +s Quote replicaKey +s " is already in-flight under migration job " +s
                 existing +s "; skipping spot preemption migration")
          | inr None => gret tt
          end
      end.

(** The body of the first loop. *)
Definition consider (node : Node) (pod : Pod) : fn resp PreemptionState unit := gfun (
  if negb (preemptible node pod) then gret tt
  else
    do* without_job pod in
    let* s := gget in
    match ns_processed s !! p_uid pod with
    | Some _ => gret tt
    | None =>
        let* eng := candidateEngine node pod in
        let* policy := candidatePolicy eng pod in
        let* size := candidateSize pod in
        let* parent := candidateParent pod in
        do* candidateKey pod parent in
        gmodify (fun s => mkPreemptionState (ns_processed s) (ns_seen s)
          (ns_candidates s ++ [mkCandidate pod eng policy size parent])%list)
    end).

(** By footprint, then the older first, then by name. *)
Definition candidate_less (a b : Candidate) : bool :=
  if negb (cd_size a =? cd_size b) then cd_size a <? cd_size b
  else
    let t c := m_creationTimestamp (p_meta (cd_pod c)) in
    if negb (t a =? t b) then Before (t a) (t b) else String.ltb (p_name (cd_pod a)) (p_name (cd_pod b)).

(** The job of a preempted pod: a short deadline unless the pod asks for one. *)
Definition preemptionJob (c : Candidate) : PodMigrationJob :=
  let pod := cd_pod c in
  let '(labels, annotations) :=
    BuildPMJLabelsAndAnnotationsForPolicy pod (cd_parent c) (pr_name (cd_policy c)) PreemptionDefaultTimeout TriggerSourceSpotPreemption in
  let annotations := if sget (p_annotations pod) AnnotationMigrationTimeout ==s ""
                     then <[AnnotationMigrationTimeout := DurationString PreemptionDefaultTimeout]> annotations else annotations in
  new_job (p_namespace pod) (FormatPMJName (p_name pod) (p_uid pod)) (p_name pod) (p_uid pod) labels
    (<[AnnotationEngine := e_name (cd_engine c)]> annotations).

Definition about_node (node : Node) : EventTarget := mkEventTarget "Node" "" (m_name (n_meta node)) (m_uid (n_meta node)).

Definition create_job (node : Node) (c : Candidate) (remainingBudget : Z) : fn resp PreemptionState unit := gfun (
  let pod := cd_pod c in
  let job := preemptionJob c in
  let* x := ecall (ECreateJob job) in
  do* match x with
      | inl err =>
          if IsAlreadyExists err then gret tt
          else
            do* record_event (about_pod pod) "Warning" "PreemptionMigrationCreateFailed"
                  ("Failed to create PodMigrationJob " +s j_name job +s ": " +s e_msg err) in
            greturn tt
      | inr _ =>
          do* record_event (about_pod pod) "Normal" "PreemptionMigrationTriggered"
                ("Triggered spot preemption migration for pod on node " +s m_name (n_meta node) +s " (memory footprint: " +s
                 FormatBytes (cd_size c) +s ", remaining node budget: " +s FormatBytes remainingBudget +s ")") in
          do* record_event (about_node node) "Normal" "PreemptionMigrationInitiated"
                ("Initiated preemption migration for pod " +s p_namespace pod +s "/" +s p_name pod +s " (job " +s j_name job +s ")") in
          ecall (EMetric "RecordSpotPreemptionTriggered" [] 0)
      end in
  mark_processed pod).

(** The second loop. *)
Fixpoint admit_candidates (node : Node) (totalBudget remainingBudget : Z) (candidates : list Candidate) : N Outcome unit :=
  match candidates with
  | [] => gret tt
  | c :: rest =>
      if remainingBudget <? cd_size c then
        do* record_event (about_pod (cd_pod c)) "Warning" "MigrationSkippedPreemptionBudgetExceeded"
              ("Pod requested " +s FormatBytes (cd_size c) +s " memory, exceeding remaining node preemption budget (" +s
               FormatBytes remainingBudget +s " remaining of " +s FormatBytes totalBudget +s " total); skipping spot preemption migration") in
        do* ecall (EMetric "RecordSpotPreemptionSkipped" ["budget_exceeded"] 0) in
        do* mark_processed (cd_pod c) in
        admit_candidates node totalBudget remainingBudget rest
      else
        let remainingBudget := i64 (remainingBudget - cd_size c) in
        do* ginvoke (create_job node c remainingBudget) in
        admit_candidates node totalBudget remainingBudget rest
  end.

Definition totalBudget : Z :=
  if np_spotPreemptionBudget r <=? 0 then DefaultSpotPreemptionNodeBudget else np_spotPreemptionBudget r.

(** Entries older than the TTL are dropped. *)
Definition sweep (processed : gmap string Z) : gmap string Z :=
  filter (fun kv : string * Z => (Sub now kv.2 <=? processedTTL) = true) processed.

Definition preempt (node : Node) : fn resp PreemptionState Outcome := gfun (
  do* gmodify (fun s => mkPreemptionState (sweep (ns_processed s)) ∅ []) in
  let* x := ecall (EListPods "" (PodsOnNode (m_name (n_meta node)))) in
  match x with
  | inl err => gret (NoRequeue, Some err)
  | inr pods =>
      do* giter pods (fun pod => ginvoke (consider node pod)) in
      let* s := gget in
      match ns_candidates s with
      | [] => gret (NoRequeue, None)
      | candidates =>
          do* admit_candidates node totalBudget totalBudget (SliceStable candidate_less candidates) in
          gret (NoRequeue, None)
      end
  end).

Definition ReconcileNode (name : string) : fn resp PreemptionState Outcome := gfun (
  let* x := ecall (EGetNode name) in
  match x with
  | inl err => gret (if IsNotFound err then (NoRequeue, None) else (NoRequeue, Some err))
  | inr node =>
      if negb (IsNodePreempting (Some node)) then gret (NoRequeue, None)
      else ginvoke (preempt node)
  end).
End Reconcile.

(** ** The filter of node events (SetupWithManager) *)

Definition node_updated (oldNode newNode : Node) : bool := IsNodePreempting (Some newNode) || IsNodePreempting (Some oldNode).
Definition node_created (node : Node) : bool := IsNodePreempting (Some node).
