(* ===== verification/NodePreemptionLaws.v ===== *)
(** * The node preemption reconciler, proved

    Migrations are started only for pods that qualify; together they fit the
    node's memory budget, and no choice of the qualifying pods that fits it would
    save more of them. *)
From Stdlib Require Import Sorting.Permutation Sorting.Sorted.
From S2P Require Import Prelude Effects GoLib Kube Interfaces Calls Eligibility Engine PodUtil JobBase Assignment.
From S2P Require Import Timeout ActiveMigration Spawn PodGateLaws NodePreemption Instances.

(** ** The greedy choice *)

Definition sizes (l : list Candidate) : Z := fold_right (fun c n => cd_size c + n) 0 l.

(** The candidates that the second loop starts a migration for. *)
Fixpoint admitted (remaining : Z) (l : list Candidate) : list Candidate :=
  match l with
  | [] => []
  | c :: rest => if remaining <? cd_size c then admitted remaining rest else c :: admitted (remaining - cd_size c) rest
  end.

Lemma sizes_perm l l' : Permutation l l' -> sizes l = sizes l'.
Proof. unfold sizes. induction 1; simpl; lia. Qed.

Lemma admitted_fits n l : 0 <= n -> sizes (admitted n l) <= n.
Proof.
  revert n. induction l as [|c l IH]; intros n Hn; simpl; [lia|]. destruct (n <? cd_size c) eqn:Hc; [auto|].
  simpl. bool_props. specialize (IH (n - cd_size c)). lia.
Qed.

Lemma admitted_sublist n l : sublist (admitted n l) l.
Proof.
  revert n. induction l as [|c l IH]; intros n; simpl; [constructor|]. destruct (_ <? _); by constructor.
Qed.

Lemma sizes_pos l : (forall c, In c l -> 0 < cd_size c) -> 0 <= sizes l.
Proof.
  induction l as [|c l IH]; simpl; [lia|]. intros Hl.
  pose proof (Hl c (or_introl eq_refl)). assert (0 <= sizes l) by (apply IH; auto). lia.
Qed.

(** Smallest first: no sublist that fits is longer. *)
Lemma admitted_longest n l sub :
  StronglySorted (fun a b => cd_size a <= cd_size b) l -> (forall c, In c l -> 0 < cd_size c) ->
  sublist sub l -> sizes sub <= n -> (length sub <= length (admitted n l))%nat.
Proof.
  revert n sub. induction l as [|c l IH]; intros n sub Hs Hpos Hsub Hn.
  { apply sublist_nil_r in Hsub as ->. done. }
  apply StronglySorted_inv in Hs as [Hs Hall]. rewrite List.Forall_forall in Hall.
  destruct sub as [|d sub]; [simpl; lia|].
  assert (In d (c :: l)) as Hd.
  { apply list_elem_of_In. eapply elem_of_sublist; [|exact Hsub]. apply list_elem_of_In. by left. }
  assert (sublist sub l) as Hsub'.
  { apply sublist_cons_r in Hsub as [Hsub|(sub' & [= -> ->] & Hsub)]; [|done].
    etransitivity; [|exact Hsub]. by apply sublist_cons. }
  assert (cd_size c <= cd_size d) as Hcd by (destruct Hd as [<-|Hd]; [lia|auto]).
  assert (0 <= sizes sub) as Hp.
  { apply sizes_pos. intros x Hx. apply Hpos. right. apply list_elem_of_In. eapply elem_of_sublist; [|exact Hsub'].
    by apply list_elem_of_In. }
  simpl in Hn |- *. destruct (n <? cd_size c) eqn:Hc; bool_props; [lia|]. simpl.
  apply le_n_S, IH; [done|intros; apply Hpos; by right|done|lia].
Qed.

Lemma candidate_size_sorted l : StronglySorted (fun a b => cd_size a <= cd_size b) (SliceStable candidate_less l).
Proof.
  assert (forall a b, candidate_less b a = false -> cd_size a <= cd_size b) as Hle.
  { intros a b. unfold candidate_less. destruct (cd_size b =? cd_size a) eqn:He; simpl; [bool_props; lia|]. intros Hb. bool_props. lia. }
  induction l as [|c l IH]; simpl; [constructor|]. revert IH. generalize (SliceStable candidate_less l) as k.
  intros k. induction 1 as [|x k Hk IHk Hall]; simpl; [by repeat constructor|].
  destruct (candidate_less x c) eqn:Hx.
  - constructor; [done|]. eapply Permutation_Forall; [apply insert_stable_perm|]. constructor; [|done].
    cbn beta. unfold candidate_less in Hx. destruct (cd_size x =? cd_size c) eqn:He; cbn [negb] in Hx; bool_props; lia.
  - constructor; [by constructor|]. constructor; [by apply Hle|].
    eapply Forall_impl; [exact Hall|]. intros y Hy. cbn beta in *. pose proof (Hle c x Hx). lia.
Qed.

(** No choice of the candidates that fits the budget has more of them. *)
Definition best_choice (budget : Z) (candidates chosen : list Candidate) : Prop :=
  chosen ⊆+ candidates /\ sizes chosen <= budget /\
  forall other, other ⊆+ candidates -> sizes other <= budget -> (length other <= length chosen)%nat.

Lemma greedy_best budget candidates :
  0 <= budget -> (forall c, In c candidates -> 0 < cd_size c) ->
  best_choice budget candidates (admitted budget (SliceStable candidate_less candidates)).
Proof.
  intros Hb Hpos. pose proof (SliceStable_perm candidate_less candidates) as Hp. split; [|split; [by apply admitted_fits|]].
  - transitivity (SliceStable candidate_less candidates); [|by apply Permutation_submseteq]. apply sublist_submseteq, admitted_sublist.
  - intros other Ho Hn. assert (other ⊆+ SliceStable candidate_less candidates) as Ho' by (transitivity candidates; [done|by apply Permutation_submseteq]).
    clear Ho. rename Ho' into Ho. apply submseteq_sublist_r in Ho as (sub & Ho & Hsub).
    rewrite (Permutation_length (l := other) (l' := sub)) by done. rewrite (sizes_perm other sub) in Hn by done.
    apply admitted_longest; [apply candidate_size_sorted| |done|done].
    intros c Hc. apply Hpos. by apply SliceStable_In in Hc.
Qed.

(** ** The jobs of a pass *)

Section Pass.
Context `{KubeLib} `{DNSLib}.
Context (r : NodePreemptionReconciler) (now : Z) (node : Node).
Abbreviation history := (@trace Ev resp).
Abbreviation M := (open (fun (_ : history) (_ : Ev) => True)).

#[local] Instance all_tolerant : Tolerant M.
Proof. by intros h e _. Qed.

Definition job_created (s : @step Ev resp) : option PodMigrationJob :=
  match called s with ECreateJob j => Some j | _ => None end.

(** The jobs whose creation was tried, newest first. *)
Fixpoint created (h : history) : list PodMigrationJob :=
  match h with
  | [] => []
  | s :: h' => match job_created s with Some j => j :: created h' | None => created h' end
  end.

Lemma created_extends h h' : extends h h' -> created h' = created h.
Proof.
  intros (t & -> & Ht). induction Ht as [|s t Hs Ht IH]; [done|]. simpl. rewrite IH.
  unfold job_created. by destruct (called s).
Qed.

(** What is known of a candidate. *)
Record qualifies (h : history) (c : Candidate) : Prop := {
  q_listed : exists pods, saw h (EListPods "" (PodsOnNode (m_name (n_meta node)))) (inr pods) /\ In (cd_pod c) pods;
  q_preemptible : preemptible r node (cd_pod c) = true;
  q_no_job : exists src err, saw h (EGetJob src (p_namespace (cd_pod c)) (FormatPMJName (p_name (cd_pod c)) (p_uid (cd_pod c)))) (inl err) /\
    IsNotFound err = true /\ (np_hasAPIReader r = true -> src = Live);
  q_engine : exists pms, saw h (EListPodMigrations (p_namespace (cd_pod c))) (inr pms) /\
    preemptionEngine r (cd_pod c) (SelectActivePodMigration pms) = Some (cd_engine c) /\
    v_ok (e_eligible (cd_engine c) (cd_pod c) (Some node)) = true /\ fst (AllowsFencing (Some (cd_pod c)) (Some (cd_engine c))) = true;
  q_policy : saw h (EResolvePolicy (e_name (cd_engine c)) (cd_pod c)) (inr (Some (cd_policy c)));
  q_size : CalculatePodMemoryFootprint (Some (cd_pod c)) = (cd_size c, true) /\ 0 < cd_size c }.

Lemma qualifies_extends h h' c : extends h h' -> qualifies h c -> qualifies h' c.
Proof.
  intros Hh [(pods & ? & ?) ? (src & err & ? & ? & ?) (pms & ? & ? & ? & ?) ? ?]. split; try done.
  - exists pods. eauto with podmig.
  - exists src, err. eauto with podmig.
  - exists pms. eauto with podmig.
  - eauto with podmig.
Qed.

(** The state of the first loop. *)
Definition seen_ok (h : history) (s : PreemptionState) : Prop :=
  forall n pm, ns_seen s !! n = Some pm -> exists pms, saw h (EListPodMigrations n) (inr pms) /\ pm = SelectActivePodMigration pms.
Definition loop_ok (h : history) (s : PreemptionState) : Prop :=
  seen_ok h s /\ forall c, In c (ns_candidates s) -> qualifies h c.

Lemma loop_ok_extends h h' s : extends h h' -> loop_ok h s -> loop_ok h' s.
Proof.
  intros Hh [Hs Hc]. split; [|intros c Hin; eapply qualifies_extends; eauto].
  intros n pm (pms & ? & ?)%Hs. exists pms. eauto with podmig.
Qed.

(** A step of the loop: the state stays good, and nothing is created. *)
Definition goes_on (h0 : history) (h : history) (s : PreemptionState) : Prop := extends h0 h /\ loop_ok h s.

Lemma goes_on_later h0 h h' s : goes_on h0 h s -> extends h h' -> goes_on h0 h' s.
Proof. intros [He Hl] Hh. split; [by eapply extends_trans|by eapply loop_ok_extends]. Qed.

Lemma goes_on_processed h0 h s p : goes_on h0 h s -> goes_on h0 h (mkPreemptionState p (ns_seen s) (ns_candidates s)).
Proof. intros [He [Hs Hc]]. by split. Qed.

Hint Resolve goes_on_later goes_on_processed extends_trans : podmig.

Section Body.
Context (h0 : history).
Abbreviation stops := (fun (h : history) (s : PreemptionState) (_ : unit) => goes_on h0 h s).

Lemma wpg_record_event {R} target type reason message h s (Qr : history -> PreemptionState -> R -> Prop) Q :
  (forall h', extends h h' -> Q h' s tt) -> wpg M (record_event r target type reason message) h s Qr Q.
Proof.
  intros HQ. unfold record_event, ecall. gstep; [|apply HQ, extends_refl].
  split; [exact I|]. intros x _. destruct x. apply HQ. by apply extends_cons; [|apply extends_refl].
Qed.

(** A metric, whose answer is [tt]. *)
Lemma wpg_count_metric {R} n l v h s (Qr : history -> PreemptionState -> R -> Prop) (Q : history -> PreemptionState -> unit -> Prop) :
  Q (existT (EMetric n l v) tt :: h) s tt -> wpg M (ecall (EMetric n l v)) h s Qr Q.
Proof. intros HQ. split; [exact I|]. by intros [] _. Qed.

Lemma wpg_skip {A} pod reason metric message h s (Q : history -> PreemptionState -> A -> Prop) (k : unit -> gom resp PreemptionState unit A) :
  goes_on h0 h s -> wpg M (gbind (skip r now pod reason metric message) k) h s stops Q.
Proof.
  intros Hg. unfold skip, mark_processed, ecall. gstep. gstep. apply wpg_record_event. intros h1 Hh1. gstep. gstep; [exact I|].
  gstep. gstep. gstep. apply goes_on_processed. eapply goes_on_later; [done|]. by apply extends_cons.
Qed.

Lemma wpg_skip_last pod reason metric message h s (Q : history -> PreemptionState -> unit -> Prop) :
  goes_on h0 h s -> wpg M (skip r now pod reason metric message) h s stops Q.
Proof.
  intros Hg. unfold skip, mark_processed, ecall. gstep. apply wpg_record_event. intros h1 Hh1. gstep. gstep; [exact I|].
  gstep. gstep. gstep. apply goes_on_processed. eapply goes_on_later; [done|]. by apply extends_cons.
Qed.

Definition no_job (h : history) (pod : Pod) : Prop :=
  exists src err, saw h (EGetJob src (p_namespace pod) (FormatPMJName (p_name pod) (p_uid pod))) (inl err) /\
    IsNotFound err = true /\ (np_hasAPIReader r = true -> src = Live).

Lemma wpg_without_job pod h s (Q : history -> PreemptionState -> unit -> Prop) :
  goes_on h0 h s -> (forall h', extends h h' -> no_job h' pod -> Q h' s tt) -> wpg M (without_job r pod) h s stops Q.
Proof.
  intros Hg HQ. unfold without_job, ecall. gstep. gstep; [exact I|].
  match goal with |- wpg _ _ ?hh _ _ _ => assert (extends h hh) as Hh by (by apply extends_cons; [|apply extends_refl]);
    assert (saw hh (EGetJob Cache (p_namespace pod) (FormatPMJName (p_name pod) (p_uid pod))) x) as Hs by apply saw_now; set (h1 := hh) in * end.
  destruct x as [err|j]; [|gstep; eauto with podmig]. destruct (IsNotFound err) eqn:Hn; cbn [negb]; [|gstep; eauto with podmig].
  destruct (np_hasAPIReader r) eqn:Ha.
  - gstep. gstep; [exact I|].
    match goal with |- wpg _ _ ?hh _ _ _ => assert (extends h1 hh) as Hh2 by (by apply extends_cons; [|apply extends_refl]);
      assert (saw hh (EGetJob Live (p_namespace pod) (FormatPMJName (p_name pod) (p_uid pod))) x) as Hs2 by apply saw_now end.
    destruct x as [err'|j]; [|gstep; eauto with podmig]. destruct (IsNotFound err') eqn:Hn'; cbn [negb]; gstep; [|eauto with podmig].
    apply HQ; [eauto with podmig|]. exists Live, err'. auto.
  - gstep. apply HQ; [done|]. exists Cache, err. by rewrite Ha.
Qed.

Definition engine_of (h : history) (pod : Pod) (eng : Engine) : Prop :=
  exists pms, saw h (EListPodMigrations (p_namespace pod)) (inr pms) /\
    preemptionEngine r pod (SelectActivePodMigration pms) = Some eng /\
    v_ok (e_eligible eng pod (Some node)) = true /\ fst (AllowsFencing (Some pod) (Some eng)) = true.

Lemma wpg_activePodMigration n h s (Q : history -> PreemptionState -> option PodMigration -> Prop) :
  goes_on h0 h s ->
  (forall h' s' pms, extends h h' -> goes_on h0 h' s' -> saw h' (EListPodMigrations n) (inr pms) -> Q h' s' (SelectActivePodMigration pms)) ->
  wpg M (activePodMigration n) h s stops Q.
Proof.
  intros Hg HQ. unfold activePodMigration. gstep. gstep. destruct (ns_seen s !! n) as [pm|] eqn:Hs.
  - gstep. destruct Hg as [He [Hsn Hc]]. destruct (Hsn n pm Hs) as (pms & Hp & ->). apply HQ; [apply extends_refl|split; [done|by split]|done].
  - unfold ActivePodMigration, ecall. gstep. gstep. gstep; [exact I|].
    match goal with |- wpg _ _ ?hh _ _ _ => assert (extends h hh) as Hh by (by apply extends_cons; [|apply extends_refl]);
      assert (saw hh (EListPodMigrations n) x) as Hp by apply saw_now end.
    destruct x as [err|pms]; gstep; [gstep; eauto with podmig|]. gstep. gstep. gstep. apply HQ; [done| |done].
    destruct (goes_on_later _ _ _ _ Hg Hh) as [He [Hsn Hc]]. split; [done|]. split; [|done].
    intros m pm. simpl. destruct (decide (m = n)) as [->|Hne]; [rewrite lookup_insert_eq; intros [= <-]; by exists pms|].
    rewrite lookup_insert_ne by done. apply Hsn.
Qed.

Lemma wpg_candidateEngine pod h s (Q : history -> PreemptionState -> Engine -> Prop) :
  goes_on h0 h s ->
  (forall h' s' eng, extends h h' -> goes_on h0 h' s' -> engine_of h' pod eng -> Q h' s' eng) ->
  wpg M (candidateEngine r now node pod) h s stops Q.
Proof.
  intros Hg HQ. unfold candidateEngine. gstep. apply wpg_activePodMigration; [done|]. intros h1 s1 pms Hh1 Hg1 Hp.
  destruct (preemptionEngine r pod (SelectActivePodMigration pms)) as [eng|] eqn:He; [|by gstep].
  destruct (v_ok (e_eligible eng pod (Some node))) eqn:Hv; cbn [negb]; [|by gstep].
  destruct (AllowsFencing (Some pod) (Some eng)) as [ok reason] eqn:Hf. destruct ok; cbn [negb].
  - gstep. apply HQ; [done|done|]. exists pms. by rewrite Hf.
  - by apply wpg_skip.
Qed.

Lemma wpg_candidatePolicy eng pod h s (Q : history -> PreemptionState -> PolicyRef -> Prop) :
  goes_on h0 h s ->
  (forall h' policy, extends h h' -> saw h' (EResolvePolicy (e_name eng) pod) (inr (Some policy)) -> Q h' s policy) ->
  wpg M (candidatePolicy r now eng pod) h s stops Q.
Proof.
  intros Hg HQ. unfold candidatePolicy, ecall. gstep. gstep; [exact I|].
  match goal with |- wpg _ _ ?hh _ _ _ => assert (extends h hh) as Hh by (by apply extends_cons; [|apply extends_refl]);
    assert (saw hh (EResolvePolicy (e_name eng) pod) x) as Hp by apply saw_now end.
  destruct x as [err|[policy|]]; [gstep; eauto with podmig|gstep; auto|]. apply wpg_skip. eauto with podmig.
Qed.

Lemma wpg_candidateSize pod h s (Q : history -> PreemptionState -> Z -> Prop) :
  goes_on h0 h s -> (forall size, CalculatePodMemoryFootprint (Some pod) = (size, true) -> 0 < size -> Q h s size) ->
  wpg M (candidateSize r now pod) h s stops Q.
Proof.
  intros Hg HQ. unfold candidateSize. destruct (CalculatePodMemoryFootprint (Some pod)) as [size known].
  destruct (negb known || (size <=? 0)) eqn:Hb; [by apply wpg_skip|]. gstep. apply orb_false_iff in Hb as [Hk Hs]. bool_props. subst. auto.
Qed.

Lemma wpg_candidateParent pod h s (Q : history -> PreemptionState -> Parent -> Prop) :
  goes_on h0 h s -> (forall h' p, extends h h' -> Q h' s p) -> wpg M (candidateParent pod) h s stops Q.
Proof.
  intros Hg HQ. unfold candidateParent. gstep. apply quiet_ResolveParent; [apply _|]. intros h' x Hh.
  destruct x as [err|p]; [gstep; gstep; [auto|eauto with podmig]|gstep; auto].
Qed.

Lemma quiet_sibling {R} n a b u k l : quiet (S := PreemptionState) (R := R) (HasAmbiguousOperatorSibling n a b u k l).
Proof. unfold HasAmbiguousOperatorSibling. quiet_tac. Qed.
Lemma quiet_active_key {R} n a b k e : quiet (S := PreemptionState) (R := R) (HasActivePMJWithReplicaKey n a b k e).
Proof. unfold HasActivePMJWithReplicaKey. quiet_tac. Qed.

Lemma wpg_candidateKey pod parent h s (Q : history -> PreemptionState -> unit -> Prop) :
  goes_on h0 h s -> (forall h', extends h h' -> Q h' s tt) -> wpg M (candidateKey r now pod parent) h s stops Q.
Proof.
  intros Hg HQ. unfold candidateKey. gstep; [gstep; apply HQ, extends_refl|]. cbv zeta. gstep; [by apply wpg_skip_last|].
  gstep. apply quiet_sibling; [apply _|]. intros h1 x Hh1. destruct x as [err|[sib|]]; [gstep; eauto with podmig|apply wpg_skip_last; eauto with podmig|].
  gstep. apply quiet_active_key; [apply _|]. intros h2 y Hh2.
  destruct y as [err|[ex|]]; [gstep; eauto with podmig|apply wpg_skip_last; eauto with podmig|gstep; eauto with podmig].
Qed.

(** The body keeps the loop's state good. *)
Lemma wpf_consider pods pod h s :
  goes_on h0 h s -> saw h (EListPods "" (PodsOnNode (m_name (n_meta node)))) (inr pods) -> In pod pods ->
  wpf M (consider r now node pod) h s (fun h' s' _ => goes_on h0 h' s').
Proof.
  intros Hg Hl Hin. unfold consider. gstep. destruct (preemptible r node pod) eqn:Hp; cbn [negb]; [|by gstep].
  gstep. apply wpg_without_job; [done|]. intros h1 Hh1 Hno. gstep. gstep.
  destruct (ns_processed s !! p_uid pod); [gstep; eauto with podmig|].
  gstep. apply wpg_candidateEngine; [eauto with podmig|]. intros h2 s2 eng Hh2 Hg2 (pms & Hpm & He & Hv & Hf).
  gstep. apply wpg_candidatePolicy; [done|]. intros h3 policy Hh3 Hpol.
  gstep. apply wpg_candidateSize; [eauto with podmig|]. intros size Hsz Hpos.
  gstep. apply wpg_candidateParent; [eauto with podmig|]. intros h4 parent Hh4.
  gstep. apply wpg_candidateKey; [eauto 6 with podmig|]. intros h5 Hh5. gstep.
  assert (extends h3 h5) as H35 by eauto with podmig. assert (extends h2 h5) as H25 by eauto with podmig.
  assert (extends h h5) as Hh by eauto 6 with podmig. destruct (goes_on_later _ _ _ _ Hg2 H25) as [He5 [Hs5 Hc5]].
  split; [done|]. split; [done|]. intros c Hc. simpl in Hc. apply in_app_or in Hc as [Hc|[<-|[]]]; [auto|]. split; cbn.
  - exists pods. eauto with podmig.
  - done.
  - destruct Hno as (src & err & ? & ?). exists src, err. eauto with podmig.
  - exists pms. eauto with podmig.
  - eauto with podmig.
  - done.
Qed.
End Body.

(** The second loop: the created jobs are those of the admitted candidates. *)
Lemma wpg_create_job c n h s (Q : history -> PreemptionState -> unit -> Prop) (Qr : history -> PreemptionState -> Outcome -> Prop) :
  (forall h' s', ns_candidates s' = ns_candidates s -> created h' = preemptionJob c :: created h -> (forall e x, saw h e x -> saw h' e x) -> Q h' s' tt) ->
  wpg M (ginvoke (create_job r now node c n)) h s Qr Q.
Proof.
  intros HQ. apply wpg_invoke. unfold create_job, mark_processed, ecall. gstep. cbv zeta. gstep. gstep; [exact I|].
  set (h1 := existT (ECreateJob (preemptionJob c)) x :: h).
  assert (forall h' s', extends h1 h' -> ns_candidates s' = ns_candidates s -> Q h' s' tt) as HQ1.
  { intros h' s' Hh Hs. apply HQ; [done|by rewrite (created_extends _ _ Hh)|]. intros e y Hy. eapply saw_extends; [exact Hh|by right]. }
  gstep. destruct x as [err|j].
  - destruct (IsAlreadyExists err).
    + gstep. gstep. apply HQ1; [apply extends_refl|done].
    + gstep. apply wpg_record_event. intros h2 Hh2. gstep. by apply HQ1.
  - gstep. apply wpg_record_event. intros h2 Hh2. gstep. apply wpg_record_event. intros h3 Hh3.
    split; [exact I|]. intros y _. destruct y. apply wpg_modify. apply HQ1; [|done]. apply extends_cons; [done|]. by eapply extends_trans.
Qed.

Lemma wpg_admit total n l h s (Qr : history -> PreemptionState -> Outcome -> Prop) :
  is_int64 n -> 0 <= n -> (forall c, In c l -> 0 < cd_size c) ->
  wpg M (admit_candidates r now node total n l) h s Qr (fun h' s' _ =>
    ns_candidates s' = ns_candidates s /\ (forall e x, saw h e x -> saw h' e x) /\
    created h' = (rev (map preemptionJob (admitted n l)) ++ created h)%list).
Proof.
  revert n h s. induction l as [|c l IH]; intros n h s Hn64 Hn Hpos; simpl; [by gstep|].
  destruct (n <? cd_size c) eqn:Hc.
  - unfold mark_processed. gstep. apply wpg_record_event. intros h1 Hh1. gstep. apply wpg_count_metric. gstep. gstep.
    eapply wpg_weaken; [apply IH; [done|done|intros; apply Hpos; by right]|]. simpl. intros h2 s2 _ (Hs & Hh & Hcr).
    split; [done|]. split; [intros e y Hy; apply Hh; right; by eapply saw_extends|].
    rewrite Hcr. simpl. by rewrite (created_extends h h1).
  - bool_props. assert (0 < cd_size c) as Hc0 by (apply Hpos; by left). unfold is_int64, int64_min, int64_max in *.
    rewrite i64_id by (unfold is_int64, int64_min, int64_max; lia).
    gstep. apply wpg_create_job. intros h1 s1 Hs1 Hcr1 Hsaw.
    eapply wpg_weaken; [apply IH; [lia|lia|intros; apply Hpos; by right]|]. simpl. intros h2 s2 _ (Hs & Hh & Hcr).
    split; [congruence|]. split; [eauto|]. rewrite Hcr, Hcr1. by rewrite <- app_assoc.
Qed.
End Pass.

Section Node.
Context `{KubeLib} `{DNSLib}.
Context (r : NodePreemptionReconciler) (now : Z) (name : string).
Abbreviation history := (@trace Ev resp).

(** The node was read, and announces its termination. *)
Definition preempting (h : history) (node : Node) : Prop :=
  saw h (EGetNode name) (inr node) /\ IsNodePreempting (Some node) = true.

(** The pass ended before the candidates were known: nothing was created. *)
Definition node_pass (h : history) (s : PreemptionState) : Prop :=
  created h = [] \/
  exists node chosen, preempting h node /\ (forall c, In c (ns_candidates s) -> 0 < cd_size c) /\
    (forall c, In c chosen -> exists h1, qualifies r node h1 c /\ forall e x, saw h1 e x -> saw h e x) /\
    created h = rev (map preemptionJob chosen) /\ best_choice (totalBudget r) (ns_candidates s) chosen.

Lemma budget_range : is_int64 (np_spotPreemptionBudget r) -> is_int64 (totalBudget r) /\ 0 <= totalBudget r.
Proof.
  unfold totalBudget, is_int64, int64_min, int64_max, DefaultSpotPreemptionNodeBudget. intros Hb.
  destruct (_ <=? 0) eqn:He; bool_props; lia.
Qed.

Lemma wpf_ReconcileNode s :
  is_int64 (np_spotPreemptionBudget r) ->
  wpf (open (fun (_ : history) (_ : Ev) => True)) (ReconcileNode r now name) [] s (fun h s' _ => node_pass h s').
Proof.
  intros Hb. destruct (budget_range Hb) as [Hb64 Hb0]. unfold ReconcileNode, ecall. gstep. gstep. gstep; [exact I|].
  destruct x as [err|node]; [gstep; by left|]. destruct (IsNodePreempting (Some node)) eqn:Hp; cbn [negb]; [|gstep; by left].
  apply wpg_invoke. unfold preempt, ecall. gstep. gstep. gstep. gstep. gstep; [exact I|].
  set (h1 := existT (EListPods "" (PodsOnNode (m_name (n_meta node)))) x :: [existT (EGetNode name) (inr node)]).
  destruct x as [err|pods]; [gstep; by left|]. gstep.
  eapply wpg_weaken; [apply (wpg_iter _ _ _ (fun h s => goes_on r node h1 h s))|].
  - split; [apply extends_refl|]. split; [intros n pm; simpl; by rewrite lookup_empty|]. by intros c [].
  - intros pod h s2 Hin Hg. apply wpg_invoke. eapply wpf_consider; [done| |exact Hin].
    destruct Hg as [Hh _]. eapply saw_extends; [exact Hh|apply saw_now].
  - intros h2 s2 _ [Hh2 [_ Hq]]. gstep. gstep.
    assert (created h2 = []) as Hc2 by (by rewrite (created_extends _ _ Hh2)).
    assert (saw h2 (EGetNode name) (inr node)) as Hn by (eapply saw_extends; [exact Hh2|by right; left]).
    destruct (ns_candidates s2) as [|c0 cs] eqn:Hcs; [gstep; by left|]. rewrite <- Hcs in *. clear c0 cs Hcs.
    gstep. eapply wpg_weaken; [apply wpg_admit; [done|done|]|].
    + intros c Hc. apply SliceStable_In in Hc. by apply (q_size _ _ _ _ (Hq c Hc)).
    + intros h3 s3 _ (Hs3 & Hsaw & Hc3). gstep. right.
      exists node, (admitted (totalBudget r) (SliceStable candidate_less (ns_candidates s2))).
      assert (forall c, In c (ns_candidates s2) -> 0 < cd_size c) as Hpos by (intros c Hc; apply (q_size _ _ _ _ (Hq c Hc))).
      split; [by split; [apply Hsaw|]|]. rewrite Hs3. split; [done|]. split; [|split; [by rewrite Hc3, Hc2, app_nil_r|by apply greedy_best]].
      intros c Hc. exists h2. split; [|done]. apply Hq. apply (SliceStable_In candidate_less).
      apply list_elem_of_In. eapply elem_of_sublist; [|apply admitted_sublist]. by apply list_elem_of_In.
Qed.

(** C14: A pass over a node that announces its termination starts migrations only
    for pods that run there, opted in, qualify and had no job; together they fit
    the node's memory budget; and the choice is the best one: no other choice of
    the pass's candidates that fits the budget saves more pods. *)
Theorem preemption_best_choice t s s' o :
  is_int64 (np_spotPreemptionBudget r) -> exec (ReconcileNode r now name s) t (s', o) -> node_pass (rev t) s'.
Proof. intros Hb Hx. by apply (wpf_exec _ _ _ _ _ _ _ (wpf_ReconcileNode s Hb) Hx (fair_open _ _)). Qed.
End Node.

(** ** A run: two pods, and a budget for one of them *)

Definition dying_node : Node :=
  mkNode (meta_named "" "node-a" "uid-node") [] [(TaintImpendingNodeTermination, "NoSchedule")] false.
Definition sized_pod (name : string) (memory : Z) : Pod :=
  mkPod (with_labels {[ "pod-migration.gke.io/enabled" := "true" ]} (meta_named "shop" name ("uid-" +s name)))
    "node-a" (Some "gvisor") [mkContainer "app" (Some memory) None None] [] [] [] [] PodRunning "" "" [] [] [].

Definition dying_cluster (e : Ev) : resp e :=
  match e return resp e with
  | EGetNode _ => inr dying_node
  | EListPods _ _ => inr [sized_pod "big" 900; sized_pod "small" 200]
  | EListPodMigrations _ => inr []
  | EResolvePolicy _ _ => inr (Some (mkPolicyRef "" "" "psp"))
  | ECreateJob j => inr j
  | e => answer_fail e
  end.

Definition tight_budget : NodePreemptionReconciler := mkNodePreemption true true 1000 None None.
Abbreviation node_run := (ReconcileNode (H0 := dns_ref) tight_budget at_1100 "node-a" (mkPreemptionState ∅ ∅ [])).

Lemma preemption_best_choice_witness :
  map j_podName (created (rev (trace_of dying_cluster node_run))) = ["small"] /\
  node_pass (H0 := dns_ref) tight_budget "node-a" (rev (trace_of dying_cluster node_run)) (fst (result_of dying_cluster node_run)).
Proof.
  split; [vm_compute; reflexivity|].
  apply (preemption_best_choice (H0 := dns_ref) tight_budget at_1100 "node-a" _ (mkPreemptionState ∅ ∅ []) _ (snd (result_of dying_cluster node_run))).
  - unfold is_int64, int64_min, int64_max. simpl. lia.
  - rewrite <- surjective_pairing. apply exec_static.
Defined.
