(* ===== verification/JobPhases.v ===== *)
(** * The phases of a migration: Pending, Snapshotting and Evicting
    (the switch of [Reconcile] in podmigrationjob_controller.go) *)
From S2P Require Import Prelude Effects GoLib Kube Interfaces Engine PodUtil Timeout JobBase Fence Budget.

Section Phases.
Context `{KubeLib} `{JitterLib}.
(** [podName] is the job's [Spec.PodRef.Name] when the pass started. *)
Context (r : Reconciler) (now : Z) (req_ns req_name podName : string).

(** [req.NamespacedName.String()] *)
Definition request_key : string := req_ns +s "/" +s req_name.

(** ** Pending *)

(** A Pending job fails before anything is checkpointed. *)
Definition failPending (reason message eventMsg : string) : fn resp JobState Outcome := gfun (
  do* conclude now Failed in
  do* setCondition now "Ready" "False" reason message in
  do* gcheck patchStatus handleStatusError in
  do* markInactive request_key in
  let* job := get_job in
  do* recordPhaseDuration "pending" (Sub now (j_created job)) in
  do* recordOutcome "failed" in
  do* recordPodEvent r "Warning" "MigrationFailed" eventMsg in
  gret (NoRequeue, None)).

(** The guard of the analysis of the source. *)
Definition needsSourceAnalysis (job : PodMigrationJob) : bool :=
  match pvsToDetach (j_status job) with [] => true | _ => false end ||
  (originNodeName (j_status job) ==s "") ||
  (sget (j_annotations job) AnnotationMigrationTimeout ==s "") ||
  WaitingForDisruptionBudget job.

(** The bodies of [for _, vol := range originPod.Spec.Volumes]: the names of the volumes. *)
Fixpoint collectPVs {R} (claims : list string) : G R (res (list string)) :=
  match claims with
  | [] => gret (inr [])
  | claim :: rest =>
      let* x := ecall (EGetPVC req_ns claim) in
      match x with
      | inl err => if IsNotFound err then collectPVs rest else gret (inl err)
      | inr pvc =>
          let* y := collectPVs rest in
          match y with
          | inl err => gret (inl err)
          | inr pvs => gret (inr (if pvc_volumeName pvc !=s "" then pvc_volumeName pvc :: pvs else pvs))
          end
      end
  end.

(** The timeout annotation the job gets from its source; [None] when it has one
    or the baseline applies. *)
Definition timeoutAnnotation (job : PodMigrationJob) (originPod : Pod) : option string :=
  if sget (j_annotations job) AnnotationMigrationTimeout ==s "" then
    let rawTimeout := sget (p_annotations originPod) AnnotationMigrationTimeout in
    let memBytes := CalculatePodMemoryRequest (Some originPod) in
    let calculated := CalculateMigrationTimeout rawTimeout memBytes (rc_defaultMigrationTimeout r) in
    let base := if rc_defaultMigrationTimeout r <=? 0 then DefaultMigrationTimeout else rc_defaultMigrationTimeout r in
    if negb (calculated =? base) then Some (DurationString calculated) else None
  else None.

(** The source's analysis: the outcome that ends the pass, or whether the
    annotations changed. *)
Definition analyzeSource : fn resp JobState (Outcome + bool) := gfun (
  let* job := get_job in
  if negb (needsSourceAnalysis job) then gret (inr false)
  else
    let* x := ecall (EGetPod Cache req_ns podName) in
    match x with
    | inl err =>
        if IsNotFound err then
          let* o := ginvoke (failPending "PodNotFound" "Origin pod no longer exists in Pending state"
                               "Origin pod no longer exists in Pending state") in
          gret (inl o)
        else gret (inl (NoRequeue, Some err))
    | inr originPod =>
        if p_uid originPod !=s j_targetUID job then
          let* o := ginvoke (failPending "PodNotFound" "Origin pod UID mismatch in Pending state"
                               "Origin pod UID mismatch in Pending state") in
          gret (inl o)
        else if pod_finished originPod then
          let* isShutdown := isOriginPodTerminatedDueToNodeShutdown originPod in
          let phase := pod_phase_string (p_phase originPod) in
          let* o :=
            (if isShutdown : bool then
               ginvoke (failPending "NodeShutdown"
                 "Origin pod was terminated due to node shutdown before snapshotting could start"
                 "Origin pod terminated due to node shutdown")
             else
               ginvoke (failPending "OriginPodTerminated"
                 ("Origin pod entered terminal phase " +s phase +s " before snapshotting could start")
                 ("Origin pod entered terminal phase " +s phase))) in
          gret (inl o)
        else
          do* gwhen ((originNodeName (j_status job) ==s "") && (p_nodeName originPod !=s ""))
                (mod_job (set_originNodeName (p_nodeName originPod))) in
          let annotation := timeoutAnnotation job originPod in
          do* match annotation with
              | Some a => mod_job (fun j => set_j_annotations (<[AnnotationMigrationTimeout := a]> (j_annotations j)) j)
              | None => gret tt
              end in
          let updated := match annotation with Some _ => true | None => false end in
          match pvsToDetach (j_status job) with
          | _ :: _ => gret (inr updated)
          | [] =>
              let* y := collectPVs (p_claims originPod) in
              match y with
              | inl err => gret (inl (NoRequeue, Some err))
              | inr pvs => do* mod_job (set_pvsToDetach pvs) in gret (inr updated)
              end
          end
    end).

(** Writing the annotation keeps the status computed so far. *)
Definition writeTimeoutAnnotation : fn resp JobState (option ApiErr) := gfun (
  let* job := get_job in
  let* x := ecall (EUpdateJob job) in
  match x with
  | inl err => gret (Some err)
  | inr updated =>
      do* gmodify (fun s => mkJobState (mkJob (j_meta updated) (j_spec (s_job s)) (j_status (s_job s)))
                                       (mkJob (j_meta updated) (j_spec (s_orig s)) (j_status (s_orig s)))) in
      gret None
  end).

Definition startSnapshotting : fn resp JobState Outcome := gfun (
  do* mod_job (fun j => set_snapshottingStartTime (Some now) (set_phase Snapshotting j)) in
  do* setCondition now "Ready" "False" "Snapshotting" "Taking pod snapshot" in
  do* gcheck patchStatus handleStatusError in
  let* job := get_job in
  do* recordPhaseDuration "pending" (Sub now (j_created job)) in
  do* markActive request_key in
  do* recordPodEvent r "Normal" "MigrationStarted" ("Pod migration started by PodMigrationJob " +s j_name job) in
  gret (Requeue, None)).

Definition reconcilePending : fn resp JobState Outcome := gfun (
  let* a := ginvoke analyzeSource in
  match a with
  | inl o => gret o
  | inr annotationUpdated =>
      do* (if annotationUpdated : bool then gcheck (ginvoke writeTimeoutAnnotation) handleStatusError else gret tt) in
      let* job := get_job in
      do* (if rc_hasBudgetChecker r && negb (skipsDisruptionBudgetCheck job) then
             let* b := ginvoke (checkDisruptionBudget r now podName) in
             let '(res, proceed, err) := b in
             match err with
             | Some err => greturn (handleStatusError err)
             | None => if negb proceed then greturn (res, None) else gret tt
             end
           else gret tt) in
      ginvoke startSnapshotting
  end).

(** ** Snapshotting *)

(** [metav1] status of a failed snapshot: its reason, or a default. *)
Definition snapshotFailureReason (st : SnapStatus) : string :=
  if ss_reason st ==s "" then
    if bool_decide (ss_phase st = PhaseRefused) then "SnapshotRefused" else "SnapshotFailed"
  else ss_reason st.

(** A Snapshotting job fails: the trigger is deleted, then Failed is recorded. *)
Definition failCheckpoint (reason message eventMsg : string) : fn resp JobState Outcome := gfun (
  do* cleanup r podName in
  do* conclude now Failed in
  do* setCondition now "Ready" "False" reason message in
  do* gcheck patchStatus handleStatusError in
  do* markInactive request_key in
  do* recordOutcome "failed" in
  do* recordPreviousPhaseDuration now Snapshotting in
  do* recordPodEvent r "Warning" "MigrationFailed" eventMsg in
  gret (NoRequeue, None)).

Definition startEvicting (st : SnapStatus) : fn resp JobState Outcome := gfun (
  do* mod_job (fun j => set_snapshotRef (ss_ref st) (set_evictingStartTime (Some now) (set_phase Evicting j))) in
  do* setCondition now "Ready" "False" "Evicting"
        "Snapshot durable; waiting for origin pod eviction and volume detachment" in
  do* gcheck patchStatus handleStatusError in
  do* markActive request_key in
  do* recordPreviousPhaseDuration now Snapshotting in
  do* recordPodEvent r "Normal" "CheckpointReady" ("Snapshot " +s ss_ref st +s " is ready for migration") in
  gret (Requeue, None)).

(** The snapshot is in progress: fail fast if the source finished, else report. *)
Definition snapshotInProgress (st : SnapStatus) : fn resp JobState Outcome := gfun (
  let* x := ecall (EGetPod Cache req_ns podName) in
  do* match x with
      | inl _ => gret tt
      | inr originPod =>
          if pod_finished originPod then
            let* isShutdown := isOriginPodTerminatedDueToNodeShutdown originPod in
            let phase := pod_phase_string (p_phase originPod) in
            let* o :=
              (if isShutdown : bool then
                 ginvoke (failCheckpoint "NodeShutdown"
                   "Origin pod was terminated due to node shutdown during snapshotting"
                   "Origin pod terminated due to node shutdown during snapshotting")
               else
                 ginvoke (failCheckpoint "OriginPodTerminated"
                   ("Origin pod entered terminal phase " +s phase +s " during snapshotting")
                   ("Origin pod entered terminal phase " +s phase +s " during snapshotting"))) in
            greturn o
          else gret tt
      end in
  let* condChanged := setCondition now "Ready" "False" (ss_reason st) (ss_message st) in
  let* job := get_job in
  let refChanged := (ss_ref st !=s "") && (j_snapshotRef job !=s ss_ref st) in
  do* gwhen refChanged (mod_job (set_snapshotRef (ss_ref st))) in
  do* (if condChanged || refChanged then gcheck patchStatus handleStatusError else gret tt) in
  gret (RequeueAfter (30 * Second), None)).

Definition reconcileSnapshotting : fn resp JobState Outcome := gfun (
  let* f := ginvoke (fenceSource r now) in
  do* match f with
      | None => gret tt
      | Some err =>
          let* job := get_job in
          match fenceFailure r now job err with
          | Some (reason, message) =>
              let* o := ginvoke (failSnapshotting r now request_key reason message) in greturn o
          | None => greturn (handleStatusError err)
          end
      end in
  let* job := get_job in
  let eng := e_name (getSnapshotProvider r job) in
  let* t := ecall (EEnsureTrigger eng job podName) in
  match t with
  | inl err =>
      match triggerFailure r now job err with
      | Some (reason, message) => ginvoke (failSnapshotting r now request_key reason message)
      | None => gret (NoRequeue, Some err)
      end
  | inr res =>
      if r_requeue res || negb (r_requeueAfter res =? 0) then gret (res, None)
      else
        let* x := ecall (ECheckStatus eng job podName) in
        match x with
        | inl err => gret (NoRequeue, Some err)
        (* a nil status would panic: providers return one with a nil error *)
        | inr None => gret (NoRequeue, Some (mkErr OtherErr "nil snapshot status"))
        | inr (Some st) =>
            match ss_phase st with
            | PhaseFailed | PhaseRefused =>
                let reason := snapshotFailureReason st in
                ginvoke (failCheckpoint reason (ss_message st)
                           ("Snapshot failed: " +s reason +s " - " +s ss_message st))
            | PhaseReady => ginvoke (startEvicting st)
            | PhaseInProgress => ginvoke (snapshotInProgress st)
            end
        end
  end).

(** ** Evicting *)

Definition initEvictingStartTime : fn resp JobState (option ApiErr) := gfun (
  let* job := get_job in
  match evictingStartTime (j_status job) with
  | Some _ => gret None
  | None =>
      let startTime := default now (parse_time_annotation (sget (j_annotations job) AnnotationEvictingSince)) in
      do* mod_job (set_evictingStartTime (Some startTime)) in
      patchStatus
  end).

Definition stampEvictingSince (job : PodMigrationJob) : PodMigrationJob :=
  set_j_annotations (<[AnnotationEvictingSince := FormatRFC3339Nano now]> (j_annotations job)) job.

(** The source is terminating: shorten its grace period, once. *)
Definition awaitTermination (pod : Pod) : fn resp JobState Outcome := gfun (
  do* match m_deletionGracePeriodSeconds (p_meta pod) with
      | Some g =>
          if postCheckpointEvictionGracePeriodSeconds <? g then
            do* ecall (EEvict (p_namespace pod) (p_name pod) newPostCheckpointEviction) in gret tt
          else gret tt
      | None => gret tt
      end in
  let* job := get_job in
  do* (if sget (j_annotations job) AnnotationEvictingSince ==s "" then
         do* mod_job stampEvictingSince in
         do* updateJob in gret tt
       else gret tt) in
  gret (RequeueAfter (2 * Second), None)).

(** The eviction's answer. *)
Definition afterEviction (e : option ApiErr) : fn resp JobState Outcome := gfun (
  let accepted := match e with None => true | Some err => IsNotFound err end in
  if accepted : bool then
    let* c1 := setCondition now "BlockedByPDB" "False" "EvictionInitiated"
                 "Origin pod eviction accepted by eviction subresource" in
    let* c2 := setCondition now "EvictionMisconfigured" "False" "EvictionInitiated"
                 "Origin pod eviction accepted by eviction subresource" in
    do* (if c1 || c2 then gcheck patchStatus handleStatusError else gret tt) in
    gret (RequeueAfter (2 * Second), None)
  else
    match e with
    | None => gret (RequeueAfter (2 * Second), None)
    | Some err =>
        if IsTooManyRequests err || IsConflict err then
          let* c := setCondition now "BlockedByPDB" "True" "PDBBudgetExhausted"
                      "Origin pod eviction delayed by PodDisruptionBudget; waiting for budget" in
          do* (if c : bool then gcheck patchStatus handleStatusError else gret tt) in
          gret (RequeueAfter (5 * Second), None)
        else if IsInternalError err then
          let* c := setCondition now "EvictionMisconfigured" "True" "MultiplePDBsOrInternalError"
                      "Origin pod eviction failed with 500 InternalServerError; check if pod is covered by multiple conflicting PDBs" in
          do* (if c : bool then gcheck patchStatus handleStatusError else gret tt) in
          gret (RequeueAfter (5 * Second), None)
        else gret (NoRequeue, Some err)
    end).

(** The source still exists. *)
Definition evictSource (pod : Pod) : fn resp JobState Outcome := gfun (
  let* job := get_job in
  do* (if (originNodeName (j_status job) ==s "") && (p_nodeName pod !=s "") then
         do* mod_job (set_originNodeName (p_nodeName pod)) in
         gcheck patchStatus handleStatusError
       else gret tt) in
  if p_deleting pod then ginvoke (awaitTermination pod)
  else
    let* job := get_job in
    if sget (j_annotations job) AnnotationEvictingSince ==s "" then
      do* mod_job stampEvictingSince in
      do* recordPodEvent r "Normal" "EvictedForMigration" "Origin pod marked for eviction following successful checkpoint" in
      do* gcheck updateJob (fun err => (NoRequeue, Some err)) in
      gret (Requeue, None)
    else
      let* e := ecall (EEvict (p_namespace pod) (p_name pod) newPostCheckpointEviction) in
      ginvoke (afterEviction e)).

(** A VolumeAttachment that holds the migration: attached, and to the origin
    node when that is known. *)
Definition blocks_detach (origin : string) (va : VolumeAttachment) : bool :=
  if (origin !=s "") && (va_nodeName va !=s origin) then false else va_attached va.

(** The loop over [PVsToDetach]: whether an attachment is active. *)
Fixpoint activeAttachment {R} (origin : string) (pvs : list string) : G R (res bool) :=
  match pvs with
  | [] => gret (inr false)
  | pv :: rest =>
      if pv ==s "" then activeAttachment origin rest
      else
        let* x := ecall (EListVolumeAttachments pv) in
        match x with
        | inl err => gret (inl err)
        | inr vas => if existsb (blocks_detach origin) vas then gret (inr true) else activeAttachment origin rest
        end
  end.

(** [fmt]'s %v of a slice of strings. *)
Definition print_list (l : list string) : string := "[" +s Join l " " +s "]".

Definition startRestoring : fn resp JobState Outcome := gfun (
  do* mod_job (fun j => set_restoringStartTime (Some now) (set_phase Restoring j)) in
  do* setCondition now "Ready" "False" "RestoringState"
        "Snapshot durable and PVs detached; waiting for replacement pod restore" in
  do* gcheck patchStatus handleStatusError in
  do* markActive request_key in
  do* recordPreviousPhaseDuration now Evicting in
  let* job := get_job in
  do* match FindStatusCondition (j_conditions job) ConditionSourceFenced with
      | Some fenced => if c_status fenced ==s "True" then
                         metric "RecordSourceFencedDuration" ["migrated"] (Sub now (c_lastTransitionTime fenced))
                       else gret tt
      | None => gret tt
      end in
  let* e := ginvoke removeSourceFenceFinalizer in
  gret (NoRequeue, e)).

(** The source is gone: clean up, wait for its volumes, move on. *)
Definition sourceGone : fn resp JobState Outcome := gfun (
  let* changed := clearEvictionBlockageConditions now in
  do* (if changed : bool then gcheck patchStatus handleStatusError else gret tt) in
  do* gcheck (cleanup r podName) (fun err => (NoRequeue, Some err)) in
  let* job := get_job in
  let* a := activeAttachment (originNodeName (j_status job)) (pvsToDetach (j_status job)) in
  match a with
  | inl err => gret (NoRequeue, Some err)
  | inr true =>
      let* c := setCondition now "Ready" "False" "WaitingForVolumeDetach"
                  ("Waiting for PVs to detach: " +s print_list (pvsToDetach (j_status job))) in
      do* (if c : bool then gcheck patchStatus handleStatusError else gret tt) in
      gret (RequeueAfter (3 * Second), None)
  | inr false => ginvoke startRestoring
  end).

Definition reconcileEvicting : fn resp JobState Outcome := gfun (
  do* gcheck (ginvoke initEvictingStartTime) handleStatusError in
  do* cleanup r podName in
  let* x := ecall (EGetPod Cache req_ns podName) in
  match x with
  | inl err => if IsNotFound err then ginvoke sourceGone else gret (NoRequeue, Some err)
  | inr pod =>
      let* job := get_job in
      if p_uid pod ==s j_targetUID job then ginvoke (evictSource pod) else ginvoke sourceGone
  end).

End Phases.
