(* ===== verification/Restore.v ===== *)
(** * Concluding a restore (restore_verdict.go, and the restore-crash fallback
    and the Restoring phase of podmigrationjob_controller.go) *)
From S2P Require Import Prelude Effects GoLib Kube Interfaces Calls Classifier Engine PodUtil Timeout JobBase Fence.

Definition ReasonRestoreVerified : string := "RestoreVerified".
Definition ReasonRestoreInferred : string := "RestoreInferred".
Definition ReasonRestoreLost : string := "RestoreLost".
Definition ReasonRestoreFailed : string := "RestoreFailed".
Definition ReasonFallbackToColdStart : string := "FallbackToColdStart".
Definition DefaultRestoreStabilizationWindow : Z := 30 * Second.
Definition MaxRestoreStabilizationWindow : Z := 2 * Minute.
Definition restoreTimeout : Z := 5 * Minute.
Definition mismatchGracePeriod : Z := 30 * Second.
Definition clockSkewTolerance : Z := 10 * Second.

(** ** Pure helpers *)

Definition restoreCeiling (r : Reconciler) : Z :=
  if 0 <? rc_restoreStabilizationWindow r then restoreTimeout + rc_restoreStabilizationWindow r else restoreTimeout.

(** The names of the restartable init containers. *)
Definition sidecar_names (pod : Pod) : list string := map ct_name (List.filter is_sidecar (p_initContainers pod)).

Definition count_restarts (acc : Z * string) (cs : ContainerStatus) : Z * string :=
  if 0 <? cs_restartCount cs then
    (i32 (fst acc + cs_restartCount cs), if snd acc ==s "" then cs_name cs else snd acc)
  else acc.

Definition containerRestarts (pod : Pod) : Z * string :=
  let acc := fold_left count_restarts (p_containerStatuses pod) (0, "") in
  fold_left (fun acc cs => if contains (sidecar_names pod) (cs_name cs) then count_restarts acc cs else acc)
    (p_initContainerStatuses pod) acc.

Definition podReadySince (pod : Pod) : Z :=
  match List.find (fun c => (c_type c ==s "Ready") && (c_status c ==s "True")) (p_conditions pod) with
  | Some c => c_lastTransitionTime c
  | None => zero_time
  end.

(** [(time, ok)] *)
Definition effectiveReadySince (pod : Pod) (job : PodMigrationJob) (now : Z) : Z * bool :=
  if negb (isPodReady pod) then (zero_time, false)
  else
    let readySince := podReadySince pod in
    let readySince :=
      if IsZero readySince || After readySince now then
        match restoringStartTime (j_status job) with
        | Some t =>
            if negb (After t now) then t
            else if negb (IsZero (j_created job)) && negb (After (j_created job) now) then j_created job else now
        | None => if negb (IsZero (j_created job)) && negb (After (j_created job) now) then j_created job else now
        end
      else readySince in
    (readySince, negb (IsZero readySince)).

Definition stabilizationRemainingAt (r : Reconciler) (job : PodMigrationJob) (pod : Pod) (now : Z) : Z :=
  let window := rc_restoreStabilizationWindow r in
  if window <=? 0 then 0
  else
    let '(since, ok) := effectiveReadySince pod job now in
    if negb ok || IsZero since then 0
    else
      let remaining := i64 (window - Sub now since) in
      if 0 <? remaining then (if window <? remaining then window else remaining) else 0.

Section Restoring.
Context `{KubeLib}.
Context (r : Reconciler) (now : Z) (req_ns req_name podName : string).
Let key : string := req_ns +s "/" +s req_name.

Definition restoreVerdict {R} (pod : Pod) (eng : Engine) : G R (res RestoreVerdict) :=
  let* job := get_job in
  if e_isVerifier eng then ecall (EVerifyRestore (e_name eng) job pod)
  else if negb (isPodReady pod) then gret (inr (mkRestoreVerdict RestoreInProgress "" "" false))
  else gret (inr (mkRestoreVerdict Restored "" "pod Ready; the engine reports no restore verdict" false)).

(** ** Conclusions *)

Definition restored_reason (verdict : RestoreVerdict) : string * string :=
  if rv_confirmed verdict then (ReasonRestoreVerified, "confirmed") else (ReasonRestoreInferred, "inferred").

Definition restored_message (pod : Pod) (engineName : string) (verdict : RestoreVerdict) : string :=
  if rv_confirmed verdict then
    "Pod state restored from snapshot and replacement pod " +s p_name pod +s " is Ready; engine " +s engineName +s
    " confirmed the restore: " +s rv_evidence verdict
  else if 0 <? rc_restoreStabilizationWindow r then
    "Replacement pod " +s p_name pod +s " stayed Ready for " +s DurationString (rc_restoreStabilizationWindow r) +s
    " without a container restart, and engine " +s engineName +s
    " inferred the restore without positive evidence: " +s rv_evidence verdict
  else
    "Replacement pod " +s p_name pod +s " is Ready, and engine " +s engineName +s
    " inferred the restore without positive evidence: " +s rv_evidence verdict.

Definition concludeRestored (pod : Pod) (engineName : string) (verdict : RestoreVerdict)
    : fn resp JobState Outcome := gfun (
  let* job := get_job in
  let provider := getSnapshotProvider r job in
  do* (if e_isCompleter provider then
         gcheck (ecall (ECompleteRestore (e_name provider) job (p_name pod) (p_uid pod)))
                (fun err => (NoRequeue, Some err))
       else gret tt) in
  let '(reason, label) := restored_reason verdict in
  let message := restored_message pod engineName verdict in
  do* conclude now Succeeded in
  do* setCondition now "Restored" "True" reason message in
  do* setCondition now "Ready" "True" reason message in
  do* clearUnrecognizedRestoreCrash now in
  do* gcheck patchStatus handleStatusError in
  do* markInactive key in
  do* recordOutcome "succeeded" in
  do* metric "RecordRestoreVerdict" [engineName; label] 0 in
  do* recordPreviousPhaseDuration now Restoring in
  gret (NoRequeue, None)).

Definition outcome_string (o : RestoreOutcome) : string :=
  match o with
  | RestoreInProgress => "InProgress" | Restored => "Restored" | ColdStart => "ColdStart" | RestoreFailed => "Failed"
  end.

Definition concludeWithoutRestore (pod : Pod) (engineName : string) (verdict : RestoreVerdict)
    : fn resp JobState (option ApiErr) := gfun (
  let '(reason, label) :=
    if bool_decide (rv_outcome verdict = RestoreFailed) then (ReasonRestoreFailed, "failed")
    else (ReasonFallbackToColdStart, "cold_start") in
  let message :=
    if rv_reason verdict ==s "" then
      "Engine " +s engineName +s " reported " +s outcome_string (rv_outcome verdict) +s " for replacement pod " +s p_name pod
    else rv_reason verdict in
  let message := if rv_evidence verdict !=s "" then message +s " (" +s rv_evidence verdict +s ")" else message in
  do* gcheck (markSucceededWithoutRestore now reason message) Some in
  do* metric "RecordRestoreVerdict" [engineName; label] 0 in
  gret None).

Definition concludeRestoreLost (pod : Pod) (engineName : string) (restarts : Z) (container : string)
    : fn resp JobState (option ApiErr) := gfun (
  let message := "Container " +s Quote container +s " of replacement pod " +s p_name pod +s
    " restarted before the restore was verified (" +s pretty restarts +s
    " restart(s)), so it runs without its restored state" in
  do* gcheck (markSucceededWithoutRestore now ReasonRestoreLost message) Some in
  do* metric "RecordRestoreVerdict" [engineName; "lost"] 0 in
  let* job := get_job in
  do* eventf r (about_job job) "Warning" ReasonRestoreLost message in
  do* eventf r (about_pod pod) "Warning" ReasonRestoreLost message in
  gret None).

(** ** The restore-crash fallback *)

Definition deleteCrashedPod (pod : Pod) : fn resp JobState (option ApiErr) := gfun (
  let* job := get_job in
  if (j_restoredPodUID job !=s "") && (p_uid pod !=s j_restoredPodUID job) then gret None
  else if p_deleting pod then gret None
  else
    let* e := ecall (EDeletePod pod (Some (p_uid pod))) in
    match e with
    | None => gret None
    | Some err =>
        if IsNotFound err || IsConflict err then gret None
        else gret (Some (wrapf ("failed to delete crashed replacement pod " +s p_name pod +s ": ") err))
    end).

Definition ensureCrashedReplacementPodDeleted (prefetched : option Pod) : fn resp JobState (option ApiErr) := gfun (
  let* job := get_job in
  if j_restoredPodName job ==s "" then gret None
  else
    match prefetched with
    | Some pod => ginvoke (deleteCrashedPod pod)
    | None =>
        let* x := ecall (EGetPod (liveReader r) (j_namespace job) (j_restoredPodName job)) in
        match x with
        | inl err =>
            if IsNotFound err then gret None
            else gret (Some (wrapf ("failed to get crashed replacement pod " +s j_restoredPodName job +s ": ") err))
        | inr pod => ginvoke (deleteCrashedPod pod)
        end
    end).

(** The pod the verdict is about, if there is one, and the verdict. *)
Definition classifyRecordedPodLive {R} : G R (res (option Pod * Failure)) :=
  let* job := get_job in
  if j_restoredPodName job ==s "" then gret (inr (None, no_failure))
  else
    let* x := ecall (EGetPod (liveReader r) (j_namespace job) (j_restoredPodName job)) in
    match x with
    | inl err =>
        if IsNotFound err then gret (inr (None, no_failure))
        else gret (inl (wrapf ("failed to live-read replacement pod " +s j_restoredPodName job +s ": ") err))
    | inr pod =>
        if (j_restoredPodUID job !=s "") && (p_uid pod !=s j_restoredPodUID job) then gret (inr (None, no_failure))
        else gret (inr (Some pod, Classify (Some pod) (restoreEngines r job)))
    end.

Definition concludeRestoreCrash (pod : Pod) (verdict : Failure) : fn resp JobState Outcome := gfun (
  do* metric "RestoreCrashFallbackTotal" [] 1 in
  let message := "Replacement pod " +s p_name pod +s " failed to restore from snapshot (engine " +s
    Quote (f_engine verdict) +s ", container " +s Quote (f_container verdict) +s ", signature " +s
    Quote (f_signature verdict) +s "): " +s f_message verdict in
  do* conclude now Failed in
  do* setCondition now ConditionRestoreCrashed "True" ReasonRestoreCrashFallback message in
  do* setCondition now "Restored" "False" ReasonRestoreCrashFallback message in
  do* setCondition now "Ready" "False" ReasonRestoreCrashFallback message in
  do* clearUnrecognizedRestoreCrash now in
  do* gcheck patchStatus handleStatusError in
  do* markInactive key in
  do* recordOutcome "fallback" in
  do* recordPreviousPhaseDuration now Restoring in
  do* recordPodEvent r "Warning" "MigrationFailed" ("Restore failed: " +s f_signature verdict) in
  let* job := get_job in
  do* eventf r (about_job job) "Warning" ReasonRestoreCrashFallback message in
  do* gcheck (ginvoke (ensureCrashedReplacementPodDeleted (Some pod))) (fun err => (NoRequeue, Some err)) in
  do* ecall (EProbeDelete key) in
  gret (NoRequeue, None)).

(** ** The Restoring phase *)

Definition initRestoringStartTime : fn resp JobState (option ApiErr) := gfun (
  let* job := get_job in
  match restoringStartTime (j_status job) with
  | Some _ => gret None
  | None => do* mod_job (set_restoringStartTime (Some now)) in patchStatus
  end).

(** Past the ceiling, a consumed job looks at its replacement, live: a crash
    runs the fallback, and a healthy restore is accepted.  [None]: neither. *)
Definition ceilingConsumed : fn resp JobState (option Outcome) := gfun (
  let* x := classifyRecordedPodLive in
  match x with
  | inl err => gret (Some (NoRequeue, Some err))
  | inr (None, verdict) => gret None
  | inr (Some pod, verdict) =>
      if bool_decide (f_class verdict = FailureFatal) then
        let* o := ginvoke (concludeRestoreCrash pod verdict) in gret (Some o)
      else
        let* job := get_job in
        let '(readySince, ok) := effectiveReadySince pod job now in
        if negb ok then gret None
        else if (fst (containerRestarts pod) =? 0) &&
                ((rc_restoreStabilizationWindow r <=? 0) || (rc_restoreStabilizationWindow r <=? Sub now readySince)) then
          let eng := jobEngine r job in
          let* y := restoreVerdict pod eng in
          match y with
          | inl err => gret (Some (NoRequeue, Some err))
          | inr v =>
              if bool_decide (rv_outcome v = Restored) then
                do* ecall (EProbeDelete key) in
                let* o := ginvoke (concludeRestored pod (e_name eng) v) in gret (Some o)
              else gret None
          end
        else gret None
  end).

(** Past the ceiling: a gated claimant defers the conclusion. *)
Definition restoreCeilingReached : fn resp JobState Outcome := gfun (
  let* job := get_job in
  do* (if consumed (j_status job) then
         let* c := ginvoke ceilingConsumed in
         match c with Some o => greturn o | None => gret tt end
       else gret tt) in
  let* job := get_job in
  do* (if negb (consumed (j_status job)) then
         let* g := hasGatedClaimant in
         match g with
         | inl err => greturn (NoRequeue, Some err)
         | inr true =>
             let* c := setCondition now "Ready" "False" "WaitingOnGateRelease"
                         "Restore ceiling reached but replacement pod is still gated awaiting the PodGate worker" in
             do* (if c : bool then gcheck patchStatus handleStatusError else gret tt) in
             greturn (RequeueAfter (15 * Second), None)
         | inr false => gret tt
         end
       else gret tt) in
  let ceiling := restoreCeiling r in
  let message := if negb (ceiling =? restoreTimeout) then "Restore timed out after " +s DurationString ceiling
                 else "Restore timed out after 5 minutes" in
  do* gcheck (markSucceededWithoutRestore now "RestoreTimeout" message) handleStatusError in
  let* job := get_job in
  do* metric "RecordRestoreVerdict" [e_name (jobEngine r job); "timeout"] 0 in
  gret (NoRequeue, None)).

(** The recorded name belongs to another pod. *)
Definition replacementMismatch (pod : Pod) : fn resp JobState Outcome := gfun (
  let* job := get_job in
  let mismatchSinceStr := sget (j_annotations job) AnnotationMismatchSince in
  if mismatchSinceStr ==s "" then
    do* mod_job (fun j => set_j_annotations (<[AnnotationMismatchSince := FormatRFC3339 now]> (j_annotations j)) j) in
    do* gcheck updateJob (fun err => (NoRequeue, Some err)) in
    gret (RequeueAfter (2 * Second), None)
  else
    let persisted := match ParseRFC3339 mismatchSinceStr with
                     | None => true
                     | Some t => mismatchGracePeriod + clockSkewTolerance <? Sub now t
                     end in
    if persisted : bool then
      do* conclude now SucceededWithoutRestore in
      do* setCondition now "Restored" "False" "ReplacementPodMismatch"
            "Replacement pod was deleted and recreated (UID mismatch persisted > 30s)" in
      do* setCondition now "Ready" "True" "ReplacementPodMismatch"
            "Workload recreated with new instance; migration tracking concluded" in
      do* gcheck patchStatus handleStatusError in
      do* markInactive key in
      do* recordOutcome "failed" in
      do* recordPreviousPhaseDuration now Restoring in
      do* recordPodEvent r "Warning" "MigrationFailed"
            ("Workload was recreated with replacement pod UID " +s p_uid pod +s " before restore completed") in
      gret (NoRequeue, None)
    else gret (RequeueAfter (2 * Second), None)).

(** The replacement is the recorded one: tidy the job up. *)
Definition selfHeal (pod : Pod) : G Outcome unit :=
  let* job := get_job in
  do* (if sget (j_annotations job) AnnotationMismatchSince !=s "" then
         do* mod_job (fun j => set_j_annotations (delete AnnotationMismatchSince (j_annotations j)) j) in
         gcheck updateJob (fun err => (NoRequeue, Some err))
       else gret tt) in
  let* job := get_job in
  if negb (gateReleased (j_status job)) && negb (podHasMigrationGate pod) then
    do* mod_job (set_gateReleased true) in
    gcheck patchStatus handleStatusError
  else gret tt.

(** The replacement is not Ready: look for a restore crash, then for a verdict. *)
Definition replacementNotReady (pod : Pod) : fn resp JobState Outcome := gfun (
  let* job := get_job in
  let verdict := Classify (Some pod) (restoreEngines r job) in
  match f_class verdict with
  | FailureFatal =>
      let* x := classifyRecordedPodLive in
      match x with
      | inl err => gret (NoRequeue, Some err)
      | inr (livePod, liveVerdict) =>
          match livePod with
          | Some live =>
              if bool_decide (f_class liveVerdict = FailureFatal) then ginvoke (concludeRestoreCrash live liveVerdict)
              else gret (RequeueAfter (2 * Second), None)
          | None => gret (RequeueAfter (2 * Second), None)
          end
      end
  | FailureUnrecognized =>
      let message := "Replacement pod " +s p_name pod +s
        " hit a container start failure with no recognised restore-failure signature (container " +s
        Quote (f_container verdict) +s "): " +s f_message verdict in
      let* c := setCondition now ConditionUnrecognizedRestoreCrash "True" ReasonUnrecognizedRestoreCrash message in
      do* (if c : bool then
             do* gcheck patchStatus handleStatusError in
             let* job := get_job in
             do* eventf r (about_job job) "Warning" ReasonUnrecognizedRestoreCrash message in
             metric "RestoreCrashUnmatchedTotal" [] 1
           else gret tt) in
      gret (RequeueAfter (2 * Second), None)
  | FailureNone =>
      let* probe := shouldProbeFallbackEvents now key in
      if probe : bool then
        let* job := get_job in
        let eng := jobEngine r job in
        let* y := restoreVerdict pod eng in
        match y with
        | inl err => gret (NoRequeue, Some err)
        | inr v =>
            if bool_decide (rv_outcome v = ColdStart) || bool_decide (rv_outcome v = RestoreFailed) then
              do* ecall (EProbeDelete key) in
              let* e := ginvoke (concludeWithoutRestore pod (e_name eng) v) in gret (NoRequeue, e)
            else gret (RequeueAfter (2 * Second), None)
        end
      else gret (RequeueAfter (2 * Second), None)
  end).

(** The replacement is Ready: the engine's verdict decides. *)
Definition replacementReady (pod : Pod) : fn resp JobState Outcome := gfun (
  let* job := get_job in
  let eng := jobEngine r job in
  let* y := restoreVerdict pod eng in
  match y with
  | inl err => gret (NoRequeue, Some err)
  | inr v =>
      if bool_decide (rv_outcome v = ColdStart) || bool_decide (rv_outcome v = RestoreFailed) then
        do* ecall (EProbeDelete key) in
        let* e := ginvoke (concludeWithoutRestore pod (e_name eng) v) in gret (NoRequeue, e)
      else
        let '(restarts, container) := containerRestarts pod in
        if 0 <? restarts then
          do* ecall (EProbeDelete key) in
          let* e := ginvoke (concludeRestoreLost pod (e_name eng) restarts container) in gret (NoRequeue, e)
        else if negb (bool_decide (rv_outcome v = Restored)) then gret (RequeueAfter (2 * Second), None)
        else
          let remaining := if rv_confirmed v then 0 else stabilizationRemainingAt r job pod now in
          if 0 <? remaining then gret (RequeueAfter (i64 (remaining + 500 * Millisecond)), None)
          else
            do* ecall (EProbeDelete key) in
            ginvoke (concludeRestored pod (e_name eng) v)
  end).

Definition reconcileRestoring : fn resp JobState Outcome := gfun (
  do* gcheck (ginvoke initRestoringStartTime) handleStatusError in
  let* job := get_job in
  (* nil only if the server's answer dropped the time just written *)
  let started := default zero_time (restoringStartTime (j_status job)) in
  if restoreCeiling r <? Sub now started then ginvoke restoreCeilingReached
  else if negb (consumed (j_status job)) || (j_restoredPodUID job ==s "") || (j_restoredPodName job ==s "") then
    gret (RequeueAfter (2 * Second), None)
  else
    let* x := ecall (EGetPod Cache req_ns (j_restoredPodName job)) in
    match x with
    | inl err => if IsNotFound err then gret (RequeueAfter (2 * Second), None) else gret (NoRequeue, Some err)
    | inr pod =>
        if p_uid pod !=s j_restoredPodUID job then ginvoke (replacementMismatch pod)
        else
          do* selfHeal pod in
          if negb (isPodReady pod) then ginvoke (replacementNotReady pod)
          else ginvoke (replacementReady pod)
    end).

End Restoring.
