(* ===== verification/Invariants.v ===== *)
(** * The invariant rules (internal/invariants/rules.go, i10_*.go, snapshot.go)

    Pure predicates on what a reconciler saw at the end of a pass: each answers
    the violations it finds.  [wall] is [time.Now()], used for a snapshot that
    has no time of its own. *)
From S2P Require Import Prelude Effects GoLib Kube Interfaces Classifier Engine PodUtil Timeout JobBase Assignment.
From S2P Require Import ActiveMigration Fence Restore.

Definition AnnotationPSName : string := "podsnapshot.gke.io/ps-name".
Definition DefaultEngineName : string := "gke-pod-snapshots".
Definition MaxMigrationDuration : Z := 10 * Minute.
Definition GateReleaseGraceWindow : Z := 30 * Second.
Definition SourceFencedGraceWindow : Z := 10 * Second.
Definition progressGraceSlack : Z := 30 * Second.

(** [a "verb" b]: parts of messages *)
Definition boolString (b : bool) : string := if b then "true" else "false".

(** ** Modes *)

Inductive Mode := ModeUnset | ModeDisabled | ModeObserve | ModeStrict.
#[export] Instance Mode_eq_dec : EqDecision Mode.
Proof. solve_decision. Defined.

Definition ParseMode (raw : string) : string + Mode :=
  let m := ToLower (TrimSpace raw) in
  if (m ==s "") || (m ==s "disabled") then inr ModeDisabled
  else if m ==s "observe" then inr ModeObserve
  else if m ==s "strict" then inr ModeStrict
  else inl ("invalid invariant mode " +s Quote raw +s " (expected disabled, observe, or strict)").

(** ** Objects of a snapshot *)

Definition pod_key (p : Pod) : string := p_namespace p +s "/" +s p_name p.

(** The first object of each key. *)
Fixpoint dedup_by {A} (key : A -> string) (seen : gset string) (l : list A) : list A :=
  match l with
  | [] => []
  | x :: l' =>
      if bool_decide (key x ∈ seen) then dedup_by key seen l'
      else x :: dedup_by key ({[key x]} ∪ seen) l'
  end.

Definition allPMJs (s : ReconcileSnapshot) : list PodMigrationJob :=
  match sn_pmj s with
  | Some j => if j_name j !=s "" then j :: dedup_by req_key {[req_key j]} (sn_pmjs s) else dedup_by req_key ∅ (sn_pmjs s)
  | None => dedup_by req_key ∅ (sn_pmjs s)
  end.

Definition allPods (s : ReconcileSnapshot) : list Pod :=
  match sn_pod s with
  | Some p => if p_name p !=s "" then p :: dedup_by pod_key {[pod_key p]} (sn_pods s) else dedup_by pod_key ∅ (sn_pods s)
  | None => dedup_by pod_key ∅ (sn_pods s)
  end.

(** [jobByKey[ns+"/"+name]], [podByKey[...]]: keys are distinct in the lists. *)
Definition job_at (jobs : list PodMigrationJob) (ns name : string) : option PodMigrationJob :=
  List.find (fun j => req_key j ==s (ns +s "/" +s name)) jobs.
Definition pod_at (pods : list Pod) (ns name : string) : option Pod :=
  List.find (fun p => pod_key p ==s (ns +s "/" +s name)) pods.

Definition jobEngineAnnotation (job : PodMigrationJob) : string := TrimSpace (sget (j_annotations job) AnnotationEngine).
Definition effectiveJobEngineName (job : PodMigrationJob) : string :=
  let name := jobEngineAnnotation job in if name !=s "" then name else DefaultEngineName.

(** Snapshot reference, cold-start bypass, present. *)
Definition inspectPodRestoreOrder (s : ReconcileSnapshot) (engineName : string) (pod : Pod) : string * bool * bool :=
  match sn_restoreOrders s with
  | Some f => f engineName pod
  | None =>
      match p_annotations pod !! AnnotationPSName with
      | None => ("", false, false)
      | Some val => let trimmed := TrimSpace val in
                    if trimmed ==s "" then ("", true, true) else (trimmed, false, true)
      end
  end.

Definition migratedAgain (job : PodMigrationJob) (targeting : list PodMigrationJob) : bool :=
  existsb (fun other => (j_name other !=s j_name job) && negb (Before (j_created other) (j_created job))) targeting.

(** A violation without overrides of its rule's thresholds. *)
Definition violation (id name reason message ns pmj pod : string) : Violation :=
  mkViolation id name reason message ns pmj pod 0 0.

Definition snapshot_now (wall : Z) (s : ReconcileSnapshot) : Z := if IsZero (sn_now s) then wall else sn_now s.

Section Rules.
Context `{KubeLib}.
Context (wall : Z).

Definition restoreVerified (job : PodMigrationJob) : bool :=
  match FindStatusCondition (j_conditions job) "Restored" with
  | Some c => (c_status c ==s "True") && ((c_reason c ==s ReasonRestoreVerified) || (c_reason c ==s ReasonRestoreInferred))
  | None => false
  end.

(** ** I1: a snapshot is restored at most once *)

(** No restore order: the engine's answer is absent, a bypass, or names nothing. *)
Definition no_order (x : string * bool * bool) : bool :=
  let '(snap, bypass, ok) := x in negb ok || bypass || (snap ==s "").

(** The restore order of a pod, by its job's engine, else by any engine. *)
Definition pod_order (s : ReconcileSnapshot) (jobs : list PodMigrationJob) (pod : Pod) : string * bool * bool :=
  let assigned := sget (p_annotations pod) AnnotationAssignedPMJ in
  let engName := if assigned !=s "" then
                   match job_at jobs (p_namespace pod) assigned with Some j => jobEngineAnnotation j | None => "" end
                 else "" in
  let x := inspectPodRestoreOrder s engName pod in
  if no_order x && (engName !=s "") then inspectPodRestoreOrder s "" pod else x.

Definition consumer_id (pod : Pod) : string := if p_uid pod ==s "" then pod_key pod else p_uid pod.

Definition I1_duplicate (snap prev id : string) (pod : Pod) : Violation :=
  violation "I1" "AtMostOnceRestore" "DuplicateSnapshotConsumption"
    ("snapshot " +s Quote snap +s " is simultaneously bound to multiple replacement pods (" +s prev +s " and " +s id +s ")")
    (p_namespace pod) "" (p_name pod).

Fixpoint I1_pods (s : ReconcileSnapshot) (jobs : list PodMigrationJob) (consumers : gmap string string) (pods : list Pod)
    : list Violation :=
  match pods with
  | [] => []
  | pod :: rest =>
      let x := pod_order s jobs pod in
      if no_order x then I1_pods s jobs consumers rest
      else
        let snap := fst (fst x) in
        let id := consumer_id pod in
        match consumers !! snap with
        | Some prev => if prev !=s id then I1_duplicate snap prev id pod :: I1_pods s jobs consumers rest
                       else I1_pods s jobs (<[snap := id]> consumers) rest
        | None => I1_pods s jobs (<[snap := id]> consumers) rest
        end
  end.

Definition I1_rebound (s : ReconcileSnapshot) (job : PodMigrationJob) (pod : Pod) : option Violation :=
  let '(snap, bypass, ok) := inspectPodRestoreOrder s (jobEngineAnnotation job) pod in
  if ok && negb bypass && (snap ==s j_snapshotRef job) && (j_restoredPodUID job !=s "") && (p_uid pod !=s "") &&
     (p_uid pod !=s j_restoredPodUID job)
  then Some (violation "I1" "AtMostOnceRestore" "ConsumedSnapshotReboundAfterGateRelease"
        ("PMJ " +s req_key job +s " already released gate for consumer UID " +s Quote (j_restoredPodUID job) +s
         " on snapshot " +s Quote (j_snapshotRef job) +s ", but pod " +s p_name pod +s " (UID " +s Quote (p_uid pod) +s
         ") is bound to the same snapshot")
        (j_namespace job) (j_name job) (p_name pod))
  else None.

Definition EvaluateI1 (s : ReconcileSnapshot) : list Violation :=
  let jobs := allPMJs s in
  let pods := allPods s in
  (I1_pods s jobs ∅ pods ++
   flat_map (fun job =>
     if consumed (j_status job) && gateReleased (j_status job) && (j_snapshotRef job !=s "")
     then omap (I1_rebound s job) pods else []) jobs)%list.

(** ** I2: no silent cold start *)

Definition I2_no_snapshot (job : PodMigrationJob) : Violation :=
  violation "I2" "NoSilentColdStart" "SucceededWithoutSnapshotRef"
    ("PMJ " +s req_key job +s " transitioned to Succeeded (warm restore) with empty Status.SnapshotRef")
    (j_namespace job) (j_name job) "".

(** The bypass is accepted: the restore was verified and completed, or the pod is migrated again. *)
Definition I2_bypass_accepted (targeting : list PodMigrationJob) (job : PodMigrationJob) (pod : Pod) : bool :=
  let completed := sget (p_annotations pod) AnnotationRestoreCompleted in
  let bypassing := sget (p_annotations pod) AnnotationColdStartBypassJob in
  let hasBypassJob := (p_uid pod !=s "") && (bypassing !=s "") && (bypassing !=s j_name job) &&
                      (bypassing ==s FormatPMJName (p_name pod) (p_uid pod)) in
  (restoreVerified job && (completed !=s "") && (completed ==s j_snapshotRef job)) ||
  hasBypassJob ||
  ((p_uid pod !=s "") &&
   migratedAgain job (List.filter (fun j => (j_targetUID j !=s "") && (j_targetUID j ==s p_uid pod)) targeting)).

Definition I2_job (s : ReconcileSnapshot) (pods : list Pod) (targeting : list PodMigrationJob) (job : PodMigrationJob)
    : option Violation :=
  if negb (j_phase job ==p Succeeded) then None
  else if j_snapshotRef job ==s "" then Some (I2_no_snapshot job)
  else if j_restoredPodName job ==s "" then None
  else
    match pod_at pods (j_namespace job) (j_restoredPodName job) with
    | None => None
    | Some pod =>
        if (j_restoredPodUID job !=s "") && (p_uid pod !=s "") && (p_uid pod !=s j_restoredPodUID job) then None
        else
          let '(snap, bypass, present) := inspectPodRestoreOrder s (jobEngineAnnotation job) pod in
          if bypass && I2_bypass_accepted targeting job pod then None
          else if negb present || (snap !=s j_snapshotRef job) || bypass then
            Some (violation "I2" "NoSilentColdStart" "SucceededPodMissingRestoreAnnotation"
              ("PMJ " +s req_key job +s " is Succeeded expecting snapshot " +s Quote (j_snapshotRef job) +s
               " on replacement pod " +s p_name pod +s ", but pod has " +s AnnotationPSName +s "=" +s Quote snap +s
               " (coldStartBypass=" +s boolString bypass +s ")")
              (j_namespace job) (j_name job) (p_name pod))
          else None
    end.

Definition I2_pod (s : ReconcileSnapshot) (jobs : list PodMigrationJob) (pod : Pod) : option Violation :=
  let assigned := sget (p_annotations pod) AnnotationAssignedPMJ in
  if p_deleting pod || podHasMigrationGate pod || (assigned ==s "") then None
  else
    let engName := match job_at jobs (p_namespace pod) assigned with Some j => jobEngineAnnotation j | None => "" end in
    let present := snd (inspectPodRestoreOrder s engName pod) in
    let present := if negb present && (engName !=s "") then snd (inspectPodRestoreOrder s "" pod) else present in
    if negb present then
      Some (violation "I2" "NoSilentColdStart" "GateReleasedWithoutSnapshotOrColdStartBypass"
        ("pod " +s pod_key pod +s " had scheduling gate " +s Quote MigrationGate +s " removed while assigned to PMJ " +s
         assigned +s " without " +s AnnotationPSName +s " set to a snapshot name or explicit empty-string bypass")
        (p_namespace pod) assigned (p_name pod))
    else None.

Definition EvaluateI2 (s : ReconcileSnapshot) : list Violation :=
  let jobs := allPMJs s in
  let pods := allPods s in
  (omap (I2_job s pods (jobs ++ sn_targeting s)) jobs ++ omap (I2_pod s jobs) pods)%list.

(** ** I3: a gate is opened *)

Definition nonzero (t : option Z) : option Z := match t with Some x => if IsZero x then None else Some x | None => None end.

(** The window between the job's record of the open gate and the pod's update. *)
Definition inGraceWindow (now : Z) (job : PodMigrationJob) (pod : Pod) : bool :=
  if IsTerminalPhase (j_phase job) then false
  else
    match nonzero (restoringStartTime (j_status job)), nonzero (Some (m_creationTimestamp (p_meta pod))) with
    | Some anchor, _ | None, Some anchor => Sub now anchor <=? GateReleaseGraceWindow
    | None, None => false
    end.

Definition I3_pod (now : Z) (jobs : list PodMigrationJob) (pod : Pod) : option Violation :=
  let assigned := sget (p_annotations pod) AnnotationAssignedPMJ in
  if p_deleting pod || negb (podHasMigrationGate pod) || (assigned ==s "") then None
  else
    match job_at jobs (p_namespace pod) assigned with
    | None => None
    | Some job =>
        if IsTerminalPhase (j_phase job) && consumed (j_status job) then
          Some (violation "I3" "GateLiveness" "PodGatedAfterPMJTerminalAndConsumed"
            ("pod " +s pod_key pod +s " still carries scheduling gate " +s Quote MigrationGate +s
             " even though assigned PMJ " +s j_name job +s " is already terminal (" +s phase_string (j_phase job) +s
             ") and consumed")
            (p_namespace pod) (j_name job) (p_name pod))
        else if gateReleased (j_status job) && (j_restoredPodUID job !=s "") && (p_uid pod ==s j_restoredPodUID job) then
          if inGraceWindow now job pod then None
          else
            Some (violation "I3" "GateLiveness" "PodGatedAfterGateReleasedStatus"
              ("pod " +s pod_key pod +s " (UID " +s Quote (p_uid pod) +s ") still carries scheduling gate " +s
               Quote MigrationGate +s " after PMJ " +s j_name job +s " marked Status.GateReleased=true")
              (p_namespace pod) (j_name job) (p_name pod))
        else None
    end.

Definition EvaluateI3 (s : ReconcileSnapshot) : list Violation :=
  omap (I3_pod (snapshot_now wall s) (allPMJs s)) (allPods s).

(** ** I4: an active job makes progress *)

Definition EffectiveMigrationTimeout (job : PodMigrationJob) : Z :=
  let raw := sget (j_annotations job) AnnotationMigrationTimeout in
  if raw ==s "" then MaxMigrationDuration
  else match ParseDuration raw with
       | Some d => if 0 <? d then d else MaxMigrationDuration
       | None => MaxMigrationDuration
       end.

(** The eviction has its own budget, under the cap on the whole migration. *)
Definition I4_evicting (now budget anchor : Z) (job : PodMigrationJob) : bool :=
  (j_phase job ==p Evicting) &&
  (IsZero anchor || (Sub now anchor <=? i64 (MaxMigrationTimeout + progressGraceSlack))) &&
  match nonzero (evictingStartTime (j_status job)) with
  | Some t => Sub now t <=? budget
  | None =>
      match parse_time_annotation (sget (j_annotations job) AnnotationEvictingSince) with
      | Some t => Sub now t <=? budget
      | None => false
      end
  end.

Definition I4_job (now : Z) (job : PodMigrationJob) : option Violation :=
  if negb ((j_phase job ==p Pending) || (j_phase job ==p Snapshotting) || (j_phase job ==p Evicting)) then None
  else
    let effectiveTimeout := EffectiveMigrationTimeout job in
    let budget := i64 (effectiveTimeout + progressGraceSlack) in
    let '(anchor, anchorLabel) := match nonzero (snapshottingStartTime (j_status job)) with
                                  | Some t => (t, "snapshotting started")
                                  | None => (j_created job, "created")
                                  end in
    if I4_evicting now budget anchor job then None
    else if negb (IsZero anchor) && (budget <? Sub now anchor) then
      Some (violation "I4" "TerminalProgress" "ActivePMJExceededDeadline"
        ("PMJ " +s req_key job +s " remained in non-terminal phase " +s Quote (phase_string (j_phase job)) +s
         " beyond its " +s DurationString effectiveTimeout +s " deadline (" +s anchorLabel +s " at " +s
         FormatRFC3339 anchor +s ")")
        (j_namespace job) (j_name job) "")
    else None.

Definition I4_migration (now : Z) (mig : PodMigration) : list Violation :=
  let m := pm_meta mig in
  match nonzero (m_deletionTimestamp m) with
  | Some t =>
      if existsb (String.eqb StorageCleanupFinalizer) (m_finalizers m) &&
         (MaxMigrationDuration + progressGraceSlack <? Sub now t) then
        [violation "I4" "TerminalProgress" "PodMigrationFinalizerStuckPastDeferralCap"
           ("PodMigration " +s m_namespace m +s "/" +s m_name m +s " has been deleting with finalizer " +s
            Quote StorageCleanupFinalizer +s " beyond the " +s DurationString MaxMigrationDuration +s
            " max deferral deadline (deletion started at " +s FormatRFC3339 t +s ")")
           (m_namespace m) "" ""]
      else []
  | None => []
  end.

Definition EvaluateI4 (s : ReconcileSnapshot) : list Violation :=
  let now := snapshot_now wall s in
  (omap (I4_job now) (allPMJs s) ++ match sn_migration s with Some mig => I4_migration now mig | None => [] end)%list.

(** ** I5: a concluded job leaves no trigger *)

Definition EvaluateI5 (s : ReconcileSnapshot) : list Violation :=
  match sn_pmj s with
  | Some job =>
      if sn_orphanedTrigger s && ((j_phase job ==p Succeeded) || (j_phase job ==p Failed)) then
        [violation "I5" "ZeroResourceLeak" "OrphanedManualTriggerOnTerminalPMJ"
           ("terminal PMJ " +s req_key job +s " (phase=" +s phase_string (j_phase job) +s
            ") still owns an uncleaned PodSnapshotManualTrigger")
           (j_namespace job) (j_name job) ""]
      else []
  | None => []
  end.

(** ** I6: the replacement is of the source's revision *)

Definition I6 (reason what : string) (job : PodMigrationJob) (pod : Pod) (expected actual : string) : Violation :=
  violation "I6" "RevisionAndIdentityFidelity" reason
    ("PMJ " +s req_key job +s " expects " +s what +s " " +s Quote expected +s " but replacement pod " +s p_name pod +s
     " has " +s Quote actual)
    (j_namespace job) (j_name job) (p_name pod).

Definition I6_label (reason what jobLabel podLabel : string) (job : PodMigrationJob) (pod : Pod) : list Violation :=
  let expected := sget (j_labels job) jobLabel in
  let actual := sget (p_labels pod) podLabel in
  if (expected !=s "") && (actual !=s "") && (actual !=s expected) then [I6 reason what job pod expected actual] else [].

Definition I6_owner (job : PodMigrationJob) (pod : Pod) (ref : OwnerReference) : list Violation :=
  let expectedUID := sget (j_labels job) LabelParentUID in
  let expectedKind := sget (j_labels job) LabelParentKind in
  if or_controller ref && (or_uid ref !=s "") && ((expectedKind ==s "") || (or_kind ref ==s expectedKind)) &&
     (or_uid ref !=s expectedUID) then
    [violation "I6" "RevisionAndIdentityFidelity" "ParentControllerUIDMismatch"
       ("PMJ " +s req_key job +s " expects parent controller UID " +s Quote expectedUID +s " but replacement pod " +s
        p_name pod +s " is owned by UID " +s Quote (or_uid ref))
       (j_namespace job) (j_name job) (p_name pod)]
  else [].

Definition I6_job (pods : list Pod) (job : PodMigrationJob) : list Violation :=
  if j_restoredPodName job ==s "" then []
  else
    match pod_at pods (j_namespace job) (j_restoredPodName job) with
    | None => []
    | Some pod =>
        (I6_label "PodTemplateHashMismatch" "pod-template-hash" LabelPodTemplateHash DefaultDeploymentUniqueLabelKey job pod ++
         I6_label "ControllerRevisionHashMismatch" "controller-revision-hash"
           LabelControllerRevisionHash LabelControllerRevisionHash job pod ++
         I6_label "JobCompletionIndexMismatch" "job-completion-index" LabelJobCompletionIndex LabelJobCompletionIndex job pod ++
         (if sget (j_labels job) LabelParentUID !=s "" then flat_map (I6_owner job pod) (m_owners (p_meta pod)) else []))%list
    end.

Definition EvaluateI6 (s : ReconcileSnapshot) : list Violation := flat_map (I6_job (allPods s)) (allPMJs s).

(** ** I7: a job restores only after its source was evicted *)

Definition cond_is_true (job : PodMigrationJob) (type : string) : bool :=
  match FindStatusCondition (j_conditions job) type with Some c => c_status c ==s "True" | None => false end.

Definition I7_origin (job : PodMigrationJob) (pod : Pod) : list Violation :=
  if (p_namespace pod ==s j_namespace job) && (p_uid pod ==s j_targetUID job) && negb (p_deleting pod) then
    [violation "I7" "DisruptionBoundingPDBCompliance" "OriginPodStillRunningInRestoringPhase"
       ("PMJ " +s req_key job +s " advanced to phase " +s Quote (phase_string (j_phase job)) +s " while origin pod " +s
        p_name pod +s " (UID " +s Quote (p_uid pod) +s ") is still running without eviction")
       (j_namespace job) (j_name job) (p_name pod)]
  else [].

Definition I7_job (pods : list Pod) (job : PodMigrationJob) : list Violation :=
  if negb ((j_phase job ==p Restoring) || (j_phase job ==p Succeeded)) then []
  else
    ((if cond_is_true job "BlockedByPDB" || cond_is_true job "EvictionMisconfigured" then
        [violation "I7" "DisruptionBoundingPDBCompliance" "EvictionBypassedWhileBlockedByPDB"
           ("PMJ " +s req_key job +s " advanced to phase " +s Quote (phase_string (j_phase job)) +s
            " while eviction blockage condition remains True")
           (j_namespace job) (j_name job) (j_podName job)]
      else []) ++
     (if j_targetUID job !=s "" then flat_map (I7_origin job) pods else []))%list.

Definition EvaluateI7 (s : ReconcileSnapshot) : list Violation := flat_map (I7_job (allPods s)) (allPMJs s).

(** ** I8: system namespaces are left alone *)

Definition isSystemExcludedNamespace (ns : string) : bool :=
  (ns ==s "kube-system") || (ns ==s "pod-migration-system") || HasPrefix ns "gke-managed-".

Definition I8_pod (pod : Pod) : option Violation :=
  if isSystemExcludedNamespace (p_namespace pod) && podHasMigrationGate pod then
    Some (violation "I8" "PlatformAndControlPlaneIsolation" "SystemNamespacePodGated"
      ("system-namespace pod " +s pod_key pod +s " carries LPM scheduling gate " +s Quote MigrationGate)
      (p_namespace pod) "" (p_name pod))
  else None.

Definition I8_job (job : PodMigrationJob) : option Violation :=
  if isSystemExcludedNamespace (j_namespace job) then
    Some (violation "I8" "PlatformAndControlPlaneIsolation" "SystemNamespacePMJCreated"
      ("PodMigrationJob " +s req_key job +s " was created in excluded system namespace " +s Quote (j_namespace job))
      (j_namespace job) (j_name job) "")
  else None.

Definition EvaluateI8 (s : ReconcileSnapshot) : list Violation :=
  (omap I8_pod (allPods s) ++ omap I8_job (allPMJs s))%list.

(** ** I9: a restore that crashed falls back *)

Definition I9_matched (s : ReconcileSnapshot) (pods : list Pod) (job : PodMigrationJob) : bool :=
  cond_is_true job "RestoreCrashed" ||
  (sn_restoreCrash s && match sn_pmj s with Some p => j_name p ==s j_name job | None => false end) ||
  ((j_restoredPodName job !=s "") &&
   match pod_at pods (j_namespace job) (j_restoredPodName job) with
   | Some pod => ((j_restoredPodUID job ==s "") || (p_uid pod ==s j_restoredPodUID job)) &&
                 bool_decide (f_class (Classify (Some pod) DefaultEngines) = FailureFatal)
   | None => false
   end).

Definition I9_job (s : ReconcileSnapshot) (pods : list Pod) (job : PodMigrationJob) : option Violation :=
  if I9_matched s pods job && ((j_phase job ==p Restoring) || (j_phase job ==p Succeeded)) then
    Some (violation "I9" "DeterministicFallbackOverCrashloop" "RestoreCrashDidNotTriggerFallback"
      ("PMJ " +s req_key job +s " matched a container restore-crash signature but remained in phase " +s
       Quote (phase_string (j_phase job)) +s " instead of failing over to cold start")
      (j_namespace job) (j_name job) (j_restoredPodName job))
  else None.

Definition EvaluateI9 (s : ReconcileSnapshot) : list Violation := omap (I9_job s (allPods s)) (allPMJs s).

(** ** I10: the replacement of a restoring job exists *)

Definition same_ns (a b : string) : bool := (a ==s "") || (b ==s "") || (a ==s b).

Definition I10_alive (pmj : PodMigrationJob) (pod : Pod) : bool :=
  same_ns (p_namespace pod) (j_namespace pmj) && (p_name pod ==s j_restoredPodName pmj) && negb (p_deleting pod).

Definition EvaluateI10 (s : ReconcileSnapshot) : list Violation :=
  match sn_pmj s with
  | None => []
  | Some pmj =>
      let since := match restoringStartTime (j_status pmj) with
                   | Some t => 30 * Second <=? Sub (sn_now s) t
                   | None => false
                   end in
      if negb (sn_podListFailed s) && ((sn_reconciler s ==s "") || (sn_reconciler s ==s "PodMigrationJobReconciler")) &&
         (j_phase pmj ==p Restoring) && (j_restoredPodName pmj !=s "") && negb (IsZero (sn_now s)) && since then
        if existsb (I10_alive pmj) (sn_pods s) || match sn_pod s with Some p => I10_alive pmj p | None => false end then []
        else
          [violation "I10" "RestoringReplacementLiveness" "RestoringReplacementPodMissing"
             ("PMJ " +s req_key pmj +s " remained in PhaseRestoring >=30s while replacement pod " +s
              Quote (j_restoredPodName pmj) +s " is missing or deleting")
             (j_namespace pmj) (j_name pmj) (j_restoredPodName pmj)]
      else []
  end.

(** ** I11: a fenced source stays fenced *)

Definition isSourcePodForPMJ (pod : Pod) (job : PodMigrationJob) : bool :=
  if (p_namespace pod !=s "") && (j_namespace job !=s "") && (p_namespace pod !=s j_namespace job) then false
  else if (j_restoredPodUID job !=s "") && (p_uid pod !=s "") && (p_uid pod ==s j_restoredPodUID job) then false
  else if (j_targetUID job !=s "") && (p_uid pod !=s "") then
    if p_uid pod !=s j_targetUID job then false
    else if (j_podName job !=s "") && (p_name pod !=s "") && (p_name pod !=s j_podName job) then false
    else true
  else (j_podName job !=s "") && (p_name pod ==s j_podName job).

Definition I11_pod (job : PodMigrationJob) (pod : Pod) : list Violation :=
  if negb (isSourcePodForPMJ pod job) then []
  else
    let fencedLabel := sget (p_labels pod) LabelFenced in
    let ready := List.find (fun c => c_type c ==s "Ready") (p_conditions pod) in
    let held := match ready with
                | Some c => (c_status c ==s "False") && (c_reason c ==s ReasonPodMigrationFenced)
                | None => false
                end in
    ((if fencedLabel !=s "true" then
        [violation "I11" "SourceFencedAfterCheckpoint" "SourcePodMissingFenceLabel"
           ("PMJ " +s req_key job +s " has " +s ConditionSourceFenced +s "=True, but source pod " +s p_name pod +s
            " has label " +s LabelFenced +s "=" +s Quote fencedLabel +s " (want " +s Quote "true" +s ")")
           (j_namespace job) (j_name job) (p_name pod)]
      else []) ++
     (if negb held then
        [violation "I11" "SourceFencedAfterCheckpoint" "SourcePodReadyNotFenced"
           ("PMJ " +s req_key job +s " has " +s ConditionSourceFenced +s "=True, but source pod " +s p_name pod +s
            " has Ready=" +s match ready with Some c => c_status c | None => "absent" end +s " (reason=" +s
            Quote (match ready with Some c => c_reason c | None => "" end) +s ", want False/" +s
            ReasonPodMigrationFenced +s ")")
           (j_namespace job) (j_name job) (p_name pod)]
      else []))%list.

Definition I11_job (now : Z) (pods : list Pod) (job : PodMigrationJob) : list Violation :=
  if IsTerminalPhase (j_phase job) then []
  else
    match FindStatusCondition (j_conditions job) ConditionSourceFenced with
    | Some c =>
        if c_status c !=s "True" then []
        else if negb (IsZero (c_lastTransitionTime c)) && (Sub now (c_lastTransitionTime c) <? SourceFencedGraceWindow) then []
        else flat_map (I11_pod job) pods
    | None => []
    end.

Definition EvaluateI11 (s : ReconcileSnapshot) : list Violation :=
  flat_map (I11_job (snapshot_now wall s) (allPods s)) (allPMJs s).

(** ** I12: a restore is claimed as it was confirmed *)

Definition hasConfirmedRestoreEvidence (engName msg : string) : bool :=
  if (engName ==s "") || (engName ==s DefaultEngineName) then false
  else match after_first msg ("engine " +s engName +s " confirmed the restore: ") with
       | Some evidence => TrimSpace evidence !=s ""
       | None => false
       end.

Definition I12 (reason message : string) (job : PodMigrationJob) : Violation :=
  violation "I12" "RestoreOutcomeConfirmed" reason message (j_namespace job) (j_name job) (j_restoredPodName job).

Definition has_reason (reason : string) (c : option Condition) : bool :=
  match c with Some c => c_reason c ==s reason | None => false end.

(** [c == nil || c.Status == True && c.Reason == reason] *)
Definition absent_or (reason : string) (c : option Condition) : bool :=
  match c with Some c => (c_status c ==s "True") && (c_reason c ==s reason) | None => true end.

Definition I12_job (job : PodMigrationJob) : list Violation :=
  let engName := effectiveJobEngineName job in
  let restored := FindStatusCondition (j_conditions job) "Restored" in
  let ready := FindStatusCondition (j_conditions job) "Ready" in
  let isRestored := match restored with Some c => c_status c ==s "True" | None => false end in
  let evidence := match restored with Some c => hasConfirmedRestoreEvidence engName (c_message c) | None => false end in
  if (j_phase job ==p Succeeded) && isRestored && has_reason ReasonRestoreVerified restored &&
     (jobEngineAnnotation job ==s "") && negb evidence then []
  else
    ((if negb (j_phase job ==p Succeeded) && isRestored then
        [I12 "NonSucceededJobMarkedRestored"
           ("NonSucceededJobMarkedRestored: PMJ " +s req_key job +s " has phase " +s Quote (phase_string (j_phase job)) +s
            " (not Succeeded) but condition Restored=True (reason=" +s
            Quote (match restored with Some c => c_reason c | None => "" end) +s ")") job]
      else []) ++
     (if has_reason ReasonRestoreVerified restored || has_reason ReasonRestoreVerified ready then
        if isRestored && has_reason ReasonRestoreVerified restored && evidence && absent_or ReasonRestoreVerified ready then []
        else
          [I12 "UnconfirmedRestoreMarkedVerified"
             ("PMJ " +s req_key job +s " (engine " +s Quote engName +s ") claims reason=" +s ReasonRestoreVerified +s
              " without positive engine restore confirmation") job]
      else
        match restored with
        | Some c =>
            if (j_phase job ==p Succeeded) &&
               negb ((c_status c ==s "True") && ((c_reason c ==s ReasonRestoreVerified) || (c_reason c ==s ReasonRestoreInferred)) &&
                     absent_or (c_reason c) ready)
            then [I12 "SucceededWithInvalidRestoreVerdict"
                    ("PMJ " +s req_key job +s " is Succeeded with invalid Restored condition (status=" +s Quote (c_status c) +s
                     ", reason=" +s Quote (c_reason c) +s ")") job]
            else []
        | None => []
        end))%list.

Definition EvaluateI12 (s : ReconcileSnapshot) : list Violation := flat_map I12_job (allPMJs s).

(** ** Rules *)

(** [Rule], and [DebouncedRule]: its samples and its duration. *)
Record Rule := mkRule {
  ru_id : string; ru_name : string;
  ru_debounce : option (Z * Z);
  ru_evaluate : ReconcileSnapshot -> list Violation }.

Definition NewDebouncedRule (r : Rule) (consecutive minDuration : Z) : Rule :=
  mkRule (ru_id r) (ru_name r)
    (Some (if consecutive <? 1 then 1 else consecutive, if minDuration <? 0 then 0 else minDuration)) (ru_evaluate r).

Definition DefaultRules : list Rule := [
  mkRule "I1" "AtMostOnceRestore" None EvaluateI1;
  mkRule "I2" "NoSilentColdStart" None EvaluateI2;
  mkRule "I3" "GateLiveness" None EvaluateI3;
  mkRule "I4" "TerminalProgress" None EvaluateI4;
  mkRule "I5" "ZeroResourceLeak" None EvaluateI5;
  mkRule "I6" "RevisionAndIdentityFidelity" None EvaluateI6;
  mkRule "I7" "DisruptionBoundingPDBCompliance" None EvaluateI7;
  mkRule "I8" "PlatformAndControlPlaneIsolation" None EvaluateI8;
  mkRule "I9" "DeterministicFallbackOverCrashloop" None EvaluateI9;
  NewDebouncedRule (mkRule "I10" "RestoringReplacementLiveness" None EvaluateI10) 3 (30 * Second);
  NewDebouncedRule (mkRule "I11" "SourceFencedAfterCheckpoint" None EvaluateI11) 3 (30 * Second);
  mkRule "I12" "RestoreOutcomeConfirmed" None EvaluateI12 ].
End Rules.
