(* ===== verification/InvariantEngine.v ===== *)
(** * The invariant engine (internal/invariants/engine.go)

    The engine runs the rules on a snapshot and decides whether strict mode fails
    the job.  Its state counts, per subject and rule, the samples in a row that
    showed a violation; a debounced rule fails a job only once its violation
    persisted.  The mutex makes a call atomic; log lines are left out. *)
From S2P Require Import Prelude Effects GoLib Kube Interfaces JobBase Invariants.

Definition EventReasonInvariantViolation : string := "InvariantViolation".
Definition maxActiveViolationScopes : Z := 4096.

(** [time.Duration.Round] *)
Definition DurationRound (d m : Z) : Z :=
  if m <=? 0 then d
  else
    let r := Z.rem d m in
    if d <? 0 then
      let r := - r in
      if r + r <? m then d + r
      else let d1 := i64 (d - m + r) in if d1 <? d then d1 else int64_min
    else if r + r <? m then d - r
    else let d1 := i64 (d + m - r) in if d <? d1 then d1 else int64_max.

(** The key a range over a map meets first: any key of the map. *)
Class MapOrder := {
  first_key : gset string -> string;
  first_key_in : forall s, s <> ∅ -> first_key s ∈ s }.

#[refine] Definition some_order : MapOrder := {| first_key s := default "" (head (elements s)) |}.
Proof.
  intros s Hs. destruct (elements s) as [|x l] eqn:He; simpl.
  - destruct Hs. apply leibniz_equiv. by apply elements_empty_iff.
  - rewrite <- elem_of_elements, He. by left.
Defined.

(** The maps of the engine: by scope, and by subject and rule. *)
Record EngineState := mkEngineState {
  activeViolations : gmap string (gmap string string);
  consecutiveCounts : gmap string (gmap string Z);
  consecutiveFirstSeen : gmap string (gmap string Z);
  consecutiveEscalated : gmap string (gmap string bool) }.

Definition no_state : EngineState := mkEngineState ∅ ∅ ∅ ∅.

Definition ForgetObject (reconciler kind ns name : string) (st : EngineState) : EngineState :=
  let scopeKey := reconciler +s "/" +s kind +s "/" +s ns +s "/" +s name in
  let kept (k : string) := negb (k ==s scopeKey) && negb (HasPrefix k (scopeKey +s "/")) in
  mkEngineState (delete scopeKey (activeViolations st))
    (filter (fun kv => kept kv.1 = true) (consecutiveCounts st))
    (filter (fun kv => kept kv.1 = true) (consecutiveFirstSeen st))
    (filter (fun kv => kept kv.1 = true) (consecutiveEscalated st)).

Definition ResetDeduplication (st : EngineState) : EngineState := no_state.

(** [m[k]] of a nested map; nil reads as empty. *)
Definition sub {A} (m : gmap string (gmap string A)) (k : string) : gmap string A := default ∅ (m !! k).

Definition ConsecutiveCount (subjectKey invariantID : string) (st : EngineState) : Z :=
  default 0 (sub (consecutiveCounts st) subjectKey !! invariantID).

Definition FirstSeen (subjectKey invariantID : string) (st : EngineState) : Z :=
  default zero_time (sub (consecutiveFirstSeen st) subjectKey !! invariantID).

Definition BackdateFirstSeen (subjectKey invariantID : string) (t : Z) (st : EngineState) : EngineState :=
  mkEngineState (activeViolations st) (consecutiveCounts st)
    (<[subjectKey := <[invariantID := t]> (sub (consecutiveFirstSeen st) subjectKey)]> (consecutiveFirstSeen st))
    (consecutiveEscalated st).

(** The primary objects, in the order they name the subject. *)
Definition primaries (s : ReconcileSnapshot) : list (string * ObjectMeta) :=
  ((match sn_pmj s with Some j => [("pmj", j_meta j)] | None => [] end) ++
   (match sn_pod s with Some p => [("pod", p_meta p)] | None => [] end) ++
   (match sn_migration s with Some m => [("mig", pm_meta m)] | None => [] end))%list.

Definition snapshotScopeKey (s : ReconcileSnapshot) : string :=
  match List.find (fun km => m_name km.2 !=s "") (primaries s) with
  | Some (kind, m) => sn_reconciler s +s "/" +s kind +s "/" +s m_namespace m +s "/" +s m_name m
  | None => sn_reconciler s +s "/global"
  end.

Definition debounceSubjectKey (s : ReconcileSnapshot) : string :=
  match List.find (fun km => m_uid km.2 !=s "") (primaries s) with
  | Some (_, m) => snapshotScopeKey s +s "/" +s m_uid m
  | None => snapshotScopeKey s
  end.

(** The job of the snapshot is concluded. *)
Definition pmj_terminal (s : ReconcileSnapshot) : bool :=
  match sn_pmj s with Some j => IsTerminalPhase (j_phase j) | None => false end.

Definition violationDedupKey (v : Violation) : string :=
  v_id v +s "/" +s v_reason v +s "/" +s v_namespace v +s "/" +s v_pmj v +s "/" +s v_pod v.

Definition isDegraded (s : ReconcileSnapshot) : bool := sn_podListFailed s || sn_pmjListFailed s.

(** Samples and duration before a violation of the rule escalates. *)
Definition violationThreshold (v : Violation) (r : option Rule) : Z * Z :=
  let '(count, minDuration) :=
    match r ≫= ru_debounce with
    | Some (c, d) => (if 0 <? c then c else 1, if 0 <? d then d else 0)
    | None => (1, 0)
    end in
  (if 0 <? v_consecutive v then v_consecutive v else count,
   if 0 <? v_duration v then v_duration v else minDuration).

Section Evaluate.
Context `{KubeLib} `{MapOrder}.
(** The engine's mode, rules and recorder; [wall] is [time.Now()]. *)
Context (mode : Mode) (configured : list Rule) (hasRecorder : bool) (wall : Z).

Definition Enabled : bool := negb (bool_decide (mode = ModeUnset) || bool_decide (mode = ModeDisabled)).
Definition rules : list Rule := match configured with [] => DefaultRules wall | _ => configured end.

(** [ruleByID[id]]: the last rule with the id. *)
Definition ruleByID (id : string) : option Rule := List.find (fun r => ru_id r ==s id) (rev rules).
Definition threshold (v : Violation) : Z * Z := violationThreshold v (ruleByID (v_id v)).
Definition immediate (v : Violation) : bool := let '(c, d) := threshold v in (c <=? 1) && (d <=? 0).

Definition all_violations (s : ReconcileSnapshot) : list Violation := flat_map (fun r => ru_evaluate r s) rules.

(** ** Debouncing *)

(** The counters of the subject, and what this call found. *)
Record Debounce := mkDebounce {
  db_counts : gmap string Z;
  db_firstSeen : gmap string Z;
  db_escalated : gmap string bool;
  db_counted : gmap string Z;
  db_elapsed : gmap string Z;
  db_escalating : list Violation;
  db_shouldFail : bool }.

Definition fail_strict (b : bool) : bool := b || bool_decide (mode = ModeStrict).

(** This sample is counted once for a rule; a degraded one is not counted. *)
Definition count_sample (degraded : bool) (now : Z) (d : Debounce) (id : string) : Debounce :=
  match db_counted d !! id with
  | Some _ => d
  | None =>
      if negb degraded then
        let seen := default zero_time (db_firstSeen d !! id) in
        let seen := if IsZero seen then now else seen in
        let count := default 0 (db_counts d !! id) + 1 in
        mkDebounce (<[id := count]> (db_counts d)) (<[id := seen]> (db_firstSeen d)) (db_escalated d)
          (<[id := count]> (db_counted d)) (<[id := Sub now seen]> (db_elapsed d)) (db_escalating d) (db_shouldFail d)
      else
        let seen := default zero_time (db_firstSeen d !! id) in
        mkDebounce (db_counts d) (db_firstSeen d) (db_escalated d)
          (<[id := default 0 (db_counts d !! id)]> (db_counted d))
          (if IsZero seen then db_elapsed d else <[id := Sub now seen]> (db_elapsed d))
          (db_escalating d) (db_shouldFail d)
  end.

Definition threshold_met (d : Debounce) (v : Violation) : bool :=
  let '(count, minDuration) := threshold v in
  (count <=? default 0 (db_counted d !! v_id v)) &&
  ((minDuration <=? 0) || (minDuration <=? default 0 (db_elapsed d !! v_id v))).

(** One turn of the loop over the violations. *)
Definition debounce_step (terminal degraded : bool) (now : Z) (d : Debounce) (v : Violation) : Debounce :=
  if immediate v then
    mkDebounce (db_counts d) (db_firstSeen d) (db_escalated d) (db_counted d) (db_elapsed d) (db_escalating d)
      (fail_strict (db_shouldFail d))
  else if terminal then d
  else
    let d := count_sample degraded now d (v_id v) in
    if threshold_met d v then
      let escalated := default false (db_escalated d !! v_id v) in
      mkDebounce (db_counts d) (db_firstSeen d) (if escalated then db_escalated d else <[v_id v := true]> (db_escalated d))
        (db_counted d) (db_elapsed d) (if escalated then db_escalating d else (db_escalating d ++ [v])%list)
        (fail_strict (db_shouldFail d))
    else d.

(** ** The maps *)

Definition forget_subject (subj : string) (st : EngineState) : EngineState :=
  mkEngineState (activeViolations st) (delete subj (consecutiveCounts st)) (delete subj (consecutiveFirstSeen st))
    (delete subj (consecutiveEscalated st)).

Definition forget_scope (scope : string) (st : EngineState) : EngineState :=
  mkEngineState (delete scope (activeViolations st)) (consecutiveCounts st) (consecutiveFirstSeen st) (consecutiveEscalated st).

(** Room for a new key in the maps: one entry goes when they are full. *)
Definition make_room (scope subj : string) (st : EngineState) : EngineState :=
  let full {A} (m : gmap string A) (k : string) :=
    match m !! k with Some _ => false | None => maxActiveViolationScopes <=? Z.of_nat (size m) end in
  let st := if full (activeViolations st) scope then forget_scope (first_key (dom (activeViolations st))) st else st in
  if full (consecutiveCounts st) subj then forget_subject (first_key (dom (consecutiveCounts st))) st else st.

(** The rules that this sample found clean are forgotten. *)
Definition reset_clean {A} (degraded : bool) (violations : list Violation) (ids : gset string) (m : gmap string A) : gmap string A :=
  if degraded then m
  else filter (fun kv => bool_decide (kv.1 ∈ ids) && negb (existsb (fun v => v_id v ==s kv.1) violations) = false) m.

Definition newly (prev : gmap string string) (v : Violation) : bool :=
  match prev !! violationDedupKey v with Some msg => msg !=s v_message v | None => true end.

(** What a call decides: the state, the debounce, and the violations that are new. *)
Record Decision := mkDecision {
  de_violations : list Violation;
  de_newly : list Violation;
  de_debounce : Debounce }.

Definition decide_snapshot (st : EngineState) (s : ReconcileSnapshot) : EngineState * option Decision :=
  let violations := all_violations s in
  let scope := snapshotScopeKey s in
  let subj := debounceSubjectKey s in
  let degraded := isDegraded s in
  let st := if pmj_terminal s then forget_subject subj st else st in
  match violations with
  | [] =>
      let st := forget_scope scope st in
      (if negb degraded then forget_subject subj st else st, None)
  | _ =>
      let st := make_room scope subj st in
      let newlyObserved := List.filter (newly (sub (activeViolations st) scope)) violations in
      let currSet := list_to_map (rev (map (fun v => (violationDedupKey v, v_message v)) violations)) in
      let ids := dom (sub (consecutiveCounts st) subj) in
      let d := fold_left (debounce_step (pmj_terminal s) degraded (snapshot_now wall s)) violations
                 (mkDebounce (reset_clean degraded violations ids (sub (consecutiveCounts st) subj))
                    (reset_clean degraded violations ids (sub (consecutiveFirstSeen st) subj))
                    (reset_clean degraded violations ids (sub (consecutiveEscalated st) subj)) ∅ ∅ [] false) in
      (mkEngineState (<[scope := currSet]> (activeViolations st))
         (<[subj := db_counts d]> (consecutiveCounts st)) (<[subj := db_firstSeen d]> (consecutiveFirstSeen st))
         (<[subj := db_escalated d]> (consecutiveEscalated st)),
       Some (mkDecision violations newlyObserved d))
  end.

(** ** Evaluate *)

Abbreviation G R A := (gom resp EngineState R A).

Definition about_migration (m : PodMigration) : EventTarget :=
  mkEventTarget "PodMigration" (m_namespace (pm_meta m)) (m_name (pm_meta m)) (m_uid (pm_meta m)).

Definition warn {R} (target : EventTarget) (msg : string) : G R unit :=
  gwhen hasRecorder (ecall (EEvent target "Warning" EventReasonInvariantViolation msg)).

Definition report {R} (s : ReconcileSnapshot) (d : Debounce) (v : Violation) : G R unit :=
  do* ecall (EMetric "RecordInvariantViolation" [v_id v] 0) in
  let count := default 0 (db_counted d !! v_id v) in
  let '(thresholdCount, minDuration) := threshold v in
  let sample := " [sample " +s pretty count +s "/" +s pretty thresholdCount in
  let msg := "[" +s v_id v +s ":" +s v_name v +s "] " +s v_message v +s " (" +s v_reason v +s ")" +s
    (if (1 <? thresholdCount) || (0 <? minDuration) then
       if 0 <? minDuration then sample +s ", min " +s DurationString minDuration +s "]" else sample +s "]"
     else "") in
  do* match sn_pmj s with Some j => warn (about_job j) msg | None => gret tt end in
  do* match sn_pod s with Some p => warn (about_pod p) msg | None => gret tt end in
  match sn_pmj s, sn_pod s, sn_migration s with
  | None, None, Some m => warn (about_migration m) msg
  | _, _, _ => gret tt
  end.

Definition escalate {R} (s : ReconcileSnapshot) (d : Debounce) (v : Violation) : G R unit :=
  let count := default 0 (db_counted d !! v_id v) in
  let elapsed := default 0 (db_elapsed d !! v_id v) in
  let msg := "[" +s v_id v +s ":" +s v_name v +s "] Invariant violation persisted across " +s pretty count +s
    " consecutive samples (elapsed " +s DurationString (DurationRound elapsed Millisecond) +s "); " +s
    (if bool_decide (mode = ModeStrict) then "escalating to strict abort: "
     else "would escalate to strict abort in strict mode: ") +s v_message v in
  match sn_pmj s with Some j => warn (about_job j) msg | None => gret tt end.

Definition Evaluate (s : ReconcileSnapshot) : fn resp EngineState (list Violation * bool) := gfun (
  if negb Enabled then gret ([], false)
  else
    let* st := gget in
    let '(st, decision) := decide_snapshot st s in
    do* gmodify (fun _ => st) in
    match decision with
    | None => gret ([], false)
    | Some de =>
        let d := de_debounce de in
        do* giter (de_newly de) (report s d) in
        do* giter (db_escalating d) (escalate s d) in
        gret (de_violations de, db_shouldFail d)
    end).
End Evaluate.
