(* ===== verification/InvariantLaws.v ===== *)
(** * What the invariant engine decides

    The engine's counters refine a definition over the history of samples: the
    samples in a row that showed a violation, and when the first of them was
    taken.  Rule I1 finds exactly the snapshots bound to two consumers. *)
From S2P Require Import Prelude Effects GoLib Kube Interfaces Calls Timeout JobBase Instances Invariants InvariantEngine.

Section Laws.
Context `{KubeLib} `{MapOrder}.
Context (mode : Mode) (configured : list Rule) (hasRecorder : bool) (wall : Z).
Abbreviation all_violations := (all_violations configured wall).
Abbreviation immediate := (immediate configured wall).
Abbreviation threshold := (threshold configured wall).
Abbreviation Sample := ReconcileSnapshot.

(** ** The reference: streaks *)

(** The sample shows a violation of the rule, one that is debounced; or one at all. *)
Definition shows (s : Sample) (id : string) : bool :=
  existsb (fun v => (v_id v ==s id) && negb (immediate v)) (all_violations s).
Definition active (s : Sample) (id : string) : bool := existsb (fun v => v_id v ==s id) (all_violations s).

Definition sample_time (s : Sample) : Z := snapshot_now wall s.

(** Samples of the subject in a row that showed the violation, and the time of
    the first, from the newest sample on.  A concluded job has no streak, a
    degraded sample (a failed list) says nothing, a clean one ends the streak. *)
Fixpoint streak (subj id : string) (h : list Sample) : Z * Z :=
  match h with
  | [] => (0, zero_time)
  | s :: h =>
      if debounceSubjectKey s !=s subj then streak subj id h
      else if pmj_terminal s then (0, zero_time)
      else if isDegraded s then streak subj id h
      else if shows s id then
        let '(c, first) := streak subj id h in (c + 1, if c =? 0 then sample_time s else first)
      else if active s id then streak subj id h
      else (0, zero_time)
  end.

(** The violation persisted, as its rule asks, up to the newest sample. *)
Definition persisted (s : Sample) (h : list Sample) (v : Violation) : bool :=
  let '(count, minDuration) := threshold v in
  let '(c, first) := streak (debounceSubjectKey s) (v_id v) (s :: h) in
  (count <=? c) && ((minDuration <=? 0) || (minDuration <=? if IsZero first then 0 else Sub (sample_time s) first)).

(** Strict mode fails the job: on an immediate violation, or on one that persisted. *)
Definition fails (s : Sample) (h : list Sample) : bool :=
  bool_decide (mode = ModeStrict) &&
  existsb (fun v => immediate v || (negb (pmj_terminal s) && persisted s h v)) (all_violations s).

(** ** Refinement *)

Definition counted (c x : Z) : option Z := if c =? 0 then None else Some x.

(** The engine's counters are the streaks of the history. *)
Record Refines (h : list Sample) (st : EngineState) : Prop := {
  ref_counts : forall subj id, sub (consecutiveCounts st) subj !! id = counted (streak subj id h).1 (streak subj id h).1;
  ref_first : forall subj id, sub (consecutiveFirstSeen st) subj !! id = counted (streak subj id h).1 (streak subj id h).2;
  ref_subjects : dom (consecutiveCounts st) ⊆ list_to_set (map debounceSubjectKey h) }.

Definition timed (s : Sample) : Prop := IsZero (sample_time s) = false.

Lemma streak_nonneg subj id h : 0 <= (streak subj id h).1.
Proof.
  induction h as [|s h IH]; simpl; [done|]. destruct (streak subj id h) as [c f]. simpl in IH.
  repeat case_match; simpl; lia.
Qed.

Lemma streak_timed subj id h : Forall timed h -> 0 < (streak subj id h).1 -> IsZero (streak subj id h).2 = false.
Proof.
  induction 1 as [|s h Hs Hh IH]; simpl; [done|].
  pose proof (streak_nonneg subj id h) as Hn. destruct (streak subj id h) as [c f] eqn:Hst.
  repeat case_match; simpl in *; try done; try lia; intros; simplify_eq; bool_props; try done. apply IH. lia.
Qed.

Lemma streak_other subj id s h : debounceSubjectKey s <> subj -> streak subj id (s :: h) = streak subj id h.
Proof. intros Hs. simpl. by rewrite (proj2 (seqb_false _ _) Hs). Qed.

(** ** The loop over the violations *)

Section Loop.
Context (degraded : bool) (now : Z) (C F : gmap string Z).

(** What the loop makes of a rule's counters. *)
Definition count_after (id : string) : Z := default 0 (C !! id) + if degraded then 0 else 1.
Definition first_after (id : string) : Z :=
  let seen := default zero_time (F !! id) in if degraded then seen else if IsZero seen then now else seen.
Definition elapsed_after (id : string) : Z := if IsZero (first_after id) then 0 else Sub now (first_after id).

Definition met (v : Violation) : bool :=
  let '(count, minDuration) := threshold v in
  (count <=? count_after (v_id v)) && ((minDuration <=? 0) || (minDuration <=? elapsed_after (v_id v))).

Definition seen_in (l : list Violation) (id : string) : bool :=
  existsb (fun v => (v_id v ==s id) && negb (immediate v)) l.

(** The loop's state after the violations [l]. *)
Record After (l : list Violation) (d : Debounce) : Prop := {
  af_counts : forall id, db_counts d !! id = if seen_in l id && negb degraded then Some (count_after id) else C !! id;
  af_first : forall id, db_firstSeen d !! id = if seen_in l id && negb degraded then Some (first_after id) else F !! id;
  af_counted : forall id, db_counted d !! id = if seen_in l id then Some (count_after id) else None;
  af_elapsed : forall id, default 0 (db_elapsed d !! id) = if seen_in l id then elapsed_after id else 0 }.

Definition fails_after (l : list Violation) (d : Debounce) : Prop := db_shouldFail d = bool_decide (mode = ModeStrict) && existsb (fun v => immediate v || met v) l.

Context (Hnow : IsZero now = false).

Lemma first_after_nonzero id : degraded = false -> IsZero (first_after id) = false.
Proof. intros Hd. unfold first_after. rewrite Hd. by destruct (IsZero (default zero_time (F !! id))) eqn:E. Qed.

Lemma seen_in_app l v id : seen_in (l ++ [v]) id = seen_in l id || ((v_id v ==s id) && negb (immediate v)).
Proof. unfold seen_in. rewrite existsb_app. simpl. by rewrite orb_false_r. Qed.

Lemma seen_in_new l v id : immediate v = false -> seen_in (l ++ [v]) id = seen_in l id || (v_id v ==s id).
Proof. intros Hv. by rewrite seen_in_app, Hv, andb_true_r. Qed.

Lemma After_seen l d v : immediate v = false -> seen_in l (v_id v) = true -> After l d -> After (l ++ [v]) d.
Proof.
  intros Hv Hs [H1 H2 H3 H4]. assert (He : forall id, seen_in (l ++ [v]) id = seen_in l id).
  { intros id. rewrite seen_in_new by done. destruct (v_id v ==s id) eqn:E; [|by rewrite orb_false_r].
    bool_props. by rewrite <- E, Hs. }
  by split; intros id; rewrite He.
Qed.

Lemma count_sample_after l d v :
  immediate v = false -> After l d -> After (l ++ [v]) (count_sample degraded now d (v_id v)).
Proof.
  intros Hv Ha. pose proof Ha as [H1 H2 H3 H4]. unfold count_sample.
  destruct (seen_in l (v_id v)) eqn:Hs; rewrite H3, Hs; [by apply After_seen|].
  assert (Hc : db_counts d !! v_id v = C !! v_id v) by (by rewrite H1, Hs).
  assert (Hf : db_firstSeen d !! v_id v = F !! v_id v) by (by rewrite H2, Hs).
  rewrite Hc, Hf. destruct degraded eqn:Hd; simpl.
  - split; intros id; rewrite seen_in_new by done; cbn [db_counts db_firstSeen db_counted db_elapsed].
    + by rewrite H1, Hd, !andb_false_r.
    + by rewrite H2, Hd, !andb_false_r.
    + destruct (decide (v_id v = id)) as [<-|Hne].
      * rewrite lookup_insert_eq, seqb_refl, orb_true_r. unfold count_after. rewrite Hd. f_equal. lia.
      * rewrite lookup_insert_ne, H3 by done. by rewrite (proj2 (seqb_false _ _) Hne), orb_false_r.
    + destruct (decide (v_id v = id)) as [<-|Hne].
      * rewrite seqb_refl, orb_true_r. unfold elapsed_after, first_after. rewrite Hd.
        destruct (IsZero (default zero_time (F !! v_id v))) eqn:Hz; [by rewrite H4, Hs|by rewrite lookup_insert_eq].
      * rewrite (proj2 (seqb_false _ _) Hne), orb_false_r, <- H4.
        destruct (IsZero (default zero_time (F !! v_id v))); [done|by rewrite (lookup_insert_ne (db_elapsed d))].
  - assert (Hfa : IsZero (first_after (v_id v)) = false) by (by apply first_after_nonzero).
    assert (Hfe : first_after (v_id v) = if IsZero (default zero_time (F !! v_id v)) then now else default zero_time (F !! v_id v)).
    { unfold first_after. by rewrite Hd. }
    split; intros id; rewrite seen_in_new by done; cbn [db_counts db_firstSeen db_counted db_elapsed];
      (destruct (decide (v_id v = id)) as [<-|Hne];
       [rewrite lookup_insert_eq, seqb_refl, orb_true_r
       |rewrite lookup_insert_ne by done; rewrite (proj2 (seqb_false _ _) Hne), orb_false_r; auto]);
      try (by rewrite H1, ?Hd); try (by rewrite H2, ?Hd).
    + unfold count_after. by rewrite Hd.
    + rewrite Hd. simpl. by rewrite Hfe.
    + unfold count_after. by rewrite Hd.
    + unfold elapsed_after. rewrite Hfa. simpl. by rewrite Hfe.
Qed.

Abbreviation step := (debounce_step mode configured wall).

Lemma step_after l d v :
  After l d -> fails_after l d ->
  After (l ++ [v]) (step false degraded now d v) /\ fails_after (l ++ [v]) (step false degraded now d v).
Proof.
  intros Ha Hf. unfold debounce_step, fails_after in *. rewrite existsb_app. simpl. rewrite orb_false_r.
  destruct (InvariantEngine.immediate configured wall v) eqn:Hv.
  - split.
    + destruct Ha as [H1 H2 H3 H4]. split; intros id; rewrite seen_in_app, Hv, andb_false_r, orb_false_r; cbn; auto.
    + cbn. unfold fail_strict. rewrite Hf. destruct (bool_decide _), (existsb _ l); done.
  - pose proof (count_sample_after l d v Hv Ha) as Ha'.
    assert (Hs : db_shouldFail (count_sample degraded now d (v_id v)) = db_shouldFail d).
    { unfold count_sample. destruct (_ !! _); [done|]. by destruct (negb degraded). }
    set (d' := count_sample degraded now d (v_id v)) in *.
    assert (Hm : threshold_met configured wall d' v = met v).
    { unfold threshold_met, met. destruct (InvariantEngine.threshold configured wall v) as [cnt mind].
      rewrite (af_counted _ _ Ha'), (af_elapsed _ _ Ha'), seen_in_new, seqb_refl, orb_true_r by done. done. }
    rewrite Hm. destruct (met v) eqn:Hmet; simpl.
    + split; [by destruct Ha'; split; cbn|]. cbn. unfold fail_strict. rewrite Hs, Hf.
      destruct (bool_decide _), (existsb _ l); done.
    + split; [done|]. by rewrite Hs, Hf, orb_false_r.
Qed.

Lemma loop_after l d0 :
  After [] d0 -> fails_after [] d0 ->
  After l (fold_left (step false degraded now) l d0) /\ fails_after l (fold_left (step false degraded now) l d0).
Proof.
  intros Ha Hf. induction l as [|v l [IHa IHf]] using rev_ind; [done|].
  rewrite fold_left_app. simpl. by apply step_after.
Qed.

(** A concluded job's counters stay, and only immediate violations fail it. *)
Lemma loop_terminal l d0 :
  let d := fold_left (step true degraded now) l d0 in
  db_counts d = db_counts d0 /\ db_firstSeen d = db_firstSeen d0 /\
  db_shouldFail d = db_shouldFail d0 || (bool_decide (mode = ModeStrict) && existsb immediate l).
Proof.
  induction l as [|v l (H1 & H2 & H3)] using rev_ind; simpl; [by rewrite andb_false_r, orb_false_r|].
  rewrite fold_left_app, existsb_app. simpl. rewrite orb_false_r. unfold debounce_step at 1 3 5.
  destruct (InvariantEngine.immediate configured wall v); simpl; rewrite ?orb_false_r; [|done].
  split; [done|]. split; [done|]. unfold fail_strict. rewrite H3.
  destruct (db_shouldFail d0), (bool_decide _), (existsb _ l); done.
Qed.
End Loop.

(** ** One sample *)

Lemma streak_zero subj id h : (streak subj id h).1 = 0 -> (streak subj id h).2 = zero_time.
Proof.
  induction h as [|s h IH]; simpl; [done|]. pose proof (streak_nonneg subj id h) as Hn.
  destruct (streak subj id h) as [c f]. simpl in *. repeat case_match; simpl; auto; lia.
Qed.

Lemma sub_insert {A} (m : gmap string (gmap string A)) k x : sub (<[k := x]> m) k = x.
Proof. unfold sub. by rewrite lookup_insert_eq. Qed.

Lemma sub_insert_ne {A} (m : gmap string (gmap string A)) k k' x : k <> k' -> sub (<[k := x]> m) k' = sub m k'.
Proof. intros Hk. unfold sub. by rewrite lookup_insert_ne. Qed.

Lemma sub_delete {A} (m : gmap string (gmap string A)) k : sub (delete k m) k = ∅.
Proof. unfold sub. by rewrite lookup_delete_eq. Qed.

Lemma sub_delete_ne {A} (m : gmap string (gmap string A)) k k' : k <> k' -> sub (delete k m) k' = sub m k'.
Proof. intros Hk. unfold sub. by rewrite lookup_delete_ne. Qed.

Lemma reset_clean_lookup {A} vs ids (m : gmap string A) id :
  reset_clean false vs ids m !! id =
  if bool_decide (id ∈ ids) && negb (existsb (fun v => v_id v ==s id) vs) then None else m !! id.
Proof.
  unfold reset_clean. destruct (m !! id) as [x|] eqn:Hm.
  - destruct (bool_decide (id ∈ ids) && _) eqn:Hb.
    + apply map_lookup_filter_None. right. intros y _. simpl. by rewrite Hb.
    + apply map_lookup_filter_Some. by split.
  - destruct (_ && _); apply map_lookup_filter_None; by left.
Qed.

Lemma forgotten_counters subj subj' (st : EngineState) :
  sub (consecutiveCounts (forget_subject subj st)) subj' =
    (if decide (subj = subj') then ∅ else sub (consecutiveCounts st) subj') /\
  sub (consecutiveFirstSeen (forget_subject subj st)) subj' =
    (if decide (subj = subj') then ∅ else sub (consecutiveFirstSeen st) subj').
Proof.
  unfold forget_subject. simpl. destruct (decide (subj = subj')) as [<-|Hne].
  - by rewrite !sub_delete.
  - by rewrite !sub_delete_ne.
Qed.

(** The number of subjects of the history, which the engine's table holds. *)
Definition subjects (h : list Sample) : gset string := list_to_set (map debounceSubjectKey h).

Lemma make_room_keeps scope subj st :
  Z.of_nat (size (dom (consecutiveCounts st) ∪ {[subj]})) <= maxActiveViolationScopes ->
  consecutiveCounts (make_room scope subj st) = consecutiveCounts st /\
  consecutiveFirstSeen (make_room scope subj st) = consecutiveFirstSeen st.
Proof.
  intros Hs. unfold make_room.
  cbv zeta.
  match goal with |- context [if ?b then forget_scope ?k st else st] => set (st1 := if b then forget_scope k st else st) end.
  assert (H1 : consecutiveCounts st1 = consecutiveCounts st /\ consecutiveFirstSeen st1 = consecutiveFirstSeen st).
  { unfold st1. by repeat case_match. }
  clearbody st1. destruct H1 as [H1 H2]. rewrite H1. destruct (consecutiveCounts st !! subj) eqn:Hl; [by rewrite H1|].
  replace (maxActiveViolationScopes <=? Z.of_nat (size (consecutiveCounts st))) with false; [by rewrite H1|].
  symmetry. apply Z.leb_gt. rewrite size_union in Hs.
  - rewrite size_singleton, size_dom in Hs. lia.
  - apply not_elem_of_dom in Hl. set_solver.
Qed.

Section Sample.
Context (s : Sample) (h : list Sample) (st : EngineState).
Context (Href : Refines h st) (Hs : timed s) (Hh : Forall timed h).
Abbreviation subj := (debounceSubjectKey s).
Abbreviation vs := (all_violations s).

(** The counters the loop starts from. *)
Definition ids : gset string := dom (sub (consecutiveCounts st) subj).
Definition C0 : gmap string Z := reset_clean (isDegraded s) vs ids (sub (consecutiveCounts st) subj).
Definition F0 : gmap string Z := reset_clean (isDegraded s) vs ids (sub (consecutiveFirstSeen st) subj).

Lemma start_counts id :
  (active s id || isDegraded s = true ->
     C0 !! id = counted (streak subj id h).1 (streak subj id h).1 /\
     F0 !! id = counted (streak subj id h).1 (streak subj id h).2) /\
  (active s id || isDegraded s = false -> C0 !! id = None /\ F0 !! id = None).
Proof.
  destruct Href as [Hc Hf _]. unfold C0, F0. destruct (isDegraded s).
  - rewrite orb_true_r. split; [|done]. intros _. cbn. by rewrite Hc, Hf.
  - rewrite orb_false_r, !reset_clean_lookup. fold (active s id).
    split; intros Ha; rewrite Ha; rewrite ?andb_false_r, ?andb_true_r; [by rewrite Hc, Hf|].
    unfold ids. case_bool_decide as Hin; [done|]. apply not_elem_of_dom in Hin. rewrite Hf, Hin.
    split; [done|]. rewrite Hc in Hin. unfold counted in *. by destruct (_ =? 0).
Qed.

Lemma shows_active id : shows s id = true -> active s id = true.
Proof.
  unfold shows, active. rewrite !existsb_exists. intros (v & Hv & Hb). exists v. split; [done|]. apply andb_prop in Hb as [Hb _]. exact Hb.
Qed.

(** The loop's counters are those of the streak with this sample. *)
Lemma after_streak id :
  pmj_terminal s = false -> shows s id = true ->
  count_after (isDegraded s) C0 id = (streak subj id (s :: h)).1 /\
  first_after (isDegraded s) (sample_time s) F0 id = (streak subj id (s :: h)).2.
Proof.
  intros Ht Hsh. destruct (proj1 (start_counts id)) as [Hc Hf]; [by rewrite (shows_active _ Hsh)|].
  unfold count_after, first_after. rewrite Hc, Hf. simpl. rewrite seqb_refl, Ht, Hsh. simpl.
  pose proof (streak_zero subj id h) as Hz. pose proof (streak_timed subj id h Hh) as Htm.
  pose proof (streak_nonneg subj id h) as Hn.
  destruct (streak subj id h) as [c f]. simpl in *. unfold counted.
  destruct (c =? 0) eqn:E; bool_props; simpl.
  - rewrite Hz by done. destruct (isDegraded s); simpl; split; try done; lia.
  - destruct (isDegraded s); simpl; [split; [lia|done]|]. rewrite Htm by lia. split; [lia|done].
Qed.

Lemma loop_counters d :
  pmj_terminal s = false -> After (isDegraded s) (sample_time s) C0 F0 vs d ->
  forall id, db_counts d !! id = counted (streak subj id (s :: h)).1 (streak subj id (s :: h)).1 /\
             db_firstSeen d !! id = counted (streak subj id (s :: h)).1 (streak subj id (s :: h)).2.
Proof.
  intros Ht [H1 H2 _ _] id. rewrite H1, H2. change (seen_in vs id) with (shows s id).
  destruct (shows s id) eqn:Hsh; cbn [andb].
  - destruct (after_streak id Ht Hsh) as [Hca Hfa].
    assert (isDegraded s = true \/ isDegraded s = false) as [Hd|Hd] by (destruct (isDegraded s); auto).
    + destruct (proj1 (start_counts id)) as [Hc Hf]; [by rewrite Hd, orb_true_r|].
      rewrite Hc, Hf, Hd. simpl. by rewrite seqb_refl, Ht, Hd.
    + rewrite Hd in Hca, Hfa |- *. cbn [andb negb]. rewrite Hca, Hfa. simpl. rewrite seqb_refl, Ht, Hd, Hsh. simpl.
      pose proof (streak_nonneg subj id h) as Hn. destruct (streak subj id h) as [c f]. simpl in *.
      unfold counted. by replace (c + 1 =? 0) with false by (symmetry; apply Z.eqb_neq; lia).
  - simpl. rewrite seqb_refl, Ht, Hsh. simpl. destruct (start_counts id) as [Ha Hna].
    destruct (isDegraded s) eqn:Hd; [by apply Ha; rewrite orb_true_r|].
    destruct (active s id) eqn:Hac; [by apply Ha|]. destruct Hna as [-> ->]; [done|]. done.
Qed.

Lemma existsb_ext_in {A} (f g : A -> bool) l : (forall x, In x l -> f x = g x) -> existsb f l = existsb g l.
Proof.
  induction l as [|x l IH]; intros Hfg; simpl; [done|]. rewrite Hfg, IH; [done|intros; apply Hfg; by right|by left].
Qed.

Lemma met_persisted v :
  pmj_terminal s = false -> In v vs -> immediate v = false ->
  met (isDegraded s) (sample_time s) C0 F0 v = persisted s h v.
Proof.
  intros Ht Hin Hv. assert (Hsh : shows s (v_id v) = true).
  { unfold shows. apply existsb_exists. exists v. by rewrite seqb_refl, Hv. }
  destruct (after_streak (v_id v) Ht Hsh) as [Hc Hf]. unfold met, persisted, elapsed_after. rewrite Hc, Hf.
  destruct (InvariantEngine.threshold configured wall v), (streak subj (v_id v) (s :: h)). done.
Qed.
End Sample.

Lemma refines_cons s h (st st' : EngineState) :
  Refines h st ->
  (forall id, sub (consecutiveCounts st') (debounceSubjectKey s) !! id =
     counted (streak (debounceSubjectKey s) id (s :: h)).1 (streak (debounceSubjectKey s) id (s :: h)).1 /\
   sub (consecutiveFirstSeen st') (debounceSubjectKey s) !! id =
     counted (streak (debounceSubjectKey s) id (s :: h)).1 (streak (debounceSubjectKey s) id (s :: h)).2) ->
  (forall k, k <> debounceSubjectKey s -> sub (consecutiveCounts st') k = sub (consecutiveCounts st) k /\
     sub (consecutiveFirstSeen st') k = sub (consecutiveFirstSeen st) k) ->
  dom (consecutiveCounts st') ⊆ {[debounceSubjectKey s]} ∪ dom (consecutiveCounts st) ->
  Refines (s :: h) st'.
Proof.
  intros [Hc Hf Hd] Hs Ho Hdom. split.
  - intros k id. destruct (decide (k = debounceSubjectKey s)) as [->|Hk]; [apply Hs|].
    rewrite streak_other by done. destruct (Ho k Hk) as [-> _]. apply Hc.
  - intros k id. destruct (decide (k = debounceSubjectKey s)) as [->|Hk]; [apply Hs|].
    rewrite streak_other by done. destruct (Ho k Hk) as [_ ->]. apply Hf.
  - simpl. set_solver.
Qed.

Lemma concluded_streak s h id :
  pmj_terminal s = true -> streak (debounceSubjectKey s) id (s :: h) = (0, zero_time).
Proof. intros Ht. simpl. by rewrite seqb_refl, Ht. Qed.

(** A sample whose subject's counters are forgotten. *)
Lemma refines_forgotten s h st st' :
  Refines h st -> (forall id, streak (debounceSubjectKey s) id (s :: h) = (0, zero_time)) ->
  consecutiveCounts st' = consecutiveCounts (forget_subject (debounceSubjectKey s) st) ->
  consecutiveFirstSeen st' = consecutiveFirstSeen (forget_subject (debounceSubjectKey s) st) -> Refines (s :: h) st'.
Proof.
  intros Hr Hz Hc Hf. apply (refines_cons _ _ st); [done|..].
  - intros id. rewrite Hz, Hc, Hf. destruct (forgotten_counters (debounceSubjectKey s) (debounceSubjectKey s) st) as [-> ->].
    by rewrite !decide_True, !lookup_empty by done.
  - intros k Hk. rewrite Hc, Hf. destruct (forgotten_counters (debounceSubjectKey s) k st) as [-> ->].
    by rewrite !decide_False by done.
  - rewrite Hc. simpl. set_solver.
Qed.

Abbreviation decision := (decide_snapshot mode configured wall).

Lemma decide_clean s h st :
  Refines h st -> all_violations s = [] -> Refines (s :: h) (decision st s).1 /\ (decision st s).2 = None.
Proof.
  intros Hr Hv. unfold decide_snapshot. rewrite Hv. split; [|done]. simpl.
  assert (Hns : forall id, shows s id = false /\ active s id = false) by (intros id; unfold shows, active; by rewrite Hv).
  destruct (pmj_terminal s) eqn:Ht.
  - apply (refines_forgotten _ _ st); [done|intros; by apply concluded_streak|..];
      destruct (isDegraded s); cbn; by rewrite ?delete_delete_eq.
  - destruct (isDegraded s) eqn:Hd; cbn.
    + apply (refines_cons _ _ st); [done| |done|set_solver]. intros id. simpl. rewrite seqb_refl, Ht, Hd. simpl.
      destruct Hr as [Hc Hf _]. by rewrite Hc, Hf.
    + apply (refines_forgotten _ _ st); [done| |done|done]. intros id. simpl. destruct (Hns id) as [-> ->].
      by rewrite seqb_refl, Ht, Hd.
Qed.

(** The state in which the loop starts: the counters as they were. *)
Lemma room_for s h (st : EngineState) :
  Refines h st -> Z.of_nat (size (subjects (s :: h))) <= maxActiveViolationScopes -> forall st1,
  st1 = (if pmj_terminal s then forget_subject (debounceSubjectKey s) st else st) ->
  consecutiveCounts (make_room (snapshotScopeKey s) (debounceSubjectKey s) st1) = consecutiveCounts st1 /\
  consecutiveFirstSeen (make_room (snapshotScopeKey s) (debounceSubjectKey s) st1) = consecutiveFirstSeen st1.
Proof.
  intros [_ _ Hd] Hs st1 ->. apply make_room_keeps. etrans; [|exact Hs].
  apply inj_le, subseteq_size. unfold subjects. simpl. destruct (pmj_terminal s); simpl; set_solver.
Qed.

(** The state after a sample that shows violations. *)
Lemma decide_dirty s h st v l :
  Refines h st -> timed s -> Forall timed h ->
  Z.of_nat (size (subjects (s :: h))) <= maxActiveViolationScopes -> all_violations s = v :: l ->
  Refines (s :: h) (decision st s).1 /\
  exists de, (decision st s).2 = Some de /\ de_violations de = all_violations s /\
    db_shouldFail (de_debounce de) = fails s h.
Proof.
  intros Hr Hs Hh Hsize Hv. unfold decide_snapshot. rewrite Hv, <- Hv.
  set (st1 := if pmj_terminal s then forget_subject (debounceSubjectKey s) st else st).
  destruct (room_for s h st Hr Hsize st1 eq_refl) as [Hrc Hrf]. cbv zeta.
  change (snapshot_now wall s) with (sample_time s).
  set (st2 := make_room _ _ st1) in *. rewrite Hrc, Hrf. cbn [fst snd].
  set (d0 := mkDebounce _ _ _ _ _ _ _). set (d := fold_left _ _ d0).
  assert (Hother : forall k, k <> debounceSubjectKey s ->
    sub (consecutiveCounts st1) k = sub (consecutiveCounts st) k /\
    sub (consecutiveFirstSeen st1) k = sub (consecutiveFirstSeen st) k).
  { intros k Hk. unfold st1. destruct (pmj_terminal s); [|done].
    destruct (forgotten_counters (debounceSubjectKey s) k st) as [-> ->]. by rewrite !decide_False by done. }
  assert (Hdom : dom (consecutiveCounts st1) ⊆ dom (consecutiveCounts st)).
  { unfold st1. destruct (pmj_terminal s); cbn; set_solver. }
  assert (Hloop : (forall id, db_counts d !! id = counted (streak (debounceSubjectKey s) id (s :: h)).1 (streak (debounceSubjectKey s) id (s :: h)).1 /\
             db_firstSeen d !! id = counted (streak (debounceSubjectKey s) id (s :: h)).1 (streak (debounceSubjectKey s) id (s :: h)).2) /\
             db_shouldFail d = fails s h).
  { destruct (pmj_terminal s) eqn:Ht.
    - destruct (forgotten_counters (debounceSubjectKey s) (debounceSubjectKey s) st) as [Hc Hf].
      rewrite decide_True in Hc, Hf by done.
      destruct (loop_terminal (isDegraded s) (sample_time s) (all_violations s) d0) as (H1 & H2 & H3).
      unfold d. rewrite ?Ht. split.
      + intros id. rewrite H1, H2, concluded_streak by done. unfold d0. cbn [db_counts db_firstSeen].
        unfold st1. rewrite Hc, Hf. unfold reset_clean. destruct (isDegraded s); by rewrite ?map_filter_empty, !lookup_empty.
      + rewrite H3. cbn. unfold fails. rewrite Ht. cbn. f_equal. apply existsb_ext_in. intros x _. by rewrite orb_false_r.
    - destruct (loop_after (isDegraded s) (sample_time s) (C0 s st) (F0 s st) Hs (all_violations s) d0) as [Ha Hf].
      { by split. }
      { unfold fails_after. by rewrite andb_false_r. }
      unfold d. rewrite ?Ht. split; [by apply (loop_counters s h st Hr Hh)|].
      rewrite Hf. unfold fails. rewrite Ht. f_equal. apply existsb_ext_in. intros x Hx.
      destruct (InvariantEngine.immediate configured wall x) eqn:Hi; [done|]. simpl. by apply met_persisted. }
  destruct Hloop as [Hcounts Hfail]. split; [|by eexists].
  apply (refines_cons _ _ st); [done|..]; cbn.
  - intros id. rewrite !sub_insert. apply Hcounts.
  - intros k Hk. rewrite !sub_insert_ne by done. by apply Hother.
  - set_solver.
Qed.

(** ** Calls of [Evaluate] *)

Abbreviation Evaluate := (Evaluate mode configured hasRecorder wall).
Abbreviation anything := (open (fun _ _ => True)).

#[local] Instance anything_tolerant : Tolerant anything.
Proof. by intros h e _. Qed.

Lemma quiet_report s d v : quiet (R := list Violation * bool) (report configured hasRecorder wall s d v).
Proof. unfold report, warn. quiet_tac. Qed.

Lemma quiet_escalate s d v : quiet (R := list Violation * bool) (escalate mode hasRecorder s d v).
Proof. unfold escalate, warn. quiet_tac. Qed.

Lemma quiet_iter {A} (l : list A) (body : A -> gom resp EngineState (list Violation * bool) unit) h st Qr
    (Q : @trace Ev resp -> EngineState -> unit -> Prop) :
  (forall x, quiet (body x)) -> (forall h', Q h' st tt) -> wpg anything (giter l body) h st Qr Q.
Proof.
  intros Hb HQ. apply (wpg_weaken _ _ _ _ _ (fun _ s' _ => s' = st)).
  - apply wpg_iter; [done|]. intros x h1 s1 _ ->. apply Hb; [exact _|]. done.
  - by intros h1 s1 [] ->.
Qed.

Lemma Evaluate_decides s st t st' r :
  Enabled mode = true -> exec (Evaluate s st) t (st', r) ->
  st' = (decision st s).1 /\
  r = match (decision st s).2 with
      | None => ([], false)
      | Some de => (de_violations de, db_shouldFail (de_debounce de))
      end.
Proof.
  intros He Hx.
  refine (proj2 (wpf_exec anything (Evaluate s) st (fun _ s' r => s' = _ /\ r = _) t st' r _ Hx (fair_open _ _))).
  unfold InvariantEngine.Evaluate. rewrite He. gstep. cbn [negb]. gstep. gstep.
  destruct (decision st s) as [st1 [de|]] eqn:Hd; cbn [fst snd]; gstep; gstep; [|by gstep].
  gstep. apply quiet_iter; [intros; apply quiet_report|]. intros h1.
  gstep. apply quiet_iter; [intros; apply quiet_escalate|]. intros h2. by gstep.
Qed.

(** The states of an engine that evaluated the samples [h], newest first. *)
Inductive sampled : list Sample -> EngineState -> Prop :=
| sampled_none : sampled [] no_state
| sampled_one s h st t st' r : sampled h st -> exec (Evaluate s st) t (st', r) -> sampled (s :: h) st'.

Definition within_table (h : list Sample) : Prop := Z.of_nat (size (subjects h)) <= maxActiveViolationScopes.

Lemma within_tail s h : within_table (s :: h) -> within_table h.
Proof. unfold within_table. intros Hs. etrans; [|exact Hs]. apply inj_le, subseteq_size. unfold subjects. simpl. set_solver. Qed.

Lemma decide_refines s h st :
  Refines h st -> timed s -> Forall timed h -> within_table (s :: h) ->
  Refines (s :: h) (decision st s).1 /\
  match (decision st s).2 with
  | None => all_violations s = []
  | Some de => de_violations de = all_violations s /\ db_shouldFail (de_debounce de) = fails s h
  end.
Proof.
  intros Hr Hs Hh Hw. destruct (all_violations s) as [|v l] eqn:Hv.
  - destruct (decide_clean s h st Hr Hv) as [H1 ->]. by split.
  - destruct (decide_dirty s h st v l Hr Hs Hh Hw Hv) as (H1 & de & -> & H2 & H3).
    split; [done|]. split; [|done]. by rewrite H2.
Qed.

Lemma sampled_refines h st : Enabled mode = true -> sampled h st -> Forall timed h -> within_table h -> Refines h st.
Proof.
  intros He. induction 1 as [|s h st t st' r Hs IH Hx]; intros Ht Hw.
  - split; [intros k id; change (sub (∅ : gmap string (gmap string Z)) k !! id = None); unfold sub; by rewrite lookup_empty..|done].
  - apply Forall_cons in Ht as [Hts Hth]. destruct (Evaluate_decides _ _ _ _ _ He Hx) as [-> _].
    apply decide_refines; [|done..]. apply IH; [done|]. by eapply within_tail.
Qed.

(** C23: The engine fails a job exactly when the history says so: it answers the
    rules' violations, and, in strict mode only, that the job fails when one of
    them is immediate, or persisted (a job not concluded, as many samples in a row
    of the same subject as the rule asks, spread over its duration, degraded
    samples left out); for any history over at most 4096 subjects, the size of the
    engine's tables. *)
Theorem engine_refines_streaks s h st t st' vs fail :
  Enabled mode = true -> sampled h st -> Forall timed (s :: h) -> within_table (s :: h) ->
  exec (Evaluate s st) t (st', (vs, fail)) -> vs = all_violations s /\ fail = fails s h.
Proof.
  intros He Hs Ht Hw Hx. apply Forall_cons in Ht as [Hts Hth].
  destruct (Evaluate_decides _ _ _ _ _ He Hx) as [_ Hr].
  destruct (decide_refines s h st) as [_ Hd]; [|done..|].
  { apply sampled_refines; [done..|]. by eapply within_tail. }
  destruct (decision st s).2 as [de|]; [destruct Hd as [H1 H2]; simplify_eq; by rewrite H2|].
  simplify_eq. unfold fails. rewrite Hd. by rewrite andb_false_r.
Qed.
End Laws.

(** ** I1: what the rule finds *)

Section I1.
Context (s : ReconcileSnapshot).
Abbreviation jobs := (allPMJs s).

(** Two replacement pods are bound to one snapshot, as different consumers. *)
Definition bound (p : Pod) (snap id : string) : Prop :=
  no_order (pod_order s jobs p) = false /\ fst (fst (pod_order s jobs p)) = snap /\ consumer_id p = id.

Definition bound_twice (pods : list Pod) : Prop :=
  exists p q snap id id', In p pods /\ In q pods /\ bound p snap id /\ bound q snap id' /\ id <> id'.

(** A loop that finds nothing knows one consumer for each snapshot. *)
Lemma I1_pods_none pods m :
  I1_pods s jobs m pods = [] ->
  exists M, m ⊆ M /\ forall p snap id, In p pods -> bound p snap id -> M !! snap = Some id.
Proof.
  revert m. induction pods as [|pod pods IH]; intros m Hn; [by exists m|]. cbn [I1_pods] in Hn.
  destruct (no_order (pod_order s jobs pod)) eqn:Ho.
  - destruct (IH m Hn) as (M & Hm & HM). exists M. split; [done|].
    intros p snap id [<-|Hp] Hb; [destruct Hb; congruence|by eapply HM].
  - set (snap0 := fst (fst (pod_order s jobs pod))) in *. set (id0 := consumer_id pod) in *.
    assert (Hstep : (m !! snap0 = None \/ m !! snap0 = Some id0) /\ I1_pods s jobs (<[snap0 := id0]> m) pods = []).
    { destruct (m !! snap0) as [prev|]; [|by auto]. destruct (prev !=s id0) eqn:Hp; [done|]. bool_props. subst. auto. }
    destruct Hstep as [Hm0 Hrest]. destruct (IH _ Hrest) as (M & Hm & HM). exists M.
    assert (HM0 : M !! snap0 = Some id0) by (eapply lookup_weaken; [apply lookup_insert_eq|exact Hm]). split.
    + destruct Hm0 as [Hm0|Hm0]; [|by rewrite insert_id in Hm].
      etrans; [|exact Hm]. by apply insert_subseteq.
    + intros p snap id [<-|Hp] Hb; [destruct Hb as (_ & <- & <-); done|by eapply HM].
Qed.

Lemma I1_pods_some pods m v :
  In v (I1_pods s jobs m pods) ->
  (exists p snap id prev, In p pods /\ bound p snap id /\ m !! snap = Some prev /\ prev <> id) \/ bound_twice pods.
Proof.
  revert m. induction pods as [|pod pods IH]; intros m Hv; [done|]. cbn [I1_pods] in Hv.
  assert (Hmono : bound_twice pods -> bound_twice (pod :: pods)).
  { intros (p & q & snap & id & id' & Hp & Hq & Hb). exists p, q, snap, id, id'. simpl. tauto. }
  destruct (no_order (pod_order s jobs pod)) eqn:Ho.
  - destruct (IH m Hv) as [(p & snap & id & prev & Hp & Hb)|?]; [left|by auto].
    exists p, snap, id, prev. split; [by right|done].
  - set (snap0 := fst (fst (pod_order s jobs pod))) in *. set (id0 := consumer_id pod) in *.
    assert (Hpod : bound pod snap0 id0) by done.
    assert (Hins : m !! snap0 = None \/ m !! snap0 = Some id0 ->
      In v (I1_pods s jobs (<[snap0 := id0]> m) pods) ->
      (exists p snap id prev, In p (pod :: pods) /\ bound p snap id /\ m !! snap = Some prev /\ prev <> id) \/
      bound_twice (pod :: pods)).
    { intros Hm0 [(p & snap & id & prev & Hp & Hb & Hl & Hne)|?]%IH; [|by auto].
      destruct (decide (snap0 = snap)) as [<-|Hs].
      - rewrite lookup_insert_eq in Hl. injection Hl as <-. right. exists pod, p, snap0, id0, id.
        split; [by left|]. split; [by right|]. done.
      - rewrite lookup_insert_ne in Hl by done. left. exists p, snap, id, prev. split; [by right|done]. }
    destruct (m !! snap0) as [prev|] eqn:Hl; [|by auto].
    destruct (prev !=s id0) eqn:Hne; bool_props; [|subst; by auto].
    destruct Hv as [_|Hv]; [left; exists pod, snap0, id0, prev; split; [by left|done]|].
    destruct (IH m Hv) as [(p & snap & id & prev' & Hp & Hb)|?]; [left|by auto].
    exists p, snap, id, prev'. split; [by right|done].
Qed.

Lemma I1_pods_reason pods m v : In v (I1_pods s jobs m pods) -> v_reason v = "DuplicateSnapshotConsumption".
Proof.
  revert m. induction pods as [|pod pods IH]; intros m; [done|]. cbn [I1_pods].
  destruct (no_order _); [apply IH|]. destruct (m !! _); [|apply IH]. destruct (_ !=s _); [|apply IH].
  intros [<-|Hv]; [done|by eapply IH].
Qed.

(** I1 reports a snapshot bound to several pods exactly when two pods of the
    snapshot of the namespace are ordered to restore it as different consumers,
    in whatever order the pods are listed. *)
Theorem I1_duplicates_exact :
  (exists v, In v (EvaluateI1 s) /\ v_reason v = "DuplicateSnapshotConsumption") <-> bound_twice (allPods s).
Proof.
  unfold EvaluateI1. cbv zeta. split.
  - intros (v & [Hv|Hv]%in_app_or & Hr).
    + destruct (I1_pods_some _ _ _ Hv) as [(p & snap & id & prev & _ & _ & Hl & _)|?]; [by rewrite lookup_empty in Hl|done].
    + exfalso. apply in_flat_map in Hv as (job & _ & Hv). destruct (_ && _); [|done].
      apply list_elem_of_In, list_elem_of_omap in Hv as (pod & _ & Hv). unfold I1_rebound in Hv.
      destruct (inspectPodRestoreOrder _ _ _) as [[? ?] ?], (_ && _); [|done]. by simplify_eq.
  - intros Hb. destruct (I1_pods s jobs ∅ (allPods s)) as [|v l] eqn:Hl.
    + exfalso. destruct (I1_pods_none _ _ Hl) as (M & _ & HM).
      destruct Hb as (p & q & snap & id & id' & Hp & Hq & Hbp & Hbq & Hne).
      pose proof (HM _ _ _ Hp Hbp). pose proof (HM _ _ _ Hq Hbq). congruence.
    + exists v. split; [by left|]. apply (I1_pods_reason (allPods s) ∅). rewrite Hl. by left.
Qed.
End I1.

(** ** A wedged restore, in strict mode *)

Definition wedged (t : Z) : ReconcileSnapshot :=
  mkSnapshot (t * Second) "PodMigrationJobReconciler" (Some restored_job) None None [] [] [] false false false false [] None.

Abbreviation strict_engine := (@Evaluate KubeRef.kube_ref some_order ModeStrict [] false 0).

(** The engine's state after the samples, newest first. *)
Fixpoint state_after (h : list ReconcileSnapshot) : EngineState :=
  match h with
  | [] => no_state
  | s :: h => fst (result_of answer_fail (strict_engine s (state_after h)))
  end.

Lemma state_sampled h : @sampled KubeRef.kube_ref some_order ModeStrict [] false 0 h (state_after h).
Proof.
  induction h as [|s h IH]; [constructor|]. simpl. econstructor; [exact IH|].
  rewrite <- surjective_pairing. apply exec_static.
Qed.

Lemma exec_parts {A B C} reply (p : prog resp (A * (B * C))) :
  exec p (trace_of reply p)
    (fst (result_of reply p), (fst (snd (result_of reply p)), snd (snd (result_of reply p)))).
Proof. pose proof (exec_static reply p) as Hx. by destruct (result_of reply p) as [? [? ?]]. Qed.

Definition wedged_result : EngineState * (list Violation * bool) :=
  result_of answer_fail (strict_engine (wedged 1140) (state_after [wedged 1120; wedged 1100])).

Lemma wedged_run : exists t,
  exec (strict_engine (wedged 1140) (state_after [wedged 1120; wedged 1100])) t
    (fst wedged_result, (fst (snd wedged_result), snd (snd wedged_result))).
Proof.
  eexists. unfold wedged_result. apply exec_parts.
Qed.

Lemma engine_refines_streaks_witness :
  fst (snd wedged_result) = all_violations [] 0 (wedged 1140) /\
  snd (snd wedged_result) = fails ModeStrict [] 0 (wedged 1140) [wedged 1120; wedged 1100] /\
  fails ModeStrict [] 0 (wedged 1140) [wedged 1120; wedged 1100] = true /\
  fails ModeStrict [] 0 (wedged 1120) [wedged 1100] = false.
Proof.
  destruct wedged_run as [t Hx].
  assert (Ht : Forall (timed 0) [wedged 1140; wedged 1120; wedged 1100]) by (repeat constructor).
  assert (Hw : within_table [wedged 1140; wedged 1120; wedged 1100]) by (unfold within_table; vm_compute; discriminate).
  destruct (@engine_refines_streaks KubeRef.kube_ref some_order ModeStrict [] false 0 (wedged 1140) [wedged 1120; wedged 1100]
    _ t _ _ _ eq_refl (state_sampled _) Ht Hw Hx) as [H1 H2].
  split; [exact H1|]. split; [exact H2|]. split; vm_compute; reflexivity.
Defined.
