(* ===== verification/JobLogic.v ===== *)
(** * Program logic of the reconciler's handlers

    Rules that run a handler symbolically under a monitor: one rule per
    statement former and helper of JobBase, so that a property's proof is the
    handler's specification and a few lines at its leaves.  A monitor that lets
    every [benign] call through (reads, metrics, recorded events, the probe
    table) sees a helper such as [recordPodEvent] as an extension of the
    history. *)
From S2P Require Import Prelude Effects GoLib Kube Interfaces Calls Engine PodUtil Timeout JobBase.

Section Conditions.
Context `{KubeLib}.

(** [SetStatusCondition] on the condition it sets, and on the others. *)
Lemma set_other now c l l' ch t :
  SetStatusCondition now c l = (l', ch) -> t <> c_type c -> FindStatusCondition l' t = FindStatusCondition l t.
Proof. intros Hs Ht. pose proof (find_set_other now c l t Ht) as Hf. by rewrite Hs in Hf. Qed.

Lemma set_true now c l l' ch :
  SetStatusCondition now c l = (l', ch) -> c_status c = "True" -> IsStatusConditionTrue l' (c_type c) = true.
Proof.
  intros Hs Ht. apply is_true_find. destruct (find_set_same now c l) as (c' & Hf & _ & Hst & _).
  rewrite Hs in Hf. exists c'. split; [done|congruence].
Qed.

Lemma true_same l l' t :
  FindStatusCondition l t = FindStatusCondition l' t -> IsStatusConditionTrue l t = IsStatusConditionTrue l' t.
Proof. intros Hf. apply eq_true_iff_eq. by rewrite !is_true_find, Hf. Qed.
End Conditions.

Section Rules.
Context `{KubeLib} {T : Type}.
Context (M : @monitor Ev resp) (r : Reconciler) (now : Z).
Context (Qr : @trace Ev resp -> JobState -> T -> Prop).
Abbreviation post A := (@trace Ev resp -> JobState -> A -> Prop).

Lemma wpg_get_job (Q : post PodMigrationJob) h s : Q h s (s_job s) -> wpg M get_job h s Qr Q.
Proof. intros HQ. apply wpg_bind, wpg_get. by apply wpg_ret. Qed.

Lemma wpg_mod_job f (Q : post unit) h s :
  Q h (mkJobState (f (s_job s)) (s_orig s)) tt -> wpg M (mod_job f) h s Qr Q.
Proof. intros HQ. by apply wpg_modify. Qed.

Lemma wpg_sync_orig (Q : post unit) h s :
  Q h (mkJobState (s_job s) (s_job s)) tt -> wpg M sync_orig h s Qr Q.
Proof. intros HQ. by apply wpg_modify. Qed.

Lemma wpg_gcheck m onerr (Q : post unit) h s :
  wpg M m h s Qr (fun h' s' e => match e with Some err => Qr h' s' (onerr err) | None => Q h' s' tt end) ->
  wpg M (gcheck m onerr) h s Qr Q.
Proof.
  intros Hm. apply wpg_bind. eapply wpg_conseq; [exact Hm|done|].
  intros h' s' [err|] HQ; [by apply wpg_return|by apply wpg_ret].
Qed.

Lemma wpg_ecall e (Q : post (resp e)) h s :
  allows M h e -> (forall x, relies M e x -> Q (existT e x :: h) s x) -> wpg M (ecall e) h s Qr Q.
Proof. intros. by apply wpg_call. Qed.

Lemma wpg_answered (x : res PodMigrationJob) (Q : post (option ApiErr)) h s :
  (forall err, x = inl err -> Q h s (Some err)) ->
  (forall j, x = inr j -> Q h (mkJobState j (s_orig s)) None) ->
  wpg M (answered x) h s Qr Q.
Proof.
  intros H1 H2. destruct x as [err|j]; simpl; [by apply wpg_ret, H1|].
  apply wpg_bind, wpg_mod_job, wpg_ret. by apply H2.
Qed.

(** A successful status write answers some job [j]. *)
Lemma wpg_patchStatus (Q : post (option ApiErr)) h s :
  let e := EPatchJobStatus (s_orig s) (s_job s) in
  allows M h e ->
  (forall err, Q (existT e (inl err) :: h) s (Some err)) ->
  (forall j, relies M e (inr j) -> Q (existT e (inr j) :: h) (mkJobState j (s_orig s)) None) ->
  wpg M patchStatus h s Qr Q.
Proof.
  intros e Ha He Hj. unfold patchStatus. apply wpg_bind, wpg_get, wpg_bind. apply wpg_ecall; [done|].
  intros x Hx. apply wpg_answered; intros ? ->; auto.
Qed.

Lemma wpg_updateJob (Q : post (option ApiErr)) h s :
  let e := EUpdateJob (s_job s) in
  allows M h e ->
  (forall err, Q (existT e (inl err) :: h) s (Some err)) ->
  (forall j, relies M e (inr j) -> Q (existT e (inr j) :: h) (mkJobState j (s_orig s)) None) ->
  wpg M updateJob h s Qr Q.
Proof.
  intros e Ha He Hj. unfold updateJob. apply wpg_bind, wpg_get_job, wpg_bind. apply wpg_ecall; [done|].
  intros x Hx. apply wpg_answered; intros ? ->; auto.
Qed.

Lemma wpg_setCondition type status reason message (Q : post bool) h s :
  (forall l c, SetStatusCondition now (mkCond type status reason message (j_generation (s_job s)) zero_time)
                 (j_conditions (s_job s)) = (l, c) ->
     Q h (mkJobState (set_conditions l (s_job s)) (s_orig s)) c) ->
  wpg M (setCondition now type status reason message) h s Qr Q.
Proof.
  intros HQ. unfold setCondition. apply wpg_bind, wpg_get_job.
  destruct (SetStatusCondition _ _ _) as [l c] eqn:E.
  apply wpg_bind, wpg_mod_job, wpg_ret. by apply HQ.
Qed.

Lemma wpg_conclude p (Q : post unit) h s :
  Q h (mkJobState (set_completionTime (Some now) (set_phase p (s_job s))) (s_orig s)) tt ->
  wpg M (conclude now p) h s Qr Q.
Proof. intros HQ. by apply wpg_mod_job. Qed.

Section Benign.
Context `{!Tolerant M}.

Lemma wpg_benign e (Q : post (resp e)) h s :
  benign e = true -> (forall x, relies M e x -> Q (existT e x :: h) s x) -> wpg M (ecall e) h s Qr Q.
Proof. intros Hb HQ. apply wpg_ecall; [by apply tolerant|done]. Qed.

Lemma wpg_metric n l v (Q : post unit) h s :
  (forall h', extends h h' -> Q h' s tt) -> wpg M (metric n l v) h s Qr Q.
Proof.
  intros HQ. apply (wpg_benign (EMetric n l v)); [done|]. intros [] _. apply HQ.
  by apply extends_cons, extends_refl.
Qed.

Lemma wpg_emit t ty re m (Q : post unit) h s :
  (forall h', extends h h' -> Q h' s tt) -> wpg M (emit t ty re m) h s Qr Q.
Proof.
  intros HQ. apply (wpg_benign (EEvent t ty re m)); [done|]. intros [] _. apply HQ.
  by apply extends_cons, extends_refl.
Qed.

Lemma wpg_eventf t ty re m (Q : post unit) h s :
  (forall h', extends h h' -> Q h' s tt) -> wpg M (eventf r t ty re m) h s Qr Q.
Proof.
  intros HQ. unfold eventf. destruct (rc_hasRecorder r); [by apply wpg_emit|].
  apply wpg_ret, HQ, extends_refl.
Qed.

Lemma wpg_recordPodEvent ty re m (Q : post unit) h s :
  (forall h', extends h h' -> Q h' s tt) -> wpg M (recordPodEvent r ty re m) h s Qr Q.
Proof.
  intros HQ. unfold recordPodEvent. apply wpg_bind, wpg_get_job.
  destruct (negb (rc_hasRecorder r)); [apply wpg_ret, HQ, extends_refl|].
  destruct (_ ==s ""); [apply wpg_ret, HQ, extends_refl|].
  apply wpg_bind, wpg_benign; [done|]. intros x _.
  destruct x; apply wpg_emit; intros h' Hh; apply HQ;
    (eapply extends_trans; [|exact Hh]); by apply extends_cons, extends_refl.
Qed.

Lemma wpg_recordPreviousPhaseDuration p (Q : post unit) h s :
  (forall h', extends h h' -> Q h' s tt) -> wpg M (recordPreviousPhaseDuration now p) h s Qr Q.
Proof.
  intros HQ. unfold recordPreviousPhaseDuration. apply wpg_bind, wpg_get_job.
  destruct p; repeat (first [apply wpg_metric; exact HQ | apply wpg_ret, HQ, extends_refl
    | match goal with |- wpg _ (match ?x with _ => _ end) _ _ _ _ => destruct x end]).
Qed.

(** Reads that only answer. *)
Lemma wpg_isSnapshotProgressing timeout (Q : post bool) h s :
  (forall h' b, extends h h' -> Q h' s b) -> wpg M (isSnapshotProgressing r now timeout) h s Qr Q.
Proof.
  intros HQ. unfold isSnapshotProgressing. apply wpg_bind, wpg_get_job.
  repeat case_match; try (apply wpg_ret, HQ, extends_refl).
  apply wpg_bind, wpg_benign; [done|]. intros x _.
  repeat case_match; apply wpg_ret, HQ; by apply extends_cons, extends_refl.
Qed.

Lemma wpg_isOriginPodTerminated pod (Q : post bool) h s :
  (forall h' b, extends h h' -> Q h' s b) ->
  wpg M (isOriginPodTerminatedDueToNodeShutdown pod) h s Qr Q.
Proof.
  intros HQ. unfold isOriginPodTerminatedDueToNodeShutdown.
  repeat case_match; try (apply wpg_ret, HQ, extends_refl).
  apply wpg_bind, wpg_benign; [done|]. intros x _.
  case_match; apply wpg_ret, HQ; by apply extends_cons, extends_refl.
Qed.

Lemma wpg_hasGatedClaimant (Q : post (res bool)) h s :
  (forall x, let e := EListPods (j_namespace (s_job s)) (PodsAssignedTo (j_name (s_job s))) in
     Q (existT e x :: h) s
       match x with
       | inl err => inl (wrapf ("failed to list pods assigned to PMJ " +s j_name (s_job s) +s ": ") err)
       | inr pods => inr (existsb podHasMigrationGate pods)
       end) ->
  wpg M hasGatedClaimant h s Qr Q.
Proof.
  intros HQ. unfold hasGatedClaimant. apply wpg_bind, wpg_get_job, wpg_bind, wpg_benign; [done|].
  intros x _. specialize (HQ x). destruct x; by apply wpg_ret.
Qed.

Lemma wpg_hasAssignedClaimant (Q : post (res bool)) h s :
  (forall x, let e := EListPods (j_namespace (s_job s)) (PodsAssignedTo (j_name (s_job s))) in
     Q (existT e x :: h) s
       match x with
       | inl err => inl (wrapf ("failed to list pods assigned to PMJ " +s j_name (s_job s) +s ": ") err)
       | inr pods => inr (match pods with [] => false | _ => true end)
       end) ->
  wpg M hasAssignedClaimant h s Qr Q.
Proof.
  intros HQ. unfold hasAssignedClaimant. apply wpg_bind, wpg_get_job, wpg_bind, wpg_benign; [done|].
  intros x _. specialize (HQ x). destruct x; by apply wpg_ret.
Qed.

Lemma wpg_shouldProbe key (Q : post bool) h s :
  (forall h' b, extends h h' -> Q h' s b) -> wpg M (shouldProbeFallbackEvents now key) h s Qr Q.
Proof.
  intros HQ. unfold shouldProbeFallbackEvents. apply wpg_bind, wpg_benign; [done|]. intros v _.
  repeat case_match; try (apply wpg_ret, HQ; by apply extends_cons, extends_refl).
  all: apply wpg_bind, wpg_benign; [done|]; intros ? _; apply wpg_ret, HQ;
    (apply extends_cons; [done|]); (apply extends_cons; [done|]); apply extends_refl.
Qed.
End Benign.

Lemma wpg_clearUnrecognized (Q : post bool) h s :
  (forall l c, (forall t, t <> ConditionUnrecognizedRestoreCrash ->
                  FindStatusCondition l t = FindStatusCondition (j_conditions (s_job s)) t) ->
     Q h (mkJobState (set_conditions l (s_job s)) (s_orig s)) c) -> (Q h s false) ->
  wpg M (clearUnrecognizedRestoreCrash now) h s Qr Q.
Proof.
  intros HQ H0. unfold clearUnrecognizedRestoreCrash. apply wpg_bind, wpg_get_job.
  repeat case_match; try by apply wpg_ret. apply wpg_setCondition. intros l c' Hl. apply HQ.
  intros t Ht. by apply (set_other _ _ _ _ _ _ Hl).
Qed.

Lemma wpg_clearBlockages (Q : post bool) h s :
  (forall l c, Q h (mkJobState (set_conditions l (s_job s)) (s_orig s)) c) ->
  wpg M (clearEvictionBlockageConditions now) h s Qr Q.
Proof.
  intros HQ. unfold clearEvictionBlockageConditions, clearBlockage.
  assert (H0 : forall c, Q h s c).
  { intros c. specialize (HQ (j_conditions (s_job s)) c).
    by destruct s as [[? ? []] ?]. }
  apply wpg_bind, wpg_bind, wpg_get_job.
  repeat case_match; try apply wpg_setCondition; try apply wpg_ret; intros;
    apply wpg_bind, wpg_bind, wpg_get_job; simpl;
    repeat case_match; try apply wpg_setCondition; try apply wpg_ret; intros; apply wpg_ret; auto; apply HQ.
Qed.

End Rules.

(** ** Symbolic execution of handlers

    [hstep] applies the rule of the statement at the head; calls to other
    handlers ([ginvoke]) and calls the monitor may refuse are left. *)
Ltac tolerate_only := lazymatch goal with |- Tolerant _ => typeclasses eauto end.
Ltac tolerate tac := first [tolerate_only | tac].

Ltac hstep :=
  lazymatch goal with
  | |- wpf _ (gfun _) _ _ _ => apply wpf_fun
  | |- wpg _ (gbind _ _) _ _ _ _ => apply wpg_bind
  | |- wpg _ (gret _) _ _ _ _ => apply wpg_ret
  | |- wpg _ (greturn _) _ _ _ _ => apply wpg_return
  | |- wpg _ gget _ _ _ _ => apply wpg_get
  | |- wpg _ get_job _ _ _ _ => apply wpg_get_job
  | |- wpg _ (mod_job _) _ _ _ _ => apply wpg_mod_job
  | |- wpg _ (gmodify _) _ _ _ _ => apply wpg_modify
  | |- wpg _ sync_orig _ _ _ _ => apply wpg_sync_orig
  | |- wpg _ (gcheck _ _) _ _ _ _ => apply wpg_gcheck
  | |- wpg _ (setCondition _ _ _ _ _) _ _ _ _ => apply wpg_setCondition; intros ? ? ?
  | |- wpg _ (conclude _ _) _ _ _ _ => apply wpg_conclude
  | |- wpg _ (metric _ _ _) _ _ _ _ => apply wpg_metric; tolerate ltac:(intros ? ?)
  | |- wpg _ (markInactive _) _ _ _ _ => apply wpg_metric; tolerate ltac:(intros ? ?)
  | |- wpg _ (markActive _) _ _ _ _ => apply wpg_metric; tolerate ltac:(intros ? ?)
  | |- wpg _ (recordOutcome _) _ _ _ _ => apply wpg_metric; tolerate ltac:(intros ? ?)
  | |- wpg _ (recordPhaseDuration _ _) _ _ _ _ => apply wpg_metric; tolerate ltac:(intros ? ?)
  | |- wpg _ (emit _ _ _ _) _ _ _ _ => apply wpg_emit; tolerate ltac:(intros ? ?)
  | |- wpg _ (eventf _ _ _ _ _) _ _ _ _ => apply wpg_eventf; tolerate ltac:(intros ? ?)
  | |- wpg _ (recordPodEvent _ _ _ _) _ _ _ _ => apply wpg_recordPodEvent; tolerate ltac:(intros ? ?)
  | |- wpg _ (recordPreviousPhaseDuration _ _) _ _ _ _ => apply wpg_recordPreviousPhaseDuration; tolerate ltac:(intros ? ?)
  | |- wpg _ (isSnapshotProgressing _ _ _) _ _ _ _ => apply wpg_isSnapshotProgressing; tolerate ltac:(intros ? ? ?)
  | |- wpg _ (isOriginPodTerminatedDueToNodeShutdown _) _ _ _ _ => apply wpg_isOriginPodTerminated; tolerate ltac:(intros ? ? ?)
  | |- wpg _ hasGatedClaimant _ _ _ _ => apply wpg_hasGatedClaimant; tolerate ltac:(intros ? ?)
  | |- wpg _ hasAssignedClaimant _ _ _ _ => apply wpg_hasAssignedClaimant; tolerate ltac:(intros ? ?)
  | |- wpg _ (shouldProbeFallbackEvents _ _) _ _ _ _ => apply wpg_shouldProbe; tolerate ltac:(intros ? ? ?)
  | |- wpg _ (clearUnrecognizedRestoreCrash _) _ _ _ _ => apply wpg_clearUnrecognized; [intros ? ? ?|]
  | |- wpg _ (clearEvictionBlockageConditions _) _ _ _ _ => apply wpg_clearBlockages; intros ? ?
  | |- wpg _ patchStatus _ _ _ _ => apply wpg_patchStatus; [|intros ?|intros ? ?]
  | |- wpg _ updateJob _ _ _ _ => apply wpg_updateJob; [|intros ?|intros ? ?]
  | |- wpg _ (answered _) _ _ _ _ => apply wpg_answered; intros ? ?
  | |- wpg _ (gwhen _ _) _ _ _ _ => apply wpg_when; intros ?
  | |- wpg _ (ecall _) _ _ _ _ =>
      first [ apply wpg_benign; first [tolerate_only | reflexivity | intros ? ?] | apply wpg_ecall; [|intros ? ?] ]
  | |- wpg _ (cleanup _ _) _ _ _ _ => unfold cleanup
  | |- wpg _ (cleanupJob _) _ _ _ _ => unfold cleanupJob
  | |- wpg _ (markSucceededWithoutRestore _ _ _) _ _ _ _ => unfold markSucceededWithoutRestore
  | |- wpg _ (if ?b then _ else _) _ _ _ _ => destruct b eqn:?
  | |- wpg _ (match ?b with _ => _ end) _ _ _ _ => destruct b eqn:?
  | |- wpg _ (let _ := _ in _) _ _ _ _ => cbv zeta
  | |- match ?b with _ => _ end => destruct b eqn:?
  end.
Ltac hsteps := repeat (hstep; cbv beta zeta in *; cbn [s_job s_orig] in *).

(** A call that leaves the objects as they were. *)
Ltac frame_state :=
  cbv beta in *;
  repeat match goal with
         | H : ?s' = _ /\ _ |- _ => is_var s'; lazymatch type of s' with JobState => destruct H as [-> H] end
         | H : ?s' = _ |- _ => is_var s'; lazymatch type of s' with JobState => subst s' end
         end.

(** Calling a handler whose specification is [spec], whose preconditions
    [solver] proves. *)
Tactic Notation "hcall" uconstr(spec) "by" tactic3(solver) :=
  lazymatch goal with |- wpg _ (ginvoke _) _ _ _ _ => idtac end;
  apply wpg_invoke; eapply wpf_conseq; [simple eapply spec; solve [solver]|intros ? ? ? ?; frame_state].

(** Running a part of a body whose specification is [spec]. *)
Tactic Notation "hbody" constr(head) "with" uconstr(spec) "by" tactic3(solver) :=
  lazymatch goal with |- wpg _ ?m _ _ _ _ => match m with context [head] => idtac end end;
  eapply wpg_weaken; [simple eapply spec; solve [solver]|intros ? ? ? ?; frame_state].

(** Running a handler that calls others: [calls] handles the calls. *)
Tactic Notation "hrun" tactic3(calls) := repeat first [progress hsteps | calls].
