(* ===== verification/JobReconcile.v ===== *)
(** * Reconcile of a PodMigrationJob (podmigrationjob_controller.go)

    The prologue (deletion, first phase, engine, timeouts), the end of a
    concluded job (crash fallback, fence, garbage collection, scale-down
    zombies), the dispatch on the phase, and the deferred invariant check. *)
From Stdlib Require Import Ascii.
From S2P Require Import Prelude Effects GoLib Kube Interfaces Calls Classifier Engine PodUtil Timeout JobBase Fence Budget.
From S2P Require Import Assignment JobPhases Restore.

Definition completionTTL : Z := 30 * Minute.

(** ** Scale-down zombies *)

Definition getOrdinalFromPodName (podName stsName : string) : Z * bool :=
  let ordinal s :=
    match Atoi s with
    | Some ord => if ord <? 0 then (-1, false) else (i32 ord, true)
    | None => (-1, false)
    end in
  if negb (HasPrefix podName (stsName +s "-")) then
    match after_last podName "-"%char with
    | Some rest => if rest ==s "" then (-1, false) else ordinal rest
    | None => (-1, false)
    end
  else ordinal (TrimPrefix podName (stsName +s "-")).

Definition is_origin_pod (job : PodMigrationJob) (p : Pod) : bool :=
  ((j_targetUID job !=s "") && (p_uid p ==s j_targetUID job)) ||
  ((j_targetUID job ==s "") && (j_podName job !=s "") && (p_name p ==s j_podName job)).

Definition countActiveWorkloadPods (pods : list Pod) (job : PodMigrationJob) : Z :=
  fold_left (fun active p =>
    if p_deleting p || pod_finished p then active
    else if is_origin_pod job p then active
    else i32 (active + 1)) pods 0.

Section Reconcile.
Context `{KubeLib} `{JitterLib} `{SelectorLib}.
Context (r : Reconciler) (now : Z) (req_ns req_name : string).
Let key : string := req_ns +s "/" +s req_name.

Definition workload_replicas (w : Workload) : Z := default 1 (wl_replicas w).

(** A live read of a workload: [inr None] when it is not found. *)
Definition getWorkload {R} (kind ns name : string) : G R (res (option Workload)) :=
  let* x := ecall (EGetWorkload kind ns name) in
  match x with
  | inl err => if IsNotFound err then gret (inr None) else gret (inl err)
  | inr w => gret (inr (Some w))
  end.

Definition owned_by (kind name : string) (w : Workload) : bool :=
  existsb (fun ref => (or_kind ref ==s kind) && (or_name ref ==s name)) (m_owners (wl_meta w)).

(** The workload whose replicas and selector count: the current ReplicaSet of a
    Deployment, or the parent itself; [inr None] defers to the TTL. *)
Definition targetWorkload {R} (job : PodMigrationJob) (parentName parentKind : string) : G R (res (option Workload)) :=
  let ns := j_namespace job in
  if parentKind ==s "Deployment" then
    let hash := sget (j_labels job) LabelPodTemplateHash in
    if hash !=s "" then
      let* x := getWorkload "ReplicaSet" ns (parentName +s "-" +s hash) in
      match x with
      | inl err => gret (inl err)
      | inr (Some rs) => gret (inr (Some rs))
      | inr None =>
          let* y := ecall (EListReplicaSets ns hash) in
          match y with
          | inl err => gret (inl err)
          | inr rss => gret (inr (List.find (owned_by "Deployment" parentName) rss))
          end
      end
    else getWorkload "Deployment" ns parentName
  else if parentKind ==s "ReplicaSet" then getWorkload "ReplicaSet" ns parentName
  else if parentKind ==s "StatefulSet" then getWorkload "StatefulSet" ns parentName
  else gret (inr None).

(** What the workload's pods say: [None] keeps the job (its source still runs);
    otherwise whether a replacement runs under the source's name, and the count
    of active pods. *)
Definition judgePods (job : PodMigrationJob) (pods : list Pod) : option (bool * Z) :=
  if (j_targetUID job !=s "") && existsb (fun p => (p_uid p ==s j_targetUID job) && negb (p_deleting p)) pods then None
  else
    Some (existsb (fun p => negb (p_deleting p) && negb (pod_finished p) && (p_name p ==s j_podName job) &&
                            ((j_targetUID job ==s "") || (p_uid p !=s j_targetUID job))) pods,
          countActiveWorkloadPods pods job).

Definition deleteZombie (parentKind parentName : string) (activeCount targetReplicas : Z)
    : fn resp JobState (res bool) := gfun (
  let* job := get_job in
  let* e := ecall (EDeleteJob job None) in
  do* match e with
      | Some err => if negb (IsNotFound err) then greturn (inl err) else gret tt
      | None => gret tt
      end in
  do* eventf r (about_job job) "Normal" "ScaleDownZombieCleaned"
        ("Proactively deleted unassigned completed PMJ for scaled-down " +s parentKind +s " " +s parentName +s
         " (active pods: " +s pretty activeCount +s ", target replicas: " +s pretty targetReplicas +s ")") in
  gret (inr true)).

Definition cleanupScaleDownZombie : fn resp JobState (res bool) := gfun (
  let* job := get_job in
  let parentName := sget (j_labels job) LabelParentName in
  let parentKind := sget (j_labels job) LabelParentKind in
  if consumed (j_status job) then gret (inr false)
  else if (parentName ==s "") || (parentKind ==s "") then gret (inr false)
  else
    let* g := hasGatedClaimant in
    match g with
    | inl err => gret (inl err)
    | inr true => gret (inr false)
    | inr false =>
        let* a := hasAssignedClaimant in
        match a with
        | inl err => gret (inl err)
        | inr true => gret (inr false)
        | inr false =>
            let* w := targetWorkload job parentName parentKind in
            match w with
            | inl err => gret (inl err)
            | inr None => gret (inr false)
            | inr (Some w) =>
                let targetReplicas := workload_replicas w in
                let* judged :=
                  match wl_selector w with
                  | None => gret (Some (false, 0))
                  | Some sel =>
                      match LabelSelectorAsSelector (Some sel) with
                      | None => greturn (inl (mkErr OtherErr "invalid label selector"))
                      | Some _ =>
                          let* x := ecall (EListPods (j_namespace job) (PodsMatching (Some sel))) in
                          match x with
                          | inl err => greturn (inl err)
                          | inr pods => gret (judgePods job pods)
                          end
                      end
                  end in
                match judged with
                | None => gret (inr false)
                | Some (hasRunningReplacementPod, activeCount) =>
                    let keepOrdinal :=
                      (parentKind ==s "StatefulSet") &&
                      (let '(ord, ok) := getOrdinalFromPodName (j_podName job) parentName in
                       ok && (ord <? targetReplicas) && negb hasRunningReplacementPod) in
                    if keepOrdinal then gret (inr false)
                    else if targetReplicas <=? activeCount then
                      ginvoke (deleteZombie parentKind parentName activeCount targetReplicas)
                    else gret (inr false)
                end
            end
        end
    end).

(** ** The prologue *)

(** The first pass: the job becomes Pending. *)
Definition initializePhase : fn resp JobState Outcome := gfun (
  do* mod_job (set_phase Pending) in
  do* gcheck patchStatus handleStatusError in
  do* markActive key in
  gret (Requeue, None)).

Definition cond_true (job : PodMigrationJob) (t : string) : bool :=
  match FindStatusCondition (j_conditions job) t with Some c => c_status c ==s "True" | None => false end.

(** A blocked eviction timed out: mark the source, conclude without a restore. *)
Definition concludeBlockedEviction (podName : string) (isMisconfigured : bool) : fn resp JobState Outcome := gfun (
  let '(reason, message) :=
    if isMisconfigured then
      ("EvictionMisconfiguredTimeout",
       "Origin pod eviction timed out due to eviction configuration error (500 InternalServerError / multiple PDBs)")
    else ("PDBEvictionTimeout", "Origin pod eviction timed out while waiting for PDB budget") in
  let* job := get_job in
  let* x := ecall (EGetPod Cache (j_namespace job) podName) in
  do* match x with
      | inl _ => gret tt
      | inr pod =>
          if (j_targetUID job ==s "") || (p_uid pod ==s j_targetUID job) then
            let* u := ecall (EUpdatePod (with_p_annotations (<[AnnotationPDBEvictionTimeout := "true"]> (p_annotations pod)) pod)) in
            match u with
            | inl err => greturn (NoRequeue, Some err)
            | inr _ => gret tt
            end
          else gret tt
      end in
  do* gcheck (markSucceededWithoutRestore now reason message) handleStatusError in
  gret (NoRequeue, None)).

Definition failTimedOut (podName : string) (migrationTimeout : Z) : fn resp JobState Outcome := gfun (
  let* s := gget in
  let prevPhase := j_phase (s_orig s) in
  let '(reason, outcome, message) :=
    if refusedByDisruptionBudget (s_job s) then
      (ReasonDisruptionBudgetTimeout, "budget_timeout",
       "Migration job timed out (exceeded " +s DurationString migrationTimeout +s
       " limit) waiting for the PodDisruptionBudget; nothing was checkpointed, and the next eviction starts a new job")
    else
      ("Timeout", "timeout", "Migration job timed out (exceeded " +s DurationString migrationTimeout +s " limit)") in
  do* conclude now Failed in
  do* setCondition now "Ready" "False" reason message in
  do* cleanup r podName in
  do* gcheck patchStatus handleStatusError in
  do* markInactive key in
  do* recordOutcome outcome in
  do* recordPreviousPhaseDuration now prevPhase in
  do* recordPodEvent r "Warning" "MigrationFailed" message in
  gret (NoRequeue, None)).

(** The deadline of the active phases; falls through when there is time left. *)
Definition enforceTimeout (podName : string) : G Outcome unit :=
  let* job := get_job in
  if negb ((j_phase job ==p Pending) || (j_phase job ==p Snapshotting) || (j_phase job ==p Evicting)) then gret tt
  else
    let migrationTimeout := getMigrationTimeout r job in
    if negb (migrationTimeout <? Sub now (migrationDeadlineAnchor job)) then gret tt
    else
      let* progressing := isSnapshotProgressing r now migrationTimeout in
      if progressing : bool then gret tt
      else if isEvictionWithinBudget r now job then gret tt
      else
        let blocked := cond_true job "BlockedByPDB" in
        let misconfigured := cond_true job "EvictionMisconfigured" in
        if (j_phase job ==p Evicting) && (blocked || misconfigured) then
          let* o := ginvoke (concludeBlockedEviction podName misconfigured) in greturn o
        else let* o := ginvoke (failTimedOut podName migrationTimeout) in greturn o.

(** ** A concluded job *)

(** The end of a terminal job: garbage collection and zombies. *)
Definition collectGarbage : fn resp JobState Outcome := gfun (
  let* job := get_job in
  do* match completionTime (j_status job) with
      | Some t =>
          if completionTTL <? Sub now t then
            let* g := hasGatedClaimant in
            match g with
            | inl err => greturn (NoRequeue, Some err)
            | inr true => greturn (RequeueAfter (15 * Second), None)
            | inr false =>
                let* e := ecall (EDeleteJob job None) in
                match e with
                | Some err => if IsNotFound err then greturn (NoRequeue, None) else greturn (NoRequeue, Some err)
                | None => greturn (NoRequeue, None)
                end
            end
          else gret tt
      | None => gret tt
      end in
  do* (if (j_phase job ==p SucceededWithoutRestore) && negb (consumed (j_status job)) then
         let* z := ginvoke cleanupScaleDownZombie in
         match z with
         | inl err => greturn (NoRequeue, Some err)
         | inr true => greturn (NoRequeue, None)
         | inr false =>
             let kind := sget (j_labels job) LabelParentKind in
             if (kind ==s "Deployment") || (kind ==s "ReplicaSet") || (kind ==s "StatefulSet") then
               match completionTime (j_status job) with
               | Some t =>
                   let requeueIn := i64 (completionTTL - Sub now t) in
                   if requeueIn <=? 1 * Minute then greturn (RequeueAfter requeueIn, None)
                   else greturn (RequeueAfter (1 * Minute), None)
               | None => greturn (RequeueAfter (1 * Minute), None)
               end
             else gret tt
         end
       else gret tt) in
  match completionTime (j_status job) with
  | Some t => gret (RequeueAfter (i64 (completionTTL - Sub now t)), None)
  | None => gret (NoRequeue, None)
  end).

(** A crash whose pod is not deleted yet, then the fence, then the finalizer. *)
Definition settleConcluded : G Outcome unit :=
  let* job := get_job in
  do* (if (j_phase job ==p Failed) && IsStatusConditionTrue (j_conditions job) ConditionRestoreCrashed then
         gcheck (ginvoke (ensureCrashedReplacementPodDeleted r None)) (fun err => (NoRequeue, Some err))
       else gret tt) in
  let* o := ginvoke (resolveSourceFence r now) in
  let '(res, handled, err) := o in
  do* (if handled || match err with Some _ => true | None => false end then greturn (res, err) else gret tt) in
  let* job := get_job in
  if IsTerminalPhase (j_phase job) then
    gcheck (ginvoke removeSourceFenceFinalizer) (fun err => (NoRequeue, Some err))
  else gret tt.

(** ** Reconcile, after the job was read *)

Definition reconcileJob (podName : string) : fn resp JobState Outcome := gfun (
  let* job := get_job in
  if j_deleting job then
    if has_fence_finalizer job then ginvoke (finalizeSourceFence r now) else gret (NoRequeue, None)
  else if j_phase job ==p PhaseEmpty then ginvoke initializePhase
  else
    do* match rc_engines r with
        | Some reg =>
            if negb (IsTerminalPhase (j_phase job)) then
              match ForJob reg (Some job) with
              | inl err => if bool_decide (e_kind err = EngineNotRegistered) then
                             let* o := ginvoke (failEngineNotRegistered r now) in greturn o
                           else gret tt
              | inr _ => gret tt
              end
            else gret tt
        | None => gret tt
        end in
    do* enforceTimeout podName in
    do* settleConcluded in
    let* job := get_job in
    match j_phase job with
    | Succeeded | SucceededWithoutRestore | Failed => ginvoke collectGarbage
    | Pending => ginvoke (reconcilePending r now req_ns req_name podName)
    | Snapshotting => ginvoke (reconcileSnapshotting r now req_ns req_name podName)
    | Evicting => ginvoke (reconcileEvicting r now req_ns req_name podName)
    | Restoring => ginvoke (reconcileRestoring r now req_ns req_name)
    | PhaseEmpty => gret (NoRequeue, None)
    end).

(** ** The deferred invariant check *)

Definition raw_condition (x : option RawCondition) : option Condition :=
  match x with
  | None => None
  | Some rc =>
      let str o := default "" o in
      if str (rc_type rc) ==s "" then None
      else Some (mkCond (str (rc_type rc)) (str (rc_status rc)) (str (rc_reason rc)) (str (rc_message rc)) 0
                   (default zero_time (parse_time_annotation (str (rc_ltt rc)))))
  end.

Definition extractUnstructuredConditions (raw : option (list (option RawCondition))) : list Condition :=
  match raw with
  | None => []
  | Some items => omap raw_condition items
  end.

Definition crash_matched (job : PodMigrationJob) (pod : option Pod) : bool :=
  match pod with
  | None => false
  | Some p =>
      (j_restoredPodName job !=s "") && (p_name p ==s j_restoredPodName job) &&
      ((j_restoredPodUID job ==s "") || (p_uid p ==s j_restoredPodUID job)) &&
      bool_decide (f_class (Classify (Some p) (restoreEngines r job)) = FailureFatal)
  end.

(** The reads the check gathers: input of the invariant engine. *)
Definition gatherInvariants {R} : G R ReconcileSnapshot :=
  let* job := get_job in
  let* jl := ecall (EListJobs (j_namespace job) AllJobs) in
  let* pl := ecall (EListPods (j_namespace job) AllPods) in
  let pods := match pl with inr ps => ps | inl _ => [] end in
  let targetName := if j_restoredPodName job ==s "" then j_podName job else j_restoredPodName job in
  let primary := List.find (fun p => p_name p ==s targetName) pods in
  let* t :=
    (if j_podName job !=s "" then
       let* x := ecall (EGetTrigger (j_namespace job) (FormatPSMTName (j_podName job) (j_targetUID job))) in
       match x with inr t => gret (Some t) | inl _ => gret None end
     else gret None) in
  let orphaned := match t with
                  | Some t => ((j_phase job ==p Succeeded) || (j_phase job ==p Failed)) && negb (tv_deleting t)
                  | None => false
                  end in
  let snapName := if j_snapshotRef job ==s "" then default "" (t ≫= tv_snapshotCreated) else j_snapshotRef job in
  let* conds :=
    (if snapName !=s "" then
       let* x := ecall (EGetSnapshotConditions (j_namespace job) snapName) in
       match x with inr raw => gret (extractUnstructuredConditions raw) | inl _ => gret [] end
     else gret []) in
  gret (mkSnapshot now "PodMigrationJobReconciler" (Some job) primary None
          (match jl with inr js => js | inl _ => [] end) pods []
          (match pl with inl _ => true | inr _ => false end) (match jl with inl _ => true | inr _ => false end)
          orphaned (crash_matched job primary) conds
          (match rc_engines r with Some reg => Some (Registry_InspectRestoreOrder (Some reg)) | None => None end)).

(** A violation in strict mode fails an active job. *)
Definition failViolation (v : Violation) (res : Result) : fn resp JobState Outcome := gfun (
  let* orig := get_job in
  let prevPhase := j_phase orig in
  do* conclude now Failed in
  do* setCondition now "Ready" "False" "InvariantViolation"
        ("[" +s v_id v +s ":" +s v_name v +s "] " +s v_message v) in
  let* job := get_job in
  let* x := ecall (EPatchJobStatus orig job) in
  do* gcheck (answered x) (fun err => (res, Some err)) in
  do* cleanupJob r in
  let* job := get_job in
  do* markInactive (req_key job) in
  do* recordOutcome "failed" in
  do* recordPreviousPhaseDuration now prevPhase in
  gret (NoRequeue, None)).

Definition evaluateInvariants (o : Outcome) : fn resp JobState Outcome := gfun (
  let* job := get_job in
  if negb (rc_invariantsEnabled r) || j_deleting job then gret o
  else
    match snd o with
    | Some _ => gret o
    | None =>
        let* input := gatherInvariants in
        let* x := ecall (EInvariants input) in
        let '(violations, shouldFailStrict) := x in
        match violations with
        | v :: _ => if shouldFailStrict && negb (IsTerminalPhase (j_phase job)) then
                      ginvoke (failViolation v (fst o))
                    else gret o
        | [] => gret o
        end
    end).

(** [Reconcile]: read the job, reconcile it, and check the invariants on the way out. *)
Definition reconcileRead : fn resp JobState Outcome := gfun (
  let* job := get_job in
  let* o := ginvoke (reconcileJob (j_podName job)) in
  ginvoke (evaluateInvariants o)).

Definition Reconcile : prog resp Outcome :=
  Call (EGetJob Cache req_ns req_name) (fun x =>
    match x with
    | inl err =>
        if IsNotFound err then
          Call (EProbeDelete key) (fun _ =>
          Call (EForget ("PodMigrationJobReconciler/pmj/" +s key)) (fun _ => Done (NoRequeue, None)))
        else Done (NoRequeue, Some err)
    | inr job => pbind (reconcileRead (mkJobState job job)) (fun '(_, o) => Done o)
    end).

End Reconcile.
