(* ===== verification/SafetySpec.v ===== *)
(** * What a pass may do: the contract of the reconciler

    [Safe] is the monitor of one pass over a job: it says which status writes,
    checkpoint triggers, evictions and deletions a pass may make, given the calls
    it made before and the answers it got.  JobSafety proves that [Reconcile]
    obeys it; PassSafety states the consequences one by one.

    The environment is arbitrary (stale caches, failing or conflicting writes,
    other actors) but for one thing: a successful write of the job answers an
    object with the phase, the identity, the fence baseline and the finalizers
    that were written ([honest]). *)
From S2P Require Import Prelude Effects GoLib Kube Interfaces Calls Classifier Engine PodUtil Timeout JobBase Fence Budget.
From S2P Require Import JobPhases Restore JobLogic JobReconcile.

(** ** Phases *)

(** The edges of the job's life. *)
Definition phase_edge (p q : JobPhase) : bool :=
  (p ==p q) ||
  match p, q with
  | PhaseEmpty, (Pending | Failed) => true
  | Pending, (Snapshotting | Failed) => true
  | Snapshotting, (Evicting | Failed) => true
  | Evicting, (Restoring | SucceededWithoutRestore | Failed) => true
  | Restoring, (Succeeded | SucceededWithoutRestore | Failed) => true
  | _, _ => false
  end.

(** The phases a job may go through from phase [p] on. *)
Definition reach (p q : JobPhase) : bool :=
  (p ==p q) ||
  match p, q with
  | PhaseEmpty, _ => true
  | Pending, (Snapshotting | Evicting | Restoring) => true
  | Snapshotting, (Evicting | Restoring) => true
  | Evicting, Restoring => true
  | (Pending | Snapshotting | Evicting | Restoring), (Succeeded | SucceededWithoutRestore | Failed) => true
  | _, _ => false
  end.

Lemma phase_edge_refl p : phase_edge p p = true.
Proof. unfold phase_edge, phase_eqb. by rewrite bool_decide_eq_true_2. Qed.

Lemma reach_step p q q' : reach p q = true -> phase_edge q q' = true -> reach p q' = true.
Proof. by destruct p, q, q'. Qed.

Lemma reach_refl p : reach p p = true.
Proof. by destruct p. Qed.

Lemma reach_terminal p q : IsTerminalPhase p = true -> reach p q = true -> q = p.
Proof. by destruct p, q. Qed.

(** A phase that may still fail. *)
Definition Active (p : JobPhase) : Prop := IsTerminalPhase p = false.

Lemma edge_failed p : Active p -> phase_edge p Failed = true.
Proof. by destruct p. Qed.

(** ** Identity *)

(** What no write of the controller changes. *)
Definition ident (j : PodMigrationJob) : JobSpec * (string * string * string) :=
  (j_spec j, (j_namespace j, j_name j, j_uid j)).

Lemma ident_meta a b st : ident a = ident b -> ident (mkJob (j_meta a) (j_spec b) st) = ident b.
Proof. unfold ident, j_namespace, j_name, j_uid. simpl. congruence. Qed.

Lemma ident_ref a b :
  ident a = ident b ->
  j_podName a = j_podName b /\ j_targetUID a = j_targetUID b /\ j_namespace a = j_namespace b /\ j_name a = j_name b.
Proof. unfold ident, j_podName, j_targetUID. intros [= -> -> -> _]. done. Qed.

(** What the writes of the fence depend on. *)
Definition fence_record (j : PodMigrationJob) : string * list string :=
  (sget (j_annotations j) AnnotationFenceBaseline, m_finalizers (j_meta j)).

Definition written (new : PodMigrationJob) (x : res PodMigrationJob) : Prop :=
  match x with
  | inr j => j_phase j = j_phase new /\ ident j = ident new /\ fence_record j = fence_record new
  | inl _ => True
  end.

(** The server's answers to the writes of the job. *)
Definition honest (e : Ev) : resp e -> Prop :=
  match e return resp e -> Prop with
  | EPatchJobStatus _ new => written new
  | EPatchJob _ _ new => written new
  | EUpdateJob new => written new
  | _ => fun _ => True
  end.

(** The job records a fence baseline. *)
Definition has_baseline (j : PodMigrationJob) : bool := sget (j_annotations j) AnnotationFenceBaseline !=s "".

Lemma baseline_recorded j : snd (jobFenceBaseline j) = has_baseline j.
Proof.
  unfold jobFenceBaseline, has_baseline.
  destruct (_ ==s ""); simpl; [done|]. by destruct (Unmarshal _).
Qed.

Lemma fence_record_same a b :
  fence_record a = fence_record b -> has_baseline a = has_baseline b /\
  m_finalizers (j_meta a) = m_finalizers (j_meta b).
Proof. unfold fence_record, has_baseline. intros [= -> ->]. done. Qed.

Lemma written_baseline a j b :
  fence_record a = fence_record (set_j_annotations (<[AnnotationFenceBaseline := Marshal b]> (j_annotations j)) j) ->
  has_baseline a = true.
Proof.
  intros [-> _]%fence_record_same. unfold has_baseline.
  unfold j_annotations at 1. cbn [set_j_annotations with_j_meta with_annotations j_meta m_annotations].
  rewrite sget_insert_eq. done.
Qed.

Lemma finalizer_same `{KubeLib} a b : fence_record a = fence_record b -> has_fence_finalizer a = has_fence_finalizer b.
Proof. intros [_ Hf]%fence_record_same. unfold has_fence_finalizer. by rewrite Hf. Qed.

Lemma added_finalizer `{KubeLib} a b :
  fence_record a = fence_record (set_j_finalizers (AddFinalizer (m_finalizers (j_meta b)) SourceFenceFinalizer) b) ->
  has_fence_finalizer a = true /\ has_baseline a = has_baseline b.
Proof.
  intros [Hb Hf]%fence_record_same. split; [|exact Hb].
  unfold has_fence_finalizer. rewrite Hf. apply contains_in. apply add_in.
Qed.

(** ** Evidence *)

(** More calls were made. *)
Definition later (h h' : @trace Ev resp) : Prop := exists t, h' = (t ++ h)%list.

Lemma later_refl h : later h h.
Proof. by exists []. Qed.

Lemma later_cons h h' s : later h h' -> later h (s :: h').
Proof. intros [t ->]. by exists (s :: t). Qed.

Lemma later_extends h h1 h2 : later h h1 -> extends h1 h2 -> later h h2.
Proof. intros [t ->] (t' & -> & _). exists (t' ++ t)%list. by rewrite app_assoc. Qed.

Lemma later_trans h h1 h2 : later h h1 -> later h1 h2 -> later h h2.
Proof. intros [t ->] (t' & ->). exists (t' ++ t)%list. by rewrite app_assoc. Qed.

Lemma later_In h h' s : later h h' -> In s h -> In s h'.
Proof. intros [t ->] Hin. apply in_or_app. by right. Qed.

Section Contract.
Context `{KubeLib}.
Context (r : Reconciler) (now : Z) (req_ns : string) (job0 : PodMigrationJob).
Abbreviation podName := (j_podName job0).
Abbreviation target := (j_targetUID job0).

(** The engine reported the snapshot Ready under the name the job records. *)
Definition snapshot_ready (h : trace) (new : PodMigrationJob) : Prop :=
  exists eng j pod st, saw h (ECheckStatus eng j pod) (inr (Some st)) /\
    ss_phase st = PhaseReady /\ j_snapshotRef new = ss_ref st.

(** The source is gone: no pod of its name, or one with another UID. *)
Definition source_absent (h : trace) : Prop :=
  (exists err, saw h (EGetPod Cache req_ns podName) (inl err) /\ IsNotFound err = true) \/
  (exists pod, saw h (EGetPod Cache req_ns podName) (inr pod) /\ p_uid pod <> target).

(** Every volume the job waits for was seen detached from the source's node. *)
Definition volumes_detached (h : trace) (new : PodMigrationJob) : Prop :=
  forall pv, In pv (pvsToDetach (j_status new)) -> pv <> "" ->
    exists vas, saw h (EListVolumeAttachments pv) (inr vas) /\
      existsb (blocks_detach (originNodeName (j_status new))) vas = false.

(** The engine's trigger was deleted. *)
Definition trigger_cleaned (h : trace) : Prop := exists eng j pod, saw h (ECleanup eng j pod) None.

(** A restore that may conclude as Succeeded: the pod the job records as its
    replacement is Ready and no container restarted; the engine reports it
    Restored (or reports no verdicts), and either confirmed it or the pod
    outlasted the stabilization window. *)
Definition restore_accepted (h : trace) : Prop :=
  exists src ns name pod j confirmed,
    saw h (EGetPod src ns name) (inr pod) /\ isPodReady pod = true /\ fst (containerRestarts pod) <= 0 /\
    (exists jr, ident jr = ident job0 /\ (j_restoredPodUID jr = "" \/ p_uid pod = j_restoredPodUID jr)) /\
    ((exists eng j' v, saw h (EVerifyRestore eng j' pod) (inr v) /\ rv_outcome v = Restored /\
        confirmed = rv_confirmed v) \/
     (confirmed = false /\ e_isVerifier (jobEngine r j) = false)) /\
    (confirmed = true \/ stabilizationRemainingAt r j pod now <= 0).

(** What a status write that changes the phase must have seen. *)
Definition entry_evidence (h : trace) (orig new : PodMigrationJob) : Prop :=
  match j_phase orig, j_phase new with
  | Snapshotting, Evicting => snapshot_ready h new
  | Evicting, Restoring => source_absent h /\ volumes_detached h new /\ trigger_cleaned h
  | Restoring, Succeeded => restore_accepted h
  | _, _ => True
  end.

(** A live read shows no source that runs: none, another UID, or a finished one. *)
Definition no_running_source (h : trace) : Prop :=
  exists ns name x, saw h (EGetPod (liveReader r) ns name) x /\
    match x with
    | inl err => IsNotFound err = true
    | inr pod => p_uid pod <> target \/ pod_finished pod = true
    end.

(** The fence is up on the live source [pod]: the label and the held readiness
    are there already, or the pass wrote them. *)
Definition fence_up (h : trace) (pod : Pod) : Prop :=
  (sget (p_labels pod) LabelFenced = "true" \/
   saw h (EPatchPodLabel (p_namespace pod) (p_name pod) (p_uid pod) LabelFenced (Some "true")) None) /\
  (readyHeldByFence pod = true \/
   saw h (EPatchPodReady (p_namespace pod) (p_name pod) (p_uid pod) "False" ReasonPodMigrationFenced FenceReadyMessage) None).

(** The baseline is the last thing the fence records: of a live, running source
    that is fenced, on a job with the finalizer. *)
Definition baseline_evidence (h : trace) (new : PodMigrationJob) : Prop :=
  exists ns name pod, saw h (EGetPod (liveReader r) ns name) (inr pod) /\
    (target = "" \/ p_uid pod = target) /\ pod_finished pod = false /\ fence_up h pod /\
    has_fence_finalizer new = true /\
    sget (j_annotations new) AnnotationFenceBaseline = Marshal (baselineOf pod).

(** An eviction is of the source, as it was read: after the checkpoint from the
    Evicting phase, or of a source that stays fenced, with its UID. *)
Definition eviction_evidence (h : trace) (ns name : string) (opts : EvictOpts) : Prop :=
  exists src n pod, saw h (EGetPod src n podName) (inr pod) /\ ns = p_namespace pod /\ name = p_name pod /\
    ((opts = newPostCheckpointEviction /\ j_phase job0 = Evicting /\ p_uid pod = target) \/
     (opts = mkEvictOpts None (if p_uid pod !=s "" then Some (p_uid pod) else None) false /\
      (target = "" \/ p_uid pod = target) /\ GetControllerOf (p_meta pod) <> None)).

(** A pod is deleted only as a crashed replacement, under its UID, after the
    crash was recorded: by an earlier pass, or by this one on a live verdict. *)
Definition crash_recorded (j : PodMigrationJob) : Prop :=
  j_phase j = Failed /\ IsStatusConditionTrue (j_conditions j) ConditionRestoreCrashed = true.

Definition crash_evidence (h : trace) (pod : Pod) (uid : option string) : Prop :=
  uid = Some (p_uid pod) /\ p_deleting pod = false /\
  (exists ns name, saw h (EGetPod (liveReader r) ns name) (inr pod)) /\
  (crash_recorded job0 \/
   (exists orig new j engines, saw h (EPatchJobStatus orig new) (inr j) /\ crash_recorded new /\
      f_class (Classify (Some pod) engines) = FailureFatal)).

(** A workload was read, by name or as a ReplicaSet of its Deployment. *)
Definition workload_seen (h : trace) (w : Workload) : Prop :=
  (exists kind ns name, saw h (EGetWorkload kind ns name) (inr w)) \/
  (exists ns hash ws, saw h (EListReplicaSets ns hash) (inr ws) /\ In w ws).

(** The workload has all the pods it asks for without the source, which doesn't run. *)
Definition scaled_down (h : trace) (j : PodMigrationJob) : Prop :=
  exists w, workload_seen h w /\
    ((wl_selector w = None /\ workload_replicas w <= 0) \/
     (exists sel pods, wl_selector w = Some sel /\
        saw h (EListPods (j_namespace j) (PodsMatching (Some sel))) (inr pods) /\
        (j_targetUID j !=s "") && existsb (fun p => (p_uid p ==s j_targetUID j) && negb (p_deleting p)) pods = false /\
        workload_replicas w <= countActiveWorkloadPods pods j)).

(** A job is deleted only when it is concluded and no claimant is gated: past
    the TTL, or unconsumed, unassigned and scaled down. *)
Definition collect_evidence (h : trace) (j : PodMigrationJob) (uid : option string) : Prop :=
  IsTerminalPhase (j_phase j) = true /\ uid = None /\
  (exists pods, saw h (EListPods (j_namespace j) (PodsAssignedTo (j_name j))) (inr pods) /\
     existsb podHasMigrationGate pods = false) /\
  ((exists t, completionTime (j_status j) = Some t /\ completionTTL < Sub now t) \/
   (j_phase j = SucceededWithoutRestore /\ consumed (j_status j) = false /\
    saw h (EListPods (j_namespace j) (PodsAssignedTo (j_name j))) (inr []) /\ scaled_down h j)).

(** ** The monitor *)

Definition safe_call (h : trace) (e : Ev) : Prop :=
  match e with
  | EPatchJobStatus orig new =>
      reach (j_phase job0) (j_phase orig) = true /\ phase_edge (j_phase orig) (j_phase new) = true /\
      entry_evidence h orig new
  | EUpdateJobStatus _ => False
  | EPatchJob false _ new => baseline_evidence h new
  | EEnsureTrigger _ j _ => has_baseline j = true \/ no_running_source h
  | EEvict ns name opts => eviction_evidence h ns name opts
  | EDeletePod pod uid => crash_evidence h pod uid
  | ECompleteRestore _ _ _ _ => restore_accepted h
  | EDeleteJob j uid => collect_evidence h j uid
  | _ => True
  end.

Definition Safe : @monitor Ev resp := mkMonitor safe_call honest.

#[export] Instance Safe_tolerant : Tolerant Safe.
Proof. intros h []; simpl; done. Qed.

(** ** The states of a handler *)

(** Both objects of a handler are in phase [p], on the way from [job0]. *)
Definition at_phase (p : JobPhase) (s : JobState) : Prop :=
  j_phase (s_job s) = p /\ j_phase (s_orig s) = p /\ reach (j_phase job0) p = true /\
  ident (s_job s) = ident job0.

(** A phase on the way: what a handler leaves. *)
Definition onward (s : JobState) : Prop :=
  reach (j_phase job0) (j_phase (s_job s)) = true /\ ident (s_job s) = ident job0.

Lemma at_phase_onward p s : at_phase p s -> onward s.
Proof. by intros (<- & _ & H1 & H2). Qed.

Lemma at_phase_job p q s : at_phase p s -> j_phase (s_job s) = q -> at_phase q s.
Proof. intros (Ha & Hb & Hc & Hd) <-. repeat split; congruence. Qed.

Lemma at_phase_eq p q s : at_phase p s -> (j_phase (s_job s) ==p q) = true -> at_phase q s.
Proof. intros Hp Hq. apply bool_decide_eq_true in Hq. by eapply at_phase_job. Qed.

Lemma not_active p s :
  at_phase p s ->
  negb (j_phase (s_job s) ==p Failed) && negb (j_phase (s_job s) ==p SucceededWithoutRestore) = false ->
  ~ Active p.
Proof. intros [<- _]. unfold Active. by destruct (j_phase (s_job s)). Qed.

Lemma at_phase_target p s : at_phase p s -> j_targetUID (s_job s) = j_targetUID job0.
Proof. intros (_ & _ & _ & (_ & Ht & _)%ident_ref). done. Qed.

Lemma active_of p s : at_phase p s -> negb (IsTerminalPhase (j_phase (s_job s))) = true -> Active p.
Proof. intros [<- _] Hn. by apply negb_true_iff in Hn. Qed.

Lemma active_in p s :
  at_phase p s ->
  negb ((j_phase (s_job s) ==p Pending) || (j_phase (s_job s) ==p Snapshotting) || (j_phase (s_job s) ==p Evicting))
    = false -> Active p.
Proof. intros [<- _]. unfold Active. by destruct (j_phase (s_job s)). Qed.

Lemma entry_same_phase h orig new p : j_phase orig = p -> j_phase new = p -> entry_evidence h orig new.
Proof. unfold entry_evidence. intros -> ->. by destruct p. Qed.

Lemma entry_failed h orig new : j_phase new = Failed -> entry_evidence h orig new.
Proof. unfold entry_evidence. intros ->. by destruct (j_phase orig). Qed.

Lemma entry_swr h orig new : j_phase new = SucceededWithoutRestore -> entry_evidence h orig new.
Proof. unfold entry_evidence. intros ->. by destruct (j_phase orig). Qed.

Lemma entry_other h orig new p q :
  j_phase orig = p -> j_phase new = q ->
  match p, q with
  | Snapshotting, Evicting | Evicting, Restoring | Restoring, Succeeded => false
  | _, _ => true
  end = true -> entry_evidence h orig new.
Proof. unfold entry_evidence. intros -> ->. by destruct p, q. Qed.

Lemma entry_evicting h orig new :
  j_phase orig = Snapshotting -> j_phase new = Evicting -> snapshot_ready h new -> entry_evidence h orig new.
Proof. unfold entry_evidence. by intros -> ->. Qed.

Lemma entry_restoring h orig new :
  j_phase orig = Evicting -> j_phase new = Restoring ->
  source_absent h -> volumes_detached h new -> trigger_cleaned h -> entry_evidence h orig new.
Proof. unfold entry_evidence. by intros -> ->. Qed.

Lemma entry_succeeded h orig new :
  j_phase orig = Restoring -> j_phase new = Succeeded -> restore_accepted h -> entry_evidence h orig new.
Proof. unfold entry_evidence. by intros -> ->. Qed.

(** A write of the status that keeps the phase, or moves along an edge with its evidence. *)
Lemma safe_write h orig new p :
  j_phase orig = p -> reach (j_phase job0) p = true -> phase_edge p (j_phase new) = true ->
  entry_evidence h orig new -> safe_call h (EPatchJobStatus orig new).
Proof. intros <-. by repeat split. Qed.

Lemma safe_baseline h before j pod ns name :
  saw h (EGetPod (liveReader r) ns name) (inr pod) -> target = "" \/ p_uid pod = target ->
  pod_finished pod = false -> fence_up h pod -> has_fence_finalizer j = true ->
  safe_call h (EPatchJob false before
    (set_j_annotations (<[AnnotationFenceBaseline := Marshal (baselineOf pod)]> (j_annotations j)) j)).
Proof. intros. exists ns, name, pod. do 5 (split; [assumption|]). apply sget_insert_eq. Qed.
End Contract.

(** Leaves of a handler: the phase written, and the phase after. *)
Ltac saw_tac :=
  unfold saw in *;
  first [ eassumption | apply in_eq | apply in_cons; saw_tac
        | eapply extends_In; [eassumption|]; saw_tac | eapply later_In; [eassumption|]; saw_tac ].

Ltac later_tac :=
  first [ assumption | apply later_refl | apply later_cons; later_tac
        | eapply later_extends; [|eassumption]; later_tac | eapply later_trans; [|eassumption]; later_tac ].

Ltac ident_leaf :=
  first [ match goal with H : ident _ = ident _ |- _ => exact H end
        | match goal with H : ident ?j = ident _ |- _ = ?y => change (ident j = y); rewrite H; clear H; ident_leaf end
        | match goal with H : ident ?a = ident _ |- ident (mkJob (j_meta ?a) _ _) = _ =>
            rewrite (ident_meta _ _ _ H); clear H; ident_leaf end ].

Ltac phase_norm :=
  cbv beta in *; unfold at_phase, onward in *;
  repeat match goal with H : _ /\ _ |- _ => destruct H end;
  repeat match goal with H : relies _ _ (inr _) |- _ => cbn [relies Safe honest written] in H; destruct H as (? & ? & ?) end;
  cbn [s_job s_orig] in *.

(** What the calls so far established. *)
Ltac facts :=
  cbv beta in *;
  repeat match goal with
         | H : ?a = ?a -> _ |- _ => specialize (H eq_refl)
         | H : exists _, _ |- _ => destruct H
         | H : _ /\ _ |- _ => destruct H
         | H : relies _ _ (inr _) |- _ => cbn [relies Safe honest written] in H
         end.

(** The phase of an object a handler has: [j_phase x = ?p]. *)
Ltac phase_eq :=
  lazymatch goal with
  | |- j_phase ?x = _ =>
      first
        [ let v := eval lazy in (j_phase x) in is_constructor v; exact (eq_refl v)
        | match goal with H : j_phase _ = ?w |- _ => first [is_constructor w | is_var w]; exact H end
        | match goal with H : j_phase ?y = j_phase _ |- _ => refine (eq_trans H _); clear H; phase_eq end ]
  end.

Ltac edge_tac := first [ reflexivity | apply phase_edge_refl | apply edge_failed; assumption ].

Ltac reach_tac :=
  lazymatch goal with
  | |- reach _ (j_phase ?x) = true =>
      let E := fresh in eassert (j_phase x = _) as E by phase_eq; rewrite E; clear E;
      first [ assumption | eapply reach_step; [eassumption|]; edge_tac ]
  | |- _ => first [ assumption | eapply reach_step; [eassumption|]; edge_tac ]
  end.
Ltac reach_same :=
  match goal with
  | H : j_phase ?y = j_phase _ |- reach ?a (j_phase _) = true =>
      refine (eq_trans (f_equal (reach a) (H : j_phase y = _)) _); clear H; first [assumption | reach_same]
  end.

Ltac evidence_tac :=
  first [ eapply entry_failed; reflexivity | eapply entry_swr; reflexivity
        | eapply entry_same_phase; [phase_eq|phase_eq]
        | eapply entry_other; [phase_eq|phase_eq|reflexivity] ].

Ltac write_tac :=
  lazymatch goal with |- allows (Safe ?r ?n ?q ?j) ?h ?e => change (safe_call r n q j h e) end;
  eapply safe_write;
    [ phase_eq | eassumption
    | match goal with |- phase_edge _ (j_phase ?x) = true =>
        let E := fresh in eassert (j_phase x = _) as E by phase_eq; rewrite E; edge_tac end
    | evidence_tac ].

Ltac leaf_tac :=
  first [ exact I | assumption | reflexivity | later_tac
        | phase_norm; first [ write_tac | repeat apply conj; first [ assumption | phase_eq | reach_tac | ident_leaf | reach_same ]
                              | cbn in *; congruence ] ].

Ltac safe_close := solve [ leaf_tac | repeat apply conj; intros; leaf_tac ].
Ltac safe_leaf := try safe_close.
