(* ===== verification/JobSafety.v ===== *)
(** * The handlers keep the contract

    One lemma per handler: run in a state of the right phase, with the evidence
    its calls need, it makes only calls that [Safe] allows, and leaves a state
    on the way. *)
From S2P Require Import Prelude Effects GoLib Kube Interfaces Calls Classifier Engine PodUtil Timeout JobBase Fence Budget.
From S2P Require Import JobPhases Restore JobLogic JobReconcile SafetySpec.

Section Handlers.
Context `{KubeLib} `{JitterLib} `{SelectorLib}.
Context (r : Reconciler) (now : Z) (req_ns req_name : string) (job0 : PodMigrationJob).
Abbreviation podName := (j_podName job0).
Abbreviation M := (Safe r now req_ns job0).
Abbreviation at_phase := (at_phase job0).
Abbreviation any := (fun _ s' _ => onward job0 s').

(** ** Pending *)

Lemma safe_failPending reason message ev h s :
  at_phase Pending s -> wpf M (failPending r now req_ns req_name reason message ev) h s any.
Proof. intros Hp. unfold failPending. hsteps; safe_leaf.
Qed.
#[local] Opaque failPending.

Lemma safe_collectPVs {R} claims (Qr : @trace Ev resp -> JobState -> R -> Prop) h s p :
  at_phase p s -> wpg M (collectPVs req_ns claims) h s Qr (fun _ s' _ => at_phase p s').
Proof.
  revert h. induction claims as [|c cs IH]; intros h Hp; simpl; hsteps; safe_leaf.
  - by apply IH.
  - eapply (wpg_weaken M _ _ _ Qr); [exact (IH _ Hp)|].
    intros h' s' [err|pvs] Hp'; by apply wpg_ret.
Qed.

Lemma safe_analyzeSource h s :
  at_phase Pending s ->
  wpf M (analyzeSource r now req_ns req_name podName) h s
    (fun _ s' o => match o with inl _ => onward job0 s' | inr _ => at_phase Pending s' end).
Proof.
  intros Hp. unfold analyzeSource.
  hrun first [hcall safe_failPending by safe_leaf | hbody @collectPVs with safe_collectPVs by safe_leaf]; safe_leaf.
Qed.
#[local] Opaque analyzeSource.

Lemma safe_writeTimeout h s :
  at_phase Pending s -> wpf M writeTimeoutAnnotation h s (fun _ s' _ => at_phase Pending s').
Proof. intros Hp. unfold writeTimeoutAnnotation. hsteps; safe_leaf. Qed.
#[local] Opaque writeTimeoutAnnotation.

Lemma safe_failSourceGone h s :
  at_phase Pending s -> wpf M (failSourceGone r now) h s any.
Proof. intros Hp. unfold failSourceGone. hsteps; safe_leaf. Qed.
#[local] Opaque failSourceGone.

Lemma safe_deferForBudget reason err h s :
  at_phase Pending s ->
  wpf M (deferForBudget r now reason err) h s (fun _ s' o => snd (fst o) = false /\ onward job0 s').
Proof. intros Hp. unfold deferForBudget. hsteps; safe_leaf. Qed.
#[local] Opaque deferForBudget.

Lemma safe_checkBudget h s :
  at_phase Pending s ->
  wpf M (checkDisruptionBudget r now podName) h s
    (fun _ s' o => onward job0 s' /\ (snd (fst o) = true -> at_phase Pending s')).
Proof.
  intros Hp. unfold checkDisruptionBudget.
  hrun first [hcall safe_failSourceGone by safe_leaf | hcall safe_deferForBudget by safe_leaf]; safe_leaf.
Qed.
#[local] Opaque checkDisruptionBudget.

Lemma safe_startSnapshotting h s :
  at_phase Pending s -> wpf M (startSnapshotting r now req_ns req_name) h s any.
Proof. intros Hp. unfold startSnapshotting. hsteps; safe_leaf. Qed.
#[local] Opaque startSnapshotting.

Lemma safe_reconcilePending h s :
  at_phase Pending s -> wpf M (reconcilePending r now req_ns req_name podName) h s any.
Proof.
  intros Hp. unfold reconcilePending.
  hrun first [hcall safe_analyzeSource by safe_leaf | hcall safe_writeTimeout by safe_leaf
             | hcall safe_checkBudget by safe_leaf
             | hcall safe_startSnapshotting by (first [eassumption | bool_props; subst; naive_solver])]; safe_leaf.
Qed.
#[local] Opaque reconcilePending.

(** ** The fence, before the checkpoint *)

Lemma safe_addFinalizer p h s :
  at_phase p s -> j_deleting (s_job s) = false ->
  wpf M addSourceFenceFinalizer h s (fun h' s' o =>
    at_phase p s' /\ later h h' /\
    (o = None -> has_fence_finalizer (s_job s') = true /\ has_baseline (s_job s') = has_baseline (s_job s))).
Proof.
  intros Hp Hd. unfold addSourceFenceFinalizer, patchJob. hsteps; try exact I.
  all: subst; split; [safe_leaf|split; [later_tac|intros Ho; try discriminate Ho]].
  - by rewrite Hd, orb_false_r in Heqb.
  - apply added_finalizer, H2.
Qed.
#[local] Opaque addSourceFenceFinalizer.

Lemma safe_applyFence pod h s :
  wpf M (applyFence pod) h s (fun h' s' o =>
    s' = s /\ later h h' /\ (o = None -> fence_up h' pod)).
Proof.
  unfold applyFence, patch_label, patch_ready, fence_up. hsteps; bool_props; try exact I; subst.
  all: split; [done|split; [later_tac|intros Ho; try discriminate Ho]].
  all: split; first [by left | right; saw_tac].
Qed.
#[local] Opaque applyFence.

Lemma safe_sourcePod src {R} (Qr : @trace Ev resp -> JobState -> R -> Prop) p h s :
  at_phase p s ->
  wpg M (sourcePod src) h s Qr (fun h' s' o =>
    s' = s /\ extends h h' /\
    match o with
    | inl _ => True
    | inr None => exists ns x, saw h' (EGetPod src ns podName) x /\
        match x with inl err => IsNotFound err = true | inr pod => p_uid pod <> j_targetUID job0 end
    | inr (Some pod) => exists ns, saw h' (EGetPod src ns podName) (inr pod) /\
        (j_targetUID job0 = "" \/ p_uid pod = j_targetUID job0)
    end).
Proof.
  intros (_ & _ & _ & (Hn & Ht & _)%ident_ref). unfold sourcePod. hsteps; subst; rewrite Hn in *.
  all: split; [done|split; [by apply extends_cons, extends_refl|try exact I]].
  - eexists _, _. split; [saw_tac|done].
  - eexists _, _. split; [saw_tac|]. bool_props. by rewrite <- Ht.
  - eexists. split; [saw_tac|]. rewrite <- Ht. apply andb_false_iff in Heqb.
    destruct Heqb; bool_props; auto.
Qed.

Lemma safe_fenceSource p h s :
  at_phase p s -> j_deleting (s_job s) = false ->
  wpf M (fenceSource r now) h s (fun h' s' o =>
    at_phase p s' /\ later h h' /\
    (o = None -> has_baseline (s_job s') = true \/ no_running_source r job0 h')).
Proof.
  intros Hp Hd. unfold fenceSource, patchJob.
  hrun first [hcall safe_addFinalizer by eassumption | hcall safe_applyFence by idtac
    | hbody @sourcePod with safe_sourcePod by eassumption].
  all: cbv beta in *; destruct_and?; subst; try exact I.
  all: try (split; [safe_leaf|split; [later_tac|intros Ho; try discriminate Ho]]).
  all: safe_leaf.
  all: facts.
  - left. destruct H5 as [_ ->]; [done|]. by rewrite baseline_recorded in Heqb.
  - right. eexists _, _, _. split; [saw_tac|]. by right.
  - eapply safe_baseline; [saw_tac|done..|]. erewrite finalizer_same; [|eassumption]. done.
  - left. by eapply written_baseline.
  - by eapply safe_baseline; [saw_tac|..].
  - left. by eapply written_baseline.
  - right. eexists _, _, _. split; [saw_tac|]. by case_match; [|left].
Qed.
#[local] Opaque fenceSource.

(** ** Snapshotting *)

Lemma safe_failSnapshotting key reason message h s :
  at_phase Snapshotting s -> wpf M (failSnapshotting r now key reason message) h s any.
Proof. intros Hp. unfold failSnapshotting. hsteps; safe_leaf. Qed.
#[local] Opaque failSnapshotting.

Lemma safe_failCheckpoint reason message ev h s :
  at_phase Snapshotting s -> wpf M (failCheckpoint r now req_ns req_name podName reason message ev) h s any.
Proof. intros Hp. unfold failCheckpoint. hsteps; safe_leaf. Qed.
#[local] Opaque failCheckpoint.

Lemma safe_startEvicting st h s :
  at_phase Snapshotting s -> ss_phase st = PhaseReady ->
  (exists eng j pod, saw h (ECheckStatus eng j pod) (inr (Some st))) ->
  wpf M (startEvicting r now req_ns req_name st) h s any.
Proof.
  intros Hp Hst (eng & j & pod & Hsaw). unfold startEvicting. hsteps; safe_leaf.
  phase_norm. eapply safe_write; [phase_eq|eassumption|reflexivity|].
  eapply entry_evicting; [phase_eq|phase_eq|]. by exists eng, j, pod, st.
Qed.
#[local] Opaque startEvicting.

Lemma safe_snapshotInProgress st h s :
  at_phase Snapshotting s -> wpf M (snapshotInProgress r now req_ns req_name podName st) h s any.
Proof.
  intros Hp. unfold snapshotInProgress.
  hrun first [hcall safe_failCheckpoint by safe_leaf]; safe_leaf.
Qed.
#[local] Opaque snapshotInProgress.

Lemma safe_reconcileSnapshotting h s :
  at_phase Snapshotting s -> j_deleting (s_job s) = false ->
  wpf M (reconcileSnapshotting r now req_ns req_name podName) h s any.
Proof.
  intros Hp Hd. unfold reconcileSnapshotting.
  hrun first [hcall safe_fenceSource by eassumption | hcall safe_failSnapshotting by (facts; safe_leaf)
             | hcall safe_failCheckpoint by (facts; safe_leaf)
             | hcall safe_startEvicting by (facts; first [assumption | eexists _, _, _; saw_tac])
             | hcall safe_snapshotInProgress by (facts; safe_leaf)]; facts; safe_leaf.
Qed.
#[local] Opaque reconcileSnapshotting.

(** ** Evicting *)

Lemma safe_initEvicting h s :
  at_phase Evicting s ->
  wpf M (initEvictingStartTime now) h s (fun h' s' _ => at_phase Evicting s' /\ later h h').
Proof. intros Hp. unfold initEvictingStartTime. hsteps; safe_leaf. Qed.
#[local] Opaque initEvictingStartTime.

(** The pod is the source, as the pass read it. *)
Definition source_read (h : trace) (pod : Pod) : Prop :=
  saw h (EGetPod Cache req_ns podName) (inr pod) /\ p_uid pod = j_targetUID job0.

Lemma safe_evict h pod :
  j_phase job0 = Evicting -> source_read h pod ->
  safe_call r now req_ns job0 h (EEvict (p_namespace pod) (p_name pod) newPostCheckpointEviction).
Proof. intros H0' [Hs Hu]. eexists _, _, pod. split; [exact Hs|]. repeat split. by left. Qed.

Lemma safe_awaitTermination pod h s :
  at_phase Evicting s -> j_phase job0 = Evicting -> source_read h pod ->
  wpf M (awaitTermination now pod) h s any.
Proof.
  intros Hp He Hs. unfold awaitTermination. hsteps; safe_leaf; by apply safe_evict.
Qed.
#[local] Opaque awaitTermination.

Lemma safe_afterEviction e h s :
  at_phase Evicting s -> wpf M (afterEviction now e) h s any.
Proof. intros Hp. unfold afterEviction. hsteps; safe_leaf. Qed.
#[local] Opaque afterEviction.

Lemma safe_evictSource pod h s :
  at_phase Evicting s -> j_phase job0 = Evicting -> source_read h pod ->
  wpf M (evictSource r now pod) h s any.
Proof.
  intros Hp He [Hs Hu]. unfold evictSource.
  hrun first [hcall safe_awaitTermination by first [assumption | split; [saw_tac|assumption] | safe_close]
             | hcall safe_afterEviction by safe_leaf]; safe_leaf;
    (apply safe_evict; [assumption|split; [saw_tac|assumption]]).
Qed.
#[local] Opaque evictSource.

(** Every listed volume of [pvs] was seen without a blocking attachment. *)
Definition detached_from (origin : string) (h : trace) (pvs : list string) : Prop :=
  forall pv, In pv pvs -> pv <> "" ->
    exists vas, saw h (EListVolumeAttachments pv) (inr vas) /\ existsb (blocks_detach origin) vas = false.

Lemma safe_activeAttachment origin pvs {R} (Qr : @trace Ev resp -> JobState -> R -> Prop) h s :
  wpg M (activeAttachment origin pvs) h s Qr (fun h' s' o =>
    s' = s /\ later h h' /\ (o = inr false -> detached_from origin h' pvs)).
Proof.
  revert h. induction pvs as [|v vs IH]; intros h; simpl; hsteps.
  - split; [done|]. split; [later_tac|]. by intros _ ? [].
  - bool_props. subst. eapply wpg_weaken; [apply IH|]. intros h' s' o (-> & Hl & Hd).
    split; [done|]. split; [done|]. intros Ho pv [<-|Hin] Hne; [done|]. by apply Hd.
  - split; [done|]. split; [later_tac|done].
  - split; [done|]. split; [later_tac|done].
  - subst. eapply wpg_weaken; [apply IH|]. intros h' s' o (-> & Hl & Hd).
    split; [done|]. split; [eapply later_trans; [|exact Hl]; later_tac|].
    intros Ho pv [<-|Hin] Hne; [|by apply Hd]. eexists. split; [|eassumption]. saw_tac.
Qed.

Lemma safe_removeFinalizer p h s :
  at_phase p s -> wpf M removeSourceFenceFinalizer h s (fun _ s' _ => at_phase p s').
Proof. intros Hp. unfold removeSourceFenceFinalizer, patchJob. hsteps; subst; safe_leaf. Qed.

Lemma safe_dropFinalizer h s :
  onward job0 s -> wpf M removeSourceFenceFinalizer h s any.
Proof. intros Hp. unfold removeSourceFenceFinalizer, patchJob. hsteps; subst; safe_leaf. Qed.
#[local] Opaque removeSourceFenceFinalizer.

Lemma safe_startRestoring h s :
  at_phase Evicting s -> source_absent req_ns job0 h -> volumes_detached h (s_job s) -> trigger_cleaned h ->
  wpf M (startRestoring now req_ns req_name) h s any.
Proof.
  intros Hp Ha Hv Hc. unfold startRestoring.
  hrun first [hcall safe_dropFinalizer by safe_leaf]; safe_leaf.
  phase_norm. eapply safe_write; [phase_eq|eassumption|reflexivity|].
  by eapply entry_restoring; [phase_eq|phase_eq|..].
Qed.
#[local] Opaque startRestoring.

Lemma absent_later h h' : source_absent req_ns job0 h -> later h h' -> source_absent req_ns job0 h'.
Proof.
  intros [(e & Hs & He)|(p & Hs & He)] Hl; [left; exists e|right; exists p]; (split; [|done]); by eapply later_In.
Qed.

Lemma safe_sourceGone h s :
  at_phase Evicting s -> source_absent req_ns job0 h ->
  wpf M (sourceGone r now req_ns req_name podName) h s any.
Proof.
  intros Hp Ha. unfold sourceGone.
  hrun first
    [ hcall safe_startRestoring by (facts; first
        [ safe_close | eapply absent_later; [exact Ha|]; later_tac | eexists _, _, _; saw_tac
        | intros pv Hin Hne; match goal with H : detached_from _ _ _ |- _ => by apply H end ])
    | hbody @activeAttachment with safe_activeAttachment by idtac ]; safe_leaf.
Qed.
#[local] Opaque sourceGone.

Lemma safe_reconcileEvicting h s :
  at_phase Evicting s -> j_phase job0 = Evicting ->
  wpf M (reconcileEvicting r now req_ns req_name podName) h s any.
Proof.
  intros Hp He. unfold reconcileEvicting.
  hrun first
    [ hcall safe_initEvicting by eassumption
    | hcall safe_sourceGone by (facts; bool_props; first
        [ eassumption
        | left; eexists; split; [saw_tac|assumption]
        | right; eexists; split; [saw_tac|]; erewrite <- at_phase_target; eassumption ])
    | hcall safe_evictSource by (facts; bool_props; first
        [ eassumption | split; [saw_tac|]; erewrite <- at_phase_target; eassumption ]) ]; facts; safe_leaf.
Qed.
#[local] Opaque reconcileEvicting.

(** ** Restoring *)

Definition live_read (h : trace) (pod : Pod) : Prop :=
  exists ns name, saw h (EGetPod (liveReader r) ns name) (inr pod).

(** The crash is on record: the job came with it, or a status write put it there on a live verdict. *)
Definition crash_known (h : trace) (pod : Pod) : Prop :=
  crash_recorded job0 \/
  (exists orig new j engines, saw h (EPatchJobStatus orig new) (inr j) /\ crash_recorded new /\
     f_class (Classify (Some pod) engines) = FailureFatal).

Lemma safe_deleteCrashed pod h s :
  live_read h pod -> crash_known h pod ->
  wpf M (deleteCrashedPod pod) h s (fun h' s' _ => s' = s /\ later h h').
Proof.
  intros Hl Hc. unfold deleteCrashedPod. hsteps; safe_leaf; repeat split; auto; later_tac.
Qed.
#[local] Opaque deleteCrashedPod.

Lemma known_later h h' pod : crash_known h pod -> later h h' -> crash_known h' pod.
Proof.
  intros [Hc|(o & n & j & e & Hs & Hr)] Hl; [by left|]. right. exists o, n, j, e. split; [by eapply later_In|done].
Qed.

Lemma live_later h h' pod : live_read h pod -> later h h' -> live_read h' pod.
Proof. intros (n & m & Hs) Hl. exists n, m. by eapply later_In. Qed.

Lemma safe_ensureCrashed prefetched h s :
  (forall pod, prefetched = Some pod -> live_read h pod /\ crash_known h pod) ->
  (prefetched = None -> crash_recorded job0) ->
  wpf M (ensureCrashedReplacementPodDeleted r prefetched) h s (fun h' s' _ => s' = s /\ later h h').
Proof.
  intros H1' H2'. unfold ensureCrashedReplacementPodDeleted.
  hrun first [hcall safe_deleteCrashed by first
    [ by apply H1' | eexists _, _; saw_tac | left; by apply H2' ]].
  all: facts; repeat split; later_tac.
Qed.
#[local] Opaque ensureCrashedReplacementPodDeleted.

(** RestoreCrashed stays True through the conditions set after it. *)
Ltac crash_tac :=
  match goal with
  | H : SetStatusCondition _ _ _ = (?l, _) |- IsStatusConditionTrue _ ?t = true =>
      change (IsStatusConditionTrue l t = true);
      first [ exact (set_true _ _ _ _ _ H eq_refl)
            | rewrite (true_same _ _ _ (set_other _ _ _ _ _ t H ltac:(vm_compute; discriminate))); crash_tac ]
  | H : forall t, _ -> FindStatusCondition ?l t = _ |- IsStatusConditionTrue _ ?t = true =>
      change (IsStatusConditionTrue l t = true);
      rewrite (true_same _ _ _ (H t ltac:(vm_compute; discriminate))); crash_tac
  end.

Lemma safe_crash pod v h s engines :
  at_phase Restoring s -> live_read h pod -> f_class (Classify (Some pod) engines) = FailureFatal ->
  wpf M (concludeRestoreCrash r now req_ns req_name pod v) h s any.
Proof.
  intros Hp Hl Hv. unfold concludeRestoreCrash.
  hrun first [hcall safe_ensureCrashed by first [done | intros ? [= <-]; split;
    [ eapply live_later; [exact Hl|]; later_tac
    | right; eexists _, _, _, engines; split; [saw_tac|split; [split; [reflexivity|crash_tac]|exact Hv]] ]]].
  all: facts; subst; safe_leaf.
Qed.
#[local] Opaque concludeRestoreCrash.

Lemma accepted_later h h' : restore_accepted r now job0 h -> later h h' -> restore_accepted r now job0 h'.
Proof.
  intros (src & ns & nm & pod & j & cf & Hs & H1' & H2' & H3' & H4' & H5') Hl.
  exists src, ns, nm, pod, j, cf. split; [by eapply later_In|]. do 3 (split; [done|]). split; [|done].
  destruct H4' as [(e & j' & v & Hs' & Hv)|]; [left|by right]. exists e, j', v. split; [by eapply later_In|done].
Qed.

Lemma safe_concludeRestored pod e v h s :
  at_phase Restoring s -> restore_accepted r now job0 h ->
  wpf M (concludeRestored r now req_ns req_name pod e v) h s any.
Proof.
  intros Hp Ha. unfold concludeRestored.
  hsteps; safe_leaf; phase_norm.
  all: eapply safe_write; [phase_eq|eassumption|reflexivity|].
  all: eapply entry_succeeded; [phase_eq|phase_eq|].
  all: first [exact Ha | eapply accepted_later; [exact Ha|]; later_tac].
Qed.
#[local] Opaque concludeRestored.

Lemma safe_withoutRestore pod e v h s :
  at_phase Restoring s -> wpf M (concludeWithoutRestore now pod e v) h s any.
Proof. intros Hp. unfold concludeWithoutRestore. hsteps; safe_leaf. Qed.
#[local] Opaque concludeWithoutRestore.

Lemma safe_lost pod e n c h s :
  at_phase Restoring s -> wpf M (concludeRestoreLost r now pod e n c) h s any.
Proof. intros Hp. unfold concludeRestoreLost. hsteps; safe_leaf. Qed.
#[local] Opaque concludeRestoreLost.

Lemma safe_initRestoring h s :
  at_phase Restoring s ->
  wpf M (initRestoringStartTime now) h s (fun h' s' _ => at_phase Restoring s' /\ later h h').
Proof. intros Hp. unfold initRestoringStartTime. hsteps; safe_leaf. Qed.
#[local] Opaque initRestoringStartTime.

(** A pod that was Ready for the window needs no more time. *)
Lemma stable_at_ceiling job pod since :
  effectiveReadySince pod job now = (since, true) ->
  (rc_restoreStabilizationWindow r <=? 0) || (rc_restoreStabilizationWindow r <=? Sub now since) = true ->
  stabilizationRemainingAt r job pod now <= 0.
Proof.
  intros He Hw. unfold stabilizationRemainingAt. rewrite He.
  destruct (rc_restoreStabilizationWindow r <=? 0) eqn:Hz; [done|]. simpl in Hw. bool_props.
  destruct (negb true || IsZero since); [done|].
  pose proof (Sub_range now since).
  rewrite i64_id; [|unfold is_int64, int64_min, int64_max in *; lia].
  destruct (0 <? _) eqn:Hr; bool_props; [lia|done].
Qed.

Lemma ready_since pod job since : effectiveReadySince pod job now = (since, true) -> isPodReady pod = true.
Proof. unfold effectiveReadySince. by destruct (isPodReady pod). Qed.

(** What the reads of the phase establish. *)
Definition recorded_pod (job : PodMigrationJob) (pod : Pod) : Prop :=
  j_restoredPodUID job = "" \/ p_uid pod = j_restoredPodUID job.

Lemma safe_classifyLive {R} (Qr : @trace Ev resp -> JobState -> R -> Prop) h s :
  wpg M (classifyRecordedPodLive r) h s Qr (fun h' s' o =>
    s' = s /\ later h h' /\
    match o with
    | inr (Some pod, v) => live_read h' pod /\ v = Classify (Some pod) (restoreEngines r (s_job s)) /\
                           recorded_pod (s_job s) pod
    | _ => True
    end).
Proof.
  unfold classifyRecordedPodLive, recorded_pod. hsteps; subst; (split; [done|split; [later_tac|try exact I]]).
  split; [eexists _, _; saw_tac|split; [done|]]. apply andb_false_iff in Heqb0 as [|]; bool_props; auto.
Qed.
#[local] Opaque classifyRecordedPodLive.

Definition verdict_seen (h : trace) (j : PodMigrationJob) (pod : Pod) (v : RestoreVerdict) : Prop :=
  rv_outcome v = Restored ->
  (exists eng j', saw h (EVerifyRestore eng j' pod) (inr v)) \/
  (rv_confirmed v = false /\ e_isVerifier (jobEngine r j) = false).

Lemma safe_restoreVerdict pod {R} (Qr : @trace Ev resp -> JobState -> R -> Prop) h s :
  wpg M (restoreVerdict pod (jobEngine r (s_job s))) h s Qr (fun h' s' y =>
    s' = s /\ later h h' /\ match y with inr v => verdict_seen h' (s_job s) pod v | inl _ => True end).
Proof.
  unfold restoreVerdict. hsteps; subst; (split; [done|split; [later_tac|]]).
  - case_match; [done|]. left. eexists _, _. saw_tac.
  - done.
  - by right.
Qed.
#[local] Opaque restoreVerdict.

Lemma verdict_later h h' j pod v : verdict_seen h j pod v -> later h h' -> verdict_seen h' j pod v.
Proof.
  intros Hv Hl Ho. destruct (Hv Ho) as [(e & j' & Hs)|]; [left|by right]. exists e, j'. by eapply later_In.
Qed.

Lemma accept_restored h src ns name pod j v :
  saw h (EGetPod src ns name) (inr pod) -> isPodReady pod = true -> fst (containerRestarts pod) <= 0 ->
  (exists jr, ident jr = ident job0 /\ recorded_pod jr pod) ->
  verdict_seen h j pod v -> rv_outcome v = Restored ->
  rv_confirmed v = true \/ stabilizationRemainingAt r j pod now <= 0 ->
  restore_accepted r now job0 h.
Proof.
  intros Hs Hr Hc Hj Hv Ho Hst. exists src, ns, name, pod, j, (rv_confirmed v).
  do 4 (split; [done|]). split; [|done].
  destruct (Hv Ho) as [(eng & j' & Hs')|]; [left|by right]. by exists eng, j', v.
Qed.

Ltac accept_tac :=
  unfold live_read in *; facts;
  eapply accept_restored;
    [ saw_tac | first [assumption | eapply ready_since; eassumption]
    | first [lia | match goal with H : containerRestarts _ = _ |- _ => rewrite H; simpl; lia end]
    | eexists; split; [|eassumption]; phase_norm; assumption
    | eapply verdict_later; [eassumption|]; later_tac
    | eapply bool_decide_eq_true_1; eassumption
    | ].

Lemma safe_ceilingConsumed h s :
  at_phase Restoring s ->
  wpf M (ceilingConsumed r now req_ns req_name) h s
    (fun _ s' o => match o with Some _ => onward job0 s' | None => at_phase Restoring s' end).
Proof.
  intros Hp. unfold ceilingConsumed.
  hrun first
    [ hcall safe_crash by (facts; subst; first [eassumption | eapply bool_decide_eq_true_1; eassumption])
    | hcall safe_concludeRestored by (facts; bool_props; subst; first
        [ eassumption | accept_tac; right; eapply stable_at_ceiling; eassumption ])
    | hbody @classifyRecordedPodLive with safe_classifyLive by idtac
    | hbody @restoreVerdict with safe_restoreVerdict by idtac ]; safe_leaf.
Qed.
#[local] Opaque ceilingConsumed.

Lemma safe_ceiling h s :
  at_phase Restoring s -> wpf M (restoreCeilingReached r now req_ns req_name) h s any.
Proof.
  intros Hp. unfold restoreCeilingReached.
  hrun first [hcall safe_ceilingConsumed by assumption]; facts; safe_leaf.
Qed.
#[local] Opaque restoreCeilingReached.

Lemma safe_mismatch pod h s :
  at_phase Restoring s -> wpf M (replacementMismatch r now req_ns req_name pod) h s any.
Proof. intros Hp. unfold replacementMismatch. hsteps; safe_leaf. Qed.
#[local] Opaque replacementMismatch.

Lemma safe_notReady pod h s :
  at_phase Restoring s -> wpf M (replacementNotReady r now req_ns req_name pod) h s any.
Proof.
  intros Hp. unfold replacementNotReady.
  hrun first
    [ hcall safe_crash by (facts; subst; first [eassumption | eapply bool_decide_eq_true_1; eassumption])
    | hcall safe_withoutRestore by safe_leaf
    | hbody @classifyRecordedPodLive with safe_classifyLive by idtac
    | hbody @restoreVerdict with safe_restoreVerdict by idtac ]; facts; safe_leaf.
Qed.
#[local] Opaque replacementNotReady.

(** The pod the pass read as the job's replacement. *)
Definition replacement_read (h : trace) (pod : Pod) : Prop :=
  (exists src ns nm, saw h (EGetPod src ns nm) (inr pod)) /\
  (exists jr, ident jr = ident job0 /\ recorded_pod jr pod).

Lemma safe_ready pod h s :
  at_phase Restoring s -> isPodReady pod = true -> replacement_read h pod ->
  wpf M (replacementReady r now req_ns req_name pod) h s any.
Proof.
  intros Hp Hr [(src & ns & nm & Hs) (jr & Hj & Hu)]. unfold replacementReady.
  hrun first
    [ hcall safe_withoutRestore by safe_leaf
    | hcall safe_lost by safe_leaf
    | hcall safe_concludeRestored by (facts; bool_props; subst; first
        [ eassumption | accept_tac; destruct (rv_confirmed _); [by left|by right] ])
    | hbody @restoreVerdict with safe_restoreVerdict by idtac ]; facts; safe_leaf.
Qed.
#[local] Opaque replacementReady.

Lemma safe_selfHeal pod (Qr : @trace Ev resp -> JobState -> Outcome -> Prop) h s :
  (forall h s o, onward job0 s -> Qr h s o) -> at_phase Restoring s ->
  wpg M (selfHeal pod) h s Qr (fun h' s' _ => at_phase Restoring s' /\ later h h').
Proof. intros HQ Hp. unfold selfHeal. hsteps; first [apply HQ; safe_close | safe_leaf]. Qed.
#[local] Opaque selfHeal.

Lemma safe_reconcileRestoring h s :
  at_phase Restoring s -> wpf M (reconcileRestoring r now req_ns req_name) h s any.
Proof.
  intros Hp. unfold reconcileRestoring.
  hrun first
    [ hcall safe_initRestoring by assumption
    | hcall safe_ceiling by (facts; assumption) | hcall safe_mismatch by (facts; assumption)
    | hcall safe_notReady by (facts; assumption)
    | hbody @selfHeal with safe_selfHeal by (facts; first [done | assumption])
    | hcall safe_ready by (facts; bool_props; first [assumption | split;
        [ eexists _, _, _; saw_tac | eexists; split; [|by right] ]; phase_norm; eassumption ]) ]; facts; safe_leaf.
Qed.
#[local] Opaque reconcileRestoring.

(** ** Settling the fence *)

(** The pod is the job's source, as the pass read it. *)
Definition source_seen (h : trace) (pod : Pod) : Prop :=
  (exists src ns, saw h (EGetPod src ns podName) (inr pod)) /\
  (j_targetUID job0 = "" \/ p_uid pod = j_targetUID job0).

Lemma seen_later h h' pod : source_seen h pod -> later h h' -> source_seen h' pod.
Proof. intros [(src & ns & Hs) Hu] Hl. split; [|done]. exists src, ns. by eapply later_In. Qed.

Ltac seen_tac :=
  facts; first [ assumption | eapply seen_later; [eassumption|]; later_tac | split; [eexists _, _; saw_tac|assumption] ].

Lemma safe_removeLabel pod h s :
  wpf M (removeFenceLabel pod) h s (fun h' s' _ => s' = s /\ later h h').
Proof. unfold removeFenceLabel, patch_label. hsteps; safe_leaf. Qed.
#[local] Opaque removeFenceLabel.

Lemma safe_evictKept pod p h s :
  at_phase p s -> source_seen h pod -> wpf M (evictKeptSource pod) h s (fun _ s' _ => at_phase p s').
Proof.
  intros Hp [(src & ns & Hs) Hu]. unfold evictKeptSource.
  hrun first [hcall safe_applyFence by idtac]; facts; safe_leaf.
  exists src, ns, pod. split; [saw_tac|]. do 2 (split; [done|]). right. split; [by destruct (p_uid pod !=s "")|].
  split; [done|congruence].
Qed.
#[local] Opaque evictKeptSource.

Lemma safe_keep pod why p h s :
  at_phase p s -> source_seen h pod -> wpf M (keepSourceFenced r now pod why) h s (fun _ s' _ => at_phase p s').
Proof.
  intros Hp Hs. unfold keepSourceFenced.
  hrun first [hcall safe_evictKept by first [seen_tac | safe_close]]; safe_leaf.
Qed.
#[local] Opaque keepSourceFenced.

Lemma safe_unfence pod cond why w p h s :
  at_phase p s -> wpf M (unfenceSource r now pod cond why w) h s (fun _ s' _ => at_phase p s').
Proof.
  intros Hp. unfold unfenceSource. hrun first [hcall safe_removeLabel by idtac]; facts; safe_leaf.
Qed.
#[local] Opaque unfenceSource.

Lemma safe_settle cond b t c why p h s :
  at_phase p s -> wpf M (settleSource r now cond b t c why) h s (fun _ s' _ => at_phase p s').
Proof.
  intros Hp. unfold settleSource.
  hrun first [hcall safe_keep by first [eassumption | seen_tac] | hcall safe_unfence by eassumption
             | hbody @sourcePod with safe_sourcePod by eassumption]; safe_leaf.
Qed.
#[local] Opaque settleSource.

Lemma safe_decide cond p h s :
  at_phase p s -> wpf M (decideSourceFence r now cond) h s (fun _ s' _ => at_phase p s').
Proof.
  intros Hp. unfold decideSourceFence, checkpointOutcome.
  hrun first [hcall safe_settle by eassumption | hcall safe_unfence by eassumption
             | hbody @sourcePod with safe_sourcePod by eassumption]; safe_leaf.
Qed.
#[local] Opaque decideSourceFence.

Lemma safe_watch cond pod p h s :
  at_phase p s -> wpf M (watchUnfencedSource r now cond pod) h s (fun _ s' _ => at_phase p s').
Proof.
  intros Hp. unfold watchUnfencedSource.
  hrun first [hcall safe_removeLabel by idtac | hcall safe_evictKept by first [seen_tac | safe_close]
             | hbody @sourcePod with safe_sourcePod by eassumption]; safe_leaf.
Qed.
#[local] Opaque watchUnfencedSource.

(** An active job's fence is left alone. *)
Lemma safe_resolve p h s :
  at_phase p s ->
  wpf M (resolveSourceFence r now) h s (fun h' s' o =>
    at_phase p s' /\ (Active p -> s' = s /\ h' = h /\ o = (NoRequeue, false, None))).
Proof.
  intros Hp. unfold resolveSourceFence.
  hrun first [hcall safe_decide by eassumption | hcall safe_evictKept by first [eassumption | seen_tac]
             | hcall safe_watch by eassumption
             | hbody @sourcePod with safe_sourcePod by eassumption];
    (split; [safe_leaf|intros Ha]).
  all: first [ done | exfalso; match goal with H : negb _ && negb _ = false |- _ => exact (not_active _ _ _ Hp H Ha) end ].
Qed.
#[local] Opaque resolveSourceFence.

Lemma safe_failDeleted p h s :
  at_phase p s -> Active p ->
  wpf M (failDeleted r now) h s (fun _ s' o => onward job0 s' /\ (o = None -> at_phase Failed s')).
Proof.
  intros Hp Ha. unfold failDeleted. hsteps; destruct (completionTime _); safe_leaf.
Qed.
#[local] Opaque failDeleted.

Lemma safe_finalize p h s :
  at_phase p s -> wpf M (finalizeSourceFence r now) h s any.
Proof.
  intros Hp. unfold finalizeSourceFence.
  hrun first
    [ hcall safe_failDeleted by (first [eassumption | eapply active_of; eassumption])
    | hcall safe_resolve by (facts; eassumption)
    | hbody @sourcePod with safe_sourcePod by (facts; eassumption)
    | hcall safe_dropFinalizer by (facts; first [assumption | eapply at_phase_onward; eassumption]) ]; facts; safe_leaf.
Qed.
#[local] Opaque finalizeSourceFence.

(** ** A concluded job *)

Lemma safe_deleteZombie k n a t h s :
  collect_evidence now h (s_job s) None ->
  wpf M (deleteZombie r k n a t) h s (fun _ s' _ => s' = s).
Proof. intros Hc. unfold deleteZombie. hsteps; safe_leaf; exact Hc. Qed.
#[local] Opaque deleteZombie.

Lemma safe_getWorkload {R} (Qr : @trace Ev resp -> JobState -> R -> Prop) kind ns name h s :
  wpg M (getWorkload kind ns name) h s Qr (fun h' s' o =>
    s' = s /\ later h h' /\ (forall w, o = inr (Some w) -> workload_seen h' w)).
Proof.
  unfold getWorkload. hsteps; subst; (split; [done|split; [later_tac|intros w' [=]; subst]]).
  left. eexists _, _, _. saw_tac.
Qed.
#[local] Opaque getWorkload.

Lemma safe_targetWorkload {R} (Qr : @trace Ev resp -> JobState -> R -> Prop) j name kind h s :
  wpg M (targetWorkload j name kind) h s Qr (fun h' s' o =>
    s' = s /\ later h h' /\ (forall w, o = inr (Some w) -> workload_seen h' w)).
Proof.
  unfold targetWorkload.
  hrun first [hbody @getWorkload with safe_getWorkload by idtac]; facts; subst;
    (split; [done|split; [later_tac|]]); try done; intros w' [=]; subst; auto.
  right. eexists _, _, _. split; [saw_tac|]. by eapply find_some.
Qed.
#[local] Opaque targetWorkload.

Lemma workload_later h h' w : workload_seen h w -> later h h' -> workload_seen h' w.
Proof.
  intros [(k & n & m & Hs)|(n & m & ws & Hs & Hw)] Hl; [left|right].
  - exists k, n, m. by eapply later_In.
  - exists n, m, ws. split; [by eapply later_In|done].
Qed.

Lemma judged_pods job pods b n :
  judgePods job pods = Some (b, n) ->
  (j_targetUID job !=s "") && existsb (fun p => (p_uid p ==s j_targetUID job) && negb (p_deleting p)) pods = false /\
  n = countActiveWorkloadPods pods job.
Proof. unfold judgePods. destruct (_ && existsb _ _); [done|]. by intros [= _ <-]. Qed.

Lemma safe_zombie h s :
  onward job0 s -> j_phase (s_job s) = SucceededWithoutRestore ->
  wpf M (cleanupScaleDownZombie r) h s (fun _ s' _ => s' = s).
Proof.
  intros Hp Hs. unfold cleanupScaleDownZombie.
  hrun first [hbody @targetWorkload with safe_targetWorkload by idtac]; safe_leaf.
  all: facts; subst; bool_props.
  all: match goal with H : match ?x with _ => _ end = inr false, H' : match ?y with _ => _ end = inr false |- _ =>
         destruct x as [?|pods], y as [?|[|? ?]]; try discriminate end.
  all: apply wpg_invoke; eapply wpf_conseq; [apply safe_deleteZombie|by intros ? ? ? ->].
  all: (split; [by rewrite Hs|]); (split; [done|]); split.
  1,3: exists pods; (split; [saw_tac|]); congruence.
  all: right; (split; [done|split; [done|split; [saw_tac|]]]); exists w; split.
  all: lazymatch goal with
       | |- workload_seen _ _ => eapply workload_later; [eauto|later_tac]
       | H : judgePods _ _ = Some _ |- _ => apply judged_pods in H as [Hj ->]; right
       | |- _ => left
       end.
  - eexists _, _. split; [eassumption|]. split; [saw_tac|]. by split.
  - split; [done|lia].
Qed.
#[local] Opaque cleanupScaleDownZombie.

Lemma safe_collect p h s :
  at_phase p s -> IsTerminalPhase p = true -> wpf M (collectGarbage r now) h s any.
Proof.
  intros Hp Ht. unfold collectGarbage.
  hrun first [hcall safe_zombie by (bool_props; first
    [eapply at_phase_onward; eassumption | eapply bool_decide_eq_true_1; eassumption])]; facts; subst; safe_leaf.
  all: destruct Hp as (Hp & _ & _ & _); (split; [by rewrite Hp|]); (split; [done|]); bool_props; split;
    [|left; by eexists].
  all: match goal with H : match ?x with _ => _ end = inr false |- _ => destruct x as [?|pods]; [done|] end.
  all: exists pods; (split; [saw_tac|]); congruence.
Qed.
#[local] Opaque collectGarbage.

(** ** The prologue *)

Lemma safe_engineMissing p h s :
  at_phase p s -> Active p -> wpf M (failEngineNotRegistered r now) h s any.
Proof. intros Hp Ha. unfold failEngineNotRegistered. hsteps; safe_leaf. Qed.
#[local] Opaque failEngineNotRegistered.

Lemma safe_initialize h s :
  at_phase PhaseEmpty s -> wpf M (initializePhase req_ns req_name) h s any.
Proof. intros Hp. unfold initializePhase. hsteps; safe_leaf. Qed.
#[local] Opaque initializePhase.

Lemma safe_blocked m h s :
  at_phase Evicting s -> wpf M (concludeBlockedEviction now podName m) h s any.
Proof. intros Hp. unfold concludeBlockedEviction. hsteps; safe_leaf. Qed.
#[local] Opaque concludeBlockedEviction.

Lemma safe_timedOut t p h s :
  at_phase p s -> Active p -> wpf M (failTimedOut r now req_ns req_name podName t) h s any.
Proof. intros Hp Ha. unfold failTimedOut. hsteps; safe_leaf. Qed.
#[local] Opaque failTimedOut.

Lemma safe_enforce (Qr : @trace Ev resp -> JobState -> Outcome -> Prop) p h s :
  (forall h s o, onward job0 s -> Qr h s o) -> at_phase p s ->
  wpg M (enforceTimeout r now req_ns req_name podName) h s Qr (fun _ s' _ => s' = s).
Proof.
  intros HQ Hp. unfold enforceTimeout.
  hrun first [hcall safe_blocked by (bool_props; eapply at_phase_eq; eassumption)
             | hcall safe_timedOut by (first [eassumption | eapply active_in; eassumption])];
    first [reflexivity | apply HQ; safe_close].
Qed.
#[local] Opaque enforceTimeout.

(** The settlement of a job as it was read; an active job is left as it is. *)
Lemma safe_settleConcluded (Qr : @trace Ev resp -> JobState -> Outcome -> Prop) p h :
  (forall h s o, onward job0 s -> Qr h s o) -> at_phase p (mkJobState job0 job0) ->
  wpg M (settleConcluded r now) h (mkJobState job0 job0) Qr
    (fun _ s' _ => at_phase p s' /\ (Active p -> s' = mkJobState job0 job0)).
Proof.
  intros HQ Hp. unfold settleConcluded.
  hrun first
    [ hcall safe_ensureCrashed by first [done | intros _; bool_props; split; [eapply bool_decide_eq_true_1; eassumption|assumption]]
    | hcall safe_resolve by eassumption
    | hcall safe_removeFinalizer by (facts; eassumption) ];
    facts; try (apply HQ; eapply at_phase_onward; eassumption); (split; [assumption|intros Ha]).
  all: match goal with
       | H : at_phase ?q ?s, H' : IsTerminalPhase (j_phase (s_job ?s)) = true |- _ =>
           exfalso; destruct H as [<- _]; unfold Active in Ha; congruence
       | H : Active _ -> _ |- _ => by apply H
       end.
Qed.
#[local] Opaque settleConcluded.

(** ** The pass *)

(** The state of a pass that has just read the job. *)
Abbreviation fresh := (mkJobState job0 job0).

Lemma fresh_at : at_phase (j_phase job0) fresh.
Proof. repeat split. apply reach_refl. Qed.

Lemma active_phase s p :
  at_phase (j_phase job0) s -> j_phase (s_job s) = p -> Active p -> Active (j_phase job0).
Proof. intros [<- _] ->. done. Qed.

(** An active job is dispatched as it was read. *)
Ltac as_read :=
  match goal with
  | H : at_phase _ ?s, H' : Active _ -> ?s = _ |- _ =>
      pose proof (H' (active_phase _ _ H ltac:(eassumption) eq_refl)); clear H'; subst s
  end.

Lemma safe_reconcileJob h :
  wpf M (reconcileJob r now req_ns req_name podName) h fresh any.
Proof.
  pose proof fresh_at as Hp. unfold reconcileJob.
  hrun first
    [ hcall safe_finalize by eassumption
    | hcall safe_initialize by (eapply at_phase_eq; eassumption)
    | hcall safe_engineMissing by (first [eassumption | eapply active_of; eassumption])
    | hbody @enforceTimeout with safe_enforce by (first [done | eassumption])
    | hbody @settleConcluded with safe_settleConcluded by (first [done | eassumption])
    | hcall safe_collect by (facts; first [eapply at_phase_job; eassumption | reflexivity])
    | hcall safe_reconcilePending by (facts; eapply at_phase_job; eassumption)
    | hcall safe_reconcileSnapshotting by (facts; first [eapply at_phase_job; eassumption | as_read; assumption])
    | hcall safe_reconcileEvicting by (facts; first [eapply at_phase_job; eassumption | as_read; assumption])
    | hcall safe_reconcileRestoring by (facts; eapply at_phase_job; eassumption) ];
    facts; first [assumption | eapply at_phase_onward; eassumption | safe_leaf].
Qed.
#[local] Opaque reconcileJob.

Lemma safe_violation v res h s :
  onward job0 s -> Active (j_phase (s_job s)) -> wpf M (failViolation r now v res) h s any.
Proof.
  intros [Hr Hi] Ha. assert (at_phase (j_phase (s_job s)) (mkJobState (s_job s) (s_job s))) as Hq by done.
  clear Hr Hi. remember (j_phase (s_job s)) as p eqn:Hp. symmetry in Hp.
  unfold failViolation. hsteps; try match goal with H : ?x = inr _ |- _ => subst x end; safe_leaf.
Qed.
#[local] Opaque failViolation.

Lemma safe_evaluate o h s : onward job0 s -> wpf M (evaluateInvariants r now o) h s any.
Proof.
  intros Hp. unfold evaluateInvariants, gatherInvariants.
  hrun first [hcall safe_violation by (bool_props; first [assumption | by apply negb_true_iff])]; safe_leaf.
Qed.
#[local] Opaque evaluateInvariants.

Lemma safe_reconcileRead h : wpf M (reconcileRead r now req_ns req_name) h fresh any.
Proof.
  unfold reconcileRead. hrun first [hcall safe_reconcileJob by idtac | hcall safe_evaluate by eassumption]; safe_leaf.
Qed.

(** A pass that read the job [job0] makes only calls that the contract allows. *)
Lemma safe_Reconcile t o :
  exec (Reconcile r now req_ns req_name) (existT (EGetJob Cache req_ns req_name) (inr job0) :: t) o ->
  fair M t -> obeys M [] t.
Proof.
  intros Hx Hf. apply exec_answered in Hx.
  apply exec_pbind in Hx as (t1 & t2 & [s' o'] & -> & Hx & Hd). apply exec_inv in Hd as [-> _].
  rewrite app_nil_r in *. exact (proj1 (wpf_exec _ _ _ _ _ _ _ (safe_reconcileRead []) Hx Hf)).
Qed.

End Handlers.
