(* ===== verification/PassSafety.v ===== *)
(** * What a pass never does

    The consequences of the contract, one by one, of a whole pass of [Reconcile]
    over the job it read: the calls, the answers and the result are arbitrary,
    but for [honest] answers to the writes of the job.  [before] is the calls
    made before, newest first. *)
From S2P Require Import Prelude Effects GoLib Kube Interfaces Calls Classifier Engine PodUtil Timeout JobBase Fence Budget.
From S2P Require Import Instances JobPhases Restore JobLogic JobReconcile SafetySpec JobSafety.

Section Pass.
Context `{KubeLib} `{JitterLib} `{SelectorLib}.
Context (r : Reconciler) (now : Z) (ns name : string) (job : PodMigrationJob).
Context (before after : @trace Ev resp) (o : Outcome).

(** The pass read [job] and, after the calls [before], called [e]. *)
Definition pass_calls (e : Ev) (x : resp e) : Prop :=
  let t := (rev before ++ existT e x :: after)%list in
  exec (Reconcile r now ns name) (existT (EGetJob Cache ns name) (inr job) :: t) o /\
  Forall (fun s => honest (projT1 s) (projT2 s)) t.

Lemma pass_allowed e x : pass_calls e x -> safe_call r now ns job before e.
Proof.
  intros [Hx Hf]. apply safe_Reconcile in Hx; [|exact Hf]. apply obeys_at in Hx. by rewrite rev_involutive in Hx.
Qed.

(** Entering a phase is a transition, with its evidence. *)
Lemma pass_enters orig new x :
  pass_calls (EPatchJobStatus orig new) x -> j_phase new <> j_phase orig ->
  match j_phase new with
  | Evicting => snapshot_ready before new
  | Restoring => source_absent ns job before /\ volumes_detached before new /\ trigger_cleaned before
  | Succeeded => restore_accepted r now job before
  | _ => True
  end.
Proof.
  intros (_ & He & Hev)%pass_allowed Hne. unfold entry_evidence in Hev.
  destruct (j_phase orig), (j_phase new); try done.
Qed.


(** A terminal phase is final: every status write of a pass over a job that
    was read Succeeded, SucceededWithoutRestore or Failed has that same phase
    (the fence's settlement changes conditions only). *)
Theorem reconcile_terminal_is_final orig new x :
  pass_calls (EPatchJobStatus orig new) x -> IsTerminalPhase (j_phase job) = true -> j_phase new = j_phase job.
Proof.
  intros (Hr & He & _)%pass_allowed Ht. apply (reach_terminal _ _ Ht). by eapply reach_step.
Qed.

(** C2: A job enters Evicting (its source may be killed from there on) only in a
    pass whose engine reported the snapshot Ready, and it records the reference
    the engine gave. *)
Theorem evicts_after_ready_snapshot orig new x :
  pass_calls (EPatchJobStatus orig new) x -> j_phase new = Evicting -> j_phase orig <> Evicting ->
  snapshot_ready before new.
Proof. intros Hc Hn Ho. pose proof (pass_enters _ _ _ Hc) as He. rewrite Hn in He. apply He. congruence. Qed.

(** C3: A job enters Restoring only after the pass saw the source gone (not
    found, or its name taken by another UID), every recorded volume without an
    attachment on the source's node, and its engine's trigger deleted. *)
Theorem restores_after_source_gone orig new x :
  pass_calls (EPatchJobStatus orig new) x -> j_phase new = Restoring -> j_phase orig <> Restoring ->
  source_absent ns job before /\ volumes_detached before new /\ trigger_cleaned before.
Proof. intros Hc Hn Ho. pose proof (pass_enters _ _ _ Hc) as He. rewrite Hn in He. apply He. congruence. Qed.


(** The engine is told that the restore is complete (it may then drop the
    snapshot) only for an accepted restore. *)
Theorem completes_only_restored eng j pod uid x :
  pass_calls (ECompleteRestore eng j pod uid) x -> restore_accepted r now job before.
Proof. by intros ?%pass_allowed. Qed.


(** The fence baseline is recorded last: of a live, running source read
    under the target UID, whose fence label and held readiness were seen or
    written, on a job that has the finalizer; and what is recorded is that
    pod's baseline. *)
Theorem baseline_recorded_last prev new x :
  pass_calls (EPatchJob false prev new) x -> baseline_evidence r job before new.
Proof. by intros ?%pass_allowed. Qed.

(** C6: A pass evicts only the source it read: in Evicting, with the target UID;
    or, of a source kept fenced, under the UID it was read with and only when a
    controller replaces it. *)
Theorem evicts_only_source pns pname opts x :
  pass_calls (EEvict pns pname opts) x -> eviction_evidence job before pns pname opts.
Proof. by intros ?%pass_allowed. Qed.


(** C8: A pass deletes a job only when it is concluded and no claimant of its
    snapshot is gated: past the TTL; or unconsumed and unassigned, with a
    workload that has all the pods it asks for without the source. *)
Theorem deletes_only_collectable_job j uid x :
  pass_calls (EDeleteJob j uid) x -> collect_evidence now before j uid.
Proof. by intros ?%pass_allowed. Qed.
End Pass.

(** ** Witnesses: runs of concrete passes *)

(** [honest], as a test. *)
Definition writtenb (new : PodMigrationJob) (x : res PodMigrationJob) : bool :=
  match x with
  | inr j => bool_decide (j_phase j = j_phase new /\ ident j = ident new /\ fence_record j = fence_record new)
  | inl _ => true
  end.

Definition honestb (s : step) : bool :=
  let 'existT e x := s in
  match e return resp e -> bool with
  | EPatchJobStatus _ new => writtenb new
  | EPatchJob _ _ new => writtenb new
  | EUpdateJob new => writtenb new
  | _ => fun _ => true
  end x.

Lemma honestb_honest s : honestb s = true -> honest (projT1 s) (projT2 s).
Proof.
  destruct s as [[] x]; simpl; try done; unfold writtenb, written; destruct x; try done; apply bool_decide_eq_true_1.
Qed.

(** A run against [reply] whose call number [n] passes the test [ok] and whose
    answers are honest. *)
Definition run_passes (reply : forall e, resp e) (rc : Reconciler) (time : Z) (n : nat) (ok : @step Ev resp -> bool) : bool :=
  let t := tl (trace_of reply (Reconcile rc time "shop" "pmj-web")) in
  match t !! n with Some s => ok s | None => false end && forallb honestb t.

Lemma run_calls (reply : forall e, resp e) rc time job n ok :
  reply (EGetJob Cache "shop" "pmj-web") = inr job -> run_passes reply rc time n ok = true ->
  exists before after e x, ok (existT e x) = true /\
    pass_calls rc time "shop" "pmj-web" job before after (result_of reply (Reconcile rc time "shop" "pmj-web")) e x.
Proof.
  unfold run_passes. set (p := Reconcile rc time "shop" "pmj-web"). set (t := tl (trace_of reply p)).
  intros Hj [Hok Hf]%andb_prop. destruct (t !! n) as [[e x]|] eqn:He; [|done].
  exists (rev (take n t)), (drop (S n) t), e, x. split; [done|].
  assert (Ht : t = (rev (rev (take n t)) ++ existT e x :: drop (S n) t)%list).
  { rewrite rev_involutive. symmetry. by apply take_drop_middle. }
  unfold pass_calls. rewrite <- Ht. split.
  - rewrite <- Hj. pose proof (exec_static reply p) as Hx. subst t p. unfold Reconcile in *.
    rewrite trace_of_call in Hx. exact Hx.
  - apply Forall_forall. intros s Hs. apply honestb_honest. rewrite forallb_forall in Hf. by apply Hf, list_elem_of_In.
Qed.

(** Tests on a call. *)
Definition writes_status (p q : JobPhase) (s : @step Ev resp) : bool :=
  match projT1 s with EPatchJobStatus orig new => (j_phase orig ==p p) && (j_phase new ==p q) | _ => false end.
Definition is_call (kind : Ev -> bool) (s : @step Ev resp) : bool := kind (projT1 s).

(** The run of a scenario: its call, its evidence. *)
Ltac run_of reply rc time n ok :=
  let b := fresh "before" in let a := fresh "after" in let e := fresh "e" in let x := fresh "x" in
  let Hok := fresh "Hok" in let Hc := fresh "Hc" in
  destruct (run_calls reply rc time _ n ok eq_refl) as (b & a & e & x & Hok & Hc);
    [vm_compute; reflexivity|];
  destruct e; try discriminate Hok; cbn in Hok;
  repeat match goal with H : _ && _ = true |- _ => apply andb_prop in H as [? ?] end;
  repeat match goal with H : (_ ==p _) = true |- _ => apply bool_decide_eq_true_1 in H end.


Lemma reconcile_terminal_is_final_witness :
  exists orig new : PodMigrationJob, IsTerminalPhase (j_phase orig) = true /\ j_phase new = Failed.
Proof.
  run_of (accept failed_fenced_job sample_pod) sample_reconciler at_1100 3%nat (writes_status Failed Failed).
  exists orig, new. split; [by rewrite H|].
  exact (reconcile_terminal_is_final _ _ _ _ _ _ _ _ _ _ _ Hc eq_refl).
Defined.

Lemma evicts_after_ready_snapshot_witness : exists before new, snapshot_ready before new.
Proof.
  run_of (snapshotted (sample_job Snapshotting)) sample_reconciler at_1100 11%nat (writes_status Snapshotting Evicting).
  exists before, new. apply (evicts_after_ready_snapshot _ _ _ _ _ _ _ _ _ _ _ Hc); congruence.
Defined.

Lemma restores_after_source_gone_witness :
  exists before new,
    source_absent "shop" with_volume before /\ volumes_detached before new /\ trigger_cleaned before.
Proof.
  run_of (podless with_volume) sample_reconciler at_1100 5%nat (writes_status Evicting Restoring).
  exists before, new. apply (restores_after_source_gone _ _ _ _ _ _ _ _ _ _ _ Hc); congruence.
Defined.


Lemma completes_only_restored_witness :
  exists before, restore_accepted completing_reconciler at_1100 restored_job before.
Proof.
  run_of (snapshotted restored_job) completing_reconciler at_1100 4%nat
    (is_call (fun e => match e with ECompleteRestore _ _ _ _ => true | _ => false end)).
  exists before. exact (completes_only_restored _ _ _ _ _ _ _ _ _ _ _ _ _ Hc).
Defined.


Lemma baseline_recorded_last_witness :
  exists before new, baseline_evidence sample_reconciler (sample_job Snapshotting) before new.
Proof.
  run_of (snapshotted (sample_job Snapshotting)) sample_reconciler at_1100 5%nat
    (is_call (fun e => match e with EPatchJob false _ _ => true | _ => false end)).
  exists before, new. destruct lock; [discriminate Hok|].
  exact (baseline_recorded_last _ _ _ _ _ _ _ _ _ _ _ Hc).
Defined.

Lemma evicts_only_source_witness :
  exists before opts, eviction_evidence evicting_marked before "shop" "web-0" opts.
Proof.
  run_of (accept evicting_marked sample_pod) sample_reconciler at_1100 3%nat
    (is_call (fun e => match e with EEvict ns name _ => (ns ==s "shop") && (name ==s "web-0") | _ => false end)).
  bool_props. subst. exists before, opts. exact (evicts_only_source _ _ _ _ _ _ _ _ _ _ _ _ Hc).
Defined.


Lemma deletes_only_collectable_job_witness :
  exists before j, collect_evidence (3000 * Second) before j None.
Proof.
  run_of (accept stale_job sample_pod) sample_reconciler (3000 * Second) 1%nat
    (is_call (fun e => match e with EDeleteJob _ None => true | _ => false end)).
  destruct uid as [u|]; [discriminate Hok|].
  exists before, job. exact (deletes_only_collectable_job _ _ _ _ _ _ _ _ _ _ _ Hc).
Defined.
