(* ===== verification/Sha256.v ===== *)
(** * crypto/sha256 and encoding/hex, as the source uses them

    The names of storage configurations are hashes: [sha256.New], [Write], [Sum]
    and [hex.EncodeToString].  A word is a Z modulo 2^32 (FIPS 180-4). *)
From Stdlib Require Import Ascii Strings.String.
From S2P Require Import Prelude GoLib.

Definition w32 (x : Z) : Z := x mod 2 ^ 32.
Definition rotr (n x : Z) : Z := Z.lor (Z.shiftr x n) (w32 (Z.shiftl x (32 - n))).
Definition xor3 (a b c : Z) : Z := Z.lxor a (Z.lxor b c).

(** The constants are the first 32 bits of the fractional parts of the roots of
    the first primes. *)
Definition small_primes : list Z :=
  [2; 3; 5; 7; 11; 13; 17; 19; 23; 29; 31; 37; 41; 43; 47; 53; 59; 61; 67; 71; 73; 79; 83; 89; 97; 101; 103;
   107; 109; 113; 127; 131; 137; 139; 149; 151; 157; 163; 167; 173; 179; 181; 191; 193; 197; 199; 211; 223;
   227; 229; 233; 239; 241; 251; 257; 263; 269; 271; 277; 281; 283; 293; 307; 311].

(** The integer cube root, bit by bit from bit [n]. *)
Fixpoint cube_root (n : nat) (root x : Z) : Z :=
  match n with
  | O => root
  | S n' => let next := root + 2 ^ Z.of_nat n' in cube_root n' (if next ^ 3 <=? x then next else root) x
  end.

Definition round_constants : list Z :=
  Eval vm_compute in map (fun p => w32 (cube_root 36 0 (p * 2 ^ 96))) small_primes.

(** The chaining value. *)
Record Words := mkWords { wa : Z; wb : Z; wc : Z; wd : Z; we : Z; wf : Z; wg : Z; wh : Z }.

Definition initial_words : Words :=
  let h p := w32 (Z.sqrt (p * 2 ^ 64)) in mkWords (h 2) (h 3) (h 5) (h 7) (h 11) (h 13) (h 17) (h 19).

(** ** Blocks *)

Fixpoint be_bytes (n : nat) (x : Z) : list Z :=
  match n with O => [] | S n' => (be_bytes n' (x / 256) ++ [x mod 256])%list end.

Definition padded (m : list Z) : list Z :=
  let len := Z.of_nat (length m) in
  (m ++ [128] ++ repeat 0 (Z.to_nat ((55 - len) mod 64)) ++ be_bytes 8 (8 * len))%list.

Definition be_word (bytes : list Z) : Z := fold_left (fun acc b => acc * 256 + b) bytes 0.

(** [l] in pieces of [n], at most [fuel] of them. *)
Fixpoint chunks {A} (fuel n : nat) (l : list A) : list (list A) :=
  match fuel, l with
  | S fuel', _ :: _ => take n l :: chunks fuel' n (drop n l)
  | _, _ => []
  end.
Definition pieces {A} (n : nat) (l : list A) : list (list A) := chunks (length l) n l.

(** One more word of the schedule, of the last sixteen, newest first. *)
Definition next_word (w : list Z) : Z :=
  let s0 := xor3 (rotr 7 (nth 14 w 0)) (rotr 18 (nth 14 w 0)) (Z.shiftr (nth 14 w 0) 3) in
  let s1 := xor3 (rotr 17 (nth 1 w 0)) (rotr 19 (nth 1 w 0)) (Z.shiftr (nth 1 w 0) 10) in
  w32 (nth 15 w 0 + s0 + nth 6 w 0 + s1).

Fixpoint schedule (n : nat) (w : list Z) : list Z :=
  match n with O => rev w | S n' => schedule n' (next_word w :: w) end.

Definition round (s : Words) (kw : Z * Z) : Words :=
  let '(mkWords a b c d e f g h) := s in
  let t1 := w32 (h + xor3 (rotr 6 e) (rotr 11 e) (rotr 25 e) + Z.lxor (Z.land e f) (Z.land (2 ^ 32 - 1 - e) g) + kw.1 + kw.2) in
  let t2 := w32 (xor3 (rotr 2 a) (rotr 13 a) (rotr 22 a) + xor3 (Z.land a b) (Z.land a c) (Z.land b c)) in
  mkWords (w32 (t1 + t2)) a b c (w32 (d + t1)) e f g.

Definition compress (s : Words) (block : list Z) : Words :=
  let w := schedule 48 (rev (map be_word (pieces 4 block))) in
  let r := fold_left round (combine round_constants w) s in
  mkWords (w32 (wa s + wa r)) (w32 (wb s + wb r)) (w32 (wc s + wc r)) (w32 (wd s + wd r))
    (w32 (we s + we r)) (w32 (wf s + wf r)) (w32 (wg s + wg r)) (w32 (wh s + wh r)).

Definition Sum256 (m : list Z) : list Z :=
  let s := fold_left compress (pieces 64 (padded m)) initial_words in
  flat_map (be_bytes 4) [wa s; wb s; wc s; wd s; we s; wf s; wg s; wh s].

(** ** Strings *)

Definition bytes_of (s : string) : list Z := map (fun c => Z.of_N (N_of_ascii c)) (String.list_ascii_of_string s).

Definition string_of (l : list Z) : string := String.string_of_list_ascii (map (fun z => ascii_of_N (Z.to_N z)) l).

Lemma string_of_bytes s : string_of (bytes_of s) = s.
Proof.
  unfold string_of, bytes_of. rewrite map_map. rewrite <- (String.string_of_list_ascii_of_string s) at 2. f_equal.
  rewrite <- (map_id (String.list_ascii_of_string s)) at 2. apply map_ext. intros c. by rewrite N2Z.id, ascii_N_embedding.
Qed.

Definition hex_digit (x : Z) : ascii := default "0"%char (String.list_ascii_of_string "0123456789abcdef" !! Z.to_nat x).

Definition EncodeToString (b : list Z) : string :=
  String.string_of_list_ascii (flat_map (fun x => [hex_digit (x / 16); hex_digit (x mod 16)]) b).

Example sha256_abc :
  EncodeToString (Sum256 (bytes_of "abc")) = "ba7816bf8f01cfea414140de5dae2223b00361a396177a9cb410ff61f20015ad".
Proof. by vm_compute. Qed.

Example sha256_two_blocks :
  EncodeToString (Sum256 (bytes_of "abcdbcdecdefdefgefghfghighijhijkijkljklmklmnlmnomnopnopq")) =
  "248d6a61d20638b8e5c026930c3e6039a33ce45964ff2167f6ecedd419db06c1".
Proof. by vm_compute. Qed.

(** ** Lengths *)

Lemma be_bytes_length n x : length (be_bytes n x) = n.
Proof. revert x. induction n as [|n IH]; intros x; [done|]. simpl. rewrite length_app, IH. simpl. lia. Qed.

Lemma Sum256_length m : length (Sum256 m) = 32%nat.
Proof. unfold Sum256. cbn [flat_map]. rewrite !length_app, !be_bytes_length. done. Qed.
