(* ===== verification/MigrationConfig.v ===== *)
(** * The PodMigration controller (internal/controller/podmigration_controller.go)

    A PodMigration configures a namespace: its controller renders the snapshot
    engines' storage and policy objects, keeps them in sync, and deletes them when
    the PodMigration is deleted or another one becomes active, but not under a
    running migration.  Also GKEPodSnapshots.NamespaceResources and its names
    (internal/engine/gke_pod_snapshots.go).  The calls on unstructured objects
    have a signature of their own ([MEv]); the state is the PodMigration that the
    pass read and mutates. *)
From Stdlib Require Import Ascii.
From S2P Require Import Prelude Effects GoLib Kube Interfaces Eligibility Engine JobBase ActiveMigration Spawn Sha256.

Definition OwnerUIDLabel : string := "podmigration.gke.io/owner-uid".
Definition ReasonDuplicatePodMigrationInNamespace : string := "DuplicatePodMigrationInNamespace".
Definition maxDeletionDeferral : Z := 10 * Minute.
Definition ConditionEngineRoutesValid : string := "EngineRoutesValid".
Definition migrationEnabledLabel : string := "pod-migration.gke.io/enabled".
Definition gkeVersion : string := "podsnapshot.gke.io/v1".

(** ** Unstructured objects *)

(** A JSON value; the members of an object are sorted by name. *)
Inductive JValue := JString (s : string) | JArray (l : list JValue) | JObject (m : list (string * JValue)).

Record Resource := mkResource { rs_apiVersion : string; rs_kind : string; rs_meta : ObjectMeta; rs_spec : option JValue }.

Definition rs_name (x : Resource) : string := m_name (rs_meta x).
Definition rs_namespace (x : Resource) : string := m_namespace (rs_meta x).
Definition rs_labels (x : Resource) : gmap string string := m_labels (rs_meta x).

(** An error of [NamespaceResources], and whether it is a [StorageLocationError]. *)
Record RenderErr := mkRenderErr { re_location : bool; re_err : ApiErr }.

(** ** The objects of GKE Pod Snapshots *)

Definition PodSnapshotStorageConfigName (namespace name : string) : string :=
  "pssc-" +s String.substring 0 16 (EncodeToString (Sum256 (bytes_of (namespace +s "/" +s name)))).

Definition PodSnapshotPolicyName (name : string) : string := "psp-" +s name +s "-manual".

Definition pm_name (pm : PodMigration) : string := m_name (pm_meta pm).
Definition pm_namespace (pm : PodMigration) : string := m_namespace (pm_meta pm).
Definition pm_uid (pm : PodMigration) : string := m_uid (pm_meta pm).

Definition gke_NamespaceResources (pm : PodMigration) : RenderErr + list Resource :=
  let location := pm_location pm in
  if negb (HasPrefix location "gs://") then
    inl (mkRenderErr true (mkErr OtherErr ("invalid GCS location: " +s location +s " (must start with gs://)")))
  else
    let '(bucket, path, found) := Cut (TrimPrefix location "gs://") "/" in
    let gcs := ("bucket", JString bucket) :: (if found && (path !=s "") then [("path", JString path)] else []) in
    let storageConfigName := PodSnapshotStorageConfigName (pm_namespace pm) (pm_name pm) in
    inr [mkResource gkeVersion "PodSnapshotStorageConfig" (with_labels {[ OwnerUIDLabel := pm_uid pm ]} (meta_named "" storageConfigName ""))
           (Some (JObject [("snapshotStorageConfig", JObject [("gcs", JObject gcs)])]));
         mkResource gkeVersion "PodSnapshotPolicy" (meta_named (pm_namespace pm) (PodSnapshotPolicyName (pm_name pm)) "")
           (Some (JObject
             [("selector", JObject [("matchExpressions", JArray
                [JObject [("key", JString migrationEnabledLabel); ("operator", JString "In"); ("values", JArray [JString "true"])]])]);
              ("storageConfigName", JString storageConfigName);
              ("triggerConfig", JObject [("postCheckpoint", JString "stop"); ("type", JString "manual")])]))].

(** The method [NamespaceResources] of the engines, and the type test on
    [*engine.GKEPodSnapshots]. *)
Class Rendering := {
  NamespaceResources : Engine -> PodMigration -> RenderErr + list Resource;
  isGKE : Engine -> bool;
  gke_renders : forall e pm, isGKE e = true -> NamespaceResources e pm = gke_NamespaceResources pm }.

(** [client.MergeFrom(a).Data(b)]: whether the patch is empty.  And
    [meta.RemoveStatusCondition]. *)
Class PatchLib := {
  EmptyMergePatch : Resource -> Resource -> res bool;
  RemoveStatusCondition : list Condition -> string -> list Condition;
  empty_patch_same : forall a b, EmptyMergePatch a b = inr true -> a = b;
  same_empty_patch : forall a, EmptyMergePatch a a = inr true }.

(** ** Calls *)

Inductive MEv :=
| MBase (e : Ev)
| MGetConfig (ns name : string)
| MUpdateConfig (config : PodMigration)
(** The merge patch of the status, against the conditions [before]. *)
| MPatchStatus (before : list Condition) (config : PodMigration)
| MGetResource (apiVersion kind ns name : string)
| MCreateResource (desired : Resource)
| MPatchResource (existing updated : Resource)
| MDeleteResource (apiVersion kind ns name : string).

Definition mresp (e : MEv) : Type :=
  match e with
  | MBase e => resp e
  | MGetConfig _ _ | MUpdateConfig _ | MPatchStatus _ _ => res PodMigration
  | MGetResource _ _ _ _ => res Resource
  | MCreateResource _ | MPatchResource _ _ | MDeleteResource _ _ _ _ => option ApiErr
  end.

Definition mcall {S R} (e : MEv) : gom mresp S R (mresp e) := gcall e.

(** ** The reconciler *)

Record ConfigReconciler := mkConfigReconciler {
  cr_hasRecorder : bool;
  cr_invariantsEnabled : bool;
  cr_engines : option Registry }.

Definition about_config (pm : PodMigration) : EventTarget :=
  mkEventTarget "PodMigration" (pm_namespace pm) (pm_name pm) (pm_uid pm).

Definition with_conditions (l : list Condition) (pm : PodMigration) : PodMigration :=
  mkPodMigration (pm_meta pm) (pm_location pm) l.
Definition with_pm_finalizers (l : list string) (pm : PodMigration) : PodMigration :=
  mkPodMigration (with_finalizers l (pm_meta pm)) (pm_location pm) (pm_conditions pm).

(** Whether the job belongs to the PodMigration. *)
Definition isPMJOwnedByPodMigration (pmj : PodMigrationJob) (config : PodMigration) (renderedPolicyNames : list string) : bool :=
  let owner (ref : OwnerReference) :=
    (or_kind ref ==s "PodMigration") && (((or_uid ref !=s "") && (or_uid ref ==s pm_uid config)) || (or_name ref ==s pm_name config)) in
  let policyName := sget (j_annotations pmj) AnnotationPodSnapshotPolicy in
  existsb owner (m_owners (j_meta pmj))
  || bool_decide (j_labels pmj !! "pod-migration.gke.io/podmigration-name" = Some (pm_name config))
  || ((pm_uid config !=s "") && bool_decide (j_labels pmj !! OwnerUIDLabel = Some (pm_uid config)))
  || ((pm_name config !=s "") && (policyName !=s "") &&
      ((policyName ==s PodSnapshotPolicyName (pm_name config)) || (policyName ==s pm_name config) ||
       existsb (fun rendered => (rendered !=s "") && (policyName ==s rendered)) renderedPolicyNames)).

Section Controller.
Context `{KubeLib} `{DNSLib} `{Rendering} `{PatchLib}.
Context (r : ConfigReconciler) (now : Z).
Abbreviation C R A := (gom mresp PodMigration R A).

Definition hasCleanupFinalizer (pm : PodMigration) : bool := ContainsFinalizer (m_finalizers (pm_meta pm)) StorageCleanupFinalizer.

Definition record_warning {R} (reason message : string) : C R unit :=
  let* config := gget in
  gwhen (cr_hasRecorder r) (mcall (MBase (EEvent (about_config config) "Warning" reason message))).

(** [meta.SetStatusCondition] on the config; whether it changed. *)
Definition setCondition {R} (type status reason message : string) : C R bool :=
  let* config := gget in
  let '(l, changed) := SetStatusCondition now (mkCond type status reason message (m_generation (pm_meta config)) zero_time)
                         (pm_conditions config) in
  do* gmodify (with_conditions l) in
  gret changed.

Definition config_patchStatus {R} (before : list Condition) : C R (option ApiErr) :=
  let* config := gget in
  if bool_decide (before = pm_conditions config) then gret None
  else
    let* x := mcall (MPatchStatus before config) in
    match x with
    | inl err => gret (Some err)
    | inr config' => do* gmodify (fun _ => config') in gret None
    end.

Definition updateConfig {R} : C R (option ApiErr) :=
  let* config := gget in
  let* x := mcall (MUpdateConfig config) in
  match x with
  | inl err => gret (Some err)
  | inr config' => do* gmodify (fun _ => config') in gret None
  end.

(** ** Jobs in flight *)

(** The registered engines, in the order of registration. *)
Definition registered (reg : Registry) : list Engine := omap (fun name => byName reg !! name) (reg_names reg).

Definition renderedPolicyNames (config : PodMigration) : list string :=
  match cr_engines r with
  | None => []
  | Some reg =>
      flat_map (fun eng =>
        match NamespaceResources eng config with
        | inl _ => []
        | inr resources =>
            map rs_name (List.filter (fun x => (rs_namespace x ==s pm_namespace config) && (rs_name x !=s "")) resources)
        end) (registered reg)
  end.

Definition in_flight_of (config : PodMigration) (jobs : list PodMigrationJob) : list string :=
  map j_name (List.filter (fun pmj =>
    isPMJOwnedByPodMigration pmj config (renderedPolicyNames config) && negb (IsTerminalPhase (j_phase pmj))) jobs).

Definition listInFlightMigrations {R} : C R (res (list string)) :=
  let* config := gget in
  let* x := mcall (MBase (EListJobs (pm_namespace config) AllJobs)) in
  match x with
  | inl err => gret (inl err)
  | inr jobs => gret (inr (in_flight_of config jobs))
  end.

Definition deferralExpired (config : PodMigration) : bool :=
  let over t := negb (IsZero t) && (maxDeletionDeferral <? Sub now t) in
  if match m_deletionTimestamp (pm_meta config) with Some t => over t | None => false end then true
  else
    match FindStatusCondition (pm_conditions config) "Ready" with
    | Some cond => (c_status cond ==s "False") && over (c_lastTransitionTime cond)
    | None => false
    end.

(** ** Deletion of the objects *)

(** The object is labelled as rendered for another PodMigration. *)
Definition foreign (ownerUID : string) (live : Resource) : bool :=
  let owner := sget (rs_labels live) OwnerUIDLabel in
  (owner !=s "") && (ownerUID !=s "") && (owner !=s ownerUID).

(** [r.Delete] of an object that may be gone. *)
Definition deleteResource {R} (apiVersion kind ns name : string) : C R (option ApiErr) :=
  let* e := mcall (MDeleteResource apiVersion kind ns name) in
  match e with
  | Some err => gret (if IsNotFound err then None else Some (wrapf ("failed to delete " +s kind +s " " +s name +s ": ") err))
  | None => gret None
  end.

Definition deleteOwnedResource {R} (rendered : Resource) (ownerUID : string) : C R (option ApiErr) :=
  let* x := mcall (MGetResource (rs_apiVersion rendered) (rs_kind rendered) (rs_namespace rendered) (rs_name rendered)) in
  match x with
  | inl err =>
      gret (if IsNotFound err || IsNoMatchError err then None
            else Some (wrapf ("failed to get " +s rs_kind rendered +s " " +s rs_name rendered +s ": ") err))
  | inr live =>
      if foreign ownerUID live then gret None
      else deleteResource (rs_apiVersion rendered) (rs_kind rendered) (rs_namespace rendered) (rs_name rendered)
  end.

Definition deleteStorageResources {R} (namespace name expectedOwnerUID : string) : C R (option ApiErr) :=
  let psscName := PodSnapshotStorageConfigName namespace name in
  let* x := mcall (MGetResource gkeVersion "PodSnapshotStorageConfig" "" psscName) in
  let* e :=
    (match x with
     | inl err =>
         gret (if IsNotFound err then None else Some (wrapf ("failed to get PodSnapshotStorageConfig " +s psscName +s ": ") err))
     | inr pssc => if foreign expectedOwnerUID pssc then gret None else deleteResource gkeVersion "PodSnapshotStorageConfig" "" psscName
     end) in
  match e with
  | Some err => gret (Some err)
  | None => deleteResource gkeVersion "PodSnapshotPolicy" namespace (PodSnapshotPolicyName name)
  end.

(** Runs [f] until it fails. *)
Fixpoint each {R A} (l : list A) (f : A -> C R (option ApiErr)) : C R (option ApiErr) :=
  match l with
  | [] => gret None
  | x :: rest => let* e := f x in match e with Some err => gret (Some err) | None => each rest f end
  end.

Definition deleteEngineResources {R} (config : PodMigration) : C R (option ApiErr) :=
  match cr_engines r with
  | None => gret None
  | Some reg =>
      each (registered reg) (fun eng =>
        if isGKE eng then gret None
        else
          match NamespaceResources eng config with
          | inl _ => gret None
          | inr resources => each (rev resources) (fun x => deleteOwnedResource x (pm_uid config))
          end)
  end.

Definition deleteNamespaceResources {R} : C R (option ApiErr) :=
  let* config := gget in
  let* e := deleteStorageResources (pm_namespace config) (pm_name config) (pm_uid config) in
  match e with
  | Some err => gret (Some err)
  | None => deleteEngineResources config
  end.

(** Deletes the objects and then drops the finalizer, or returns the error. *)
Definition cleanUp : C Outcome unit :=
  let* e := deleteNamespaceResources in
  match e with
  | Some err => greturn (NoRequeue, Some err)
  | None =>
      do* gmodify (fun config => with_pm_finalizers (RemoveFinalizer (m_finalizers (pm_meta config)) StorageCleanupFinalizer) config) in
      let* e := updateConfig in
      match e with Some err => greturn (NoRequeue, Some err) | None => gret tt end
  end.

(** ** The three ends of a pass *)

(** Whether the clean-up has to wait for migrations in flight. *)
Definition mustWait : C Outcome (option nat) :=
  let* x := listInFlightMigrations in
  match x with
  | inl err => greturn (NoRequeue, Some err)
  | inr [] => gret None
  | inr inFlight =>
      let* config := gget in
      if deferralExpired config then
        do* record_warning "DeletionDeferralTimeout"
              ("Forcing cleanup after 10m0s with " +s pretty (length inFlight) +s " migration(s) still in flight") in
        gret None
      else gret (Some (length inFlight))
  end.

Definition reconcileDeleted : C Outcome Outcome :=
  let* config := gget in
  if hasCleanupFinalizer config then
    let* wait := mustWait in
    match wait with
    | Some n =>
        let before := pm_conditions config in
        let* changed := setCondition "Ready" "False" "DeletionBlockedByInFlightMigrations"
                          ("Deletion deferred: " +s pretty n +s " migration(s) in flight") in
        let* e := (if changed : bool then config_patchStatus before else gret None) in
        match e with
        | Some err => gret (NoRequeue, Some err)
        | None => gret (RequeueAfter (5 * Second), None)
        end
    | None => do* cleanUp in gret (NoRequeue, None)
    end
  else gret (NoRequeue, None).

(** Another PodMigration is active in the namespace. *)
Definition demote (active : PodMigration) : C Outcome Outcome :=
  let* config := gget in
  let* deferCleanup :=
    (if hasCleanupFinalizer config then
       let* wait := mustWait in
       match wait with
       | Some _ => gret true
       | None => do* cleanUp in gret false
       end
     else gret false) in
  let msg := "Only one PodMigration resource is allowed per namespace; active configuration is " +s Quote (pm_name active) in
  let* config := gget in
  let before := pm_conditions config in
  let* changed := setCondition "Ready" "False" ReasonDuplicatePodMigrationInNamespace msg in
  do* (if changed : bool then
         do* record_warning ReasonDuplicatePodMigrationInNamespace msg in
         let* e := config_patchStatus before in
         match e with Some err => greturn (NoRequeue, Some err) | None => gret tt end
       else gret tt) in
  if deferCleanup || pm_deleting active then gret (RequeueAfter (5 * Second), None) else gret (NoRequeue, None).

Definition ownEngines : res Registry :=
  match cr_engines r with
  | Some reg => inr reg
  | None =>
      match NewDefaultRegistry (default (mkPolicy ∅ false) defaultPolicy) with
      | inl msg => inl (mkErr OtherErr msg)
      | inr reg => inr reg
      end
  end.

Definition setEngineRoutesCondition {R} (registry : Registry) : C R unit :=
  let* config := gget in
  if TrimSpace (sget (m_annotations (pm_meta config)) AnnotationRuntimeClassEngines) ==s "" then
    gmodify (fun config => with_conditions (RemoveStatusCondition (pm_conditions config) ConditionEngineRoutesValid) config)
  else
    do* (match ValidatePodMigrationRoutes registry (Some config) with
         | inl err =>
             if bool_decide (e_kind err = EngineNotRegistered) then
               setCondition ConditionEngineRoutesValid "False" "EngineNotRegistered" (e_msg err +s "; that route is ignored")
             else setCondition ConditionEngineRoutesValid "False" "InvalidRoutes" (e_msg err +s "; the annotation is ignored")
         | inr rs => setCondition ConditionEngineRoutesValid "True" "RoutesValid" ("Runtime class routes: " +s RoutesString rs)
         end) in
    gret tt.

(** What the controller writes of an object: its spec and its own labels. *)
Definition merged (desired existing : Resource) : Resource :=
  mkResource (rs_apiVersion existing) (rs_kind existing)
    (if bool_decide (rs_labels desired <> ∅) then with_labels (rs_labels desired ∪ rs_labels existing) (rs_meta existing)
     else rs_meta existing)
    (rs_spec desired).

Definition syncResource {R} (desired : Resource) : C R (option ApiErr) :=
  let* x := mcall (MGetResource (rs_apiVersion desired) (rs_kind desired) (rs_namespace desired) (rs_name desired)) in
  match x with
  | inl err => if IsNotFound err then mcall (MCreateResource desired) else gret (Some err)
  | inr existing =>
      let updated := merged desired existing in
      match EmptyMergePatch existing updated with
      | inl err => gret (Some (wrapf ("computing patch for " +s rs_kind desired +s " " +s rs_name desired +s ": ") err))
      | inr true => gret None
      | inr false => mcall (MPatchResource existing updated)
      end
  end.

(** The objects of one engine. *)
Definition syncEngine (before : list Condition) (eng : Engine) : C Outcome unit :=
  let* config := gget in
  match NamespaceResources eng config with
  | inl err =>
      do* (if re_location err then
             do* setCondition "Ready" "False" "InvalidStorageLocation" (e_msg (re_err err)) in
             do* config_patchStatus before in gret tt
           else gret tt) in
      greturn (NoRequeue, Some (re_err err))
  | inr resources =>
      let* e := each resources syncResource in
      match e with Some err => greturn (NoRequeue, Some err) | None => gret tt end
  end.

Definition reconcileActive : C Outcome Outcome :=
  let* config := gget in
  do* (if negb (hasCleanupFinalizer config) then
         do* gmodify (fun config => with_pm_finalizers (AddFinalizer (m_finalizers (pm_meta config)) StorageCleanupFinalizer) config) in
         let* e := updateConfig in
         match e with Some err => greturn (NoRequeue, Some err) | None => gret tt end
       else gret tt) in
  match ownEngines with
  | inl err => gret (NoRequeue, Some err)
  | inr registry =>
      let* config := gget in
      let before := pm_conditions config in
      do* setEngineRoutesCondition registry in
      let* config := gget in
      match EnginesFor registry (Some config) with
      | [] =>
          gret (NoRequeue, Some (match Default registry with
                                 | inl defaultErr => defaultErr
                                 | inr _ => mkErr OtherErr "no snapshot engine serves the namespace"
                                 end))
      | engines =>
          do* giter engines (syncEngine before) in
          do* setCondition "Ready" "True" "Reconciled" "Storage config and policy synced successfully" in
          let* e := config_patchStatus before in
          gret (NoRequeue, e)
      end
  end.

Definition reconcileConfig (reqNamespace : string) : fn mresp PodMigration Outcome := gfun (
  let* config := gget in
  if pm_deleting config then reconcileDeleted
  else
    let* x := mcall (MBase (EListPodMigrations reqNamespace)) in
    match x with
    | inl err => gret (NoRequeue, Some err)
    | inr items =>
        match SelectActivePodMigration items with
        | Some active => if pm_name active !=s pm_name config then demote active else reconcileActive
        | None => reconcileActive
        end
    end).

(** The deferred invariant check. *)
Definition evaluateConfigInvariants {R} (err : option ApiErr) : C R unit :=
  let* config := gget in
  if negb (cr_invariantsEnabled r) || (bool_decide (err <> None) && negb (pm_deleting config)) then gret tt
  else
    do* mcall (MBase (EInvariants (mkSnapshot now "PodMigrationReconciler" None None (Some config) [] [] [] false false
                        false false [] None))) in
    gret tt.

Definition runConfig (reqNamespace : string) : fn mresp PodMigration Outcome := gfun (
  let* o := ginvoke (reconcileConfig reqNamespace) in
  do* evaluateConfigInvariants (snd o) in
  gret o).

Definition ReconcileConfig (ns name : string) : prog mresp Outcome :=
  Call (MGetConfig ns name) (fun x =>
    match x with
    | inl err =>
        if IsNotFound err then
          Call (MBase (EForget ("PodMigrationReconciler/mig/" +s ns +s "/" +s name))) (fun _ => Done (NoRequeue, None))
        else Done (NoRequeue, Some err)
    | inr config => pbind (runConfig ns config) (fun '(_, o) => Done o)
    end).

(** The other PodMigrations of a namespace, reconciled when one changes. *)
Definition enqueueNamespacePeers (obj : PodMigration) : prog mresp (list (string * string)) :=
  Call (MBase (EListPodMigrations (pm_namespace obj))) (fun x =>
    Done (match x with
          | inl _ => []
          | inr items => map (fun item => (pm_namespace item, pm_name item)) (List.filter (fun item => pm_name item !=s pm_name obj) items)
          end)).
End Controller.
