(* ===== verification/MigrationConfigLaws.v ===== *)
(** * The PodMigration controller, proved

    Storage objects are deleted only when no migration needs them or the deferral
    has run out, never another PodMigration's, and before the finalizer goes;
    objects are written only for the active PodMigration of the namespace; Ready
    means that all of them were found or brought in sync. *)
From S2P Require Import Prelude Effects GoLib Kube Interfaces Eligibility Engine JobBase ActiveMigration MigrationConfig Instances.

Abbreviation history := (@trace MEv mresp).
(** ** What the calls must follow *)

Section Spec.
Context `{KubeLib} `{DNSLib} `{Rendering} `{PatchLib}.
Context (r : ConfigReconciler) (now : Z) (ns : string) (c0 : PodMigration).

(** No listed migration of the PodMigration is running, or it was waited for long enough. *)
Definition migrations_done (h : history) : Prop :=
  exists jobs, seen h (MBase (EListJobs (pm_namespace c0) AllJobs)) (inr jobs) /\
    (in_flight_of r c0 jobs = [] \/ deferralExpired now c0 = true).

Definition migrations_running (h : history) : Prop :=
  exists jobs, seen h (MBase (EListJobs (pm_namespace c0) AllJobs)) (inr jobs) /\
    in_flight_of r c0 jobs <> [] /\ deferralExpired now c0 = false.

Definition listed_active (h : history) (active : option PodMigration) : Prop :=
  exists items, seen h (MBase (EListPodMigrations ns)) (inr items) /\ SelectActivePodMigration items = active.

Definition demoted (h : history) : Prop :=
  exists active, listed_active h (Some active) /\ pm_name active <> pm_name c0.

Definition cleanup_due (h : history) : Prop :=
  hasCleanupFinalizer c0 = true /\ migrations_done h /\ (pm_deleting c0 = true \/ demoted h).

(** The PodMigration is live, and the active one of its namespace. *)
Definition governs (h : history) : Prop :=
  pm_deleting c0 = false /\ exists o, listed_active h o /\ forall active, o = Some active -> pm_name active = pm_name c0.

(** The object is gone, or it is another PodMigration's. *)
Definition gone (h : history) (apiVersion kind n name : string) : Prop :=
  (exists err, seen h (MGetResource apiVersion kind n name) (inl err) /\ (IsNotFound err = true \/ IsNoMatchError err = true)) \/
  (exists live, seen h (MGetResource apiVersion kind n name) (inr live) /\ foreign (pm_uid c0) live = true) \/
  (exists x, seen h (MDeleteResource apiVersion kind n name) x /\ (x = None \/ exists err, x = Some err /\ IsNotFound err = true)).

Definition resource_gone (h : history) (x : Resource) : Prop :=
  gone h (rs_apiVersion x) (rs_kind x) (rs_namespace x) (rs_name x).

(** The GKE objects, and those of the other engines. *)
Definition objects_gone (h : history) : Prop :=
  gone h gkeVersion "PodSnapshotStorageConfig" "" (PodSnapshotStorageConfigName (pm_namespace c0) (pm_name c0)) /\
  gone h gkeVersion "PodSnapshotPolicy" (pm_namespace c0) (PodSnapshotPolicyName (pm_name c0)) /\
  forall reg eng l, cr_engines r = Some reg -> In eng (registered reg) -> isGKE eng = false ->
    NamespaceResources eng c0 = inr l -> Forall (resource_gone h) l.

(** What may be deleted: the PodMigration's own policy, by its name, and an object
    just read that is not labelled as another PodMigration's. *)
Definition own_object (h : history) (apiVersion kind n name : string) : Prop :=
  (apiVersion = gkeVersion /\ kind = "PodSnapshotPolicy" /\ n = pm_namespace c0 /\ name = PodSnapshotPolicyName (pm_name c0)) \/
  exists live, seen h (MGetResource apiVersion kind n name) (inr live) /\ foreign (pm_uid c0) live = false.

Definition add_finalizer : PodMigration := with_pm_finalizers (AddFinalizer (m_finalizers (pm_meta c0)) StorageCleanupFinalizer) c0.
Definition drop_finalizer : PodMigration := with_pm_finalizers (RemoveFinalizer (m_finalizers (pm_meta c0)) StorageCleanupFinalizer) c0.

(** The clean-up finalizer was there, or its addition was accepted. *)
Definition guarded (h : history) : Prop :=
  hasCleanupFinalizer c0 = true \/ exists c, seen h (MUpdateConfig add_finalizer) (inr c).

(** The object [d] is one that an engine serving the namespace renders for [c]. *)
Definition rendered (c : PodMigration) (d : Resource) : Prop :=
  exists reg eng l, ownEngines r = inr reg /\ In eng (EnginesFor reg (Some c)) /\ NamespaceResources eng c = inr l /\ In d l.

(** The object was created, found in sync, or patched. *)
Definition synced (h : history) (d : Resource) : Prop :=
  (exists err, seen h (MGetResource (rs_apiVersion d) (rs_kind d) (rs_namespace d) (rs_name d)) (inl err) /\ IsNotFound err = true /\ seen h (MCreateResource d) None) \/
  exists existing, seen h (MGetResource (rs_apiVersion d) (rs_kind d) (rs_namespace d) (rs_name d)) (inr existing) /\
    (existing = merged d existing \/ seen h (MPatchResource existing (merged d existing)) None).

(** Everything rendered for the PodMigration (its conditions apart) is in sync. *)
Definition all_synced (h : history) (c : PodMigration) : Prop :=
  exists c1 reg, pm_meta c1 = pm_meta c /\ pm_location c1 = pm_location c /\ ownEngines r = inr reg /\
    EnginesFor reg (Some c1) <> [] /\
    forall eng, In eng (EnginesFor reg (Some c1)) -> exists l, NamespaceResources eng c1 = inr l /\ Forall (synced h) l.

Definition ready (c : PodMigration) : Prop := IsStatusConditionTrue (pm_conditions c) "Ready" = true.

Definition config_allows (h : history) (e : MEv) : Prop :=
  match e with
  | MDeleteResource av kind n name => cleanup_due h /\ own_object h av kind n name
  | MUpdateConfig c => (c = add_finalizer /\ governs h) \/ (c = drop_finalizer /\ cleanup_due h /\ objects_gone h)
  | MCreateResource d => governs h /\ guarded h /\ exists c, rendered c d
  | MPatchResource existing updated =>
      governs h /\ guarded h /\ exists c d, rendered c d /\ updated = merged d existing /\
        seen h (MGetResource (rs_apiVersion d) (rs_kind d) (rs_namespace d) (rs_name d)) (inr existing)
  | MPatchStatus _ c => ready c -> governs h /\ guarded h /\ all_synced h c
  | MBase _ | MGetConfig _ _ | MGetResource _ _ _ _ => True
  end.

(** How a pass over a PodMigration that is being deleted ends. *)
Definition deletion_ends (h : history) (o : Outcome) : Prop :=
  hasCleanupFinalizer c0 = true -> pm_deleting c0 = true ->
  (exists err, snd o = Some err) \/
  (o = (RequeueAfter (5 * Second), None) /\ migrations_running h) \/
  exists c, seen h (MUpdateConfig drop_finalizer) (inr c).

(** ** No later call takes a fact back *)

Lemma stays_migrations : stays migrations_done.
Proof. intros h h' Hh (jobs & Hj & Hd). exists jobs. eauto with history. Qed.
Lemma stays_demoted : stays demoted.
Proof. intros h h' Hh (a & (items & Hi & Hs) & Hn). exists a. split; [|done]. exists items. eauto with history. Qed.
Lemma stays_cleanup : stays cleanup_due.
Proof.
  intros h h' Hh (Hf & Hm & Hd). split; [done|]. split; [by eapply stays_migrations|].
  destruct Hd as [?|Hd]; [by left|right; by eapply stays_demoted].
Qed.
Lemma stays_governs : stays governs.
Proof. intros h h' Hh (Hd & o & (items & Hi & Hs) & Ho). split; [done|]. exists o. split; [|done]. exists items. eauto with history. Qed.
Lemma stays_gone av k n m : stays (fun h => gone h av k n m).
Proof. intros h h' Hh [(e & ? & ?)|[(l & ? & ?)|(x & ? & ?)]]; [left|right; left|right; right]; eauto with history. Qed.
Lemma stays_guarded : stays guarded.
Proof. intros h h' Hh [?|(c & ?)]; [by left|right; eauto with history]. Qed.
Lemma stays_synced d : stays (fun h => synced h d).
Proof.
  intros h h' Hh [(e & ? & ? & ?)|(x & ? & Hx)]; [left; exists e; eauto 6 with history|right].
  exists x. split; [eauto with history|]. destruct Hx; eauto with history.
Qed.

(** How a pass over a live PodMigration ends, if without an error. *)
Definition live_ends (h : history) (o : Outcome) : Prop :=
  pm_deleting c0 = false -> snd o = None -> demoted h \/ (governs h /\ guarded h /\ exists c, all_synced h c).

Definition pass_ends (h : history) (o : Outcome) : Prop := deletion_ends h o /\ live_ends h o.

Lemma error_ends h o : (exists err, snd o = Some err) -> pass_ends h o.
Proof. intros He. split; [intros _ _; by left|]. destruct He as [err He]. intros _ Hn. congruence. Qed.
End Spec.

(** ** The pieces of a pass *)

Section Pass.
Context `{KubeLib} `{DNSLib} `{Rendering} `{PatchLib}.
Context (r : ConfigReconciler) (now : Z) (ns : string) (c0 : PodMigration).
Abbreviation M := (open (config_allows r now ns c0)).
Abbreviation due := (cleanup_due r now ns c0).

Lemma wpg_record_warning {R} reason message h s (Qr : history -> PodMigration -> R -> Prop) Q :
  (forall h', continues h h' -> Q h' s tt) -> wpg M (record_warning r reason message) h s Qr Q.
Proof.
  intros HQ. unfold record_warning, mcall. gstep. gstep. gstep.
  - split; [exact I|]. intros x _. destruct x. apply HQ. eauto with history.
  - apply HQ. eauto with history.
Qed.

Lemma wpg_deleteResource {R} av k n m h s (Qr : history -> PodMigration -> R -> Prop) Q :
  due h -> own_object c0 h av k n m ->
  (forall h' e, continues h h' -> (e = None -> gone c0 h' av k n m) -> Q h' s e) ->
  wpg M (deleteResource av k n m) h s Qr Q.
Proof.
  intros Hd Ho HQ. unfold deleteResource, mcall. gstep. gstep; [done|].
  destruct x as [err|]; gstep; apply HQ; eauto with history; intros He; right; right; eexists; (split; [apply seen_now|]); [right|by left].
  exists err. by destruct (IsNotFound err).
Qed.

Lemma wpg_deleteOwned {R} x h s (Qr : history -> PodMigration -> R -> Prop) Q :
  due h -> (forall h' e, continues h h' -> (e = None -> resource_gone c0 h' x) -> Q h' s e) ->
  wpg M (deleteOwnedResource x (pm_uid c0)) h s Qr Q.
Proof.
  intros Hd HQ. unfold deleteOwnedResource, mcall. gstep. gstep; [exact I|]. destruct x0 as [err|live].
  - gstep. apply HQ; [eauto with history|]. intros He. left. exists err. split; [apply seen_now|].
    destruct (IsNotFound err); [by left|]. destruct (IsNoMatchError err); [by right|done].
  - destruct (foreign (pm_uid c0) live) eqn:Hf.
    + gstep. apply HQ; [eauto with history|]. intros _. right. left. exists live. eauto with history.
    + apply wpg_deleteResource; [eapply stays_cleanup; [|done]; eauto with history|right; exists live; eauto with history|].
      intros h' e Hh. apply HQ. eapply continues_trans; [|done]. eauto with history.
Qed.

Lemma wpg_deleteStorage {R} h s (Qr : history -> PodMigration -> R -> Prop) Q :
  due h ->
  (forall h' e, continues h h' -> (e = None ->
     gone c0 h' gkeVersion "PodSnapshotStorageConfig" "" (PodSnapshotStorageConfigName (pm_namespace c0) (pm_name c0)) /\
     gone c0 h' gkeVersion "PodSnapshotPolicy" (pm_namespace c0) (PodSnapshotPolicyName (pm_name c0))) -> Q h' s e) ->
  wpg M (deleteStorageResources (pm_namespace c0) (pm_name c0) (pm_uid c0)) h s Qr Q.
Proof.
  intros Hd HQ. set (pssc := PodSnapshotStorageConfigName (pm_namespace c0) (pm_name c0)) in *.
  assert (forall h1, continues h h1 -> gone c0 h1 gkeVersion "PodSnapshotStorageConfig" "" pssc ->
    wpg M (deleteResource gkeVersion "PodSnapshotPolicy" (pm_namespace c0) (PodSnapshotPolicyName (pm_name c0))) h1 s Qr Q) as Hrest.
  { intros h1 Hh1 Hg. apply wpg_deleteResource; [by eapply stays_cleanup|left; done|]. intros h2 e Hh2 He.
    apply HQ; [by eapply continues_trans|]. intros Hn. split; [by eapply stays_gone|by apply He]. }
  unfold deleteStorageResources, mcall. gstep. fold pssc. gstep; [exact I|]. gstep. destruct x as [err|live].
  - gstep. destruct (IsNotFound err) eqn:Hn; [|gstep; apply HQ; [eauto with history|done]].
    apply Hrest; [eauto with history|]. left. exists err. eauto with history.
  - destruct (foreign (pm_uid c0) live) eqn:Hf.
    + gstep. apply Hrest; [eauto with history|]. right. left. exists live. eauto with history.
    + apply wpg_deleteResource; [eapply stays_cleanup; [|done]; eauto with history|right; exists live; eauto with history|].
      intros h' e Hh He. assert (continues h h') as Hh' by (eapply continues_trans; [|done]; eauto with history).
      destruct e; [gstep; by apply HQ|]. apply Hrest; [done|by apply He].
Qed.

(** A loop that stops at the first error. *)
Lemma wpg_each {R A} (l : list A) (f : A -> gom mresp PodMigration R (option ApiErr)) (P : A -> history -> Prop) h0 h s
    (Qr : history -> PodMigration -> R -> Prop) Q :
  (forall x, stays (P x)) ->
  (forall x h1 Q1, In x l -> continues h0 h1 ->
     (forall h2 e, continues h1 h2 -> (e = None -> P x h2) -> Q1 h2 s e) -> wpg M (f x) h1 s Qr Q1) ->
  continues h0 h ->
  (forall h' e, continues h h' -> (e = None -> Forall (fun x => P x h') l) -> Q h' s e) ->
  wpg M (each l f) h s Qr Q.
Proof.
  intros HP Hf. revert h Q. induction l as [|x l IH]; intros h Q Hh HQ; simpl.
  - gstep. apply HQ; [eauto with history|]. constructor.
  - gstep. apply Hf; [by left|done|]. intros h1 e Hh1 He. destruct e as [err|]; [gstep; by apply HQ|].
    apply IH; [intros; apply Hf; [by right|done|done]|by eapply continues_trans|].
    intros h2 e2 Hh2 He2. apply HQ; [by eapply continues_trans|]. intros Hn. constructor; [eapply HP; [done|by apply He]|by apply He2].
Qed.

Lemma stays_resource x : stays (fun h => resource_gone c0 h x).
Proof. intros h h' Hh. by apply stays_gone. Qed.

(** The other engines' objects. *)
Definition engine_gone (eng : Engine) (h : history) : Prop :=
  isGKE eng = false -> forall l, NamespaceResources eng c0 = inr l -> Forall (resource_gone c0 h) l.

Lemma stays_engine eng : stays (engine_gone eng).
Proof. intros h h' Hh He Hg l Hl. exact (stays_all (fun x h => resource_gone c0 h x) l stays_resource _ _ Hh (He Hg l Hl)). Qed.

Lemma wpg_deleteEngine {R} h s (Qr : history -> PodMigration -> R -> Prop) Q :
  due h ->
  (forall h' e, continues h h' -> (e = None -> forall reg eng, cr_engines r = Some reg -> In eng (registered reg) -> engine_gone eng h') -> Q h' s e) ->
  wpg M (deleteEngineResources r c0) h s Qr Q.
Proof.
  intros Hd HQ. unfold deleteEngineResources. destruct (cr_engines r) as [reg|]; [|gstep; apply HQ; [eauto with history|done]].
  eapply (wpg_each _ _ engine_gone h); [apply stays_engine| |eauto with history|].
  - intros eng h1 Q1 _ Hh1 HQ1. gstep; [gstep; apply HQ1; [eauto with history|intros _ Hg; congruence]|].
    destruct (NamespaceResources eng c0) as [err|l] eqn:Hl; [gstep; apply HQ1; [eauto with history|intros _ _ l Hl'; congruence]|].
    eapply (wpg_each _ _ (fun x h => resource_gone c0 h x) h1); [apply stays_resource| |eauto with history|].
    + intros x h2 Q2 _ Hh2 HQ2. apply wpg_deleteOwned; [|done]. eapply stays_cleanup; [|exact Hd]. by eapply continues_trans.
    + intros h2 e Hh2 He. apply HQ1; [done|]. intros Hn _ l' Hl'. assert (l' = l) as -> by congruence.
      specialize (He Hn). apply Forall_rev in He. by rewrite rev_involutive in He.
  - intros h' e Hh He. apply HQ; [done|]. intros Hn reg' eng [= <-] Hin.
    specialize (He Hn). rewrite Forall_forall in He. apply He. by apply list_elem_of_In.
Qed.

Lemma wpg_cleanUp h (Qr : history -> PodMigration -> Outcome -> Prop) Q :
  due h -> (forall h' o, continues h h' -> (exists err, snd o = Some err) -> forall s, Qr h' s o) ->
  (forall h' c, continues h h' -> seen h' (MUpdateConfig (drop_finalizer c0)) (inr c) -> Q h' c tt) ->
  wpg M (cleanUp r) h c0 Qr Q.
Proof.
  intros Hd Herr HQ. unfold cleanUp, deleteNamespaceResources. gstep. gstep. gstep. gstep. apply wpg_deleteStorage; [done|].
  intros h1 e1 Hh1 Hg. destruct e1 as [err|]; [gstep; gstep; apply Herr; [done|by exists err]|].
  apply wpg_deleteEngine; [by eapply stays_cleanup|]. intros h2 e2 Hh2 He.
  assert (continues h h2) as Hh by (by eapply continues_trans).
  destruct e2 as [err|]; [gstep; apply Herr; [done|by exists err]|].
  gstep. gstep. unfold updateConfig, mcall. gstep. gstep. gstep. gstep. gstep.
  - right. split; [done|]. split; [by eapply stays_cleanup|]. destruct (Hg eq_refl) as [H1' H2'].
    split; [exact (stays_gone _ _ _ _ _ _ _ Hh2 H1')|]. split; [exact (stays_gone _ _ _ _ _ _ _ Hh2 H2')|]. intros reg eng l Hr Hin Hgke Hl. by eapply (He eq_refl).
  - gstep.
    + gstep. gstep. apply Herr; [eauto with history|by eexists].
    + gstep. gstep. gstep. gstep. apply HQ; eauto with history.
Qed.

Lemma wpg_mustWait h (Qr : history -> PodMigration -> Outcome -> Prop) Q :
  (forall h' o, continues h h' -> (exists err, snd o = Some err) -> Qr h' c0 o) ->
  (forall h', continues h h' -> migrations_done r now c0 h' -> Q h' c0 None) ->
  (forall h' n, continues h h' -> migrations_running r now c0 h' -> Q h' c0 (Some n)) ->
  wpg M (mustWait r now) h c0 Qr Q.
Proof.
  intros Herr Hdone Hrun. unfold mustWait, listInFlightMigrations, mcall. gstep. gstep. gstep. gstep. gstep; [exact I|].
  destruct x as [err|jobs]; gstep; [gstep; apply Herr; [eauto with history|by exists err]|].
  destruct (in_flight_of r c0 jobs) as [|n l] eqn:Hf.
  - gstep. apply Hdone; [eauto with history|]. exists jobs. eauto with history.
  - gstep. gstep. destruct (deferralExpired now c0) eqn:Hx.
    + gstep. apply wpg_record_warning. intros h1 Hh1. gstep. apply Hdone; [eapply continues_trans; [|done]; eauto with history|].
      exists jobs. eauto with history.
    + gstep. apply Hrun; [eauto with history|]. exists jobs. rewrite Hf. eauto with history.
Qed.

(** ** Conditions *)

Lemma not_ready_set t status reason message gen tm l : status <> "True" ->
  IsStatusConditionTrue (fst (SetStatusCondition t (mkCond "Ready" status reason message gen tm) l)) "Ready" = false.
Proof.
  intros Hs. destruct (IsStatusConditionTrue _ _) eqn:Ht; [|done]. apply is_true_find in Ht as (c & Hf & Hc).
  destruct (find_set_same t (mkCond "Ready" status reason message gen tm) l) as (c' & Hf' & _ & Hs' & _). simpl in *. congruence.
Qed.

(** The config with another list of conditions. *)
Lemma wpg_configCondition {R} type status reason message h s (Qr : history -> PodMigration -> R -> Prop) Q :
  (forall changed, Q h (with_conditions (fst (SetStatusCondition now (mkCond type status reason message (m_generation (pm_meta s)) zero_time)
      (pm_conditions s))) s) changed) ->
  wpg M (setCondition now type status reason message) h s Qr Q.
Proof. intros HQ. unfold setCondition. gstep. gstep. destruct (SetStatusCondition _ _ _) as [l b]. gstep. gstep. gstep. apply HQ. Qed.

Lemma wpg_config_patchStatus {R} before h s (Qr : history -> PodMigration -> R -> Prop) Q :
  (ready s -> governs ns c0 h /\ guarded c0 h /\ all_synced r h s) ->
  (forall h' s' e, continues h h' -> Q h' s' e) -> wpg M (config_patchStatus before) h s Qr Q.
Proof.
  intros Hr HQ. unfold config_patchStatus, mcall. gstep. gstep. gstep; [gstep; apply HQ; eauto with history|].
  gstep. gstep; [done|]. gstep; [gstep; apply HQ; eauto with history|]. gstep. gstep. gstep. apply HQ; eauto with history.
Qed.

(** ** The ends of a pass *)

Abbreviation ends := (fun h (_ : PodMigration) (o : Outcome) => pass_ends r now ns c0 h o).

Lemma wpg_reconcileDeleted h : pm_deleting c0 = true -> wpg M (reconcileDeleted r now) h c0 ends ends.
Proof.
  intros Hdel. unfold reconcileDeleted. gstep. gstep. gstep.
  2: { gstep. split; [intros Hf; congruence|intros Hd; congruence]. }
  gstep. apply wpg_mustWait; [intros; by apply error_ends| |].
  - intros h1 Hh1 Hm. gstep. apply wpg_cleanUp; [split; [done|]; split; [done|by left]|intros; by apply error_ends|].
    intros h2 c Hh2 Hc. gstep. split; [intros _ _; right; right; by exists c|intros Hd; congruence].
  - intros h1 n Hh1 Hrun. cbv zeta. gstep. apply wpg_configCondition. intros changed. gstep.
    assert (forall h2, continues h1 h2 -> pass_ends r now ns c0 h2 (RequeueAfter (5 * Second), None)) as Hend.
    { intros h2 Hh2. split; [|intros Hd; congruence]. intros _ _. right. left. split; [done|].
      destruct Hrun as (jobs & Hj & Hrest). exists jobs. eauto with history. }
    destruct changed; [|gstep; gstep; eauto with history].
    apply wpg_config_patchStatus; [unfold ready; simpl; by rewrite not_ready_set|].
    intros h2 s2 e Hh2. destruct e as [err|]; gstep; [apply error_ends; by exists err|by apply Hend].
Qed.

Lemma wpg_demote active h :
  pm_deleting c0 = false -> listed_active ns h (Some active) -> pm_name active <> pm_name c0 ->
  wpg M (demote r now active) h c0 ends ends.
Proof.
  intros Hdel Hact Hne. assert (demoted ns c0 h) as Hdem by (by exists active).
  assert (forall h1 o, continues h h1 -> pass_ends r now ns c0 h1 o) as Hend.
  { intros h1 o Hh1. split; [intros _ Hd; congruence|]. intros _ _. left. by eapply stays_demoted. }
  assert (forall h1 s (deferCleanup : bool), continues h h1 -> wpg M
    (let msg := "Only one PodMigration resource is allowed per namespace; active configuration is " +s Quote (pm_name active) in
     let* config := gget in
     let before := pm_conditions config in
     let* changed := setCondition now "Ready" "False" ReasonDuplicatePodMigrationInNamespace msg in
     do* (if changed : bool then
            do* record_warning r ReasonDuplicatePodMigrationInNamespace msg in
            let* e := config_patchStatus before in
            match e with Some err => greturn (NoRequeue, Some err) | None => gret tt end
          else gret tt) in
     if deferCleanup || pm_deleting active then gret (RequeueAfter (5 * Second), None) else gret (NoRequeue, None)) h1 s ends ends) as Hrest.
  { intros h1 s b Hh1. cbv zeta. gstep. gstep. gstep. apply wpg_configCondition. intros changed. gstep.
    assert (forall h2 s2, continues h h2 -> wpg M (if b || pm_deleting active then gret (RequeueAfter (5 * Second), None)
        else gret (NoRequeue, None)) h2 s2 ends ends) as Hlast by (intros; gstep; gstep; by apply Hend).
    destruct changed; [|gstep; by apply Hlast].
    gstep. apply wpg_record_warning. intros h2 Hh2. gstep.
    apply wpg_config_patchStatus; [unfold ready; simpl; by rewrite not_ready_set|].
    intros h3 s3 e Hh3. assert (continues h h3) by (eauto using continues_trans).
    destruct e as [err|]; gstep; [by apply Hend|by apply Hlast]. }
  unfold demote. gstep. gstep. gstep. gstep; [|gstep; by apply Hrest].
  gstep. apply wpg_mustWait; [intros; by apply Hend| |].
  - intros h1 Hh1 Hm. gstep. apply wpg_cleanUp; [|intros; apply Hend; by eapply continues_trans|].
    + split; [done|]. split; [done|]. right. by eapply stays_demoted.
    + intros h2 c Hh2 _. gstep. apply Hrest. by eapply continues_trans.
  - intros h1 n Hh1 _. gstep. by apply Hrest.
Qed.

(** ** Writing the objects *)

Lemma wpg_syncResource {R} c d h s (Qr : history -> PodMigration -> R -> Prop) Q :
  governs ns c0 h -> guarded c0 h -> rendered r c d ->
  (forall h' e, continues h h' -> (e = None -> synced h' d) -> Q h' s e) ->
  wpg M (syncResource d) h s Qr Q.
Proof.
  intros Hg Hgu Hd HQ. unfold syncResource, mcall. gstep. gstep; [exact I|]. destruct x as [err|existing].
  - gstep; [|gstep; apply HQ; [eauto with history|done]]. gstep.
    + split; [eapply stays_governs; [|done]; eauto with history|]. split; [eapply stays_guarded; [|done]; eauto with history|by exists c].
    + apply HQ; [eauto with history|]. intros ->. left. exists err. eauto 6 with history.
  - cbv zeta. destruct (EmptyMergePatch existing (merged d existing)) as [err|b] eqn:Hp; [gstep; apply HQ; [eauto with history|done]|].
    destruct b; [gstep; apply HQ; [eauto with history|]; intros _; right; exists existing; split; [eauto with history|left; by apply empty_patch_same]|].
    apply (wpg_call M (MPatchResource existing (merged d existing))); [|intros x _].
    + split; [eapply stays_governs; [|done]; eauto with history|]. split; [eapply stays_guarded; [|done]; eauto with history|].
      exists c, d. eauto with history.
    + apply HQ; [eauto with history|]. intros ->. right. exists existing. eauto 6 with history.
Qed.

(** All objects of the engine are in sync. *)
Definition engine_synced (c : PodMigration) (h : history) (eng : Engine) : Prop :=
  exists l, NamespaceResources eng c = inr l /\ Forall (synced h) l.

Lemma wpg_syncEngine reg before eng c h (Q : history -> PodMigration -> unit -> Prop) :
  ownEngines r = inr reg -> In eng (EnginesFor reg (Some c)) -> governs ns c0 h -> guarded c0 h ->
  (forall h', continues h h' -> engine_synced c h' eng -> Q h' c tt) ->
  wpg M (syncEngine now before eng) h c ends Q.
Proof.
  intros Hreg Hin Hg Hgu HQ. unfold syncEngine. gstep. gstep. destruct (NamespaceResources eng c) as [err|l] eqn:Hl.
  - gstep. destruct (re_location err); [|gstep; gstep; apply error_ends; by eexists].
    gstep. apply wpg_configCondition. intros _. gstep.
    apply wpg_config_patchStatus; [unfold ready; simpl; by rewrite not_ready_set|].
    intros. gstep. gstep. apply error_ends. by eexists.
  - gstep. eapply (wpg_each _ _ (fun d h => synced h d) h); [apply stays_synced| |eauto with history|].
    + intros d h1 Q1 Hd Hh1 HQ1. apply (wpg_syncResource c); [by eapply stays_governs|by eapply stays_guarded| |done].
      exists reg, eng, l. done.
    + intros h1 e Hh1 He. destruct e as [err|]; gstep; [apply error_ends; by eexists|]. apply HQ; [done|]. exists l. split; [done|]. by apply He.
Qed.

Lemma wpg_syncEngines reg before engines c h (Q : history -> PodMigration -> unit -> Prop) :
  ownEngines r = inr reg -> (forall eng, In eng engines -> In eng (EnginesFor reg (Some c))) -> governs ns c0 h -> guarded c0 h ->
  (forall h', continues h h' -> Forall (engine_synced c h') engines -> Q h' c tt) ->
  wpg M (giter engines (syncEngine now before)) h c ends Q.
Proof.
  intros Hreg. revert h Q. induction engines as [|eng engines IH]; intros h Q Hin Hg Hgu HQ; simpl.
  - gstep. apply HQ; [eauto with history|constructor].
  - gstep. eapply wpg_syncEngine; [done|apply Hin; by left|done|done|]. intros h1 Hh1 He.
    apply IH; [intros; apply Hin; by right|by eapply stays_governs|by eapply stays_guarded|].
    intros h2 Hh2 Hes. apply HQ; [by eapply continues_trans|]. constructor; [|done].
    destruct He as (l & Hl & Hs). exists l. split; [done|]. eapply (stays_all (fun d h => synced h d)); [apply stays_synced|done|done].
Qed.

Lemma wpg_setEngineRoutes {R} reg h s (Qr : history -> PodMigration -> R -> Prop) Q :
  (forall l, Q h (with_conditions l s) tt) -> wpg M (setEngineRoutesCondition now reg) h s Qr Q.
Proof.
  intros HQ. unfold setEngineRoutesCondition. gstep. gstep. gstep; [gstep; apply HQ|]. gstep.
  destruct (ValidatePodMigrationRoutes reg (Some s)) as [err|rs]; [gstep|]; apply wpg_configCondition; intros _; gstep; apply HQ.
Qed.

(** The finalizer is there before anything is written. *)
Lemma wpg_guard h (Q : history -> PodMigration -> unit -> Prop) :
  governs ns c0 h -> (forall h' c, continues h h' -> guarded c0 h' -> Q h' c tt) ->
  wpg M (if negb (hasCleanupFinalizer c0) then
           do* gmodify (fun config => with_pm_finalizers (AddFinalizer (m_finalizers (pm_meta config)) StorageCleanupFinalizer) config) in
           let* e := updateConfig in
           match e with Some err => greturn (NoRequeue, Some err) | None => gret tt end
         else gret tt) h c0 ends Q.
Proof.
  intros Hg HQ. destruct (hasCleanupFinalizer c0) eqn:Hf; simpl; [gstep; apply HQ; [eauto with history|by left]|].
  gstep. gstep. gstep. unfold updateConfig, mcall. gstep. gstep. gstep. gstep; [left; by split|].
  gstep; [gstep; gstep; apply error_ends; by eexists|]. gstep. gstep. gstep. gstep. apply HQ; [eauto with history|]. right. eexists. apply seen_now.
Qed.

Lemma wpg_reconcileActive h : governs ns c0 h -> wpg M (reconcileActive r now) h c0 ends ends.
Proof.
  intros Hg. unfold reconcileActive. gstep. gstep. gstep. apply wpg_guard; [done|]. intros h1 c Hh1 Hgu.
  assert (governs ns c0 h1) as Hg1 by (by eapply stays_governs).
  destruct (ownEngines r) as [err|reg] eqn:Hreg; [gstep; apply error_ends; by eexists|].
  gstep. gstep. cbv zeta. gstep. apply wpg_setEngineRoutes. intros l. gstep. gstep. set (c1 := with_conditions l c).
  destruct (EnginesFor reg (Some c1)) as [|eng engines] eqn:He; [gstep; apply error_ends; by eexists|]. rewrite <- He.
  gstep. apply (wpg_syncEngines reg); [done|done|done|done|]. intros h2 Hh2 Hs. gstep. apply wpg_configCondition. intros _.
  assert (forall h3 l', continues h1 h3 -> Forall (engine_synced c1 h3) (EnginesFor reg (Some c1)) -> all_synced r h3 (with_conditions l' c1)) as Hall.
  { intros h3 l' Hh3 Hs3. exists c1, reg. repeat (split; [done|]). split; [congruence|]. intros e' Hin.
    rewrite Forall_forall in Hs3. apply Hs3. by apply list_elem_of_In. }
  assert (governs ns c0 h2) as Hg2 by (by eapply stays_governs). assert (guarded c0 h2) as Hgu2 by (by eapply stays_guarded).
  gstep. apply wpg_config_patchStatus; [intros _; split; [done|]; split; [done|by apply Hall]|].
  intros h3 s3 e Hh3. gstep. split; [intros _ Hd; destruct Hg; congruence|]. intros _ _. right.
  split; [by eapply stays_governs|]. split; [by eapply stays_guarded|]. exists (with_conditions l c1).
  apply Hall; [by eapply continues_trans|]. eapply Forall_impl; [exact Hs|]. intros e' (l' & Hl' & Hf). exists l'. split; [done|].
  eapply (stays_all (fun d h => synced h d)); [apply stays_synced|exact Hh3|exact Hf].
Qed.

Lemma wpf_reconcileConfig h : wpf M (reconcileConfig r now ns) h c0 ends.
Proof.
  unfold reconcileConfig, mcall. gstep. gstep. gstep. destruct (pm_deleting c0) eqn:Hd; [by apply wpg_reconcileDeleted|].
  gstep. gstep; [exact I|]. destruct x as [err|items]; [gstep; apply error_ends; by eexists|].
  assert (listed_active ns (existT (MBase (EListPodMigrations ns)) (inr items) :: h) (SelectActivePodMigration items)) as Hl
    by (exists items; eauto with history).
  destruct (SelectActivePodMigration items) as [active|].
  - destruct (pm_name active !=s pm_name c0) eqn:Hn.
    + apply wpg_demote; [done|done|]. by bool_props.
    + apply wpg_reconcileActive. split; [done|]. exists (Some active). split; [done|]. intros a [= <-]. by bool_props.
  - apply wpg_reconcileActive. split; [done|]. by exists None.
Qed.

Lemma stays_ends o : stays (fun h => pass_ends r now ns c0 h o).
Proof.
  intros h h' Hh [Hd Hl]. split.
  - intros Hf Hdel. destruct (Hd Hf Hdel) as [?|[(Ho & jobs & ? & ?)|(c & Hc)]]; [by left|right; left|right; right].
    + split; [done|]. exists jobs. eauto with history.
    + exists c. eauto with history.
  - intros Hdel Ho. destruct (Hl Hdel Ho) as [?|(? & ? & c & c1 & reg & ? & ? & ? & ? & Hs)]; [left; by eapply stays_demoted|right].
    split; [by eapply stays_governs|]. split; [by eapply stays_guarded|]. exists c, c1, reg. repeat (split; [done|]).
    intros eng Hin. destruct (Hs eng Hin) as (l & Hl' & Hf). exists l. split; [done|].
    eapply (stays_all (fun d h => synced h d)); [apply stays_synced|exact Hh|exact Hf].
Qed.

Lemma wpf_runConfig h : wpf M (runConfig r now ns) h c0 ends.
Proof.
  unfold runConfig. gstep. gstep. apply wpg_invoke. eapply wpf_conseq; [apply wpf_reconcileConfig|].
  intros h1 s1 o Ho. gstep. unfold evaluateConfigInvariants, mcall. gstep. gstep.
  assert (forall h2, continues h1 h2 -> pass_ends r now ns c0 h2 o) as Hend by (intros; by eapply stays_ends).
  gstep; [gstep; gstep; eauto with history|]. gstep. gstep; [exact I|]. gstep. gstep. eauto with history.
Qed.
End Pass.

(** ** The theorems *)

Section Theorems.
Context `{KubeLib} `{DNSLib} `{Rendering} `{PatchLib}.
Context (r : ConfigReconciler) (now : Z) (ns name : string).

(** What a run that read [c0] called and answered. *)
Lemma config_run c0 t o :
  exec (ReconcileConfig r now ns name) (existT (MGetConfig ns name) (inr c0) :: t) o ->
  pass_ends r now ns c0 (rev t ++ [existT (MGetConfig ns name) (inr c0)])%list o /\
  forall t1 e x t2, t = t1 ++ existT e x :: t2 -> config_allows r now ns c0 (rev t1 ++ [existT (MGetConfig ns name) (inr c0)])%list e.
Proof.
  intros Hx. unfold ReconcileConfig in Hx. apply exec_answered in Hx.
  apply exec_pbind in Hx as (t1 & t2 & [s o'] & -> & Hx & Hd). apply exec_inv in Hd as [-> ->]. rewrite app_nil_r.
  destruct (wp_sound _ _ _ _ _ _ (wpf_runConfig r now ns c0 [existT (MGetConfig ns name) (inr c0)]) Hx (fair_open _ _)) as [Ho Hr].
  split; [exact Hr|]. intros t1' e x t2 Ht. rewrite Ht in Ho. apply obeys_app in Ho as [_ Ho]. by destruct Ho.
Qed.

(** C15: The storage and policy objects of a PodMigration are deleted only when it
    is being deleted or another one is active, and every listed migration of it
    has concluded or the wait has exceeded ten minutes; what is deleted is its own
    policy, by its name, or an object just read that no other PodMigration's
    label claims; the finalizer is dropped only once
    every object is gone; and a pass over a deleted PodMigration ends with an
    error, a retry while migrations run, or the finalizer dropped. *)
Theorem cleanup_waits_for_migrations c0 t o :
  exec (ReconcileConfig r now ns name) (existT (MGetConfig ns name) (inr c0) :: t) o ->
  deletion_ends r now c0 (rev t ++ [existT (MGetConfig ns name) (inr c0)])%list o /\
  forall t1 e x t2, t = t1 ++ existT e x :: t2 ->
    (forall av k n m, e = MDeleteResource av k n m ->
       cleanup_due r now ns c0 (rev t1 ++ [existT (MGetConfig ns name) (inr c0)])%list /\
       own_object c0 (rev t1 ++ [existT (MGetConfig ns name) (inr c0)])%list av k n m) /\
    (forall c, e = MUpdateConfig c -> hasCleanupFinalizer c = false ->
       cleanup_due r now ns c0 (rev t1 ++ [existT (MGetConfig ns name) (inr c0)])%list /\
       objects_gone r c0 (rev t1 ++ [existT (MGetConfig ns name) (inr c0)])%list).
Proof.
  intros Hx. destruct (config_run _ _ _ Hx) as [[Hd _] Hc]. split; [done|]. intros t1 e x t2 Ht.
  specialize (Hc _ _ _ _ Ht). split.
  - intros av k n m ->. exact Hc.
  - intros c -> Hf. destruct Hc as [[-> _]|(_ & Hdue & Hgone)]; [|done].
    exfalso. unfold hasCleanupFinalizer, add_finalizer in Hf. simpl in Hf.
    assert (ContainsFinalizer (AddFinalizer (m_finalizers (pm_meta c0)) StorageCleanupFinalizer) StorageCleanupFinalizer = true) as Ht' by (apply contains_in, add_in).
    congruence.
Qed.

End Theorems.

(** ** Runs *)

Definition JValue_eq_dec : forall a b : JValue, {a = b} + {a <> b}.
Proof.
  refine (fix go (a b : JValue) {struct a} : {a = b} + {a <> b} :=
    match a, b with
    | JString s, JString t => match String.string_dec s t with left Heq => left (f_equal JString Heq) | right _ => right _ end
    | JArray l, JArray m => match List.list_eq_dec go l m with left Heq => left (f_equal JArray Heq) | right _ => right _ end
    | JObject l, JObject m =>
        match List.list_eq_dec (fun x y : string * JValue =>
            match String.string_dec x.1 y.1, go x.2 y.2 with
            | left H1, left H2 => left _
            | _, _ => right _
            end) l m with left Heq => left (f_equal JObject Heq) | right _ => right _ end
    | _, _ => right _
    end); try congruence; destruct x, y; simpl in *; congruence.
Defined.
#[export] Instance JValue_eq_decision : EqDecision JValue := JValue_eq_dec.
#[export] Instance Resource_eq_dec : EqDecision Resource.
Proof. solve_decision. Defined.

#[refine, export] Instance exact_patch : PatchLib := {|
  EmptyMergePatch a b := inr (bool_decide (a = b));
  RemoveStatusCondition l t := List.filter (fun c => c_type c !=s t) l |}.
Proof.
  - intros a b [= Hab]. by apply bool_decide_eq_true in Hab.
  - intros a. by rewrite bool_decide_true.
Defined.

(** Every engine renders what GKE Pod Snapshots does. *)
#[refine, export] Instance gke_only : Rendering := {| NamespaceResources _ := gke_NamespaceResources; isGKE _ := true |}.
Proof. done. Defined.

Definition stored_config (deleted : option Z) : PodMigration :=
  mkPodMigration (mkMeta "config" "shop" "" "uid-config" "3" 1 ∅ ∅ (100 * Second) deleted None [] [StorageCleanupFinalizer])
    "gs://bucket/path" [].

(** A server with the config, its jobs, and no storage objects; it accepts every write. *)
Definition config_server (c : PodMigration) (jobs : list PodMigrationJob) (e : MEv) : mresp e :=
  match e return mresp e with
  | MBase (EListJobs _ _) => inr jobs
  | MBase (EListPodMigrations _) => inr [c]
  | MBase e => answer_fail e
  | MGetConfig _ _ => inr c
  | MUpdateConfig c' | MPatchStatus _ c' => inr c'
  | MGetResource _ _ _ _ => inl (mkErr NotFound "")
  | MCreateResource _ | MPatchResource _ _ | MDeleteResource _ _ _ _ => None
  end.

Definition config_reconciler : ConfigReconciler := mkConfigReconciler false false None.
Definition config_run_of (c : PodMigration) (jobs : list PodMigrationJob) :=
  run (fun (_ : unit) e => (tt, config_server c jobs e)) tt (ReconcileConfig (H0 := dns_ref) config_reconciler at_1100 "shop" "config").
Definition config_trace (c : PodMigration) (jobs : list PodMigrationJob) : history := tl (snd (fst (config_run_of c jobs))).

Lemma config_exec c jobs :
  exec (ReconcileConfig (H0 := dns_ref) config_reconciler at_1100 "shop" "config")
    (existT (MGetConfig "shop" "config") (inr c) :: config_trace c jobs) (snd (config_run_of c jobs)).
Proof.
  assert (existT (MGetConfig "shop" "config") (inr c) :: config_trace c jobs = snd (fst (config_run_of c jobs))) as ->.
  { unfold config_trace, config_run_of, ReconcileConfig. simpl. by destruct (run _ _ _) as [[? ?] ?]. }
  apply run_exec.
Qed.

Abbreviation deleted_config := (stored_config (Some (1000 * Second))).

Lemma cleanup_waits_for_migrations_witness :
  objects_gone config_reconciler deleted_config
    (rev (take 3 (config_trace deleted_config [])) ++ [existT (MGetConfig "shop" "config") (inr deleted_config)])%list.
Proof.
  destruct (cleanup_waits_for_migrations (H0 := dns_ref) config_reconciler at_1100 "shop" "config" deleted_config
    (config_trace deleted_config []) (snd (config_run_of deleted_config []))) as [_ Hc]; [apply config_exec|].
  refine (proj2 (proj2 (Hc (take 3 (config_trace deleted_config [])) (MUpdateConfig (drop_finalizer deleted_config)) (inr (drop_finalizer deleted_config))
    (drop 4 (config_trace deleted_config [])) _) _ eq_refl eq_refl)).
  symmetry. apply (take_drop_middle _ 3). vm_compute. reflexivity.
Defined.

Abbreviation live_config := (stored_config None).

Definition ready_config : PodMigration :=
  with_conditions [mkCond "Ready" "True" "Reconciled" "Storage config and policy synced successfully" 1 at_1100] live_config.

