(* ===== verification/Md5.v ===== *)
(** * crypto/md5 and encoding/base64, as the source uses them

    Google Cloud Storage reports the MD5 of an object it stored, in base64: the
    upload compares it with the digest of the bytes it sent. *)
From Stdlib Require Import Ascii Strings.String.
From S2P Require Import Prelude GoLib Sha256.

Definition rotl (n x : Z) : Z := Z.lor (w32 (Z.shiftl x n)) (Z.shiftr x (32 - n)).

(** The integer parts of 2^32 times the absolute sine of 1, 2, ..., 64. *)
Definition sine_table : list Z :=
  [3614090360; 3905402710; 606105819; 3250441966; 4118548399; 1200080426; 2821735955; 4249261313; 1770035416;
   2336552879; 4294925233; 2304563134; 1804603682; 4254626195; 2792965006; 1236535329; 4129170786;
   3225465664; 643717713; 3921069994; 3593408605; 38016083; 3634488961; 3889429448; 568446438; 3275163606;
   4107603335; 1163531501; 2850285829; 4243563512; 1735328473; 2368359562; 4294588738; 2272392833;
   1839030562; 4259657740; 2763975236; 1272893353; 4139469664; 3200236656; 681279174; 3936430074; 3572445317;
   76029189; 3654602809; 3873151461; 530742520; 3299628645; 4096336452; 1126891415; 2878612391; 4237533241;
   1700485571; 2399980690; 4293915773; 2240044497; 1873313359; 4264355552; 2734768916; 1309151649;
   4149444226; 3174756917; 718787259; 3951481745].

Definition md5_shift (i : nat) : Z :=
  nth (i mod 4) (nth (i / 16) [[7; 12; 17; 22]; [5; 9; 14; 20]; [4; 11; 16; 23]; [6; 10; 15; 21]] []) 0.

(** The chaining value. *)
Record Md5 := mkMd5 { ma : Z; mb : Z; mc : Z; md : Z }.

Definition initial_md5 : Md5 := mkMd5 1732584193 4023233417 2562383102 271733878.

Definition w_not (x : Z) : Z := 2 ^ 32 - 1 - x.

(** The function of the step and the index of its word. *)
Definition md5_mix (i : nat) (b c d : Z) : Z * nat :=
  match (i / 16)%nat with
  | 0%nat => (Z.lor (Z.land b c) (Z.land (w_not b) d), i)
  | 1%nat => (Z.lor (Z.land d b) (Z.land (w_not d) c), ((5 * i + 1) mod 16)%nat)
  | 2%nat => (xor3 b c d, ((3 * i + 5) mod 16)%nat)
  | _ => (Z.lxor c (Z.lor b (w_not d)), ((7 * i) mod 16)%nat)
  end.

Definition md5_step (words : list Z) (s : Md5) (i : nat) : Md5 :=
  let '(mkMd5 a b c d) := s in
  let '(f, g) := md5_mix i b c d in
  mkMd5 d (w32 (b + rotl (md5_shift i) (w32 (a + f + nth i sine_table 0 + nth g words 0)))) b c.

Definition le_bytes (n : nat) (x : Z) : list Z := rev (be_bytes n x).
Definition le_word (bytes : list Z) : Z := be_word (rev bytes).

Definition md5_block (s : Md5) (block : list Z) : Md5 :=
  let r := fold_left (md5_step (map le_word (pieces 4 block))) (seq 0 64) s in
  mkMd5 (w32 (ma s + ma r)) (w32 (mb s + mb r)) (w32 (mc s + mc r)) (w32 (md s + md r)).

Definition md5_padded (m : list Z) : list Z :=
  let len := Z.of_nat (length m) in
  (m ++ [128] ++ repeat 0 (Z.to_nat ((55 - len) mod 64)) ++ le_bytes 8 (8 * len))%list.

Definition md5_sum (m : list Z) : list Z :=
  let s := fold_left md5_block (pieces 64 (md5_padded m)) initial_md5 in
  flat_map (le_bytes 4) [ma s; mb s; mc s; md s].

(** ** base64.StdEncoding *)

Definition base64_digit (x : Z) : ascii :=
  default "A"%char (String.list_ascii_of_string "ABCDEFGHIJKLMNOPQRSTUVWXYZabcdefghijklmnopqrstuvwxyz0123456789+/" !! Z.to_nat x).

(** Three bytes, or what is left of them, as four digits. *)
Definition base64_group (g : list Z) : list ascii :=
  let d n x := base64_digit ((x / 2 ^ n) mod 64) in
  match g with
  | [a; b; c] => let x := a * 65536 + b * 256 + c in [d 18 x; d 12 x; d 6 x; d 0 x]
  | [a; b] => let x := a * 65536 + b * 256 in [d 18 x; d 12 x; d 6 x; "="%char]
  | [a] => let x := a * 65536 in [d 18 x; d 12 x; "="%char; "="%char]
  | _ => []
  end.

Definition Base64 (b : list Z) : string := String.string_of_list_ascii (flat_map base64_group (pieces 3 b)).

(** The digest as Google Cloud Storage reports it. *)
Definition md5_hash (m : list Z) : string := Base64 (md5_sum m).

Example md5_abc : EncodeToString (md5_sum (bytes_of "abc")) = "900150983cd24fb0d6963f7d28e17f72".
Proof. by vm_compute. Qed.

Example md5_long :
  EncodeToString (md5_sum (bytes_of "12345678901234567890123456789012345678901234567890123456789012345678901234567890")) =
  "57edf4a22be3c955ac49da2e2107b67a".
Proof. by vm_compute. Qed.

Example md5_base64 : md5_hash (bytes_of "abc") = "kAFQmDzST7DWlj99KOF/cg==".
Proof. by vm_compute. Qed.

(** A digest is never empty. *)
Lemma md5_hash_nonempty m : md5_hash m <> "".
Proof.
  unfold md5_hash, md5_sum. cbn [flat_map]. unfold le_bytes. cbn [be_bytes rev app].
  unfold Base64, pieces. cbn [length chunks take drop flat_map base64_group app]. discriminate.
Qed.
