(* ===== verification/CriuContract.v ===== *)
(** * The objects of the CRIU engine (src/engines/criu/internal/psengine/contract)

    The second snapshot engine answers the same podsnapshot.gke.io objects as GKE
    Pod Snapshots.  The objects are unstructured: a string member of another type
    reads as absent, and [status.conditions] that do not decode read as empty.
    [None] for a status's conditions: the status is not an object, and nothing
    can be set in it.  Also the gated pod as the restore webhook sees it
    (restore_webhook.go) and the calls of the engine ([XEv]). *)
From S2P Require Import Prelude Effects GoLib Json Kube Interfaces Budget GKEProvider Sha256.

Definition AnnotationPSName : string := "podsnapshot.gke.io/ps-name".
Definition AnnotationAssigned : string := "pod-migration.gke.io/assigned-pmj".
Definition LabelEnabled : string := "pod-migration.gke.io/enabled".
Definition LabelEngine : string := "pod-migrate.io/engine".
Definition EngineCRIU : string := "criu".
Definition AnnotationRestoreStatus : string := "pod-migrate.io/psengine-restore".
Definition AnnotationInjected : string := "pod-migrate.io/psengine-injected".
Definition NodeReadyLabel : string := "pod-migrate.io/criu-ready".

(** ** Objects *)

Record CriuStorage := mkCriuStorage {
  cg_name : string;
  (** [spec.snapshotStorageConfig.gcs.bucket] and [.path] *)
  cg_bucket : Nested;
  cg_path : Nested }.

Record CriuPolicy := mkCriuPolicy {
  cp_name : string;
  cp_generation : Z;
  cp_labels : gmap string string;
  (** [spec.triggerConfig.type] and [.postCheckpoint] *)
  cp_triggerType : Nested;
  cp_postCheckpoint : Nested;
  (** [spec.selector]: why it does not decode, or the selector *)
  cp_selector : string + Selector;
  cp_storageConfigName : Nested;
  cp_conditions : option (list Condition) }.

Record CriuTrigger := mkCriuTrigger {
  xt_name : string;
  xt_namespace : string;
  xt_targetPod : Nested;
  xt_snapshotCreated : Nested;
  (** [status] and [status.snapshotCreated] are absent or objects. *)
  xt_settable : bool }.

Record CriuSnapshot := mkCriuSnapshot {
  xs_name : string;
  xs_namespace : string;
  xs_labels : gmap string string;
  (** The string members of [spec]. *)
  xs_spec : gmap string string;
  xs_conditions : option (list Condition) }.

Definition nested (x : Nested) : string := match x with NFound s => s | _ => "" end.

(** ** Accessors *)

Definition PodSnapshotName (podName podUID : string) : string :=
  "ps-" +s podName +s "-" +s (if (String.length podUID <=? 8)%nat then podUID else String.substring 0 8 podUID).

Definition GCSLocation (pssc : CriuStorage) : res (string * string) :=
  if nested (cg_bucket pssc) ==s "" then
    inl (mkErr OtherErr ("PSSC " +s cg_name pssc +s ": missing spec.snapshotStorageConfig.gcs.bucket"))
  else inr (nested (cg_bucket pssc), nested (cg_path pssc)).

Definition PolicyStorageConfigName (psp : CriuPolicy) : option string :=
  if nested (cp_storageConfigName psp) ==s "" then None else Some (nested (cp_storageConfigName psp)).

Definition PolicyIsManualStop (psp : CriuPolicy) : bool :=
  match cp_triggerType psp with
  | NFound typ =>
      if typ !=s "manual" then false
      else match cp_postCheckpoint psp with NFound pc => pc ==s "stop" | _ => false end
  | _ => false
  end.

Definition PolicySelector `{SelectorLib} (psp : CriuPolicy) : string + (gmap string string -> bool) :=
  match cp_selector psp with
  | inl err => inl err
  | inr sel => match LabelSelectorAsSelector (Some sel) with None => inl "invalid label selector" | Some matches => inr matches end
  end.

Definition TriggerTargetPod (psmt : CriuTrigger) : option string :=
  if nested (xt_targetPod psmt) ==s "" then None else Some (nested (xt_targetPod psmt)).

Definition TriggerSnapshotCreated (psmt : CriuTrigger) : string := nested (xt_snapshotCreated psmt).

Definition SetTriggerSnapshotCreated (psmt : CriuTrigger) (snapshotName : string) : res CriuTrigger :=
  if xt_settable psmt then
    inr (mkCriuTrigger (xt_name psmt) (xt_namespace psmt) (xt_targetPod psmt) (NFound snapshotName) true)
  else inl (mkErr OtherErr "value cannot be set because .status is not a map[string]interface{}").

(** ** Conditions *)

Definition Conditions (status : option (list Condition)) : list Condition := default [] status.

(** [metav1.Time] in JSON has no fraction of a second. *)
Definition json_condition (c : Condition) : Condition :=
  mkCond (c_type c) (c_status c) (c_reason c) (c_message c) (c_observedGeneration c) (c_lastTransitionTime c / Second * Second).

Definition SetConditions `{KubeLib} (now : Z) (status : option (list Condition)) (conds : list Condition) : res (option (list Condition)) :=
  match status with
  | None => inl (mkErr OtherErr "value cannot be set because .status is not a map[string]interface{}")
  | Some l => inr (Some (fold_left (fun l c => map json_condition (fst (SetStatusCondition now c l))) conds l))
  end.

Definition IsSnapshotReady (ps : CriuSnapshot) : bool :=
  existsb (fun c => ((c_type c ==s "Ready") && (c_status c ==s "True")) ||
                    ((c_type c ==s "Checkpoint") && (c_status c ==s "True") && (c_reason c ==s "Succeeded")))
    (Conditions (xs_conditions ps)).

Definition hasTerminalCheckpoint (ps : CriuSnapshot) : bool :=
  existsb (fun c => (c_type c ==s "Checkpoint") && (c_status c ==s "False") && ((c_reason c ==s "Failed") || (c_reason c ==s "Refused")))
    (Conditions (xs_conditions ps)).

Definition with_snapshot_conditions (l : option (list Condition)) (ps : CriuSnapshot) : CriuSnapshot :=
  mkCriuSnapshot (xs_name ps) (xs_namespace ps) (xs_labels ps) (xs_spec ps) l.
Definition with_policy_conditions (l : option (list Condition)) (psp : CriuPolicy) : CriuPolicy :=
  mkCriuPolicy (cp_name psp) (cp_generation psp) (cp_labels psp) (cp_triggerType psp) (cp_postCheckpoint psp) (cp_selector psp)
    (cp_storageConfigName psp) l.

(** ** Archives *)

(** The integrity record of an archive (pipeline.go). *)
Record Manifest := mkManifest {
  mf_snapshot : string; mf_sourcePod : string; mf_sourcePodUID : string; mf_container : string; mf_node : string;
  mf_imageName : string; mf_tarSHA256 : string; mf_tarBytes : Z; mf_specSHA256 : string; mf_cpuFamily : string;
  mf_engineVersion : string; mf_createdAt : Z }.

(** encoding/json on a manifest; bytes are numbers. A time outside the years 0 to
    9999 has no encoding. *)
Definition manifest_value (m : Manifest) : Value :=
  VObject ([("snapshot", of_string (mf_snapshot m)); ("sourcePod", of_string (mf_sourcePod m)); ("sourcePodUID", of_string (mf_sourcePodUID m));
    ("container", of_string (mf_container m)); ("node", of_string (mf_node m)); ("imageName", of_string (mf_imageName m));
    ("tarSha256", of_string (mf_tarSHA256 m)); ("tarBytes", of_int (mf_tarBytes m)); ("specSha256", of_string (mf_specSHA256 m))] ++
    (if mf_cpuFamily m ==s "" then [] else [("cpuFamily", of_string (mf_cpuFamily m))]) ++
    [("engineVersion", of_string (mf_engineVersion m)); ("createdAt", VString (FormatRFC3339Nano (mf_createdAt m)))]).
Definition manifest_text (m : Manifest) : list Z := bytes_of (indented_json (manifest_value m)).
Definition MarshalManifest (m : Manifest) : res (list Z) :=
  if (0 <=? year (mf_createdAt m)) && (year (mf_createdAt m) <? 10000) then inr (manifest_text m)
  else inl (mkErr OtherErr "json: error calling MarshalJSON for type time.Time: Time.MarshalJSON: year outside of range [0,9999]").

Definition manifest_fields : list (string * Decode Manifest) := [
  ("snapshot", fun v '(mkManifest a b c d e f g n h i j t) => a ← into_string v a; Some (mkManifest a b c d e f g n h i j t));
  ("sourcePod", fun v '(mkManifest a b c d e f g n h i j t) => b ← into_string v b; Some (mkManifest a b c d e f g n h i j t));
  ("sourcePodUID", fun v '(mkManifest a b c d e f g n h i j t) => c ← into_string v c; Some (mkManifest a b c d e f g n h i j t));
  ("container", fun v '(mkManifest a b c d e f g n h i j t) => d ← into_string v d; Some (mkManifest a b c d e f g n h i j t));
  ("node", fun v '(mkManifest a b c d e f g n h i j t) => e ← into_string v e; Some (mkManifest a b c d e f g n h i j t));
  ("imageName", fun v '(mkManifest a b c d e f g n h i j t) => f ← into_string v f; Some (mkManifest a b c d e f g n h i j t));
  ("tarSha256", fun v '(mkManifest a b c d e f g n h i j t) => g ← into_string v g; Some (mkManifest a b c d e f g n h i j t));
  ("tarBytes", fun v '(mkManifest a b c d e f g n h i j t) => n ← into_int64 v n; Some (mkManifest a b c d e f g n h i j t));
  ("specSha256", fun v '(mkManifest a b c d e f g n h i j t) => h ← into_string v h; Some (mkManifest a b c d e f g n h i j t));
  ("cpuFamily", fun v '(mkManifest a b c d e f g n h i j t) => i ← into_string v i; Some (mkManifest a b c d e f g n h i j t));
  ("engineVersion", fun v '(mkManifest a b c d e f g n h i j t) => j ← into_string v j; Some (mkManifest a b c d e f g n h i j t));
  ("createdAt", fun v '(mkManifest a b c d e f g n h i j t) => t ← into_time v t; Some (mkManifest a b c d e f g n h i j t))].
Definition into_manifest : Decode Manifest := into_struct manifest_fields.
Definition no_manifest : Manifest := mkManifest "" "" "" "" "" "" "" 0 "" "" "" zero_time.
Definition UnmarshalManifest (b : list Z) : option Manifest := unmarshal into_manifest no_manifest (string_of b).

Record ObjectInfo := mkObjectInfo { oi_bytes : Z; oi_md5 : string }.

(** What [Put] is given to read: bytes in memory, or an open file. *)
Inductive Reader := Bytes (b : list Z) | File (path : string).

Record CheckpointRequest := mkCheckpointRequest {
  cr_namespace : string; cr_podName : string; cr_podUID : string; cr_container : string; cr_nodeName : string;
  cr_snapshotName : string; cr_bucket : string; cr_path : string }.

Record RestoreInputs := mkRestoreInputs {
  ri_snapshotName : string; ri_podNamespace : string; ri_targetPod : string; ri_containerName : string;
  ri_sourcePodUID : string; ri_targetPodUID : string; ri_checkpointDir : string; ri_specJSON : list Z; ri_imageName : string }.

(** ** Calls *)

Inductive XEv :=
(* API server *)
| XGetTrigger (ns name : string)
| XGetPod (ns name : string)
| XGetNode (name : string)
| XListPolicies (ns : string)
| XGetPolicy (ns name : string)
| XGetStorage (name : string)
| XGetSnapshot (ns name : string)
| XGetJob (ns name : string)
| XCreateSnapshot (ps : CriuSnapshot)
| XUpdateTriggerStatus (psmt : CriuTrigger)
| XUpdateSnapshotStatus (ps : CriuSnapshot)
| XUpdatePolicyStatus (psp : CriuPolicy)
| XUpdatePod (pod : Pod)
(* the node agent's mechanisms *)
| XDirectCheckpoint (req : CheckpointRequest)
| XCheckpoint (ns pod container : string)
| XSourceInfo (ns pod container : string)
| XStopContainer (ns pod container : string)
| XExtract (tarPath dstDir : string)
| XRestore (inputs : RestoreInputs)
(* local files *)
| XOpen (path : string)
| XReadAll (path : string)
| XRemove (path : string)
| XMkdir (dir : string)
| XRemoveAll (dir : string)
| XCreateFile (path : string)
| XWriteFile (path : string) (b : list Z)
| XCloseFile (path : string)
(* the object store *)
| XPut (bucket object : string) (content : Reader)
| XGetObject (bucket object : string)
| XDeleteObject (bucket object : string)
| XRandom (n : nat)
(* metrics *)
| XMetric (name : string) (label : string).

(** The fields of a PodMigrationJob that the engine reads, as strings. *)
Record JobView := mkJobView {
  jv_podName : Nested; jv_phase : Nested; jv_snapshotRef : Nested; jv_restoredPodUID : Nested; jv_restoredPodName : Nested }.

Definition xresp (e : XEv) : Type :=
  match e with
  | XGetTrigger _ _ => res CriuTrigger
  | XGetPod _ _ => res Pod
  | XGetNode _ => res Node
  | XListPolicies _ => res (list CriuPolicy)
  | XGetPolicy _ _ => res CriuPolicy
  | XGetStorage _ => res CriuStorage
  | XGetSnapshot _ _ => res CriuSnapshot
  | XGetJob _ _ => res JobView
  | XCreateSnapshot _ | XUpdateTriggerStatus _ | XUpdateSnapshotStatus _ | XUpdatePolicyStatus _ | XUpdatePod _ => option ApiErr
  | XDirectCheckpoint _ => option ApiErr
  | XCheckpoint _ _ _ => res string
  | XSourceInfo _ _ _ => res (list Z * string)
  | XStopContainer _ _ _ => option ApiErr
  | XExtract _ _ => option ApiErr
  | XRestore _ => option ApiErr
  | XOpen _ | XMkdir _ | XCreateFile _ | XWriteFile _ _ | XCloseFile _ => option ApiErr
  | XReadAll _ => res (list Z)
  | XRemove _ | XRemoveAll _ | XMetric _ _ => unit
  (* what [Put] read of its reader, and what the store reports *)
  | XPut _ _ _ => res (list Z * ObjectInfo)
  (* the body of the object, as far as it could be read, and whether reading failed *)
  | XGetObject _ _ => res (list Z * option ApiErr)
  | XDeleteObject _ _ => option ApiErr
  | XRandom _ => res (list Z)
  end.

Definition xcall {S R} (e : XEv) : gom xresp S R (xresp e) := gcall e.
