(* ===== verification/CodecLaws.v ===== *)
(** * Records that are read back

    The fence's baseline, as the controller keeps it in an annotation, and the
    manifest of an archive, as the node agent uploads it, decode to what was
    encoded. *)
From Stdlib Require Import Ascii NArith.
From S2P Require Import Prelude Effects GoLib TextLaws Paths Unquote Json JsonLaws Kube Interfaces Engine PodUtil Timeout JobBase Fence Budget Instances GKEProvider Sha256 CriuContract.

(** ** The fence's baseline *)

(** Names and IDs are ASCII, as the API server has them, and a restart count is an int32. *)
Definition plain_container (name : string) (c : FencedContainer) : Prop :=
  ascii_text name = true /\ ascii_text (fc_id c) = true /\ - 2 ^ 31 <= fc_restarts c < 2 ^ 31.

Lemma container_round c zero : ascii_text (fc_id c) = true -> - 2 ^ 31 <= fc_restarts c < 2 ^ 31 -> into_container (container_value c) zero = Some c.
Proof.
  intros Hi Hr. unfold into_container, container_value, into_struct, into_fields.
  change (unquote "id") with "id". change (unquote "restarts") with "restarts". cbn -[into_string into_int32 of_string of_int].
  rewrite into_string_text by done. cbn -[into_int32 of_int]. unfold into_int32. rewrite into_int_pretty; [by destruct c|unfold is_int64, int64_min, int64_max; lia|lia].
Qed.

Lemma container_scannable c : ascii_text (fc_id c) = true -> scannable (container_value c).
Proof.
  intros Hi. split_and!; [by apply (escape_ok "id")|by apply escape_ok|by apply (escape_ok "restarts")|apply pretty_number_ok|done].
Qed.

Lemma fold_insert_lookup {A} (get : string -> A) l (m : gmap string A) k :
  fold_left (fun m name => <[name := get name]> m) l m !! k = if decide (k ∈ l) then Some (get k) else m !! k.
Proof.
  revert m. induction l as [|name l IH]; intros m; cbn [fold_left].
  - case_decide as Hk; [by apply not_elem_of_nil in Hk|done].
  - rewrite IH. repeat case_decide; [done|set_solver| |].
    + assert (k = name) as -> by set_solver. apply lookup_insert_eq.
    + apply lookup_insert_ne. set_solver.
Qed.

Section Entries.
Context {A : Type} (zero : A) (decode : Decode A) (encode : A -> Value) (get : string -> A).

Definition entries (l : list string) : list (string * Value) := map (fun name => (escape_string name, encode (get name))) l.

Lemma into_entries_round l m :
  Forall (fun name => ascii_text name = true /\ decode (encode (get name)) zero = Some (get name)) l ->
  into_entries zero decode (entries l) m = Some (fold_left (fun m name => <[name := get name]> m) l m).
Proof.
  revert m. induction l as [|name l IH]; intros m H; [done|]. apply Forall_cons in H as [[Ha Hd] H]. simpl.
  rewrite Hd. cbn [mbind option_bind]. rewrite unquote_escape_text by done. by apply IH.
Qed.

End Entries.

Lemma Unmarshal_Marshal b : map_Forall plain_container b -> Unmarshal (Marshal b) = Some b.
Proof.
  intros Hb. set (get name := default (mkFenced "" 0) (b !! name)). set (l := SortStrings (elements (dom b))).
  assert (forall k, k ∈ l <-> is_Some (b !! k)) as Hl.
  { intros k. unfold l, SortStrings. rewrite list_elem_of_In, SliceStable_In, <- list_elem_of_In, elem_of_elements. apply elem_of_dom. }
  assert (Forall (fun k => plain_container k (get k)) l) as Hp.
  { apply Forall_forall. intros k [c Hc]%Hl. unfold get. rewrite Hc. by apply Hb. }
  unfold Unmarshal, Marshal, unmarshal.
  change (baseline_value b) with (VObject [("containers", VObject (entries container_value get l))]). rewrite parse_compact.
  - cbn [mbind option_bind into_baseline into_struct into_fields]. change (unquote "containers") with "containers".
    cbn -[into_container entries]. change (unquote "containers") with "containers".
    rewrite into_entries_round.
    + cbn [mbind option_bind]. f_equal. apply map_eq. intros k. rewrite fold_insert_lookup. destruct (decide (k ∈ l)) as [[c Hc]%Hl|Hk].
      * unfold get. by rewrite Hc.
      * etrans; [apply lookup_empty|]. destruct (b !! k) eqn:Hc; [|done]. destruct Hk. apply Hl. by rewrite Hc.
    + eapply Forall_impl; [exact Hp|]. intros k (Ha & Hi & Hr). split; [done|]. by apply container_round.
  - split_and!; [by apply (escape_ok "containers")| |done]. apply scannable_object. unfold entries. apply Forall_map.
    eapply Forall_impl; [exact Hp|]. intros k (Ha & Hi & _). split; [by apply escape_ok|by apply container_scannable].
  - assert (forall l, max_height (map snd (entries container_value get l)) <= 1) as Hm.
    { clear. intros l. induction l as [|k l IH]; [done|]. change (Z.max 1 (max_height (map snd (entries container_value get l))) <= 1). lia. }
    rewrite height_object. specialize (Hm l). cbn [map snd]. unfold max_height at 1. cbn [fold_right]. rewrite height_object. unfold maxNestingDepth. lia.
Qed.

(** ** The manifest of an archive *)

Lemma hex_text b : ascii_text (EncodeToString b) = true.
Proof.
  unfold EncodeToString. assert (forall x, is_ascii (hex_digit x) = true) as Hh.
  { intros x. unfold hex_digit. destruct (_ !! _) as [c|] eqn:Hc; [|done]. apply list_elem_of_lookup_2 in Hc. cbn in Hc.
    repeat (apply elem_of_cons in Hc as [->|Hc]; [done|]). by apply not_elem_of_nil in Hc. }
  induction b as [|x b IH]; [done|]. unfold ascii_text. simpl. by rewrite !Hh.
Qed.

(** A manifest that is written: ASCII text, a size that fits, a time with a year of four digits. *)
Record plain_manifest (m : Manifest) : Prop := {
  plain_texts : Forall (fun s => ascii_text s = true) [mf_snapshot m; mf_sourcePod m; mf_sourcePodUID m; mf_container m; mf_node m; mf_imageName m;
    mf_tarSHA256 m; mf_specSHA256 m; mf_cpuFamily m; mf_engineVersion m];
  plain_bytes : is_int64 (mf_tarBytes m);
  plain_time : 0 <= year (mf_createdAt m) < 10000 }.

(** A time is written in digits and signs that need no escape. *)
Definition plain_char (c : ascii) : bool := (32 <=? byte c) && negb (Ascii.eqb c double_quote) && negb (Ascii.eqb c backslash).

Lemma plain_body s : all_chars plain_char s = true -> body_ok s.
Proof.
  intros H t. induction s as [|c s IH]; [done|]. simpl in H. apply andb_true_iff in H as [Hc H]. unfold plain_char in Hc. bool_props.
  rewrite sapp_cons. cbn [string_body]. repeat match goal with H : Ascii.eqb _ _ = false |- _ => rewrite H; clear H end.
  replace (byte c <? 32) with false by (symmetry; apply Z.ltb_ge; lia). by rewrite IH.
Qed.

Lemma plain_digits s : all_chars is_digit s = true -> all_chars plain_char s = true.
Proof.
  apply all_chars_impl. intros c Hc. assert (forall c, negb (is_digit c) || plain_char c = true) as Ha by (apply forall_ascii; vm_compute; reflexivity).
  specialize (Ha c). by rewrite Hc in Ha.
Qed.

Lemma plain_pretty (z : Z) : all_chars plain_char (pretty z) = true.
Proof.
  destruct z as [|p|p]; [done| |]; destruct (pretty_pos p) as (c & ds & Hc & _ & Hds & _ & Hp & Hn); rewrite ?Hp, ?Hn.
  - apply plain_digits. simpl. by rewrite Hc.
  - change (plain_char "-" && all_chars plain_char (String c ds) = true). apply plain_digits. simpl. by rewrite Hc.
Qed.

Lemma plain_pad n z : all_chars plain_char (pad n z) = true.
Proof.
  unfold pad. rewrite all_chars_app, plain_pretty, andb_true_r. apply plain_digits.
  generalize (n - String.length (pretty z))%nat. intros k. induction k as [|k IH]; [done|]. destruct k; [done|]. exact IH.
Qed.

Lemma frac_digits_plain p v acc print : all_chars is_digit acc = true -> all_chars is_digit (snd (fst (frac_digits p v acc print))) = true.
Proof.
  revert v acc print. induction p as [|p IH]; intros v acc print H; [done|]. cbn [frac_digits]. apply IH.
  destruct (print || _); [|done]. cbn [all_chars]. rewrite H. destruct (char_of_digit (v mod 10)) as [-> _]; [apply Z.mod_pos_bound; lia|done].
Qed.

Lemma time_body t : body_ok (FormatRFC3339Nano t).
Proof.
  apply plain_body. unfold FormatRFC3339Nano. pose proof (frac_digits_plain 9 (t mod Second) "" false eq_refl) as Hf.
  destruct (frac_digits 9 (t mod Second) "" false) as [[v fr] pr]. apply plain_digits in Hf. cbn [fst snd] in Hf.
  unfold format_utc. destruct (civil_from_days _) as [[y m] d]. rewrite !all_chars_app, !plain_pad.
  destruct pr; [|done]. rewrite all_chars_app, Hf. done.
Qed.

Lemma manifest_scannable m : plain_manifest m -> scannable (manifest_value m).
Proof.
  intros [Ht Hb Hc]. apply scannable_object. rewrite !Forall_cons in Ht.
  assert (forall k s, ascii_text k = true -> escape_string k = k -> ascii_text s = true -> body_ok k /\ scannable (of_string s)) as Hs.
  { intros k s Hk He Hs. split; [rewrite <- He; by apply escape_ok|by apply escape_ok]. }
  assert (forall k z, ascii_text k = true -> escape_string k = k -> body_ok k /\ scannable (of_int z)) as Hz.
  { intros k z Hk He. split; [rewrite <- He; by apply escape_ok|apply pretty_number_ok]. }
  apply Forall_app. split; [|apply Forall_app; split].
  - repeat apply Forall_cons_2; first [apply Forall_nil_2|apply Hs; [done|done|tauto]|by apply Hz].
  - destruct (mf_cpuFamily m ==s ""); [done|]. apply Forall_cons_2; [|done]. apply Hs; [done|done|tauto].
  - apply Forall_cons_2; [apply Hs; [done|done|tauto]|]. apply Forall_cons_2; [|done]. split; [by apply (escape_ok "createdAt")|apply time_body].
Qed.

Lemma into_fields_cons {A} (fields : list (string * Decode A)) k v l cur decode :
  field_of fields (unquote k) = Some decode -> into_fields fields ((k, v) :: l) cur = x ← decode v cur; into_fields fields l x.
Proof. intros H. simpl. by rewrite H. Qed.

(** A manifest reads back as it was written. *)
Lemma Unmarshal_manifest m : plain_manifest m -> UnmarshalManifest (manifest_text m) = Some m.
Proof.
  intros Hm. unfold UnmarshalManifest, manifest_text, unmarshal. rewrite string_of_bytes, parse_indented.
  - destruct Hm as [Ht Hb Hc]. rewrite !Forall_cons in Ht. destruct m as [a b c d e f g n h i j t]. unfold manifest_value, into_manifest, into_struct.
    cbn [mf_snapshot mf_sourcePod mf_sourcePodUID mf_container mf_node mf_imageName mf_tarSHA256 mf_tarBytes mf_specSHA256 mf_cpuFamily mf_engineVersion mf_createdAt] in *.
    destruct Ht as (? & ? & ? & ? & ? & ? & ? & ? & ? & ? & _). cbn [mbind option_bind app].
    assert (forall cur, into_time (VString (FormatRFC3339Nano t)) cur = Some t) as Hnow by (intros cur; by apply ParseRFC3339_FormatNano).
    assert (forall cur, into_int64 (of_int n) cur = Some n) as Hn by (intros cur; apply into_int_pretty; [done|exact Hb]).
    unfold no_manifest. destruct (i ==s "") eqn:Hi; [apply seqb_true in Hi as ->|]; cbn [app];
      repeat (erewrite into_fields_cons by reflexivity; cbn [snd]; cbv beta iota; first [rewrite into_string_text by done|rewrite Hnow|rewrite Hn]; cbn [mbind option_bind]); done.
  - by apply manifest_scannable.
  - unfold manifest_value. rewrite height_object. destruct (_ ==s ""); done.
Qed.

(** ** What the fence recognises *)

Definition fenced_as (cs : ContainerStatus) : FencedContainer := mkFenced (cs_containerID cs) (cs_restartCount cs).

Lemma fenced_statuses l (m : gmap string ContainerStatus) :
  fold_left (fun b cs => <[cs_name cs := fenced_as cs]> b) l (fenced_as <$> m) = fenced_as <$> fold_left (fun m cs => <[cs_name cs := cs]> m) l m.
Proof. revert m. induction l as [|cs l IH]; intros m; [done|]. simpl. by rewrite <- IH, fmap_insert. Qed.

Lemma baselineOf_statuses pod : baselineOf pod = fenced_as <$> status_map pod.
Proof. unfold status_map. by rewrite <- fenced_statuses, fmap_empty. Qed.

Lemma baselineOf_lookup pod name c : baselineOf pod !! name = Some c <-> exists cs, status_map pod !! name = Some cs /\ c = fenced_as cs.
Proof.
  rewrite baselineOf_statuses. split.
  - intros H. apply lookup_fmap_Some in H as (cs & <- & H). by exists cs.
  - intros (cs & H & ->). apply lookup_fmap_Some. by exists cs.
Qed.

Lemma status_map_in pod name cs : status_map pod !! name = Some cs -> In cs (p_containerStatuses pod) /\ cs_name cs = name.
Proof.
  unfold status_map. assert (forall l (m : gmap string ContainerStatus), (forall n c, m !! n = Some c -> In c (p_containerStatuses pod) /\ cs_name c = n) ->
    incl l (p_containerStatuses pod) -> fold_left (fun m cs => <[cs_name cs := cs]> m) l m !! name = Some cs ->
    In cs (p_containerStatuses pod) /\ cs_name cs = name) as H.
  { induction l as [|c l IH]; intros m Hm Hi; [apply Hm|]. apply IH; [|by intros x Hx; apply Hi; right].
    intros n d. destruct (decide (cs_name c = n)) as [<-|Hn]; [rewrite lookup_insert_eq; intros [= <-]; split; [apply Hi; by left|done]|].
    rewrite lookup_insert_ne by done. apply Hm. }
  apply H; [|apply incl_refl]. intros n c Hn. by rewrite lookup_empty in Hn.
Qed.

Lemma baselineOf_empty pod : baselineOf pod = ∅ <-> p_containerStatuses pod = [].
Proof.
  unfold baselineOf. destruct (p_containerStatuses pod) as [|cs l]; [done|]. split; [|done]. intros H. exfalso. revert H. cbn [fold_left].
  generalize (∅ : FenceBaseline) at 1. revert cs. induction l as [|d l IH]; intros cs m; [intros H; exact (False_ind _ (insert_non_empty (M := gmap string) _ _ _ H))|apply IH].
Qed.

Definition kept_container (want : FencedContainer) (got : ContainerStatus) : Prop :=
  fc_id want <> "" /\ cs_containerID got = fc_id want /\ cs_restartCount got = fc_restarts want /\ st_running (cs_state got) = true.

Lemma container_diff_none statuses name want :
  container_diff statuses name want = None <-> exists got, statuses !! name = Some got /\ kept_container want got.
Proof.
  unfold container_diff. destruct (statuses !! name) as [got|]; [|split; [done|by intros (? & ? & _)]].
  assert ((exists got', Some got = Some got' /\ kept_container want got') <-> kept_container want got) as ->
    by (split; [by intros (? & [= <-] & ?)|by exists got]). unfold kept_container.
  destruct (String.eqb_spec (fc_id want) ""); simpl; [split; [done|tauto]|].
  destruct (String.eqb_spec (cs_containerID got) (fc_id want)); simpl; [|split; [done|tauto]].
  destruct (Z.eqb_spec (cs_restartCount got) (fc_restarts want)); simpl; [|split; [done|tauto]].
  destruct (st_running (cs_state got)); simpl; split; try done; by intros (_ & _ & _ & ?).
Qed.

Lemma first_diff_none b statuses names :
  first_diff b statuses names = None <-> forall name want, In name names -> b !! name = Some want -> container_diff statuses name want = None.
Proof.
  induction names as [|n names IH]; simpl; [naive_solver|]. destruct (b !! n) as [want|] eqn:Hn; [|naive_solver].
  destruct (container_diff statuses n want) eqn:Hd; naive_solver.
Qed.

(** The job with the baseline of [pod] in its annotation, as the fence patches it. *)
Definition fenced_job (job : PodMigrationJob) (pod : Pod) : PodMigrationJob :=
  set_j_annotations (<[AnnotationFenceBaseline := Marshal (baselineOf pod)]> (j_annotations job)) job.

(** C21: The fence recognises its source, through the annotation that records it.  A job
    whose annotation holds the baseline of [pod], as encoding/json prints it, says
    that a baseline was recorded, and judges a later state of the source unchanged
    exactly if that is running, is not being deleted, and runs every container that
    [pod] listed (at least one) with the same ID, not restarted since. *)
Theorem fence_recognises_source job pod later :
  (forall cs, In cs (p_containerStatuses pod) -> plain_container (cs_name cs) (fenced_as cs)) ->
  snd (jobFenceBaseline (fenced_job job pod)) = true /\
  (fst (unchanged (fst (jobFenceBaseline (fenced_job job pod))) later) = true <->
   p_deleting later = false /\ p_phase later = PodRunning /\ p_containerStatuses pod <> [] /\
   forall name cs, status_map pod !! name = Some cs ->
     exists got, status_map later !! name = Some got /\ kept_container (fenced_as cs) got).
Proof.
  intros Hp. assert (jobFenceBaseline (fenced_job job pod) = (baselineOf pod, true)) as ->.
  { unfold jobFenceBaseline, fenced_job. assert (forall m, j_annotations (set_j_annotations m job) = m) as -> by done. rewrite sget_insert_eq.
    rewrite (proj2 (seqb_false (Marshal _) "")) by done. rewrite Unmarshal_Marshal; [done|]. intros name c Hc.
    apply baselineOf_lookup in Hc as (cs & Hs & ->). apply status_map_in in Hs as [Hin <-]. by apply Hp. }
  split; [done|]. cbn [fst]. unfold unchanged, baseline_diff. destruct (p_deleting later); [naive_solver|].
  case_bool_decide as Hph; simpl; [|naive_solver].
  pose proof (baselineOf_empty pod) as Hempty.
  case_bool_decide as Hb; simpl; [naive_solver|].
  destruct (first_diff _ _ _) eqn:Hd; simpl.
  - split; [done|]. intros (_ & _ & _ & Hall). enough (first_diff (baselineOf pod) (status_map later) (SortStrings (elements (dom (baselineOf pod)))) = None) by congruence.
    apply first_diff_none. intros name want _ Hw. apply container_diff_none.
    apply baselineOf_lookup in Hw as (cs & Hs & ->). by apply Hall.
  - split; [|done]. intros _. split_and!; [done|done|by rewrite <- Hempty|]. intros name cs Hs. apply container_diff_none.
    assert (baselineOf pod !! name = Some (fenced_as cs)) as Hc by (apply baselineOf_lookup; by exists cs).
    rewrite first_diff_none in Hd. apply Hd; [|done].
    unfold SortStrings. rewrite SliceStable_In, <- list_elem_of_In, elem_of_elements. apply elem_of_dom. exists (fenced_as cs). exact Hc.
Qed.

(** ** The theorems apply *)

Lemma fence_recognises_source_witness :
  fst (unchanged (fst (jobFenceBaseline (fenced_job (sample_job Snapshotting) sample_pod))) sample_pod) = true.
Proof.
  apply (fence_recognises_source (sample_job Snapshotting) sample_pod sample_pod).
  - intros cs [<-|[]]. by split_and!.
  - split_and!; [done|done|done|]. intros name cs Hs. exists cs. split; [done|]. apply status_map_in in Hs as [[<-|[]] _]. by split_and!.
Defined.
