(* ===== verification/CriuEngine.v ===== *)
(** * The CRIU engine's controllers (src/engines/criu/internal/psengine)

    [ReconcileTrigger] (psmt_reconciler.go) turns a trigger into a snapshot's work
    order, or refuses; [ReconcilePolicy] (psp_reconciler.go) declares the policies
    the engine serves; [VerifyCRDOwnership] (preflight.go) keeps it off another
    engine's objects; [InjectHolder] (restore_webhook.go) wires a replacement so
    that it is restored or starts cold. *)
From S2P Require Import Prelude Effects GoLib Kube Interfaces Budget GKEProvider CriuContract.

Section Controllers.
Context `{KubeLib} `{SelectorLib}.
Context (now : Z).
Abbreviation X R A := (gom xresp unit R A).

(** ** The trigger *)

Definition hasReadyTrue (psp : CriuPolicy) : bool :=
  existsb (fun c => (c_type c ==s "Ready") && (c_status c ==s "True")) (Conditions (cp_conditions psp)).

(** The policy is the engine's, Ready, manual with stop, and selects the labels. *)
Definition serves (podLabels : gmap string string) (psp : CriuPolicy) : bool :=
  if sget (cp_labels psp) LabelEngine !=s EngineCRIU then false
  else if negb (hasReadyTrue psp) || negb (PolicyIsManualStop psp) then false
  else match PolicySelector psp with inl _ => false | inr matches => matches podLabels end.

Definition matchingEnginePSP {R} (ns : string) (podLabels : gmap string string) : X R (res (option CriuPolicy)) :=
  let* x := xcall (XListPolicies ns) in
  match x with
  | inl err => gret (inl err)
  | inr items => gret (inr (List.find (serves podLabels) items))
  end.

(** Why the pod is not checkpointed; empty when it may be. *)
Definition refusalReason {R} (pod : Pod) : X R string :=
  if sget (p_labels pod) LabelEnabled !=s "true" then gret "pod is not opted in (pod-migration.gke.io/enabled != true)"
  else if negb (length (p_containers pod) =? 1)%nat then gret "multi-container pods unsupported by criu engine v1"
  else if p_nodeName pod ==s "" then gret "pod is not scheduled"
  else
    let* x := xcall (XGetNode (p_nodeName pod)) in
    match x with
    | inl err => gret ("cannot resolve node " +s p_nodeName pod +s ": " +s e_msg err)
    | inr node =>
        gret (if sget (m_annotations (n_meta node)) NodeReadyLabel !=s "true" then
                "node " +s p_nodeName pod +s " is not criu-ready (" +s NodeReadyLabel +s " != true)"
              else "")
    end.

Definition storageFor {R} (psp : CriuPolicy) : X R (res (string * string)) :=
  match PolicyStorageConfigName psp with
  | None => gret (inl (mkErr OtherErr ("PSP " +s cp_name psp +s " has no storageConfigName")))
  | Some scName =>
      let* x := xcall (XGetStorage scName) in
      match x with inl err => gret (inl err) | inr pssc => gret (GCSLocation pssc) end
  end.

Definition patchSnapshotConditions {R} (ns name : string) (conds : list Condition) : X R (option ApiErr) :=
  let* x := xcall (XGetSnapshot ns name) in
  match x with
  | inl err => gret (Some err)
  | inr ps =>
      if IsSnapshotReady ps || hasTerminalCheckpoint ps then gret None
      else
        match SetConditions now (xs_conditions ps) conds with
        | inl err => gret (Some err)
        | inr l => xcall (XUpdateSnapshotStatus (with_snapshot_conditions l ps))
        end
  end.

Definition condition (type status reason msg : string) : Condition := mkCond type status reason msg 0 zero_time.

Definition setSnapshotTerminal {R} (ns name reason msg : string) : X R (option ApiErr) :=
  do* xcall (XMetric "checkpoint_outcomes" reason) in
  patchSnapshotConditions ns name [condition "Checkpoint" "False" reason msg; condition "Ready" "False" reason msg].

Definition setSnapshotPending {R} (ns name msg : string) : X R (option ApiErr) :=
  patchSnapshotConditions ns name [condition "Checkpoint" "Unknown" "Pending" msg].

(** The work order: actionable, with a bucket, only when nothing speaks against it. *)
Definition workOrder (ns : string) (pod : Pod) (refusal : string) (storage : res (string * string)) : CriuSnapshot :=
  let spec : gmap string string := {[ "sourcePod" := p_name pod; "sourcePodUID" := p_uid pod; "nodeName" := p_nodeName pod ]} in
  let spec := match p_containers pod with c :: _ => <["container" := ct_name c]> spec | [] => spec end in
  let spec := match storage with
              | inr (bucket, path) => if refusal ==s "" then <["bucket" := bucket]> (<["path" := path]> spec) else spec
              | inl _ => spec
              end in
  mkCriuSnapshot (PodSnapshotName (p_name pod) (p_uid pod)) ns {[ LabelEngine := EngineCRIU ]} spec (Some []).

(** Step 1: the snapshot exists. *)
Definition materialize (ns : string) (pod : Pod) (refusal : string) (storage : res (string * string)) : X (res Result) unit :=
  let* x := xcall (XGetSnapshot ns (PodSnapshotName (p_name pod) (p_uid pod))) in
  match x with
  | inr _ => gret tt
  | inl err =>
      if IsNotFound err then
        let* e := xcall (XCreateSnapshot (workOrder ns pod refusal storage)) in
        match e with
        | Some err => if IsAlreadyExists err then gret tt else greturn (inl err)
        | None => gret tt
        end
      else greturn (inl err)
  end.

(** Step 2: the trigger names it. *)
Definition answer (psmt : CriuTrigger) (snapshotName : string) : X (res Result) unit :=
  if TriggerSnapshotCreated psmt !=s snapshotName then
    match SetTriggerSnapshotCreated psmt snapshotName with
    | inl err => greturn (inl err)
    | inr psmt' =>
        let* e := xcall (XUpdateTriggerStatus psmt') in
        match e with Some err => greturn (inl err) | None => gret tt end
    end
  else gret tt.

(** [return ctrl.Result{}, err] *)
Definition only_error {R} (e : option ApiErr) : X R (res Result) :=
  gret (match e with Some err => inl err | None => inr NoRequeue end).

(** Step 3: the refusal, the failure or the hand-over. *)
Definition handOver (hasCheckpointer : bool) (ns : string) (pod : Pod) (snapshotName refusal : string) (storage : res (string * string))
    : X (res Result) (res Result) :=
  if refusal !=s "" then let* e := setSnapshotTerminal ns snapshotName "Refused" refusal in only_error e
  else
    match storage with
    | inl storageErr => let* e := setSnapshotTerminal ns snapshotName "Failed" ("resolving storage: " +s e_msg storageErr) in only_error e
    | inr (bucket, path) =>
        if hasCheckpointer then
          let* e := xcall (XDirectCheckpoint (mkCheckpointRequest (p_namespace pod) (p_name pod) (p_uid pod)
                      (match p_containers pod with c :: _ => ct_name c | [] => "" end) (p_nodeName pod) snapshotName bucket path)) in
          match e with
          | Some err => let* e := setSnapshotTerminal ns snapshotName "Failed" (e_msg err) in only_error e
          | None => gret (inr (RequeueAfter (30 * Second)))
          end
        else
          let* e := setSnapshotPending ns snapshotName ("awaiting node agent on " +s p_nodeName pod) in
          match e with Some err => gret (inl err) | None => gret (inr (RequeueAfter (30 * Second))) end
    end.

Definition ReconcileTrigger (hasCheckpointer : bool) (ns name : string) : fn xresp unit (res Result) := gfun (
  let* x := xcall (XGetTrigger ns name) in
  match x with
  | inl err => gret (if IsNotFound err then inr NoRequeue else inl err)
  | inr psmt =>
      match TriggerTargetPod psmt with
      | None => gret (inr NoRequeue)
      | Some podName =>
          let* x := xcall (XGetPod ns podName) in
          match x with
          | inl err => gret (if IsNotFound err then inr NoRequeue else inl err)
          | inr pod =>
              let* x := matchingEnginePSP ns (p_labels pod) in
              match x with
              | inl err => gret (inl err)
              | inr None => gret (inr NoRequeue)
              | inr (Some psp) =>
                  let snapshotName := PodSnapshotName (p_name pod) (p_uid pod) in
                  let* refusal := refusalReason pod in
                  let* storage := storageFor psp in
                  do* materialize ns pod refusal storage in
                  do* answer psmt snapshotName in
                  handOver hasCheckpointer ns pod snapshotName refusal storage
              end
          end
      end
  end).

(** ** The policy *)

(** [resolvePSSC] *)
Definition resolvePSSC {R} (name : string) : X R (res (string * string)) :=
  let* x := xcall (XGetStorage name) in
  match x with
  | inl err => gret (inl (wrapf ("storageConfigName " +s Quote name +s ": ") err))
  | inr pssc => gret (GCSLocation pssc)
  end.

(** [(ready, reason, msg)]; [probe] is the reconciler's optional StorageProber. *)
Definition validate (probe : option (string -> string -> fn xresp unit (option ApiErr))) (psp : CriuPolicy) : X (res Result) (bool * string * string) :=
  if negb (PolicyIsManualStop psp) then
    gret (false, "UnsupportedTrigger", "criu engine serves only triggerConfig {type: manual, postCheckpoint: stop}")
  else
    match PolicySelector psp with
    | inl err => gret (false, "InvalidSelector", "spec.selector does not parse: " +s err)
    | inr _ =>
        match PolicyStorageConfigName psp with
        | None => gret (false, "MissingStorageConfig", "spec.storageConfigName is empty")
        | Some scName =>
            let* x := resolvePSSC scName in
            match x with
            | inl err => gret (false, "StorageConfigUnresolved", e_msg err)
            | inr (bucket, path) =>
                let* e := (match probe with Some f => ginvoke (f bucket path) | None => gret None end) in
                match e with
                | Some err => gret (false, "StorageUnwritable", "gs://" +s bucket +s "/" +s path +s ": " +s e_msg err)
                | None => gret (true, "Serviceable", "criu engine will serve this policy (archives to gs://" +s bucket +s "/" +s path +s ")")
                end
            end
        end
    end.

(** Equal but for the transition times. *)
Definition same_condition (a b : Condition) : bool :=
  (c_type a ==s c_type b) && (c_status a ==s c_status b) && (c_reason a ==s c_reason b) && (c_message a ==s c_message b) &&
  (c_observedGeneration a =? c_observedGeneration b).

Fixpoint conditionsEqual (a b : list Condition) : bool :=
  match a, b with
  | [], [] => true
  | x :: a', y :: b' => same_condition x y && conditionsEqual a' b'
  | _, _ => false
  end.

Definition ReconcilePolicy (probe : option (string -> string -> fn xresp unit (option ApiErr))) (ns name : string) : fn xresp unit (res Result) := gfun (
  let* x := xcall (XGetPolicy ns name) in
  match x with
  | inl err => gret (if IsNotFound err then inr NoRequeue else inl err)
  | inr psp =>
      if sget (cp_labels psp) LabelEngine !=s EngineCRIU then gret (inr NoRequeue)
      else
        let* v := validate probe psp in
        let '(ready, reason, msg) := v in
        match SetConditions now (cp_conditions psp)
                [mkCond "Ready" (if ready : bool then "True" else "False") reason msg (cp_generation psp) zero_time;
                 mkCond "ScopeSingleContainer" "True" "V1Scope"
                   "criu engine v1 serves single-container runc pods on criu-ready nodes" (cp_generation psp) zero_time] with
        | inl err => gret (inl err)
        | inr l =>
            if conditionsEqual (Conditions (cp_conditions psp)) (Conditions l) then gret (inr NoRequeue)
            else let* e := xcall (XUpdatePolicyStatus (with_policy_conditions l psp)) in only_error e
        end
  end).
End Controllers.

(** ** The preflight *)

(** A CustomResourceDefinition: its labels and its field managers. *)
Record CRD := mkCRD { crd_labels : gmap string string; crd_managers : list string }.

Definition ComponentLabel : string := "pod-migrate.io/component".
Definition contractCRDs : list string :=
  ["podsnapshotstorageconfigs.podsnapshot.gke.io"; "podsnapshotpolicies.podsnapshot.gke.io";
   "podsnapshotmanualtriggers.podsnapshot.gke.io"; "podsnapshots.podsnapshot.gke.io"].

Definition unknown_owner : string := "; owner unknown (no addon markers found)".

Definition describeForeignOwner (crd : CRD) : string :=
  match crd_labels crd !! "addonmanager.kubernetes.io/mode" with
  | Some mode => "; owner looks like the managed GKE Pod Snapshots addon (addonmanager.kubernetes.io/mode=" +s mode +s ")"
  | None =>
      match crd_labels crd !! "app.kubernetes.io/managed-by" with
      | Some by_ => "; owner: app.kubernetes.io/managed-by=" +s by_
      | None =>
          match List.find (fun mgr => let m := ToLower mgr in Contains m "google" || Contains m "gke" || Contains m "addon") (crd_managers crd) with
          | Some mgr => "; owner looks like the managed GKE addon (field manager " +s Quote mgr +s ")"
          | None => unknown_owner
          end
      end
  end.

(** The first CRD that is missing or another's; [get] is the reader's Get. *)
Fixpoint verifyCRDs (get : string -> res CRD) (names : list string) : option ApiErr :=
  match names with
  | [] => None
  | name :: rest =>
      match get name with
      | inl err =>
          Some (if IsNotFound err then
                  mkErr OtherErr ("preflight: CRD " +s name +s " not installed — apply engines/criu/deploy/crds.yaml first (addon-off clusters only)")
                else wrapf ("preflight: reading CRD " +s name +s ": ") err)
      | inr crd =>
          let ownerDesc := describeForeignOwner crd in
          if sget (crd_labels crd) ComponentLabel !=s "psengine" then
            Some (mkErr OtherErr ("preflight: CRD " +s name +s " exists but is not ours (missing " +s ComponentLabel +s "=psengine)" +s ownerDesc +s
                  " — refusing to start psengine: two engines double-executing PodSnapshotManualTriggers would corrupt migrations. " +s
                  "Either disable the other owner and apply engines/criu/deploy/crds.yaml, or run psengine on an addon-off cluster"))
          else if ownerDesc !=s unknown_owner then
            Some (mkErr OtherErr ("preflight: CRD " +s name +s " has our component label but also carries foreign markers (" +s ownerDesc +s
                  ") — it appears engines/criu/deploy/crds.yaml was applied over an existing GKE Pod Snapshots addon CRD! Refusing to start."))
          else verifyCRDs get rest
      end
  end.
Definition VerifyCRDOwnership (get : string -> res CRD) : option ApiErr := verifyCRDs get contractCRDs.

(** ** The restore webhook *)

Record WMount := mkWMount { wm_name : string; wm_path : string; wm_readOnly : bool }.
Record WContainer := mkWContainer {
  wc_name : string; wc_image : string; wc_command : list string; wc_args : list string; wc_mounts : list WMount }.
Inductive WVolume := EmptyDirVolume (name : string) | AnnotationsVolume (name path : string) | OtherVolume (name : string).

(** The members of a pod that the webhook reads or writes. *)
Record WPod := mkWPod {
  wp_gates : list string;
  wp_annotations : gmap string string;
  wp_containers : list WContainer;
  wp_initContainers : list WContainer;
  wp_volumes : list WVolume }.

Definition SchedulingGate : string := "gke.io/pod-migration-gate".

Definition holder_container (holderImage : string) : WContainer :=
  mkWContainer "pm-holder-seed" holderImage ["/holder"; "seed"; "/pmhold/holder"] [] [mkWMount "pmhold" "/pmhold" false].

(** The container runs its entrypoint under the holder. *)
Definition wrapped (app : WContainer) : WContainer :=
  mkWContainer (wc_name app) (wc_image app)
    (["/pmhold/holder"; "wrap"; "/pminfo/annotations"; "--"] ++ (wc_command app ++ wc_args app))%list []
    (wc_mounts app ++ [mkWMount "pmhold" "/pmhold" true; mkWMount "pminfo" "/pminfo" true])%list.

(** [(mutated, reason)] and the pod. *)
Definition InjectHolder (pod : WPod) (holderImage : string) : WPod * (bool * string) :=
  let gated := existsb (fun g => g ==s SchedulingGate) (wp_gates pod) in
  if negb gated || (sget (wp_annotations pod) AnnotationAssigned ==s "") then (pod, (false, "not a gated migration replacement pod"))
  else if sget (wp_annotations pod) AnnotationInjected ==s "true" then (pod, (false, "already injected"))
  else
    match wp_containers pod with
    | [app] =>
        match wc_command app with
        | [] => (pod, (false, "container has no explicit command; cold-start fall-through impossible, skipping injection"))
        | _ :: _ =>
            (mkWPod (wp_gates pod) (<[AnnotationInjected := "true"]> (wp_annotations pod)) [wrapped app]
               (wp_initContainers pod ++ [holder_container holderImage])%list
               (wp_volumes pod ++ [EmptyDirVolume "pmhold"; AnnotationsVolume "pminfo" "annotations"])%list,
             (true, "injected"))
        end
    | _ => (pod, (false, "multi-container pod: outside criu engine v1 scope"))
    end.

Inductive InjectorResponse := InjectorErrored (code : Z) (err : ApiErr) | InjectorAllowed (reason : string) | InjectorPatch (pod : WPod).

(** The handler, on what the decoder makes of the request. *)
Definition RestoreInjector_Handle (decoded : res WPod) (holderImage : string) : InjectorResponse :=
  match decoded with
  | inl err => InjectorErrored 400 err
  | inr pod =>
      let '(pod', (mutated, reason)) := InjectHolder pod holderImage in
      if mutated : bool then InjectorPatch pod' else InjectorAllowed reason
  end.
