(* ===== verification/Gcs.v ===== *)
(** * The object store over HTTP (src/engines/criu/internal/psengine/gcs.go)

    [GCSStore]: uploads, downloads and deletions of objects through the JSON API of
    Google Cloud Storage, with a token of the metadata server that is kept until 30
    seconds before it expires.  It is the store behind the calls [XPut],
    [XGetObject] and [XDeleteObject] of CriuContract.  The state is the kept token;
    the mutex makes [bearer] one step.  The base URLs parse, so building a request
    does not fail.  The text of a decoder's error is left out. *)
From Stdlib Require Import Ascii.
From S2P Require Import Prelude Effects GoLib Unquote Json Kube Interfaces Budget GKEProvider Sha256 CriuContract.

(** ** package net/url *)

Definition one_of (l : list Z) (c : ascii) : bool := existsb (Z.eqb (byte c)) l.
Definition is_alnum (c : ascii) : bool :=
  let b := byte c in ((48 <=? b) && (b <=? 57)) || ((65 <=? b) && (b <=? 90)) || ((97 <=? b) && (b <=? 122)).

(** What needs no escape: letters, digits and [-_.~]; in a path segment also [$&+:=@]. *)
Definition unreserved (c : ascii) : bool := is_alnum c || one_of [45; 95; 46; 126] c.
Definition segment_safe (c : ascii) : bool := unreserved c || one_of [36; 38; 43; 58; 61; 64] c.

Definition upper_hex (n : Z) : ascii := of_byte (if n <? 10 then 48 + n else 55 + n).
Definition percent (c : ascii) : string := String "%" (String (upper_hex (byte c / 16)) (String (upper_hex (byte c mod 16)) "")).

Fixpoint PathEscape (s : string) : string :=
  match s with
  | EmptyString => ""
  | String c s => if segment_safe c then String c (PathEscape s) else percent c +s PathEscape s
  end.
Fixpoint QueryEscape (s : string) : string :=
  match s with
  | EmptyString => ""
  | String c s =>
      if byte c =? 32 then String "+" (QueryEscape s)
      else if unreserved c then String c (QueryEscape s) else percent c +s QueryEscape s
  end.

(** [strconv.ParseInt(s, 10, 64)] with its error ignored: a number out of range is the nearest one. *)
Definition ParseInt_value (s : string) : Z :=
  let '(neg, body) :=
    match s with
    | String c t => if Ascii.eqb c "-" then (true, t) else if Ascii.eqb c "+" then (false, t) else (false, s)
    | EmptyString => (false, s)
    end in
  match body with
  | EmptyString => 0
  | _ => match digits_val body 0 with
         | None => 0
         | Some v => if neg : bool then Z.max int64_min (- v) else Z.min int64_max v
         end
  end.

(** ** Calls *)

Record HttpResponse := mkResponse { hr_status : Z; hr_body : list Z; hr_readError : option ApiErr }.

Inductive GEv :=
| GNow
| GHttp (method url : string) (header : list (string * string)) (body : option Reader).

Definition gresp (e : GEv) : Type :=
  match e with
  | GNow => Z
  (* what was read of the request's body, and the response *)
  | GHttp _ _ _ _ => res (list Z * HttpResponse)
  end.
Definition hcall_gcs {S R} (e : GEv) : gom gresp S R (gresp e) := gcall e.

(** ** The store *)

Record GCSStore := mkGCSStore { gs_uploadBase : string; gs_apiBase : string; gs_tokenURL : string }.
Definition NewGCSStore : GCSStore :=
  mkGCSStore "https://storage.googleapis.com/upload/storage/v1" "https://storage.googleapis.com/storage/v1"
    "http://metadata.google.internal/computeMetadata/v1/instance/service-accounts/default/token".

Record KeptToken := mkKept { kt_token : string; kt_exp : Z }.
Definition no_token : KeptToken := mkKept "" zero_time.

(** [json.NewDecoder(resp.Body).Decode]: a scalar is complete only once the reader went past it. *)
Definition decode_body {A} (decode : Decode A) (zero : A) (r : HttpResponse) : option A :=
  '(v, rest) ← first_value (string_of (hr_body r));
  match v, hr_readError r with
  | (VNull | VBool _ | VNumber _ | VString _), Some _ => if rest ==s "" then None else decode v zero
  | _, _ => decode v zero
  end.
Definition json_error : ApiErr := mkErr OtherErr "json".

Record TokenAnswer := mkTokenAnswer { ta_accessToken : string; ta_expiresIn : Z }.
Definition into_token : Decode TokenAnswer := into_struct [
  ("access_token", fun v a => t ← into_string v (ta_accessToken a); Some (mkTokenAnswer t (ta_expiresIn a)));
  ("expires_in", fun v a => n ← into_int64 v (ta_expiresIn a); Some (mkTokenAnswer (ta_accessToken a) n))].

Record InsertMeta := mkInsertMeta { om_size : string; om_md5Hash : string }.
Definition into_object_meta : Decode InsertMeta := into_struct [
  ("size", fun v m => x ← into_string v (om_size m); Some (mkInsertMeta x (om_md5Hash m)));
  ("md5Hash", fun v m => x ← into_string v (om_md5Hash m); Some (mkInsertMeta (om_size m) x))].

Section Store.
Context (g : GCSStore).
Abbreviation T R A := (gom gresp KeptToken R A).

Definition token_request : GEv := GHttp "GET" (gs_tokenURL g) [("Metadata-Flavor", "Google")] None.

Definition bearer : fn gresp KeptToken (res string) := gfun (
  let* kept := gget in
  let* fresh := (if kt_token kept !=s "" then let* now := hcall_gcs GNow in gret (Before now (kt_exp kept - 30 * Second)) else gret false) in
  if fresh : bool then gret (inr (kt_token kept))
  else
    let* x := hcall_gcs token_request in
    match x with
    | inl err => gret (inl (wrapf "metadata token: " err))
    | inr (_, r) =>
        if negb (hr_status r =? 200) then gret (inl (mkErr OtherErr ("metadata token: HTTP " +s pretty (hr_status r))))
        else
          match decode_body into_token (mkTokenAnswer "" 0) r with
          | None => gret (inl json_error)
          | Some tok =>
              let* now := hcall_gcs GNow in
              do* gmodify (fun _ => mkKept (ta_accessToken tok) (now + i64 (ta_expiresIn tok * Second))) in
              gret (inr (ta_accessToken tok))
          end
    end).

Definition do {R} (method url : string) (body : option Reader) : T R (res (list Z * HttpResponse)) :=
  let* tok := ginvoke bearer in
  match tok with
  | inl err => gret (inl err)
  | inr tok => hcall_gcs (GHttp method url [("Authorization", "Bearer " +s tok)] body)
  end.

Definition put_url (bucket object : string) : string :=
  gs_uploadBase g +s "/b/" +s PathEscape bucket +s "/o?uploadType=media&name=" +s QueryEscape object.
Definition object_url (bucket object : string) : string := gs_apiBase g +s "/b/" +s PathEscape bucket +s "/o/" +s PathEscape object.

(** The start of a refusal's body, for the error. *)
Definition excerpt (r : HttpResponse) : string := TrimSpace (string_of (firstn 512 (hr_body r))).

Definition Put (bucket object : string) (content : Reader) : fn gresp KeptToken (res (list Z * ObjectInfo)) := gfun (
  let* x := do "POST" (put_url bucket object) (Some content) in
  match x with
  | inl err => gret (inl err)
  | inr (sent, r) =>
      if negb (hr_status r =? 200) then
        gret (inl (mkErr OtherErr ("gcs put " +s object +s ": HTTP " +s pretty (hr_status r) +s ": " +s excerpt r)))
      else
        match decode_body into_object_meta (mkInsertMeta "" "") r with
        | None => gret (inl (wrapf ("gcs put " +s object +s ": decode response: ") json_error))
        | Some meta => gret (inr (sent, mkObjectInfo (ParseInt_value (om_size meta)) (om_md5Hash meta)))
        end
  end).

Definition Get (bucket object : string) : fn gresp KeptToken (res (list Z * option ApiErr)) := gfun (
  let* x := do "GET" (object_url bucket object +s "?alt=media") None in
  match x with
  | inl err => gret (inl err)
  | inr (_, r) =>
      if negb (hr_status r =? 200) then
        gret (inl (mkErr OtherErr ("gcs get " +s object +s ": HTTP " +s pretty (hr_status r) +s ": " +s excerpt r)))
      else gret (inr (hr_body r, hr_readError r))
  end).

Definition Delete (bucket object : string) : fn gresp KeptToken (option ApiErr) := gfun (
  let* x := do "DELETE" (object_url bucket object) None in
  match x with
  | inl err => gret (Some err)
  | inr (_, r) =>
      if negb (hr_status r =? 204) && negb (hr_status r =? 200) && negb (hr_status r =? 404) then
        gret (Some (mkErr OtherErr ("gcs delete " +s object +s ": HTTP " +s pretty (hr_status r))))
      else gret None
  end).
End Store.
