(* ===== verification/GcsLaws.v ===== *)
(** * The object store over HTTP, proved

    A request names one object, and carries a token that the metadata server issued
    and that has not expired. *)
From Stdlib Require Import Ascii.
From S2P Require Import Prelude Effects GoLib Paths Unquote Json JsonLaws Kube Interfaces Budget GKEProvider Sha256 CriuContract Gcs.

Abbreviation ghistory := (@trace GEv gresp).

(** ** Escapes *)

(** [url.PathUnescape] and [url.QueryUnescape]. *)
Fixpoint unescape_with (plus : bool) (s : string) : option string :=
  match s with
  | EmptyString => Some ""
  | String c t =>
      if Ascii.eqb c "%" then
        match t with
        | String a (String b t) =>
            match unhex a, unhex b with Some x, Some y => String (of_byte (16 * x + y)) <$> unescape_with plus t | _, _ => None end
        | _ => None
        end
      else String (if plus && Ascii.eqb c "+" then of_byte 32 else c) <$> unescape_with plus t
  end.

(** One byte, escaped, is read back; it holds none of the URL's separators. *)
Definition escape_reads (plus : bool) (c : ascii) (e : string) : bool :=
  match unescape_with plus e with Some s => s ==s String c "" | None => false end.
Definition no_separator (c : ascii) : bool := negb (one_of [47; 63; 35] c).

Definition path_byte (c : ascii) : string := if segment_safe c then String c "" else percent c.
Definition query_byte (c : ascii) : string :=
  if byte c =? 32 then "+" else if unreserved c then String c "" else percent c.

Lemma bytes_read c : escape_reads false c (path_byte c) = true /\ all_chars no_separator (path_byte c) = true /\
  escape_reads true c (query_byte c) = true.
Proof.
  assert (forall c, escape_reads false c (path_byte c) && all_chars no_separator (path_byte c) && escape_reads true c (query_byte c) = true) as H
    by (apply forall_ascii; vm_compute; reflexivity).
  specialize (H c). bool_props. by split_and!.
Qed.

Lemma unescape_app plus s t : unescape_with plus s <> None -> unescape_with plus (s +s t) = x ← unescape_with plus s; y ← unescape_with plus t; Some (x +s y).
Proof.
  assert (forall n s, (String.length s <= n)%nat -> unescape_with plus s <> None ->
    unescape_with plus (s +s t) = x ← unescape_with plus s; y ← unescape_with plus t; Some (x +s y)) as H; [|by apply (H (String.length s))].
  clear. induction n as [|n IH]; intros [|c s] Hn Hs; simpl in Hn; try lia.
  { change ("" +s t) with t. cbn [unescape_with mbind option_bind]. by destruct (unescape_with plus t). }
  { change ("" +s t) with t. cbn [unescape_with mbind option_bind]. by destruct (unescape_with plus t). }
  rewrite sapp_cons. cbn [unescape_with] in *. destruct (Ascii.eqb c "%").
  - destruct s as [|a [|b s]]; try done. rewrite !sapp_cons. simpl in Hn. destruct (unhex a) as [x|]; [|done]. destruct (unhex b) as [y|]; [|done].
    rewrite IH; [|lia|by intros E; rewrite E in Hs]. destruct (unescape_with plus s); [|done]. cbn. by destruct (unescape_with plus t).
  - rewrite IH; [|lia|by intros E; rewrite E in Hs]. destruct (unescape_with plus s); [|done]. cbn. by destruct (unescape_with plus t).
Qed.

Lemma unescape_byte plus c e s t : escape_reads plus c e = true -> unescape_with plus s = Some t -> unescape_with plus (e +s s) = Some (String c t).
Proof.
  unfold escape_reads. intros He Hs. destruct (unescape_with plus e) as [x|] eqn:Hx; [|done]. bool_props. subst x.
  rewrite unescape_app, Hx, Hs by (by rewrite Hx). done.
Qed.

Lemma PathEscape_bytes c s : PathEscape (String c s) = path_byte c +s PathEscape s.
Proof. unfold path_byte. simpl. by destruct (segment_safe c). Qed.
Lemma QueryEscape_bytes c s : QueryEscape (String c s) = query_byte c +s QueryEscape s.
Proof. unfold query_byte. simpl. destruct (byte c =? 32); [done|]. by destruct (unreserved c). Qed.

Lemma PathEscape_reads s : unescape_with false (PathEscape s) = Some s.
Proof. induction s as [|c s IH]; [done|]. rewrite PathEscape_bytes. apply unescape_byte; [apply bytes_read|done]. Qed.
Lemma QueryEscape_reads s : unescape_with true (QueryEscape s) = Some s.
Proof. induction s as [|c s IH]; [done|]. rewrite QueryEscape_bytes. apply unescape_byte; [apply bytes_read|done]. Qed.

Lemma PathEscape_separators s : all_chars no_separator (PathEscape s) = true.
Proof. induction s as [|c s IH]; [done|]. rewrite PathEscape_bytes, all_chars_app, IH, andb_true_r. apply bytes_read. Qed.

Lemma PathEscape_no_slash s : no_char "/" (PathEscape s) = true.
Proof.
  eapply all_chars_impl; [|apply PathEscape_separators]. intros c Hc. destruct (Ascii.eqb c "/") eqn:He; [|done].
  apply Ascii.eqb_eq in He. by subst c.
Qed.

Lemma sapp_inj s t u : s +s t = s +s u -> t = u.
Proof. induction s as [|c s IH]; [done|]. rewrite !sapp_cons. intros [= H]. auto. Qed.

Lemma segment_inj b b' t t' : PathEscape b +s "/" +s t = PathEscape b' +s "/" +s t' -> b = b' /\ t = t'.
Proof.
  intros H. change ("/" +s t) with (String "/" t) in H. change ("/" +s t') with (String "/" t') in H.
  apply (f_equal (fun s => Cut s "/")) in H. rewrite !(Cut_app (PathEscape _) "/"%char) in H by apply PathEscape_no_slash.
  injection H as Hb Ht. split; [|exact Ht]. pose proof (PathEscape_reads b) as H. rewrite Hb, PathEscape_reads in H. congruence.
Qed.

(** The object a URL names. *)
Theorem urls_name_objects g b o b' o' :
  (object_url g b o = object_url g b' o' -> b = b' /\ o = o') /\ (put_url g b o = put_url g b' o' -> b = b' /\ o = o').
Proof.
  split; intros H.
  - unfold object_url in H. apply sapp_inj, sapp_inj in H. apply (segment_inj b b' ("o/" +s _) ("o/" +s _)) in H as [-> H]. apply sapp_inj in H.
    pose proof (PathEscape_reads o) as Ho. rewrite H, PathEscape_reads in Ho. split; congruence.
  - unfold put_url in H. apply sapp_inj, sapp_inj in H. apply (segment_inj b b' ("o?uploadType=media&name=" +s _) ("o?uploadType=media&name=" +s _)) in H as [-> H]. apply sapp_inj in H.
    pose proof (QueryEscape_reads o) as Ho. rewrite H, QueryEscape_reads in Ho. split; congruence.
Qed.

(** ** Tokens *)

Section Session.
Context (g : GCSStore).

(** What a caller asks of the store. *)
Inductive StoreCall := CPut (bucket object : string) (content : Reader) | CGet (bucket object : string) | CDelete (bucket object : string).

(** Calls one after the other. *)
Fixpoint session (calls : list StoreCall) : fn gresp KeptToken unit :=
  match calls with
  | [] => gfun (gret tt)
  | CPut b o c :: calls => gfun (do* ginvoke (Put g b o c) in ginvoke (session calls))
  | CGet b o :: calls => gfun (do* ginvoke (Get g b o) in ginvoke (session calls))
  | CDelete b o :: calls => gfun (do* ginvoke (Delete g b o) in ginvoke (session calls))
  end.

(** The one request of a call. *)
Definition request_of (c : StoreCall) : string * string * option Reader :=
  match c with
  | CPut b o r => ("POST", put_url g b o, Some r)
  | CGet b o => ("GET", object_url g b o +s "?alt=media", None)
  | CDelete b o => ("DELETE", object_url g b o, None)
  end.

(** The metadata server issued [tok], which was received at [t]; it is kept until [exp]. *)
Definition issued (h : ghistory) (tok : string) (t exp : Z) : Prop :=
  exists sent r a, seen h (token_request g) (inr (sent, r)) /\ hr_status r = 200 /\ decode_body into_token (mkTokenAnswer "" 0) r = Some a /\
    ta_accessToken a = tok /\ seen h GNow t /\ exp = t + i64 (ta_expiresIn a * Second).

Fixpoint last_reading (h : ghistory) : option Z :=
  match h with
  | [] => None
  | existT e x :: h => match e return gresp e -> option Z with GNow => fun t => Some t | _ => fun _ => last_reading h end x
  end.

(** [tok] was just received, or had more than 30 seconds left when the clock was last read. *)
Definition usable (h : ghistory) (tok : string) : Prop :=
  exists t exp, issued h tok t exp /\ (last_reading h = Some t \/ exists now, last_reading h = Some now /\ now < exp - 30 * Second).

Definition store_allows (calls : list StoreCall) (h : ghistory) (e : GEv) : Prop :=
  match e with
  | GNow => True
  | GHttp method url header body =>
      e = token_request g \/
      exists c tok, In c calls /\ (method, url, body) = request_of c /\ header = [("Authorization", "Bearer " +s tok)] /\ usable h tok
  end.

(** The kept token is one that was issued, with its expiry. *)
Definition kept_issued (h : ghistory) (s : KeptToken) : Prop := kt_token s <> "" -> exists t, issued h (kt_token s) t (kt_exp s).

Lemma stays_issued tok t exp : stays (fun h => issued h tok t exp).
Proof. intros h h' Hh (sent & r & a & H1 & H2 & H3 & H4 & H5 & H6). exists sent, r, a. split_and!; try done; by eapply seen_continues. Qed.
Lemma stays_kept s : stays (fun h => kept_issued h s).
Proof. intros h h' Hh H Hne. destruct (H Hne) as [t Ht]. exists t. by eapply stays_issued. Qed.

Context (calls : list StoreCall).
Abbreviation M := (open (store_allows calls)).

Lemma wpf_bearer h s (Q : ghistory -> KeptToken -> res string -> Prop) :
  kept_issued h s ->
  (forall h' s' x, kept_issued h' s' -> (forall tok, x = inr tok -> usable h' tok) -> Q h' s' x) ->
  wpf M (bearer g) h s Q.
Proof.
  intros Hk HQ. unfold bearer, hcall_gcs. gstep. gstep. gstep. gstep.
  set (K h' s' (fresh : bool) := s' = s /\ continues h h' /\ (fresh = true -> kt_token s <> "" /\ exists now, last_reading h' = Some now /\ now < kt_exp s - 30 * Second)).
  apply (wpg_weaken _ _ _ _ _ K).
  - destruct (kt_token s !=s "") eqn:Hne; [|gstep; split_and!; [done|auto with history|done]].
    gstep. apply (wpg_call M GNow); [exact I|]. intros now _. gstep. split_and!; [done|auto with history|]. intros Hb. bool_props. split; [done|].
    exists now. split; [done|]. unfold Before in Hb. bool_props. done.
  - intros h1 s1 [|] (-> & H1 & Hf).
    + gstep. destruct (Hf eq_refl) as (Hne & now & Hl & Hlt). apply HQ; [by eapply stays_kept|]. intros tok [= <-].
      destruct (Hk Hne) as [t Ht]. exists t, (kt_exp s). split; [by eapply stays_issued|]. right. by exists now.
    + gstep. apply (wpg_call M (token_request g)); [by left|]. intros [err|[sent r]] _.
      { gstep. apply HQ; [|done]. eapply stays_kept; [|exact Hk]. eauto with history. }
      gstep; [gstep; apply HQ; [eapply stays_kept; [|exact Hk]; eauto with history|done]|]. bool_props.
      destruct (decode_body _ _ r) as [a|] eqn:Ha; [|gstep; apply HQ; [eapply stays_kept; [|exact Hk]; eauto with history|done]].
      gstep. apply (wpg_call M GNow); [exact I|]. intros t _. gstep. gstep. gstep.
      set (h2 := existT GNow t :: _). assert (issued h2 (ta_accessToken a) t (t + i64 (ta_expiresIn a * Second))) as Hi.
      { exists sent, r, a. split_and!; try done; [|apply seen_now]. eapply seen_continues; [|apply seen_now]. unfold h2. auto with history. }
      apply HQ; [by exists t|]. intros tok [= <-]. exists t, (t + i64 (ta_expiresIn a * Second)). split; [done|]. by left.
Qed.
Lemma wpg_do {R} c method url body h s (Qr : ghistory -> KeptToken -> R -> Prop) Q :
  In c calls -> request_of c = (method, url, body) -> kept_issued h s ->
  (forall h' s' x, kept_issued h' s' -> Q h' s' x) -> wpg M (do g method url body) h s Qr Q.
Proof.
  intros Hc Hr Hk HQ. unfold do, hcall_gcs. gstep. apply wpg_invoke, wpf_bearer; [done|]. intros h1 s1 [err|tok] Hk1 Hu; [gstep; by apply HQ|].
  apply (wpg_call M (GHttp _ _ _ _)); [|intros x _; apply HQ; eapply stays_kept; [|done]; auto with history].
  right. exists c, tok. split_and!; [done|by rewrite Hr|done|by apply Hu].
Qed.

Lemma wpf_session l h s (Q : ghistory -> KeptToken -> unit -> Prop) :
  incl l calls -> kept_issued h s -> (forall h' s', kept_issued h' s' -> Q h' s' tt) -> wpf M (session l) h s Q.
Proof.
  revert h s. induction l as [|c l IH]; intros h s Hl Hk HQ; [cbn [session]; gstep; gstep; by apply HQ|].
  assert (In c calls) as Hc by (apply Hl; by left). assert (incl l calls) as Hl' by (intros x Hx; apply Hl; by right).
  destruct c as [b o r|b o|b o]; cbn [session]; gstep; gstep; apply wpg_invoke; [unfold Put|unfold Get|unfold Delete]; gstep; gstep;
    (eapply wpg_do; [exact Hc|done|exact Hk|]); intros h1 s1 x Hk1; repeat case_match; gstep; apply wpg_invoke, IH; done.
Qed.
End Session.


(** ** The theorems apply *)

Definition gcs_answer (e : GEv) : gresp e :=
  match e return gresp e with
  | GNow => 1000 * Second
  | GHttp method _ header _ =>
      if existsb (fun kv => fst kv ==s "Metadata-Flavor") header then
        inr ([], mkResponse 200 (bytes_of (compact_json (VObject [("access_token", of_string "ya29"); ("expires_in", of_int 3599)]))) None)
      else inr ([1; 2; 3], mkResponse (if method ==s "DELETE" then 404 else 200) (bytes_of (compact_json (VObject [("size", of_string "3"); ("md5Hash", of_string "x")]))) None)
  end.

Definition sample_calls : list StoreCall := [CPut "archives" "prod/a b.tar" (Bytes [1; 2; 3]); CDelete "archives" "prod/a b.tar"].

Example gcs_urls : request_of NewGCSStore (CPut "archives" "prod/a b.tar" (Bytes [])) =
  ("POST", "https://storage.googleapis.com/upload/storage/v1/b/archives/o?uploadType=media&name=prod%2Fa+b.tar", Some (Bytes [])).
Proof. reflexivity. Qed.

(** The second call sends the token that the first one was given. *)
Abbreviation sample_session := (session NewGCSStore sample_calls no_token).
Abbreviation gcs_run := (run (fun (u : unit) e => (u, gcs_answer e)) tt sample_session).

