(* ===== verification/CriuNode.v ===== *)
(** * The CRIU engine on a node (src/engines/criu/internal/psengine)

    The checkpoint pipeline that executes a snapshot's work order (pipeline.go),
    the restore of a replacement (restore_node.go), and the verified uploads and
    digests they use (gcs.go).  The state is the set of objects a reconciler is
    working on ([inflight]). *)
From S2P Require Import Prelude Effects GoLib Paths Kube Interfaces GKEProvider Sha256 Md5 CriuContract.

Definition ArchivePrefix (pathPrefix snapshot : string) : string := path_Join [pathPrefix; snapshot].

Definition size (b : list Z) : Z := Z.of_nat (length b).
Definition sha256_hex (b : list Z) : string := EncodeToString (Sum256 b).

(** ** Uploads (gcs.go) *)

Section Node.
Context `{KubeLib}.
Context (now : Z).
Abbreviation D R A := (gom xresp (gset string) R A).

(** The bytes of the object that the store recorded. *)
Definition VerifiedPut {R} (bucket object : string) (content : Reader) : D R (res Z) :=
  let* x := xcall (XPut bucket object content) in
  match x with
  | inl err => gret (inl err)
  | inr (sent, info) =>
      if negb (oi_bytes info =? size sent) then
        gret (inl (mkErr OtherErr ("verify " +s object +s ": uploaded " +s pretty (size sent) +s " bytes, GCS recorded " +s pretty (oi_bytes info))))
      else if (oi_md5 info !=s "") && (oi_md5 info !=s md5_hash sent) then
        gret (inl (mkErr OtherErr ("verify " +s object +s ": local md5 " +s md5_hash sent +s " != remote " +s oi_md5 info)))
      else if oi_md5 info ==s "" then
        gret (inl (mkErr OtherErr ("verify " +s object +s ": store reported no md5; refusing unverified upload")))
      else gret (inr (size sent))
  end.

(** [NewGCSProber]: write, read back and delete a probe object. *)
Definition GCSProber {R} (bucket prefix : string) : D R (option ApiErr) :=
  let* rnd := xcall (XRandom 6) in
  match rnd with
  | inl err => gret (Some err)
  | inr rnd =>
      let object := path_Join [prefix; ".pm-probe-" +s EncodeToString rnd] in
      let payload := bytes_of ("pod-migrate psengine probe " +s FormatRFC3339 now) in
      let* x := VerifiedPut bucket object (Bytes payload) in
      match x with
      | inl err => gret (Some err)
      | inr _ =>
          let* y := xcall (XGetObject bucket object) in
          match y with
          | inl err => gret (Some (wrapf "probe read-back: " err))
          | inr (_, Some err) => gret (Some err)
          | inr (got, None) =>
              if bool_decide (got <> payload) then gret (Some (mkErr OtherErr "probe read-back mismatch"))
              else xcall (XDeleteObject bucket object)
          end
      end
  end.

(** ** The work order *)

Record SnapshotSpec := mkSnapshotSpec {
  sp_sourcePod : string; sp_sourcePodUID : string; sp_container : string; sp_nodeName : string; sp_bucket : string; sp_path : string }.

Definition readSnapshotSpec (ps : CriuSnapshot) : res SnapshotSpec :=
  let get field := sget (xs_spec ps) field in
  let s := mkSnapshotSpec (get "sourcePod") (get "sourcePodUID") (get "container") (get "nodeName") (get "bucket") (get "path") in
  if (sp_sourcePod s ==s "") || (sp_container s ==s "") || (sp_nodeName s ==s "") || (sp_bucket s ==s "") then
    inl (mkErr OtherErr ("incomplete work order: sourcePod=" +s Quote (sp_sourcePod s) +s " container=" +s Quote (sp_container s) +s
         " nodeName=" +s Quote (sp_nodeName s) +s " bucket=" +s Quote (sp_bucket s)))
  else inr s.

(** ** The checkpoint pipeline (pipeline.go) *)

Record NodeAgent := mkNodeAgent { na_nodeName : string; na_cpuFamily : string; na_workDir : string }.
Context (agent : NodeAgent).

(** A step that fails ends the pipeline with its error. *)
Definition must {A} (x : res A) (prefix : string) : D (option ApiErr) A :=
  match x with inl err => greturn (Some (if prefix ==s "" then err else wrapf prefix err)) | inr a => gret a end.
Definition must_ok (x : option ApiErr) (prefix : string) : D (option ApiErr) unit :=
  match x with Some err => greturn (Some (if prefix ==s "" then err else wrapf prefix err)) | None => gret tt end.

Definition manifest_of (snapshot : string) (spec : SnapshotSpec) (imageName : string) (tar specJSON : list Z) : Manifest :=
  mkManifest snapshot (sp_sourcePod spec) (sp_sourcePodUID spec) (sp_container spec) (sp_nodeName spec) imageName
    (sha256_hex tar) (size tar) (sha256_hex specJSON) (na_cpuFamily agent) "psengine/v1alpha1" now.

(** From the local archive to the stopped source. *)
Definition archiveAndStop (snapshot ns : string) (spec : SnapshotSpec) (tarPath : string) : fn xresp (gset string) (option ApiErr) := gfun (
  let* x := xcall (XSourceInfo ns (sp_sourcePod spec) (sp_container spec)) in
  let* info := must x "source spec capture: " in
  let '(specJSON, imageName) := info in
  let* e := xcall (XOpen tarPath) in
  do* must_ok e "" in
  let* x := xcall (XReadAll tarPath) in
  let* tar := must x "hash tar: " in
  let prefix := ArchivePrefix (sp_path spec) snapshot in
  let* x := VerifiedPut (sp_bucket spec) (path_Join [prefix; "spec.json"]) (Bytes specJSON) in
  do* must x "upload spec.json: " in
  let* e := xcall (XOpen tarPath) in
  do* must_ok e "" in
  let* x := VerifiedPut (sp_bucket spec) (path_Join [prefix; "checkpoint.tar"]) (File tarPath) in
  let* n := must x "upload checkpoint.tar: " in
  if negb (n =? size tar) then
    gret (Some (mkErr OtherErr ("upload checkpoint.tar: streamed " +s pretty n +s " bytes, hashed " +s pretty (size tar))))
  else
    let mf := manifest_of snapshot spec imageName tar specJSON in
    let* mfJSON := must (MarshalManifest mf) "" in
    let* x := VerifiedPut (sp_bucket spec) (path_Join [prefix; "manifest.json"]) (Bytes mfJSON) in
    do* must x "upload manifest.json: " in
    let* e := xcall (XStopContainer ns (sp_sourcePod spec) (sp_container spec)) in
    do* must_ok e "archive durable but container stop failed (orchestrator's 30s force-delete will supersede): " in
    gret None).

(** [run]: the local archive is removed on every way out. *)
Definition pipeline_run (snapshot ns : string) (spec : SnapshotSpec) : fn xresp (gset string) (option ApiErr) := gfun (
  let* x := xcall (XCheckpoint ns (sp_sourcePod spec) (sp_container spec)) in
  match x with
  | inl err => gret (Some (wrapf "kubelet checkpoint: " err))
  | inr tarPath =>
      let* e := ginvoke (archiveAndStop snapshot ns spec tarPath) in
      do* xcall (XRemove tarPath) in
      gret e
  end).

Definition finish {R} (ns name reason msg : string) : D R (option ApiErr) :=
  do* xcall (XMetric "checkpoint_outcomes" reason) in
  let* x := xcall (XGetSnapshot ns name) in
  match x with
  | inl err => gret (if IsNotFound err then None else Some err)
  | inr ps =>
      let status := if reason ==s "Succeeded" then "True" else "False" in
      match SetConditions now (xs_conditions ps)
              [mkCond "Checkpoint" status reason msg 0 zero_time; mkCond "Ready" status reason msg 0 zero_time] with
      | inl err => gret (Some err)
      | inr l => xcall (XUpdateSnapshotStatus (with_snapshot_conditions l ps))
      end
  end.

Definition truncateMsg (s : string) (n : nat) : string :=
  if (String.length s <=? n)%nat then s else String.substring 0 n s +s "…".

(** [return ctrl.Result{}, err] *)
Definition result_of_error (e : option ApiErr) : res Result := match e with Some err => inl err | None => inr NoRequeue end.

Definition ReconcileSnapshot (ns name : string) : fn xresp (gset string) (res Result) := gfun (
  let* x := xcall (XGetSnapshot ns name) in
  match x with
  | inl err => gret (if IsNotFound err then inr NoRequeue else inl err)
  | inr ps =>
      if sget (xs_labels ps) LabelEngine !=s EngineCRIU then gret (inr NoRequeue)
      else if IsSnapshotReady ps || hasTerminalCheckpoint ps then gret (inr NoRequeue)
      else
        match readSnapshotSpec ps with
        | inl err => let* e := finish ns name "Failed" (e_msg err) in gret (result_of_error e)
        | inr spec =>
            if sp_nodeName spec !=s na_nodeName agent then gret (inr NoRequeue)
            else
              let key := ns +s "/" +s name in
              let* busy := gget in
              if bool_decide (key ∈ busy) then gret (inr (RequeueAfter (5 * Second)))
              else
                do* gmodify (fun s => {[ key ]} ∪ s) in
                let* e := ginvoke (pipeline_run (xs_name ps) (xs_namespace ps) spec) in
                let* e :=
                  (match e with
                   | Some err => finish ns name "Failed" (truncateMsg (e_msg err) 1500)
                   | None => finish ns name "Succeeded" "archive uploaded + verified; source container stopped"
                   end) in
                do* gmodify (fun s => s ∖ {[ key ]}) in
                gret (result_of_error e)
        end
  end).

(** ** The restore (restore_node.go) *)

Definition maxDownloadBytes : Z := 8 * 2 ^ 30.
Definition smallBytes : Z := 4 * 2 ^ 20.

(** The first [n] bytes. *)
Definition first_bytes (n : Z) (b : list Z) : list Z := if size b <=? n then b else take (Z.to_nat n) b.

(** Downloads an object to a file; answers its first bytes. *)
Definition fetch (bucket object dst expectedSHA : string) : fn xresp (gset string) (res (list Z)) := gfun (
  let* x := xcall (XGetObject bucket object) in
  match x with
  | inl err => gret (inl err)
  | inr (data, readErr) =>
      let* e := xcall (XCreateFile dst) in
      match e with
      | Some err => gret (inl err)
      | None =>
          let body := first_bytes (maxDownloadBytes + 1) data in
          let* writeErr := xcall (XWriteFile dst body) in
          let* closeErr := xcall (XCloseFile dst) in
          match writeErr, readErr, closeErr with
          | Some err, _, _ | None, Some err, _ | None, None, Some err => gret (inl err)
          | None, None, None =>
              if maxDownloadBytes <? size body then
                gret (inl (mkErr OtherErr (object +s " exceeds maximum allowed download size (" +s pretty maxDownloadBytes +s " bytes)")))
              else if (expectedSHA !=s "") && (sha256_hex body !=s expectedSHA) then
                gret (inl (mkErr OtherErr (object +s ": sha256 " +s sha256_hex body +s " != manifest " +s expectedSHA +s " (" +s pretty (size body) +s " bytes)")))
              else gret (inr (first_bytes smallBytes body))
          end
      end
  end).

Definition refuse (msg : string) : D (option ApiErr) unit := greturn (Some (mkErr OtherErr msg)).

(** The job that assigned the replacement is bound to this pod and this snapshot. *)
Definition checkJob (pod : Pod) (psName : string) (spec : SnapshotSpec) : D (option ApiErr) unit :=
  let pmjName := sget (p_annotations pod) AnnotationAssigned in
  if pmjName ==s "" then refuse ("pod " +s p_name pod +s " lacks " +s AnnotationAssigned +s " annotation; refusing unverified restore")
  else
    let* x := xcall (XGetJob (p_namespace pod) pmjName) in
    let* pmj := must x ("resolve assigned PodMigrationJob " +s pmjName +s ": ") in
    let srcPod := nested (jv_podName pmj) in
    let phase := nested (jv_phase pmj) in
    let snap := nested (jv_snapshotRef pmj) in
    let uid := nested (jv_restoredPodUID pmj) in
    let name := nested (jv_restoredPodName pmj) in
    if (srcPod ==s "") || (srcPod !=s sp_sourcePod spec) then
      refuse ("PodMigrationJob " +s pmjName +s " targets spec.podRef.name " +s Quote srcPod +s ", but PodSnapshot " +s psName +s " is for " +s Quote (sp_sourcePod spec))
    else if (phase !=s "Restoring") && (phase !=s "Succeeded") then
      refuse ("PodMigrationJob " +s pmjName +s " is in phase " +s Quote phase +s " (want Restoring or Succeeded); refusing restore")
    else if (snap ==s "") || (snap !=s psName) then
      refuse ("PodMigrationJob " +s pmjName +s " has status.snapshotRef " +s Quote snap +s ", but PodSnapshot is " +s Quote psName)
    else if (uid ==s "") || (uid !=s p_uid pod) then
      refuse ("PodMigrationJob " +s pmjName +s " is bound to restoredPodUID " +s Quote uid +s ", not pod " +s p_name pod +s " (" +s Quote (p_uid pod) +s ")")
    else if (name ==s "") || (name !=s p_name pod) then
      refuse ("PodMigrationJob " +s pmjName +s " is bound to restoredPodName " +s Quote name +s ", not pod " +s p_name pod)
    else gret tt.

(** The manifest, if it can be used on this node. *)
Definition readManifest (bucket object dst : string) : D (option ApiErr) Manifest :=
  let* x := ginvoke (fetch bucket object dst "") in
  let* b := must x "fetch manifest: " in
  match UnmarshalManifest b with
  | None => greturn (Some (mkErr OtherErr "manifest decode: invalid JSON"))
  | Some mf =>
      if (mf_specSHA256 mf ==s "") || (mf_tarSHA256 mf ==s "") then
        greturn (Some (mkErr OtherErr ("manifest missing required sha256 digests (specSha256=" +s Quote (mf_specSHA256 mf) +s ", tarSha256=" +s Quote (mf_tarSHA256 mf) +s ")")))
      else if (mf_cpuFamily mf !=s "") && (na_cpuFamily agent !=s "") && (mf_cpuFamily mf !=s na_cpuFamily agent) then
        greturn (Some (mkErr OtherErr ("cpu family mismatch: archive from " +s Quote (mf_cpuFamily mf) +s ", this node is " +s Quote (na_cpuFamily agent) +s
                       " — refusing cross-family restore")))
      else gret mf
  end.

Definition workDir : string := if na_workDir agent !=s "" then na_workDir agent else "/var/lib/pod-migrate/psengine".

(** The download and the restore, in the staging directory. *)
Definition restoreFrom (pod : Pod) (psName : string) (spec : SnapshotSpec) (dir : string) : fn xresp (gset string) (option ApiErr) := gfun (
  let prefix := ArchivePrefix (sp_path spec) psName in
  let* mf := readManifest (sp_bucket spec) (path_Join [prefix; "manifest.json"]) (path_Join [dir; "manifest.json"]) in
  let* x := ginvoke (fetch (sp_bucket spec) (path_Join [prefix; "spec.json"]) (path_Join [dir; "spec.json"]) (mf_specSHA256 mf)) in
  let* specJSON := must x "fetch spec.json: " in
  let tarPath := path_Join [dir; "checkpoint.tar"] in
  let* x := ginvoke (fetch (sp_bucket spec) (path_Join [prefix; "checkpoint.tar"]) tarPath (mf_tarSHA256 mf)) in
  do* must x "fetch checkpoint.tar: " in
  let extracted := path_Join [dir; "extracted"] in
  let* e := xcall (XExtract tarPath extracted) in
  do* must_ok e "extract: " in
  let container := match p_containers pod with c :: _ => ct_name c | [] => sp_container spec end in
  xcall (XRestore (mkRestoreInputs psName (p_namespace pod) (p_name pod) container (mf_sourcePodUID mf) (p_uid pod) extracted specJSON
    (mf_imageName mf)))).

Definition restore (pod : Pod) (psName : string) : fn xresp (gset string) (option ApiErr) := gfun (
  let* x := xcall (XGetSnapshot (p_namespace pod) psName) in
  let* ps := must x ("resolve PodSnapshot " +s psName +s ": ") in
  let* spec := must (readSnapshotSpec ps) "" in
  do* checkJob pod psName spec in
  if negb (IsSnapshotReady ps) then
    gret (Some (mkErr OtherErr ("PodSnapshot " +s psName +s " is not Ready; refusing to restore an unverified archive")))
  else
    let dir := path_Join [workDir; psName] in
    let* e := xcall (XMkdir dir) in
    match e with
    | Some err => gret (Some err)
    | None =>
        let* e := ginvoke (restoreFrom pod psName spec dir) in
        do* xcall (XRemoveAll dir) in
        gret e
    end).

Definition ReconcileReplacement (ns name : string) : fn xresp (gset string) (res Result) := gfun (
  let* x := xcall (XGetPod ns name) in
  match x with
  | inl err => gret (if IsNotFound err then inr NoRequeue else inl err)
  | inr pod =>
      let psName := sget (p_annotations pod) AnnotationPSName in
      if p_nodeName pod !=s na_nodeName agent then gret (inr NoRequeue)
      else if (psName ==s "") || (sget (p_annotations pod) AnnotationInjected !=s "true") then gret (inr NoRequeue)
      else if sget (p_annotations pod) AnnotationRestoreStatus !=s "" then gret (inr NoRequeue)
      else if negb (bool_decide (p_phase pod = PodRunning)) then gret (inr (RequeueAfter (2 * Second)))
      else
        let key := ns +s "/" +s name in
        let* busy := gget in
        if bool_decide (key ∈ busy) then gret (inr (RequeueAfter (5 * Second)))
        else
          do* gmodify (fun s => {[ key ]} ∪ s) in
          let* err := ginvoke (restore pod psName) in
          let status := match err with Some _ => "failed" | None => "restored" end in
          do* xcall (XMetric "restore_outcomes" status) in
          let* x := xcall (XGetPod ns name) in
          let* r :=
            (match x with
             | inl gerr => gret (if IsNotFound gerr then inr NoRequeue else inl gerr)
             | inr latest =>
                 let* e := xcall (XUpdatePod (with_p_annotations (<[AnnotationRestoreStatus := status]> (p_annotations latest)) latest)) in
                 gret (result_of_error e)
             end) in
          do* gmodify (fun s => s ∖ {[ key ]}) in
          gret r
  end).
End Node.
