(* ===== verification/CriuInstances.v ===== *)
(** * Concrete runs of the CRIU engine

    A world in which every call of the engine succeeds: the witnesses run the
    engine against it. *)
From Stdlib Require Import Ascii.
From S2P Require Import Prelude Effects GoLib Paths Kube Interfaces Engine PodUtil Timeout JobBase Fence Budget Instances GKEProvider Sha256 Md5 CriuContract CriuNode.

(** ** A world *)

Definition sample_snapshot (conds : option (list Condition)) : CriuSnapshot :=
  mkCriuSnapshot "ps-web-0-uid-pod" "shop" {[ LabelEngine := EngineCRIU ]}
    (list_to_map [("sourcePod", "web-0"); ("sourcePodUID", "uid-pod"); ("container", "app"); ("nodeName", "node-a");
                  ("bucket", "archives"); ("path", "prod")]) conds.

Definition sample_agent : NodeAgent := mkNodeAgent "node-a" "" "".

(** The contents of the local files, and of the object store. *)
Record World := mkWorld {
  w_snapshot : res CriuSnapshot; w_pod : Pod; w_job : JobView; w_node : Node; w_policies : list CriuPolicy; w_trigger : CriuTrigger;
  w_storage : CriuStorage; w_tar : list Z; w_objects : string -> list Z }.

Definition criu_answer (w : World) (e : XEv) : xresp e :=
  match e return xresp e with
  | XGetTrigger _ _ => inr (w_trigger w)
  | XGetPod _ _ => inr (w_pod w)
  | XGetNode _ => inr (w_node w)
  | XListPolicies _ => inr (w_policies w)
  | XGetPolicy _ _ => match w_policies w with p :: _ => inr p | [] => inl (mkErr NotFound "not found") end
  | XGetStorage _ => inr (w_storage w)
  | XGetSnapshot _ _ => w_snapshot w
  | XGetJob _ _ => inr (w_job w)
  | XCheckpoint _ _ _ => inr "/checkpoint.tar"
  | XSourceInfo _ _ _ => inr ([123; 125], "web:1")
  | XReadAll _ => inr (w_tar w)
  | XPut _ _ (Bytes b) => inr (b, mkObjectInfo (size b) (md5_hash b))
  | XPut _ _ (File _) => inr (w_tar w, mkObjectInfo (size (w_tar w)) (md5_hash (w_tar w)))
  | XGetObject _ object => inr (w_objects w object, None)
  | XRandom n => inr (repeat 0 n)
  | XRemove _ | XRemoveAll _ | XMetric _ _ => tt
  | XCreateSnapshot _ | XUpdateTriggerStatus _ | XUpdateSnapshotStatus _ | XUpdatePolicyStatus _ | XUpdatePod _
  | XDirectCheckpoint _ | XStopContainer _ _ _ | XExtract _ _ | XRestore _
  | XOpen _ | XMkdir _ | XCreateFile _ | XWriteFile _ _ | XCloseFile _ | XDeleteObject _ _ => None
  end.

Definition criu_run {S A} (w : World) (p : prog xresp (S * A)) : unit * trace * (S * A) := run (fun s e => (s, criu_answer w e)) tt p.

Lemma criu_exec {S A} (w : World) (p : prog xresp (S * A)) : exec p (snd (fst (criu_run w p))) (snd (criu_run w p)).
Proof. apply run_exec. Qed.

Lemma criu_fair {S A} (M : monitor) (w : World) (p : prog xresp (S * A)) :
  (forall e, relies M e (criu_answer w e)) -> fair M (snd (fst (criu_run w p))).
Proof. intros Hr. by apply run_fair. Qed.

Definition sample_world (conds : option (list Condition)) : World :=
  mkWorld (inr (sample_snapshot conds)) sample_pod
    (mkJobView (NFound "web-0") (NFound "Restoring") (NFound "ps-web-0-uid-pod") (NFound "uid-pod") (NFound "web-0"))
    (mkNode (mkMeta "node-a" "" "" "" "" 0 ∅ {[ "pod-migrate.io/criu-ready" := "true" ]} 0 None None [] []) [] [] false)
    [] (mkCriuTrigger "t" "shop" (NFound "web-0") NAbsent true) (mkCriuStorage "sc" (NFound "archives") (NFound "prod")) [1; 2; 3]
    (fun _ => []).
