(* ===== verification/CriuLaws.v ===== *)
(** * The CRIU engine, proved

    The pipeline stops the source only after its archive is stored and verified,
    and reports success only after the stop; a work order can be acted on only for
    a pod that may be migrated; a replacement is restored only for the job that is
    bound to it, from an archive whose digests match. *)
From S2P Require Import Prelude Effects GoLib Paths Kube Interfaces Budget GKEProvider Sha256 Md5 CriuContract CriuEngine CriuNode Instances CriuInstances.

Abbreviation xhistory := (@trace XEv xresp).

(** Whoever entered an object in the set of those in work, and leaves it, changed nothing. *)
Lemma released (key : string) (s : gset string) : bool_decide (key ∈ s) = false -> ({[key]} ∪ s) ∖ {[key]} = s.
Proof. intros Hk%bool_decide_eq_false_1. apply set_eq. set_solver. Qed.

(** A step that fails ends the function. *)
Section Must.
Context (M : @monitor XEv xresp).

Lemma wpg_must {A} (x : res A) prefix h s (Qr : xhistory -> gset string -> option ApiErr -> Prop) Q :
  (forall err, Qr h s (Some err)) -> (forall a, x = inr a -> Q h s a) -> wpg M (must x prefix) h s Qr Q.
Proof. intros Hr HQ. unfold must. destruct x as [err|a]; gstep; [done|by apply HQ]. Qed.

Lemma wpg_must_ok x prefix h s (Qr : xhistory -> gset string -> option ApiErr -> Prop) Q :
  (forall err, Qr h s (Some err)) -> (x = None -> Q h s tt) -> wpg M (must_ok x prefix) h s Qr Q.
Proof. intros Hr HQ. unfold must_ok. destruct x as [err|]; gstep; [done|by apply HQ]. Qed.
End Must.

(** ** The checkpoint pipeline *)

(** What is relied on of the store: an upload from memory sends all of it. *)
Definition whole_uploads (e : XEv) : xresp e -> Prop :=
  match e with
  | XPut _ _ (Bytes b) => fun x => match x with inr (sent, _) => sent = b | inl _ => True end
  | _ => fun _ => True
  end.

(** The store recorded [sent] as the object, by size and MD5. *)
Definition stored (h : xhistory) (bucket object : string) (content : Reader) (sent : list Z) : Prop :=
  exists info, seen h (XPut bucket object content) (inr (sent, info)) /\ oi_bytes info = size sent /\ oi_md5 info = md5_hash sent.

Lemma stays_stored bucket object content sent : stays (fun h => stored h bucket object content sent).
Proof. intros h h' Hh (info & ? & ? & ?). exists info. eauto with history. Qed.

Section Pipeline.
Context `{KubeLib}.
Context (now : Z) (agent : NodeAgent) (ns name : string).

(** The work order that the pass read: of this engine, undecided, for this node. *)
Definition order_read (h : xhistory) (ps : CriuSnapshot) (spec : SnapshotSpec) : Prop :=
  seen h (XGetSnapshot ns name) (inr ps) /\ sget (xs_labels ps) LabelEngine = EngineCRIU /\
  IsSnapshotReady ps = false /\ hasTerminalCheckpoint ps = false /\
  readSnapshotSpec ps = inr spec /\ sp_nodeName spec = na_nodeName agent.

(** The spec and the checkpoint are stored; the checkpoint has as many bytes as were hashed. *)
Definition contents_stored (h : xhistory) (ps : CriuSnapshot) (spec : SnapshotSpec) (image : string) (tar specJSON : list Z) : Prop :=
  exists tarPath sent,
    seen h (XCheckpoint (xs_namespace ps) (sp_sourcePod spec) (sp_container spec)) (inr tarPath) /\
    seen h (XSourceInfo (xs_namespace ps) (sp_sourcePod spec) (sp_container spec)) (inr (specJSON, image)) /\
    seen h (XReadAll tarPath) (inr tar) /\
    stored h (sp_bucket spec) (path_Join [ArchivePrefix (sp_path spec) (xs_name ps); "spec.json"]) (Bytes specJSON) specJSON /\
    stored h (sp_bucket spec) (path_Join [ArchivePrefix (sp_path spec) (xs_name ps); "checkpoint.tar"]) (File tarPath) sent /\
    size sent = size tar.

Definition manifest_bytes (ps : CriuSnapshot) (spec : SnapshotSpec) (image : string) (tar specJSON : list Z) : list Z :=
  manifest_text (manifest_of now agent (xs_name ps) spec image tar specJSON).

(** The archive is complete: its manifest is stored too, with the digests of what was read. *)
Definition archived (h : xhistory) (ps : CriuSnapshot) (spec : SnapshotSpec) : Prop :=
  exists image tar specJSON,
    contents_stored h ps spec image tar specJSON /\
    stored h (sp_bucket spec) (path_Join [ArchivePrefix (sp_path spec) (xs_name ps); "manifest.json"])
      (Bytes (manifest_bytes ps spec image tar specJSON)) (manifest_bytes ps spec image tar specJSON).

Definition stopped (h : xhistory) : Prop :=
  exists ps spec, order_read h ps spec /\ archived h ps spec /\
    seen h (XStopContainer (xs_namespace ps) (sp_sourcePod spec) (sp_container spec)) None.

(** The two conditions of a concluded checkpoint. *)
Definition outcome_conditions (reason msg : string) : list Condition :=
  let status := if reason ==s "Succeeded" then "True" else "False" in
  [mkCond "Checkpoint" status reason msg 0 zero_time; mkCond "Ready" status reason msg 0 zero_time].

Definition pipeline_allows (h : xhistory) (e : XEv) : Prop :=
  match e with
  | XStopContainer n pod c =>
      exists ps spec, order_read h ps spec /\ archived h ps spec /\
        n = xs_namespace ps /\ pod = sp_sourcePod spec /\ c = sp_container spec
  | XUpdateSnapshotStatus ps' =>
      exists ps reason msg l, seen h (XGetSnapshot ns name) (inr ps) /\
        SetConditions now (xs_conditions ps) (outcome_conditions reason msg) = inr l /\ ps' = with_snapshot_conditions l ps /\
        (reason = "Failed" \/ (reason = "Succeeded" /\ stopped h))
  | XPut bucket object (Bytes b) =>
      exists ps spec, order_read h ps spec /\ bucket = sp_bucket spec /\
        ((object = path_Join [ArchivePrefix (sp_path spec) (xs_name ps); "spec.json"] /\
          exists image, seen h (XSourceInfo (xs_namespace ps) (sp_sourcePod spec) (sp_container spec)) (inr (b, image))) \/
         (object = path_Join [ArchivePrefix (sp_path spec) (xs_name ps); "manifest.json"] /\
          exists image tar specJSON, contents_stored h ps spec image tar specJSON /\ b = manifest_bytes ps spec image tar specJSON))
  | XCreateSnapshot _ | XUpdateTriggerStatus _ | XUpdatePolicyStatus _ | XUpdatePod _ | XRestore _ | XDirectCheckpoint _ | XDeleteObject _ _ => False
  | _ => True
  end.

Abbreviation M := (mkMonitor pipeline_allows whole_uploads).
Abbreviation busy := (gset string).

Lemma stays_order ps spec : stays (fun h => order_read h ps spec).
Proof. intros h h' Hh (? & ?). split; [eauto with history|done]. Qed.
Lemma stays_contents ps spec image tar specJSON : stays (fun h => contents_stored h ps spec image tar specJSON).
Proof.
  intros h h' Hh (tarPath & sent & ? & ? & ? & H1 & H2 & ?). exists tarPath, sent.
  repeat (split; [eauto with history; by eapply stays_stored|]). done.
Qed.
Lemma stays_archived ps spec : stays (fun h => archived h ps spec).
Proof.
  intros h h' Hh (image & tar & specJSON & Hc & Hm). exists image, tar, specJSON.
  split; [by eapply stays_contents|by eapply stays_stored].
Qed.
Lemma stays_stopped : stays stopped.
Proof.
  intros h h' Hh (ps & spec & Ho & Ha & Hs). exists ps, spec.
  split; [by eapply stays_order|]. split; [by eapply stays_archived|eauto with history].
Qed.

(** An upload that is verified. *)
Lemma wpg_VerifiedPut {R} bucket object content h s (Qr : xhistory -> busy -> R -> Prop) Q :
  pipeline_allows h (XPut bucket object content) ->
  (forall h' x, continues h h' ->
     (forall n, x = inr n -> exists sent, stored h' bucket object content sent /\ n = size sent /\ forall b, content = Bytes b -> sent = b) ->
     Q h' s x) ->
  wpg M (VerifiedPut bucket object content) h s Qr Q.
Proof.
  intros Ha HQ. unfold VerifiedPut, xcall. gstep. apply (wpg_call M (XPut bucket object content)); [done|]. intros x Hx.
  destruct x as [err|[sent info]]; [gstep; apply HQ; [eauto with history|done]|].
  gstep; [gstep; apply HQ; [eauto with history|done]|]. gstep; [gstep; apply HQ; [eauto with history|done]|].
  gstep; [gstep; apply HQ; [eauto with history|done]|]. gstep. apply HQ; [eauto with history|].
  intros n [= <-]. exists sent. split; [|split; [done|]].
  - exists info. split; [apply seen_now|]. bool_props. split; [lia|]. destruct (oi_md5 info !=s md5_hash sent) eqn:Hm; [|by bool_props].
    rewrite andb_true_r in *. by bool_props.
  - intros b ->. exact Hx.
Qed.

(** The end of a part of the pipeline: the state is back, and success means that the source is stopped. *)
Definition concludes (h : xhistory) (s : busy) : xhistory -> busy -> option ApiErr -> Prop :=
  fun h' s' r => continues h h' /\ s' = s /\ (r = None -> stopped h').

Lemma concludes_error h h' s err : continues h h' -> concludes h s h' s (Some err).
Proof. by split. Qed.

Lemma wpf_archiveAndStop ps spec tarPath h s :
  order_read h ps spec -> seen h (XCheckpoint (xs_namespace ps) (sp_sourcePod spec) (sp_container spec)) (inr tarPath) ->
  wpf M (archiveAndStop now agent (xs_name ps) (xs_namespace ps) spec tarPath) h s (concludes h s).
Proof.
  intros Ho Hck. unfold archiveAndStop, xcall. gstep. gstep. gstep; [exact I|]. gstep.
  apply wpg_must; [intros; apply concludes_error; eauto with history|]. intros [specJSON image] ->.
  gstep. gstep; [exact I|]. gstep. apply wpg_must_ok; [intros; apply concludes_error; eauto with history|]. intros ->.
  gstep. gstep; [exact I|]. gstep. apply wpg_must; [intros; apply concludes_error; eauto with history|]. intros tar ->. cbv zeta.
  set (h3 := existT (XReadAll tarPath) (inr tar) :: _).
  assert (continues h h3) as Hh3 by (unfold h3; eauto with history).
  gstep. apply wpg_VerifiedPut.
  { exists ps, spec. split; [by eapply stays_order|]. split; [done|]. left. split; [done|]. exists image. unfold h3. eauto with history. }
  intros h4 x Hh4 Hspec. gstep. apply wpg_must; [intros; apply concludes_error; by eapply continues_trans|]. intros n ->.
  destruct (Hspec n eq_refl) as (sent & Hst & _ & Hsent). rewrite (Hsent _ eq_refl) in Hst. clear Hspec Hsent.
  gstep. gstep; [exact I|]. gstep. assert (continues h h4) as Hc4 by (by eapply continues_trans).
  apply wpg_must_ok; [intros; apply concludes_error; eauto with history|]. intros ->.
  gstep. apply wpg_VerifiedPut; [exact I|]. intros h6 x6 Hh6 Htar. gstep.
  assert (continues h4 h6) as Hh46 by (eapply continues_trans; [|done]; eauto with history).
  assert (continues h h6) as Hc6 by (by eapply continues_trans).
  apply wpg_must; [intros; by apply concludes_error|]. intros n6 ->. destruct (Htar n6 eq_refl) as (sent6 & Hst6 & Hn6 & _). clear Htar.
  gstep; [gstep; by apply concludes_error|].
  assert (contents_stored h6 ps spec image tar specJSON) as Hcont.
  { exists tarPath, sent6. split; [eauto with history|]. split; [apply (seen_continues h3); [by eapply continues_trans|unfold h3; eauto with history]|].
    split; [apply (seen_continues h3); [by eapply continues_trans|unfold h3; eauto with history]|].
    split; [exact (stays_stored _ _ _ _ _ _ Hh46 Hst)|]. split; [done|]. bool_props. lia. }
  gstep. apply wpg_must; [intros; by apply concludes_error|]. intros mfJSON Hmj.
  assert (mfJSON = manifest_bytes ps spec image tar specJSON) as -> by (unfold MarshalManifest in Hmj; destruct (_ && _); [by injection Hmj|done]). clear Hmj.
  gstep. apply wpg_VerifiedPut.
  { exists ps, spec. split; [by eapply stays_order|]. split; [done|]. right. split; [done|]. by exists image, tar, specJSON. }
  intros h7 x7 Hh7 Hmf. gstep. assert (continues h h7) as Hc7 by (by eapply continues_trans).
  apply wpg_must; [intros; by apply concludes_error|]. intros n7 ->. destruct (Hmf n7 eq_refl) as (sent7 & Hst7 & _ & Hs7).
  rewrite (Hs7 _ eq_refl) in Hst7. assert (order_read h7 ps spec) as Ho7 by (by eapply stays_order).
  assert (archived h7 ps spec) as Har by (exists image, tar, specJSON; split; [exact (stays_contents _ _ _ _ _ _ _ Hh7 Hcont)|done]).
  gstep. gstep; [by exists ps, spec|]. gstep. apply wpg_must_ok; [intros; apply concludes_error; eauto with history|]. intros ->.
  gstep. split; [eauto with history|]. split; [done|]. intros _. exists ps, spec.
  split; [eapply stays_order; [|done]; eauto with history|]. split; [eapply stays_archived; [|done]; eauto with history|apply seen_now].
Qed.

Lemma stays_concludes h0 h s h' s' r : continues h0 h -> concludes h s h' s' r -> concludes h0 s h' s' r.
Proof. intros Hh (H1 & H2 & H3). split; [by eapply continues_trans|done]. Qed.

Lemma wpf_pipeline_run ps spec h s :
  order_read h ps spec -> wpf M (pipeline_run now agent (xs_name ps) (xs_namespace ps) spec) h s (concludes h s).
Proof.
  intros Ho. unfold pipeline_run, xcall. gstep. gstep. gstep; [exact I|]. gstep; [gstep; apply concludes_error; eauto with history|].
  gstep. apply wpg_invoke. eapply wpf_conseq; [apply wpf_archiveAndStop; [eapply stays_order; [|done]; eauto with history|apply seen_now]|].
  intros h' s' e (Hh & -> & He). gstep. gstep; [exact I|]. gstep.
  split; [apply continues_cons; eapply continues_trans; [|done]; eauto with history|]. split; [done|].
  intros Hr. eapply stays_stopped; [|by apply He]. eauto with history.
Qed.

Lemma wpg_finish {R} reason msg h s (Qr : xhistory -> busy -> R -> Prop) Q :
  reason = "Failed" \/ (reason = "Succeeded" /\ stopped h) ->
  (forall h' e, continues h h' -> Q h' s e) -> wpg M (finish now ns name reason msg) h s Qr Q.
Proof.
  intros Hr HQ. unfold finish, xcall. gstep. gstep; [exact I|]. gstep. apply (wpg_call M (XGetSnapshot _ _)); [exact I|].
  intros [err|ps] _; [gstep; apply HQ; eauto with history|]. cbv zeta.
  destruct (SetConditions now (xs_conditions ps) _) as [err|l] eqn:Hl; [gstep; apply HQ; eauto with history|].
  apply (wpg_call M (XUpdateSnapshotStatus _)); [|intros upd _; apply HQ; eauto with history].
  exists ps, reason, msg, l. split; [apply seen_now|]. split; [exact Hl|]. split; [done|].
  destruct Hr as [?|[? Hs]]; [by left|right]. split; [done|]. eapply stays_stopped; [|done]. eauto with history.
Qed.

(** A pass obeys the pipeline's order, and leaves the objects in work as they were. *)
Lemma wpf_ReconcileSnapshot s : wpf M (ReconcileSnapshot now agent ns name) [] s (fun _ s' _ => s' = s).
Proof.
  unfold ReconcileSnapshot, xcall. gstep. gstep. apply (wpg_call M (XGetSnapshot _ _)); [exact I|].
  intros [err|ps] _; [by gstep|]. gstep; [by gstep|]. gstep; [by gstep|].
  destruct (readSnapshotSpec ps) as [err|spec] eqn:Hspec.
  { gstep. apply wpg_finish; [by left|]. intros. by gstep. }
  gstep; [by gstep|]. cbv zeta. gstep. gstep. gstep; [by gstep|]. gstep. gstep. gstep. apply wpg_invoke. bool_props.
  eapply wpf_conseq; [apply wpf_pipeline_run; split; [apply seen_now|by bool_props]|].
  intros h' s' e (Hh & -> & He). gstep.
  destruct e as [err|]; (apply wpg_finish; [by auto|intros; gstep; gstep; gstep; by apply released]).
Qed.

Lemma pass_obeys s t s' r : exec (ReconcileSnapshot now agent ns name s) t (s', r) -> fair M t -> obeys M [] t /\ s' = s.
Proof. intros Hx Hf. exact (wpf_exec M _ _ _ _ _ _ (wpf_ReconcileSnapshot s) Hx Hf). Qed.

(** C25: The source container is stopped only once its archive is durable.  Whatever
    the API server, the kubelet and the object store answer: when a pass of the
    checkpoint pipeline stops a container, it is the container of an undecided work
    order of this engine for this node, and before that spec.json, the checkpoint
    and last the manifest, with the SHA-256 digests of what was read, were uploaded
    and recorded by the store with the size and the MD5 of what was sent. *)
Theorem stops_after_archive s t s' r t1 n pod c x t2 :
  exec (ReconcileSnapshot now agent ns name s) t (s', r) -> fair M t ->
  t = t1 ++ existT (XStopContainer n pod c) x :: t2 ->
  exists ps spec, order_read (rev t1) ps spec /\ archived (rev t1) ps spec /\
    n = xs_namespace ps /\ pod = sp_sourcePod spec /\ c = sp_container spec.
Proof. intros Hx Hf ->. destruct (pass_obeys _ _ _ _ Hx Hf) as [Ho _]. exact (obeys_at _ _ _ _ Ho). Qed.

(** A checkpoint is reported as succeeded only after the source was stopped, and
    the pass always gives back the snapshot's place among those in work.  Every
    status the pass writes is the one it read with the Checkpoint and Ready
    conditions set: to True with reason Succeeded if the archive is complete and the
    container was stopped, else to False with reason Failed. *)
Theorem success_after_stop s t s' r :
  exec (ReconcileSnapshot now agent ns name s) t (s', r) -> fair M t ->
  s' = s /\
  forall t1 ps' x t2, t = t1 ++ existT (XUpdateSnapshotStatus ps') x :: t2 ->
    exists ps reason msg l, seen (rev t1) (XGetSnapshot ns name) (inr ps) /\
      SetConditions now (xs_conditions ps) (outcome_conditions reason msg) = inr l /\ ps' = with_snapshot_conditions l ps /\
      (reason = "Failed" \/ (reason = "Succeeded" /\ stopped (rev t1))).
Proof.
  intros Hx Hf. destruct (pass_obeys _ _ _ _ Hx Hf) as [Ho Hs]. split; [done|]. intros t1 ps' x t2 ->. exact (obeys_at _ _ _ _ Ho).
Qed.
End Pipeline.

(** A pass over the sample work order, in which everything works. *)
Abbreviation sample_pass := (criu_run (sample_world (Some [])) (ReconcileSnapshot (1000 * Second) sample_agent "shop" "ps-web-0-uid-pod" ∅)).

Lemma sample_pass_fair : fair (mkMonitor (pipeline_allows (1000 * Second) sample_agent "shop" "ps-web-0-uid-pod") whole_uploads) (snd (fst sample_pass)).
Proof. apply criu_fair. intros e. destruct e; try exact I. by destruct content. Qed.

Lemma sample_pass_exec : exec (ReconcileSnapshot (1000 * Second) sample_agent "shop" "ps-web-0-uid-pod" ∅) (snd (fst sample_pass)) (∅, inr NoRequeue).
Proof. refine (eq_rect _ (exec _ _) (criu_exec _ _) _ _). vm_compute. reflexivity. Qed.

Lemma stops_after_archive_witness : exists ps spec h,
  order_read sample_agent "shop" "ps-web-0-uid-pod" h ps spec /\ archived (1000 * Second) sample_agent h ps spec /\ sp_sourcePod spec = "web-0".
Proof.
  destruct (stops_after_archive _ _ _ _ _ _ _ _ (take 9 (snd (fst sample_pass))) "shop" "web-0" "app" None (drop 10 (snd (fst sample_pass)))
    sample_pass_exec sample_pass_fair) as (ps & spec & Ho & Ha & _ & Hp & _).
  { symmetry. apply (take_drop_middle (snd (fst sample_pass)) 9 (existT (XStopContainer "shop" "web-0" "app") None)). vm_compute. reflexivity. }
  exists ps, spec, (rev (take 9 (snd (fst sample_pass)))). by rewrite <- Hp.
Defined.

Lemma success_after_stop_witness : exists h reason, reason = "Failed" \/ (reason = "Succeeded" /\ stopped (1000 * Second) sample_agent "shop" "ps-web-0-uid-pod" h).
Proof.
  destruct (success_after_stop _ _ _ _ _ _ _ _ sample_pass_exec sample_pass_fair) as [_ Hu].
  assert (exists ps' x, nth_error (snd (fst sample_pass)) 13 = Some (existT (XUpdateSnapshotStatus ps') x)) as (ps' & x & He)
    by (eexists _, _; vm_compute; reflexivity).
  apply nth_error_split in He as (t1 & t2 & Ht & _).
  destruct (Hu t1 ps' x t2 Ht) as (ps & reason & msg & l & _ & _ & _ & Hr). by exists (rev t1), reason.
Defined.
