(* ===== verification/CriuRestoreLaws.v ===== *)
(** * The CRIU engine's restore, proved

    A replacement is restored only for the job that is bound to it, from an
    archive whose digests match the manifest; its pod is marked as restored only
    if the restore succeeded; and what the pipeline archived is what the restore
    is given. *)
From S2P Require Import Prelude Effects GoLib Paths Kube Interfaces Engine PodUtil Timeout JobBase Fence Budget Instances GKEProvider Json JsonLaws Sha256 Md5 CriuContract CodecLaws CriuNode CriuInstances CriuLaws.

Section Restore.
Context (agent : NodeAgent) (ns name : string).
Abbreviation busy := (gset string).

(** A pod of this node that carries a restore order which nobody has answered. *)
Definition ordered (h : xhistory) (pod : Pod) (psName : string) : Prop :=
  seen h (XGetPod ns name) (inr pod) /\ p_nodeName pod = na_nodeName agent /\ p_phase pod = PodRunning /\
  sget (p_annotations pod) AnnotationPSName = psName /\ psName <> "" /\
  sget (p_annotations pod) AnnotationInjected = "true" /\ sget (p_annotations pod) AnnotationRestoreStatus = "".

(** The job restores that snapshot into that very pod. *)
Definition bound (job : JobView) (pod : Pod) (psName : string) (spec : SnapshotSpec) : Prop :=
  nested (jv_podName job) = sp_sourcePod spec /\ (nested (jv_phase job) = "Restoring" \/ nested (jv_phase job) = "Succeeded") /\
  nested (jv_snapshotRef job) = psName /\ nested (jv_restoredPodUID job) = p_uid pod /\ nested (jv_restoredPodName job) = p_name pod /\
  p_uid pod <> "" /\ sp_sourcePod spec <> "".

(** The snapshot is Ready, and the job that assigned the pod is bound to both. *)
Definition entitled (h : xhistory) (pod : Pod) (psName : string) (spec : SnapshotSpec) : Prop :=
  exists ps job,
    seen h (XGetSnapshot (p_namespace pod) psName) (inr ps) /\ readSnapshotSpec ps = inr spec /\ IsSnapshotReady ps = true /\
    seen h (XGetJob (p_namespace pod) (sget (p_annotations pod) AnnotationAssigned)) (inr job) /\ bound job pod psName spec.

(** The object was downloaded whole to [dst], with that digest if one is given. *)
Definition downloaded (h : xhistory) (bucket object dst expectedSHA : string) (data : list Z) : Prop :=
  seen h (XGetObject bucket object) (inr (data, None)) /\ seen h (XWriteFile dst data) None /\
  size data <= maxDownloadBytes /\ (expectedSHA = "" \/ sha256_hex data = expectedSHA).

(** The manifest that was read, of this CPU family if both say. *)
Definition manifest_read (h : xhistory) (bucket object dst : string) (mf : Manifest) : Prop :=
  exists data, downloaded h bucket object dst "" data /\ UnmarshalManifest (first_bytes smallBytes data) = Some mf /\
    mf_specSHA256 mf <> "" /\ mf_tarSHA256 mf <> "" /\
    (mf_cpuFamily mf = "" \/ na_cpuFamily agent = "" \/ mf_cpuFamily mf = na_cpuFamily agent).

(** What the restore is given. *)
Definition verified_inputs (h : xhistory) (pod : Pod) (psName : string) (spec : SnapshotSpec) (dir : string) (inputs : RestoreInputs) : Prop :=
  exists mf specJSON tar,
    manifest_read h (sp_bucket spec) (path_Join [ArchivePrefix (sp_path spec) psName; "manifest.json"]) (path_Join [dir; "manifest.json"]) mf /\
    downloaded h (sp_bucket spec) (path_Join [ArchivePrefix (sp_path spec) psName; "spec.json"]) (path_Join [dir; "spec.json"]) (mf_specSHA256 mf) specJSON /\
    downloaded h (sp_bucket spec) (path_Join [ArchivePrefix (sp_path spec) psName; "checkpoint.tar"]) (path_Join [dir; "checkpoint.tar"]) (mf_tarSHA256 mf) tar /\
    seen h (XExtract (path_Join [dir; "checkpoint.tar"]) (path_Join [dir; "extracted"])) None /\
    inputs = mkRestoreInputs psName (p_namespace pod) (p_name pod) (match p_containers pod with c :: _ => ct_name c | [] => sp_container spec end)
      (mf_sourcePodUID mf) (p_uid pod) (path_Join [dir; "extracted"]) (first_bytes smallBytes specJSON) (mf_imageName mf).

Definition restore_allows (h : xhistory) (e : XEv) : Prop :=
  match e with
  | XRestore inputs => exists pod psName spec,
      ordered h pod psName /\ entitled h pod psName spec /\ verified_inputs h pod psName spec (path_Join [workDir agent; psName]) inputs
  | XUpdatePod pod' => exists latest status,
      seen h (XGetPod ns name) (inr latest) /\
      pod' = with_p_annotations (<[AnnotationRestoreStatus := status]> (p_annotations latest)) latest /\
      (status = "failed" \/ (status = "restored" /\ exists inputs, seen h (XRestore inputs) None))
  | XCreateSnapshot _ | XUpdateTriggerStatus _ | XUpdateSnapshotStatus _ | XUpdatePolicyStatus _ | XDirectCheckpoint _ | XCheckpoint _ _ _
  | XStopContainer _ _ _ | XPut _ _ _ | XDeleteObject _ _ => False
  | _ => True
  end.

Abbreviation M := (open restore_allows).

Lemma stays_ordered pod psName : stays (fun h => ordered h pod psName).
Proof. intros h h' Hh (? & ?). split; [eauto with history|done]. Qed.
Lemma stays_entitled pod psName spec : stays (fun h => entitled h pod psName spec).
Proof. intros h h' Hh (ps & job & ? & ? & ? & ? & ?). exists ps, job. eauto 10 with history. Qed.
Lemma stays_downloaded bucket object dst sha data : stays (fun h => downloaded h bucket object dst sha data).
Proof. intros h h' Hh (? & ? & ?). split; [|split]; eauto with history. Qed.
Lemma stays_manifest bucket object dst mf : stays (fun h => manifest_read h bucket object dst mf).
Proof. intros h h' Hh (data & Hd & ?). exists data. split; [exact (stays_downloaded _ _ _ _ _ _ _ Hh Hd)|done]. Qed.

(** What fits is all of it. *)
Lemma first_bytes_all n b : 0 <= n -> size (first_bytes (n + 1) b) <= n -> first_bytes (n + 1) b = b.
Proof.
  unfold first_bytes, size. intros Hn. destruct (Z.leb_spec (Z.of_nat (length b)) (n + 1)) as [|Hb]; [done|].
  rewrite length_take. lia.
Qed.

Lemma wpf_fetch bucket object dst sha h s (Q : xhistory -> busy -> res (list Z) -> Prop) :
  (forall h' err, continues h h' -> Q h' s (inl err)) ->
  (forall h' data, continues h h' -> downloaded h' bucket object dst sha data -> Q h' s (inr (first_bytes smallBytes data))) ->
  wpf M (fetch bucket object dst sha) h s Q.
Proof.
  intros Herr Hok. unfold fetch, xcall. gstep. gstep. apply (wpg_call M (XGetObject _ _)); [exact I|]. intros [err|[data readErr]] _; [gstep; apply Herr; eauto with history|].
  gstep. apply (wpg_call M (XCreateFile _)); [exact I|]. intros [err|] _; [gstep; apply Herr; eauto with history|]. cbv zeta.
  gstep. apply (wpg_call M (XWriteFile _ _)); [exact I|]. intros werr _. gstep. apply (wpg_call M (XCloseFile _)); [exact I|]. intros cerr _.
  destruct werr as [err|]; [gstep; apply Herr; eauto with history|].
  destruct readErr as [err|]; [gstep; apply Herr; eauto with history|].
  destruct cerr as [err|]; [gstep; apply Herr; eauto with history|].
  gstep; [gstep; apply Herr; eauto with history|]. gstep; [gstep; apply Herr; eauto with history|]. gstep. bool_props.
  assert (first_bytes (maxDownloadBytes + 1) data = data) as Hall by (apply first_bytes_all; [done|lia]). rewrite Hall in *.
  apply Hok; [eauto 6 with history|]. split; [eauto 6 with history|]. split; [eauto with history|]. split; [lia|].
  apply andb_false_iff in Heqb0 as [Hs|Hs]; bool_props; by auto.
Qed.

Lemma wpg_checkJob pod psName spec h s (Qr : xhistory -> busy -> option ApiErr -> Prop) Q :
  (forall h' err, continues h h' -> Qr h' s (Some err)) ->
  (forall h' job, continues h h' ->
     seen h' (XGetJob (p_namespace pod) (sget (p_annotations pod) AnnotationAssigned)) (inr job) -> bound job pod psName spec -> Q h' s tt) ->
  wpg M (checkJob pod psName spec) h s Qr Q.
Proof.
  intros Herr Hok. unfold checkJob, xcall, refuse. cbv zeta. gstep; [gstep; apply Herr; eauto with history|]. gstep.
  apply (wpg_call M (XGetJob _ _)); [exact I|]. intros x _. gstep. apply wpg_must; [intros; apply Herr; eauto with history|]. intros job ->. cbv zeta.
  do 5 (gstep; [gstep; apply Herr; eauto with history|]). gstep. apply (Hok _ job); [eauto with history|apply seen_now|]. bool_props.
  apply andb_false_iff in Heqb1. repeat split; try congruence. destruct Heqb1 as [Hp|Hp]; bool_props; by auto.
Qed.

Lemma wpg_readManifest bucket object dst h s (Qr : xhistory -> busy -> option ApiErr -> Prop) Q :
  (forall h' err, continues h h' -> Qr h' s (Some err)) ->
  (forall h' mf, continues h h' -> manifest_read h' bucket object dst mf -> Q h' s mf) ->
  wpg M (readManifest agent bucket object dst) h s Qr Q.
Proof.
  intros Herr Hok. unfold readManifest. gstep. apply wpg_invoke. apply wpf_fetch; intros h' x Hh.
  { gstep. apply wpg_must; [intros; by apply Herr|done]. }
  intros Hd. gstep. apply wpg_must; [intros; by apply Herr|]. intros b [= <-].
  destruct (UnmarshalManifest (first_bytes smallBytes x)) as [mf|] eqn:Hmf; [|gstep; by apply Herr].
  gstep; [gstep; by apply Herr|]. gstep; [gstep; by apply Herr|]. gstep. apply Hok; [done|]. exists x. bool_props.
  split; [done|]. split; [done|]. split; [done|]. split; [done|].
  apply andb_false_iff in Heqb0 as [Hc|Hc]; [apply andb_false_iff in Hc as [Hc|Hc]|]; bool_props; auto.
Qed.

(** The end of a part of the restore. *)
Definition restored_only (h : xhistory) (s : busy) : xhistory -> busy -> option ApiErr -> Prop :=
  fun h' s' r => continues h h' /\ s' = s /\ (r = None -> exists inputs, seen h' (XRestore inputs) None).

Lemma wpf_restoreFrom pod psName spec h s :
  ordered h pod psName -> entitled h pod psName spec ->
  wpf M (restoreFrom agent pod psName spec (path_Join [workDir agent; psName])) h s (restored_only h s).
Proof.
  intros Ho He. set (dir := path_Join [workDir agent; psName]). unfold restoreFrom, xcall. cbv zeta. gstep. gstep.
  apply wpg_readManifest; [by split|]. intros h1 mf Hh1 Hmf. gstep. apply wpg_invoke. apply wpf_fetch; intros h2 x Hh2.
  { gstep. apply wpg_must; [|done]. intros; split; [by eapply continues_trans|done]. }
  intros Hspec. assert (continues h h2) as Hc2 by (by eapply continues_trans). gstep. apply wpg_must; [by split|]. intros b [= <-].
  gstep. apply wpg_invoke. apply wpf_fetch; intros h3 y Hh3.
  { gstep. apply wpg_must; [|done]. intros; split; [by eapply continues_trans|done]. }
  intros Htar. assert (continues h h3) as Hc3 by (by eapply continues_trans). gstep. apply wpg_must; [by split|]. intros b [= <-].
  gstep. apply (wpg_call M (XExtract _ _)); [exact I|]. intros e _. gstep. apply wpg_must_ok; [split; [eauto with history|done]|]. intros ->.
  apply (wpg_call M (XRestore _)).
  - exists pod, psName, spec. split; [eapply stays_ordered; [|done]; eauto with history|].
    split; [eapply stays_entitled; [|done]; eauto with history|]. exists mf, x, y.
    split; [eapply stays_manifest; [|exact Hmf]; apply continues_cons; by eapply continues_trans|].
    split; [eapply stays_downloaded; [|exact Hspec]; eauto with history|].
    split; [eapply stays_downloaded; [|exact Htar]; eauto with history|]. split; [apply seen_now|done].
  - intros r _. split; [eauto with history|]. split; [done|]. intros ->. eexists. apply seen_now.
Qed.

Lemma wpf_restore pod psName h s : ordered h pod psName -> wpf M (restore agent pod psName) h s (restored_only h s).
Proof.
  intros Ho. unfold restore, xcall. gstep. gstep. apply (wpg_call M (XGetSnapshot _ _)); [exact I|]. intros x _. gstep.
  apply wpg_must; [split; [eauto with history|done]|]. intros ps ->. gstep. apply wpg_must; [split; [eauto with history|done]|]. intros spec Hspec.
  gstep. apply wpg_checkJob; [split; [eapply continues_trans; [|done]; eauto with history|done]|]. intros h1 job Hh1 Hjob Hb.
  assert (continues h h1) as Hc1 by (eapply continues_trans; [|done]; eauto with history).
  gstep; [gstep; by split|]. cbv zeta. gstep. apply (wpg_call M (XMkdir _)); [exact I|]. intros [err|] _; [gstep; split; [eauto with history|done]|].
  gstep. apply wpg_invoke. eapply wpf_conseq.
  { apply (wpf_restoreFrom pod psName spec); [eapply stays_ordered; [|done]; eauto with history|]. exists ps, job. bool_props.
    split; [apply (seen_continues (existT (XGetSnapshot (p_namespace pod) psName) (inr ps) :: h)); eauto with history|]. eauto 10 with history. }
  intros h2 s' e (Hh2 & -> & He). gstep. apply (wpg_call M (XRemoveAll _)); [exact I|]. intros u _. gstep.
  split; [apply continues_cons; eapply continues_trans; [|done]; eauto with history|]. split; [done|].
  intros Hr. destruct (He Hr) as [inputs Hin]. exists inputs. eauto with history.
Qed.

(** A pass restores only what is ordered and verified, and leaves the pods in work as they were. *)
Lemma wpf_ReconcileReplacement s : wpf M (ReconcileReplacement agent ns name) [] s (fun _ s' _ => s' = s).
Proof.
  unfold ReconcileReplacement, xcall. gstep. gstep. apply (wpg_call M (XGetPod _ _)); [exact I|]. intros [err|pod] _; [by gstep|]. cbv zeta.
  gstep; [by gstep|]. gstep; [by gstep|]. gstep; [by gstep|]. gstep; [by gstep|]. gstep. gstep. gstep; [by gstep|].
  gstep. gstep. gstep. apply wpg_invoke. bool_props. eapply wpf_conseq.
  { apply wpf_restore. split; [apply seen_now|]. bool_props. apply bool_decide_eq_true_1 in Heqb2. tauto. }
  intros h1 s' e (Hh1 & -> & He). gstep. apply (wpg_call M (XMetric _ _)); [exact I|]. intros u _. gstep.
  apply (wpg_call M (XGetPod _ _)); [exact I|]. intros [gerr|latest] _; gstep.
  - gstep. gstep. gstep. gstep. by apply released.
  - gstep. apply (wpg_call M (XUpdatePod _)); [|intros r _; gstep; gstep; gstep; gstep; by apply released].
    eexists latest, _. split; [apply seen_now|]. split; [done|]. destruct e as [err|]; [by left|right]. split; [done|].
    destruct (He eq_refl) as [inputs Hin]. exists inputs. eauto with history.
Qed.

(** C26: A process is restored only into the pod it was migrated to.  Whatever the API
    server and the store answer: when a pass of the restore controller restores a
    checkpoint, it is into a running pod of this node that carries an unanswered
    restore order; the PodMigrationJob assigned to the pod is in phase Restoring or
    Succeeded and bound to this pod by name and UID, to this Ready snapshot, and to
    the snapshot's source; the manifest names both digests and no other CPU family;
    and spec.json and the checkpoint were downloaded whole and match those digests. *)
Theorem restores_only_bound s t s' r t1 inputs x t2 :
  exec (ReconcileReplacement agent ns name s) t (s', r) -> t = t1 ++ existT (XRestore inputs) x :: t2 ->
  exists pod psName spec,
    ordered (rev t1) pod psName /\ entitled (rev t1) pod psName spec /\
    verified_inputs (rev t1) pod psName spec (path_Join [workDir agent; psName]) inputs.
Proof.
  intros Hx ->. destruct (wpf_exec M _ _ _ _ _ _ (wpf_ReconcileReplacement s) Hx (fair_open _ _)) as [Ho _]. exact (obeys_at _ _ _ _ Ho).
Qed.

(** A pod is marked as restored only if a restore succeeded in that pass, else as
    failed, so that its holder starts the application cold; nothing else of the pod
    is written; and the pass gives back the pod's place among those in work. *)
Theorem restored_mark_honest s t s' r :
  exec (ReconcileReplacement agent ns name s) t (s', r) ->
  s' = s /\
  forall t1 pod' x t2, t = t1 ++ existT (XUpdatePod pod') x :: t2 ->
    exists latest status, seen (rev t1) (XGetPod ns name) (inr latest) /\
      pod' = with_p_annotations (<[AnnotationRestoreStatus := status]> (p_annotations latest)) latest /\
      (status = "failed" \/ (status = "restored" /\ exists inputs, seen (rev t1) (XRestore inputs) None)).
Proof.
  intros Hx. destruct (wpf_exec M _ _ _ _ _ _ (wpf_ReconcileReplacement s) Hx (fair_open _ _)) as [Ho Hs].
  split; [done|]. intros t1 pod' x t2 ->. exact (obeys_at _ _ _ _ Ho).
Qed.
End Restore.

(** ** From the archive back to the process *)

Lemma sha256_hex_nonempty b : sha256_hex b <> "".
Proof.
  unfold sha256_hex. pose proof (Sum256_length b) as Hl. destruct (Sum256 b) as [|x l]; [discriminate Hl|].
  unfold EncodeToString. cbn [flat_map app]. discriminate.
Qed.

Section Roundtrip.
Context `{KubeLib}.
Context (now : Z) (source agent : NodeAgent) (pod : Pod) (psName image : string) (spec : SnapshotSpec) (tar specJSON : list Z).
Abbreviation busy := (gset string).

Definition archive_object (file : string) : string := path_Join [ArchivePrefix (sp_path spec) psName; file].

(** What the pipeline stored can be read, and the local files can be written. *)
Definition archive_kept (e : XEv) : xresp e -> Prop :=
  match e with
  | XGetObject bucket object => fun x =>
      (bucket = sp_bucket spec -> object = archive_object "manifest.json" ->
         x = inr (manifest_text (manifest_of now source psName spec image tar specJSON), None)) /\
      (bucket = sp_bucket spec -> object = archive_object "spec.json" -> x = inr (specJSON, None)) /\
      (bucket = sp_bucket spec -> object = archive_object "checkpoint.tar" -> x = inr (tar, None))
  | XCreateFile _ | XWriteFile _ _ | XCloseFile _ | XExtract _ _ => fun x => x = None
  | _ => fun _ => True
  end.

Abbreviation K := (mkMonitor (fun _ _ => True) archive_kept).

Lemma wpf_fetch_kept object dst sha data h s (Q : xhistory -> busy -> res (list Z) -> Prop) :
  (forall x, archive_kept (XGetObject (sp_bucket spec) object) x -> x = inr (data, None)) ->
  size data <= maxDownloadBytes -> sha = "" \/ sha256_hex data = sha ->
  (forall h', Q h' s (inr (first_bytes smallBytes data))) ->
  wpf K (fetch (sp_bucket spec) object dst sha) h s Q.
Proof.
  intros Hdata Hsize Hsha HQ. unfold fetch, xcall. gstep. gstep. apply (wpg_call K (XGetObject _ _)); [exact I|]. intros x Hx. rewrite (Hdata x Hx).
  gstep. apply (wpg_call K (XCreateFile _)); [exact I|]. intros c Hc. cbn in c, Hc. subst c. cbv zeta.
  assert (first_bytes (maxDownloadBytes + 1) data = data) as -> by (unfold first_bytes; destruct (Z.leb_spec (size data) (maxDownloadBytes + 1)); [done|lia]).
  gstep. apply (wpg_call K (XWriteFile _ _)); [exact I|]. intros w Hw. cbn in w, Hw. subst w. gstep. apply (wpg_call K (XCloseFile _)); [exact I|]. intros z Hz. cbn in z, Hz. subst z.
  replace (maxDownloadBytes <? size data) with false by (symmetry; apply Z.ltb_ge; lia).
  replace ((sha !=s "") && (sha256_hex data !=s sha)) with false by (destruct Hsha as [->| ->]; [done|by rewrite seqb_refl, andb_false_r]).
  gstep. apply HQ.
Qed.

(** The order and the image are ASCII text, and the clock shows a year of four digits. *)
Definition plain_order : Prop :=
  Forall (fun x => ascii_text x = true)
    [psName; sp_sourcePod spec; sp_sourcePodUID spec; sp_container spec; sp_nodeName spec; image; na_cpuFamily source] /\
  0 <= year now < 10000.

Lemma plain_order_manifest : plain_order -> size tar <= maxDownloadBytes -> plain_manifest (manifest_of now source psName spec image tar specJSON).
Proof.
  intros [Ht Hy] Hs. rewrite !Forall_cons in Ht. destruct Ht as (? & ? & ? & ? & ? & ? & ? & _). constructor; [|split|done].
  - repeat apply Forall_cons_2; try done; apply hex_text.
  - simpl. unfold size, int64_min. lia.
  - simpl. unfold maxDownloadBytes in Hs. unfold int64_max. lia.
Qed.

Lemma wpf_restoreFrom_kept dir h s :
  plain_order ->
  size (manifest_text (manifest_of now source psName spec image tar specJSON)) <= smallBytes -> size specJSON <= smallBytes ->
  size tar <= maxDownloadBytes -> na_cpuFamily source = na_cpuFamily agent ->
  wpf K (restoreFrom agent pod psName spec dir) h s (fun h' s' r => s' = s /\
    seen h' (XRestore (mkRestoreInputs psName (p_namespace pod) (p_name pod) (match p_containers pod with c :: _ => ct_name c | [] => sp_container spec end)
      (sp_sourcePodUID spec) (p_uid pod) (path_Join [dir; "extracted"]) specJSON image)) r).
Proof.
  intros Hpl Hm Hs Ht Hcpu. assert (smallBytes <= maxDownloadBytes) as Hle by done.
  assert (forall b, size b <= smallBytes -> first_bytes smallBytes b = b) as Hsmall
    by (intros b Hb; unfold first_bytes; by rewrite (proj2 (Z.leb_le _ _) Hb)).
  unfold restoreFrom, readManifest, xcall. cbv zeta. gstep. gstep. gstep. apply wpg_invoke.
  eapply (wpf_fetch_kept _ _ "" (manifest_text (manifest_of now source psName spec image tar specJSON)));
    [intros x (Hx & _); by apply Hx|lia|by left|]. intros h1. rewrite (Hsmall _ Hm). gstep. cbn [must]. gstep. rewrite Unmarshal_manifest by (by apply plain_order_manifest). cbn -[path_Join sha256_hex fetch].
  rewrite (proj2 (seqb_false _ _) (sha256_hex_nonempty specJSON)), (proj2 (seqb_false _ _) (sha256_hex_nonempty tar)). cbn [orb].
  rewrite Hcpu, seqb_refl, andb_false_r. gstep.
  gstep. apply wpg_invoke. eapply (wpf_fetch_kept _ _ (sha256_hex specJSON) specJSON); [intros x (_ & Hx & _); by apply Hx|lia|by right|].
  intros h2. rewrite (Hsmall _ Hs). gstep. cbn [must]. gstep. gstep. apply wpg_invoke.
  eapply (wpf_fetch_kept _ _ (sha256_hex tar) tar); [intros x (_ & _ & Hx); by apply Hx|lia|by right|].
  intros h3. gstep. cbn [must]. gstep. gstep. apply (wpg_call K (XExtract _ _)); [exact I|]. intros e He. cbn in e, He. subst e. gstep. cbn [must_ok]. gstep.
  apply (wpg_call K (XRestore _)); [exact I|]. intros r _. split; [done|apply seen_now].
Qed.

(** C27: What the pipeline archived is what comes back.  If the store still serves the
    three objects that the checkpoint pipeline of node [source] writes (the manifest
    as encoding/json prints it), the order is ASCII text and the clock is within the
    years 0 to 9999, the archive fits the restore's limits (manifest and spec.json
    4 MiB, the checkpoint 8 GiB) and both nodes are of one CPU family, then the restore refuses nothing: it
    restores into the target pod with the very OCI spec, image and source UID that
    were captured, and answers what the restore answers. *)
Theorem archive_restorable dir s t s' r :
  plain_order ->
  size (manifest_text (manifest_of now source psName spec image tar specJSON)) <= smallBytes -> size specJSON <= smallBytes ->
  size tar <= maxDownloadBytes -> na_cpuFamily source = na_cpuFamily agent ->
  exec (restoreFrom agent pod psName spec dir s) t (s', r) -> fair K t ->
  s' = s /\
  seen (rev t) (XRestore (mkRestoreInputs psName (p_namespace pod) (p_name pod) (match p_containers pod with c :: _ => ct_name c | [] => sp_container spec end)
    (sp_sourcePodUID spec) (p_uid pod) (path_Join [dir; "extracted"]) specJSON image)) r.
Proof.
  intros Hpl Hm Hs Ht Hcpu Hx Hf. exact (proj2 (wpf_exec K _ _ _ _ _ _ (wpf_restoreFrom_kept dir [] s Hpl Hm Hs Ht Hcpu) Hx Hf)).
Qed.
End Roundtrip.

(** ** Concrete runs *)

Definition sample_spec : SnapshotSpec := mkSnapshotSpec "web-0" "uid-pod" "app" "node-a" "archives" "prod".

Definition sample_objects (object : string) : list Z :=
  if object ==s "prod/ps-web-0-uid-pod/manifest.json" then
    manifest_text (manifest_of (1000 * Second) sample_agent "ps-web-0-uid-pod" sample_spec "web:1" [1; 2; 3] [123; 125])
  else if object ==s "prod/ps-web-0-uid-pod/spec.json" then [123; 125] else [1; 2; 3].

(** The replacement waits for the restore that its job ordered. *)
Definition restore_world : World :=
  mkWorld (inr (sample_snapshot (Some [mkCond "Ready" "True" "Succeeded" "" 0 0])))
    (with_p_annotations (list_to_map [(AnnotationPSName, "ps-web-0-uid-pod"); (AnnotationInjected, "true"); (AnnotationAssigned, "pmj-web")]) sample_pod)
    (w_job (sample_world None)) (w_node (sample_world None)) [] (w_trigger (sample_world None)) (w_storage (sample_world None)) [] sample_objects.

Abbreviation replacement_pass := (criu_run restore_world (ReconcileReplacement sample_agent "shop" "web-0" ∅)).

Lemma replacement_pass_exec : exec (ReconcileReplacement sample_agent "shop" "web-0" ∅) (snd (fst replacement_pass)) (∅, inr NoRequeue).
Proof. refine (eq_rect _ (exec _ _) (criu_exec _ _) _ _). vm_compute. reflexivity. Qed.

Lemma restores_only_bound_witness : exists pod psName spec inputs h,
  ordered sample_agent "shop" "web-0" h pod psName /\ entitled h pod psName spec /\
  verified_inputs sample_agent h pod psName spec (path_Join [workDir sample_agent; psName]) inputs.
Proof.
  assert (exists inputs x, nth_error (snd (fst replacement_pass)) 17 = Some (existT (XRestore inputs) x)) as (inputs & x & He)
    by (eexists _, _; vm_compute; reflexivity).
  apply nth_error_split in He as (t1 & t2 & Ht & _).
  destruct (restores_only_bound sample_agent "shop" "web-0" ∅ _ _ _ t1 inputs x t2 replacement_pass_exec Ht) as (pod & psName & spec & H).
  by exists pod, psName, spec, inputs, (rev t1).
Defined.

Lemma restored_mark_honest_witness : exists (h : xhistory) status, status = "failed" \/ (status = "restored" /\ exists inputs, seen h (XRestore inputs) None).
Proof.
  destruct (restored_mark_honest sample_agent "shop" "web-0" ∅ _ _ _ replacement_pass_exec) as [_ Hu].
  assert (exists pod x, nth_error (snd (fst replacement_pass)) 21 = Some (existT (XUpdatePod pod) x)) as (pod & x & He)
    by (eexists _, _; vm_compute; reflexivity).
  apply nth_error_split in He as (t1 & t2 & Ht & _). destruct (Hu t1 pod x t2 Ht) as (latest & status & _ & _ & Hs). by exists (rev t1), status.
Defined.

Abbreviation restore_run := (criu_run restore_world (restoreFrom sample_agent sample_pod "ps-web-0-uid-pod" sample_spec "/dir" ∅)).

Lemma archive_restorable_witness : exists inputs, seen (rev (snd (fst restore_run))) (XRestore inputs) None /\ ri_specJSON inputs = [123; 125].
Proof.
  eexists. split; [|shelve].
  refine (proj2 (archive_restorable (1000 * Second) sample_agent sample_agent sample_pod "ps-web-0-uid-pod" "web:1" sample_spec [1; 2; 3] [123; 125]
    "/dir" ∅ _ ∅ None _ _ _ _ eq_refl _ _)).
  - split; [repeat apply Forall_cons_2; done|]. split; vm_compute; [discriminate|reflexivity].
  - vm_compute. discriminate.
  - vm_compute. discriminate.
  - vm_compute. discriminate.
  - refine (eq_rect _ (exec _ _) (criu_exec _ _) _ _). vm_compute. reflexivity.
  - apply criu_fair. intros e. destruct e; try exact I; try reflexivity. unfold archive_kept.
    repeat split; intros _ ->; vm_compute; reflexivity.
  Unshelve. reflexivity.
Defined.
