(* ===== verification/CriuEngineLaws.v ===== *)
(** * The CRIU engine's controllers, proved

    A work order that a node can act on exists only for a pod that may be
    migrated; the trigger is answered with a snapshot that exists; a decided
    snapshot is left alone; and every status the engine writes is read by the
    migration controller (GKEProvider) as what the engine means. *)
From S2P Require Import Prelude Effects GoLib Paths Kube Interfaces Engine PodUtil Timeout JobBase Fence Budget Instances GKEProvider CriuContract CriuEngine CriuNode CriuInstances CriuLaws.

(** ** The statuses of a snapshot *)

(** The conditions of a refusal, a failure or a success. *)
Definition terminal_conditions (reason msg : string) : list Condition :=
  [condition "Checkpoint" "False" reason msg; condition "Ready" "False" reason msg].

Definition undecided (l : list Condition) : Prop :=
  forall ps, xs_conditions ps = Some l -> IsSnapshotReady ps = false /\ hasTerminalCheckpoint ps = false.

Section Status.
Context `{KubeLib}.

(** What the two halves of the engine write over conditions that they read: the
    controller only while nothing is decided, the node agent its outcome. *)
Inductive status_step : list Condition -> list Condition -> Prop :=
| step_terminal now l l' reason msg : undecided l -> reason = "Refused" \/ reason = "Failed" ->
    SetConditions now (Some l) (terminal_conditions reason msg) = inr (Some l') -> status_step l l'
| step_pending now l l' msg : undecided l ->
    SetConditions now (Some l) [condition "Checkpoint" "Unknown" "Pending" msg] = inr (Some l') -> status_step l l'
| step_outcome now l l' reason msg : reason = "Succeeded" \/ reason = "Failed" ->
    SetConditions now (Some l) (outcome_conditions reason msg) = inr (Some l') -> status_step l l'.

(** [c] as written, but for the times. *)
Definition says (c : Condition) (type status reason : string) : Prop := c_type c = type /\ c_status c = status /\ c_reason c = reason.

(** The statuses that can come about, by what they mean. *)
Definition status_is (l : list Condition) (ph : SnapPhase) : Prop :=
  match ph with
  | PhaseInProgress => l = [] \/ exists c, l = [c] /\ says c "Checkpoint" "Unknown" "Pending"
  | _ => exists cp rd,
      (l = [cp; rd] \/ l = [rd; cp]) /\
      let status := if bool_decide (ph = PhaseReady) then "True" else "False" in
      let reason := match ph with PhaseReady => "Succeeded" | PhaseRefused => "Refused" | _ => "Failed" end in
      says cp "Checkpoint" status reason /\ says rd "Ready" status reason
  end.

(** Two members. *)
Lemma two_members a b (l : list Condition) :
  NoDup (map c_type l) -> c_type a <> c_type b -> (forall d, In d l <-> d = a \/ d = b) -> l = [a; b] \/ l = [b; a].
Proof.
  intros Hn Hab Hl. assert (NoDup l) as Hn' by (eapply NoDup_fmap_1; exact Hn).
  assert ([a; b] ≡ₚ l) as Hp.
  { apply NoDup_Permutation; [|done|intros d; rewrite !list_elem_of_In, Hl; simpl; naive_solver].
    apply NoDup_cons. split; [|apply NoDup_singleton]. intros ->%list_elem_of_singleton. done. }
  by apply Permutation_length_2_inv in Hp.
Qed.

(** Setting one condition, through JSON. *)
Lemma set_json_members now c l : NoDup (map c_type l) ->
  NoDup (map c_type (map json_condition (fst (SetStatusCondition now c l)))) /\
  exists c', says c' (c_type c) (c_status c) (c_reason c) /\
    forall d, In d (map json_condition (fst (SetStatusCondition now c l))) <-> d = c' \/ exists e, d = json_condition e /\ In e l /\ c_type e <> c_type c.
Proof.
  intros Hn. destruct (set_members now c l Hn) as (Hn' & c' & Ht & Hs & Hr & _ & Hm). split; [by rewrite map_map|].
  exists (json_condition c'). split; [done|]. intros d. rewrite in_map_iff. setoid_rewrite Hm. naive_solver.
Qed.

(** The types of the engine's conditions. *)
Definition engine_types (l : list Condition) : Prop := forall d, In d l -> c_type d = "Checkpoint" \/ c_type d = "Ready".

Lemma set_both now l status reason msg l' :
  NoDup (map c_type l) -> engine_types l ->
  SetConditions now (Some l) [mkCond "Checkpoint" status reason msg 0 zero_time; mkCond "Ready" status reason msg 0 zero_time] = inr (Some l') ->
  exists cp rd, (l' = [cp; rd] \/ l' = [rd; cp]) /\ says cp "Checkpoint" status reason /\ says rd "Ready" status reason.
Proof.
  intros Hn Hl [= <-]. cbn [fold_left].
  destruct (set_json_members now (mkCond "Checkpoint" status reason msg 0 zero_time) l Hn) as (Hn1 & cp & Hcp & Hm1).
  set (l1 := map json_condition (fst (SetStatusCondition now _ l))) in *.
  destruct (set_json_members now (mkCond "Ready" status reason msg 0 zero_time) l1 Hn1) as (Hn2 & rd & Hrd & Hm2).
  exists (json_condition cp), rd. split; [|split; [exact Hcp|exact Hrd]].
  destruct Hcp as (Hcp & _). destruct Hrd as (Hrd & _). simpl in *.
  apply or_comm, two_members; [done|simpl; congruence|]. intros d. rewrite Hm2. setoid_rewrite Hm1. split; [|naive_solver congruence].
  intros [->|(e & -> & [->|(f & -> & Hf & Hft)] & He)]; [by left|by right|]. exfalso. simpl in He. destruct (Hl f Hf); congruence.
Qed.

Lemma status_types l ph : status_is l ph -> NoDup (map c_type l) /\ engine_types l.
Proof.
  destruct ph; simpl.
  1: { intros [->|(c & -> & Hc & _)]; simpl; [split; [apply NoDup_nil_2|intros d []]|]. split; [apply NoDup_singleton|intros d [<-|[]]; by left]. }
  all: intros (cp & rd & Hl & (Hcp & _) & (Hrd & _)); destruct Hl as [->| ->]; simpl; rewrite Hcp, Hrd;
    (split; [apply (bool_decide_unpack _); by vm_compute|intros d [<-|[<-|[]]]; by auto]).
Qed.

(** What the accessors make of them. *)
Lemma status_decided l ph ps : status_is l ph -> xs_conditions ps = Some l ->
  IsSnapshotReady ps = bool_decide (ph = PhaseReady) /\ hasTerminalCheckpoint ps = bool_decide (ph = PhaseFailed \/ ph = PhaseRefused).
Proof.
  unfold IsSnapshotReady, hasTerminalCheckpoint. intros Hl ->. destruct ph; simpl in Hl |- *.
  1: destruct Hl as [->|(c & -> & H1 & H2 & H3)]; simpl; [done|]; by rewrite H1, H2, H3.
  all: destruct Hl as (cp & rd & Hl & (Hc1 & Hc2 & Hc3) & (Hr1 & Hr2 & Hr3)); destruct Hl as [->| ->]; simpl;
    rewrite Hc1, Hc2, Hc3, Hr1, Hr2, Hr3; split; reflexivity.
Qed.

Lemma status_step_is l l' : (exists ph, status_is l ph) -> status_step l l' -> exists ph, status_is l' ph.
Proof.
  intros [ph Hph] Hstep. destruct (status_types l ph Hph) as [Hn Ht]. destruct Hstep as [now l l' reason msg _ Hr Hs|now l l' msg Hu Hs|now l l' reason msg Hr Hs].
  - destruct (set_both _ _ _ _ _ _ Hn Ht Hs) as (cp & rd & Hl & Hcp & Hrd).
    destruct Hr as [->| ->]; [exists PhaseRefused|exists PhaseFailed]; by exists cp, rd.
  - exists PhaseInProgress. right. injection Hs as <-.
    destruct (set_json_members now (condition "Checkpoint" "Unknown" "Pending" msg) l Hn) as (Hn' & c & Hc & Hm). exists c. split; [|done].
    assert (forall d, In d l -> c_type d = "Checkpoint") as Hl.
    { pose (ps := mkCriuSnapshot "" "" ∅ ∅ (Some l)). destruct (status_decided l ph ps Hph eq_refl) as [H1 H2].
      destruct (Hu ps eq_refl) as [H3 H4]. rewrite H1 in H3. rewrite H2 in H4. destruct ph; try done.
      destruct Hph as [->|(d & -> & Hd & _)]; [done|]. by intros e [<-|[]]. }
    assert (forall d, In d (map json_condition (fst (SetStatusCondition now (condition "Checkpoint" "Unknown" "Pending" msg) l))) <-> d = c) as Hm'.
    { intros d. rewrite Hm. split; [|by left]. intros [->|(e & -> & He & Hne)]; [done|]. destruct (Hne (Hl e He)). }
    apply Permutation_length_1_inv, NoDup_Permutation; [apply NoDup_singleton|eapply NoDup_fmap_1; exact Hn'|].
    intros d. rewrite !list_elem_of_In, Hm'. simpl. naive_solver.
  - destruct (set_both _ _ _ _ _ _ Hn Ht Hs) as (cp & rd & Hl & Hcp & Hrd).
    destruct Hr as [->| ->]; [exists PhaseReady|exists PhaseFailed]; by exists cp, rd.
Qed.

Lemma status_reachable l : rtc status_step [] l -> exists ph, status_is l ph.
Proof.
  intros Hl. assert (exists ph, status_is [] ph) as H0 by (exists PhaseInProgress; by left). revert H0.
  induction Hl as [l|l1 l2 l3 H12 _ IH]; [done|]. intros H1. apply IH. by eapply status_step_is.
Qed.

(** The condition as the migration controller reads it. *)
Definition raw_of (c : Condition) : option RawCondition :=
  Some (mkRawCondition (Some (c_type c)) (Some (c_status c)) (Some (c_reason c)) (Some (c_message c)) (Some (FormatRFC3339 (c_lastTransitionTime c)))).

Lemma status_phase now name created l ph : status_is l ph -> ss_phase (snapshotStatus now name created (map raw_of l) None) = ph.
Proof.
  assert (forall c type status reason, says c type status reason ->
    raw_of c = Some (mkRawCondition (Some type) (Some status) (Some reason) (Some (c_message c)) (Some (FormatRFC3339 (c_lastTransitionTime c))))) as Hraw
    by (intros c type status reason (<- & <- & <-); done).
  destruct ph; simpl.
  1: intros [->|(c & -> & Hc)]; [done|]; simpl; rewrite (Hraw _ _ _ _ Hc).
  2-4: intros (cp & rd & [->| ->] & Hcp & Hrd); simpl; rewrite (Hraw _ _ _ _ Hcp), (Hraw _ _ _ _ Hrd).
  all: clear; lazy -[ParseRFC3339 FormatRFC3339 After IsZero Sub zero_time]; reflexivity.
Qed.

(** C28: The engine and the migration controller agree on a snapshot.  After any
    sequence of statuses that the engine's two halves write, what the controller's
    GKE provider makes of the conditions is what the engine means: Ready exactly when
    the engine holds the snapshot for ready, in progress exactly while nothing is
    decided, and refused or failed exactly when the Checkpoint condition says so. *)
Theorem engine_status_refines now name created l ps :
  rtc status_step [] l -> xs_conditions ps = Some l ->
  (ss_phase (snapshotStatus now name created (map raw_of l) None) = PhaseReady <-> IsSnapshotReady ps = true) /\
  (ss_phase (snapshotStatus now name created (map raw_of l) None) = PhaseInProgress <->
     IsSnapshotReady ps = false /\ hasTerminalCheckpoint ps = false) /\
  (ss_phase (snapshotStatus now name created (map raw_of l) None) = PhaseRefused <-> exists c, In c l /\ says c "Checkpoint" "False" "Refused") /\
  (ss_phase (snapshotStatus now name created (map raw_of l) None) = PhaseFailed <-> exists c, In c l /\ says c "Checkpoint" "False" "Failed").
Proof.
  intros Hl Hps. apply status_reachable in Hl as [ph Hph]. rewrite (status_phase now name created l ph Hph).
  destruct (status_decided l ph ps Hph Hps) as [-> ->]. rewrite !bool_decide_eq_true, !bool_decide_eq_false.
  assert (forall reason, (exists c, In c l /\ says c "Checkpoint" "False" reason) <->
    (ph = PhaseRefused /\ reason = "Refused") \/ (ph = PhaseFailed /\ reason = "Failed")) as Hc.
  { intros reason. destruct ph; simpl in Hph.
    1: destruct Hph as [->|(c & -> & Hc)]; [naive_solver|unfold says in *; simpl; naive_solver congruence].
    all: destruct Hph as (cp & rd & Hl & Hcp & Hrd); unfold says in *; simpl in *; destruct Hl as [->| ->]; simpl; naive_solver congruence. }
  rewrite !Hc. destruct ph; naive_solver.
Qed.
End Status.

(** ** The trigger *)

Section Trigger.
Context `{KubeLib} `{SelectorLib}.
Context (now : Z) (hasCheckpointer : bool) (ns name : string).

(** The pod may be migrated by this engine: it opted in, has one container, and runs on a node that can. *)
Definition eligible (h : xhistory) (pod : Pod) : Prop :=
  sget (p_labels pod) LabelEnabled = "true" /\ length (p_containers pod) = 1%nat /\ p_nodeName pod <> "" /\
  exists node, seen h (XGetNode (p_nodeName pod)) (inr node) /\ sget (m_annotations (n_meta node)) NodeReadyLabel = "true".

(** The trigger names the pod, and a Ready policy of this engine selects it. *)
Definition triggered (h : xhistory) (psmt : CriuTrigger) (pod : Pod) (psp : CriuPolicy) : Prop :=
  exists podName items, seen h (XGetTrigger ns name) (inr psmt) /\ TriggerTargetPod psmt = Some podName /\
    seen h (XGetPod ns podName) (inr pod) /\ seen h (XListPolicies ns) (inr items) /\ In psp items /\ serves (p_labels pod) psp = true.

(** The policy's storage. *)
Definition stored_at (h : xhistory) (psp : CriuPolicy) (bucket path : string) : Prop :=
  exists scName pssc, PolicyStorageConfigName psp = Some scName /\ seen h (XGetStorage scName) (inr pssc) /\ GCSLocation pssc = inr (bucket, path).

(** The snapshot exists. *)
Definition snapshot_exists (h : xhistory) (pod : Pod) : Prop :=
  (exists ps, seen h (XGetSnapshot ns (PodSnapshotName (p_name pod) (p_uid pod))) (inr ps)) \/
  exists ps e, xs_name ps = PodSnapshotName (p_name pod) (p_uid pod) /\ xs_namespace ps = ns /\ seen h (XCreateSnapshot ps) e /\
    forall err, e = Some err -> IsAlreadyExists err = true.

Definition engine_allows (h : xhistory) (e : XEv) : Prop :=
  match e with
  | XCreateSnapshot ps => exists psmt pod psp refusal storage,
      triggered h psmt pod psp /\ ps = workOrder ns pod refusal storage /\
      forall spec, readSnapshotSpec ps = inr spec ->
        eligible h pod /\ stored_at h psp (sp_bucket spec) (sp_path spec) /\ sp_sourcePod spec = p_name pod /\ sp_sourcePodUID spec = p_uid pod /\
        sp_nodeName spec = p_nodeName pod /\ map ct_name (p_containers pod) = [sp_container spec]
  | XUpdateTriggerStatus psmt' => exists psmt pod psp,
      triggered h psmt pod psp /\ snapshot_exists h pod /\
      SetTriggerSnapshotCreated psmt (PodSnapshotName (p_name pod) (p_uid pod)) = inr psmt'
  | XDirectCheckpoint req => exists psmt pod psp,
      triggered h psmt pod psp /\ snapshot_exists h pod /\ eligible h pod /\ stored_at h psp (cr_bucket req) (cr_path req) /\
      cr_podName req = p_name pod /\ cr_podUID req = p_uid pod
  | XUpdateSnapshotStatus ps' => exists psmt pod psp ps,
      triggered h psmt pod psp /\ seen h (XGetSnapshot ns (PodSnapshotName (p_name pod) (p_uid pod))) (inr ps) /\
      exists l l', xs_conditions ps = Some l /\ ps' = with_snapshot_conditions (Some l') ps /\ undecided l /\ status_step l l'
  | XUpdatePolicyStatus _ | XUpdatePod _ | XCheckpoint _ _ _ | XStopContainer _ _ _ | XRestore _ | XPut _ _ _ | XDeleteObject _ _ => False
  | _ => True
  end.

Abbreviation M := (open engine_allows).

Lemma stays_eligible pod : stays (fun h => eligible h pod).
Proof. intros h h' Hh (? & ? & ? & node & ? & ?). repeat (split; [done|]). exists node. eauto with history. Qed.
Lemma stays_triggered psmt pod psp : stays (fun h => triggered h psmt pod psp).
Proof. intros h h' Hh (podName & items & ? & ? & ? & ? & ?). exists podName, items. eauto 10 with history. Qed.
Lemma stays_stored_at psp bucket path : stays (fun h => stored_at h psp bucket path).
Proof. intros h h' Hh (scName & pssc & ? & ? & ?). exists scName, pssc. eauto with history. Qed.
Lemma stays_exists pod : stays (fun h => snapshot_exists h pod).
Proof. intros h h' Hh [[ps ?]|(ps & e & ? & ? & ? & ?)]; [left|right]; [exists ps|exists ps, e]; eauto 10 with history. Qed.

Lemma wpg_refusalReason {R} pod h s (Qr : xhistory -> unit -> R -> Prop) Q :
  (forall h' refusal, continues h h' -> (refusal = "" -> eligible h' pod) -> Q h' s refusal) -> wpg M (refusalReason pod) h s Qr Q.
Proof.
  intros HQ. unfold refusalReason, xcall. gstep; [gstep; by apply HQ; [auto with history|]|].
  gstep; [gstep; by apply HQ; [auto with history|]|]. gstep; [gstep; by apply HQ; [auto with history|]|]. gstep.
  apply (wpg_call M (XGetNode _)); [exact I|]. intros [err|node] _; gstep; apply HQ; eauto with history; [done|].
  destruct (sget (m_annotations (n_meta node)) NodeReadyLabel !=s "true") eqn:Hn; [done|]. intros _. bool_props.
  split; [done|]. split; [by apply Nat.eqb_eq|]. split; [done|]. exists node. split; [apply seen_now|done].
Qed.

Lemma wpg_storageFor {R} psp h s (Qr : xhistory -> unit -> R -> Prop) Q :
  (forall h' x, continues h h' -> (forall bucket path, x = inr (bucket, path) -> stored_at h' psp bucket path) -> Q h' s x) ->
  wpg M (storageFor psp) h s Qr Q.
Proof.
  intros HQ. unfold storageFor, xcall. destruct (PolicyStorageConfigName psp) as [scName|] eqn:Hsc; [|gstep; by apply HQ; [auto with history|]].
  gstep. apply (wpg_call M (XGetStorage _)); [exact I|]. intros [err|pssc] _; gstep; apply HQ; eauto with history; [done|].
  intros bucket path Hloc. exists scName, pssc. split; [done|]. split; [apply seen_now|done].
Qed.

(** A work order that can be read. *)
Lemma workOrder_spec pod refusal storage spec :
  readSnapshotSpec (workOrder ns pod refusal storage) = inr spec ->
  refusal = "" /\ storage = inr (sp_bucket spec, sp_path spec) /\ sp_sourcePod spec = p_name pod /\ sp_sourcePodUID spec = p_uid pod /\
  sp_nodeName spec = p_nodeName pod /\ exists c l, p_containers pod = c :: l /\ sp_container spec = ct_name c.
Proof.
  unfold readSnapshotSpec, workOrder. cbv zeta. cbn [xs_spec sp_sourcePod sp_container sp_nodeName sp_bucket].
  destruct (p_containers pod) as [|c l].
  { assert (forall m : gmap string string, m !! "container" = None -> sget m "container" = "") as Hno by (intros m Hm; unfold sget; by rewrite Hm).
    rewrite Hno; [by rewrite orb_true_r|]. destruct storage as [|[bucket path]]; [done|]. by destruct (refusal ==s ""). }
  destruct storage as [err|[bucket path]]; [by rewrite orb_true_r|].
  destruct (refusal ==s "") eqn:Hr; [|by rewrite orb_true_r]. destruct (_ || _) eqn:Hb; [done|]. intros [= <-]. cbn. bool_props.
  repeat (split; [done|]). by exists c, l.
Qed.

Lemma wpg_matching {R} labels h s (Qr : xhistory -> unit -> R -> Prop) Q :
  (forall h' x, continues h h' -> (forall psp, x = inr (Some psp) -> exists items, seen h' (XListPolicies ns) (inr items) /\ In psp items /\ serves labels psp = true) ->
     Q h' s x) ->
  wpg M (matchingEnginePSP ns labels) h s Qr Q.
Proof.
  intros HQ. unfold matchingEnginePSP, xcall. gstep. apply (wpg_call M (XListPolicies _)); [exact I|]. intros [err|items] _; gstep; apply HQ; eauto with history; [done|].
  intros psp [= Hf]. apply List.find_some in Hf as [Hin Hs]. exists items. split; [apply seen_now|done].
Qed.

(** A status over an undecided snapshot. *)
Lemma wpg_patch {R} psmt pod psp conds h s (Qr : xhistory -> unit -> R -> Prop) Q :
  triggered h psmt pod psp ->
  (forall l l', undecided l -> SetConditions now (Some l) conds = inr (Some l') -> status_step l l') ->
  (forall h' e, continues h h' -> Q h' s e) ->
  wpg M (patchSnapshotConditions now ns (PodSnapshotName (p_name pod) (p_uid pod)) conds) h s Qr Q.
Proof.
  intros Ht Hstep HQ. unfold patchSnapshotConditions, xcall. gstep. apply (wpg_call M (XGetSnapshot _ _)); [exact I|].
  intros [err|ps] _; [gstep; apply HQ; eauto with history|]. gstep; [gstep; apply HQ; eauto with history|]. bool_props.
  destruct (SetConditions now (xs_conditions ps) conds) as [err|l] eqn:Hl; [gstep; apply HQ; eauto with history|].
  apply (wpg_call M (XUpdateSnapshotStatus _)); [|intros e _; apply HQ; eauto with history].
  exists psmt, pod, psp, ps. split; [eapply stays_triggered; [|exact Ht]; eauto with history|]. split; [apply seen_now|].
  destruct (xs_conditions ps) as [l0|] eqn:Hc; [|discriminate Hl]. destruct l as [l'|]; [|discriminate Hl].
  assert (undecided l0) as Hu by (intros ps' Hps'; unfold IsSnapshotReady, hasTerminalCheckpoint in *; rewrite Hps'; by rewrite Hc in *).
  exists l0, l'. split; [done|]. split; [done|]. split; [done|]. by apply Hstep.
Qed.

Lemma wpg_terminal {R} psmt pod psp reason msg h s (Qr : xhistory -> unit -> R -> Prop) Q :
  triggered h psmt pod psp -> reason = "Refused" \/ reason = "Failed" -> (forall h' e, continues h h' -> Q h' s e) ->
  wpg M (setSnapshotTerminal now ns (PodSnapshotName (p_name pod) (p_uid pod)) reason msg) h s Qr Q.
Proof.
  intros Ht Hr HQ. unfold setSnapshotTerminal, xcall. gstep. apply (wpg_call M (XMetric _ _)); [exact I|]. intros u _.
  eapply wpg_patch; [eapply stays_triggered; [|exact Ht]; eauto with history| |].
  - intros l l' Hu Hl. exact (step_terminal now l l' reason msg Hu Hr Hl).
  - intros h' e Hh. apply HQ. eapply continues_trans; [|done]. eauto with history.
Qed.

Section Ordered.
Context (psmt : CriuTrigger) (pod : Pod) (psp : CriuPolicy) (refusal : string) (storage : res (string * string)).

(** What the reconciler knows once it has looked at the pod and the storage. *)
Definition judged (h : xhistory) : Prop :=
  triggered h psmt pod psp /\ (refusal = "" -> eligible h pod) /\ (forall bucket path, storage = inr (bucket, path) -> stored_at h psp bucket path).

Lemma stays_judged : stays judged.
Proof.
  intros h h' Hh (H1 & H2 & H3). split; [exact (stays_triggered _ _ _ _ _ Hh H1)|].
  split; [intros Hr; exact (stays_eligible _ _ _ Hh (H2 Hr))|intros bucket path Hs; exact (stays_stored_at _ _ _ _ _ Hh (H3 _ _ Hs))].
Qed.

Lemma wpg_materialize h s (Qr : xhistory -> unit -> res Result -> Prop) Q :
  judged h -> (forall h' err, Qr h' s (inl err)) -> (forall h', continues h h' -> snapshot_exists h' pod -> Q h' s tt) ->
  wpg M (materialize ns pod refusal storage) h s Qr Q.
Proof.
  intros Hj Hr HQ. unfold materialize, xcall. gstep. apply (wpg_call M (XGetSnapshot _ _)); [exact I|].
  intros [err|ps] _; [|gstep; apply HQ; [eauto with history|left; exists ps; apply seen_now]].
  gstep; [|by gstep]. gstep. apply (wpg_call M (XCreateSnapshot _)).
  - exists psmt, pod, psp, refusal, storage.
    assert (judged (existT (XGetSnapshot ns (PodSnapshotName (p_name pod) (p_uid pod))) (inl err) :: h)) as (H1 & H2 & H3)
      by (eapply stays_judged; [|exact Hj]; eauto with history).
    split; [done|]. split; [done|]. intros spec (Hre & Hst & Hp1 & Hp2 & Hp3 & c & l & Hc & Hct)%workOrder_spec.
    pose proof (H2 Hre) as He. split; [done|]. split; [by apply H3|]. repeat (split; [done|]).
    destruct He as (_ & Hlen & _). rewrite Hc in *. destruct l; [|discriminate Hlen]. simpl. by rewrite Hct.
  - intros e _. assert (snapshot_exists (existT (XCreateSnapshot (workOrder ns pod refusal storage)) e ::
      existT (XGetSnapshot ns (PodSnapshotName (p_name pod) (p_uid pod))) (inl err) :: h) pod \/ exists err, e = Some err /\ IsAlreadyExists err = false) as Hex.
    { destruct e as [err'|]; [destruct (IsAlreadyExists err') eqn:Ha; [left|by right; exists err']|left]; right;
        (eexists _, _; split; [|split; [|split; [apply seen_now|]]]; [done|done|]); naive_solver. }
    destruct Hex as [Hex|(err' & -> & Ha)]; [|rewrite Ha; by gstep].
    destruct e as [err'|]; [destruct (IsAlreadyExists err'); [|by gstep]|]; gstep; (apply HQ; [eauto with history|done]).
Qed.

Lemma wpg_answer h s (Qr : xhistory -> unit -> res Result -> Prop) Q :
  judged h -> snapshot_exists h pod -> (forall h' err, Qr h' s (inl err)) -> (forall h', continues h h' -> Q h' s tt) ->
  wpg M (answer psmt (PodSnapshotName (p_name pod) (p_uid pod))) h s Qr Q.
Proof.
  intros (Ht & _) He Hr HQ. unfold answer, xcall. gstep; [|gstep; apply HQ; auto with history].
  destruct (SetTriggerSnapshotCreated psmt _) as [err|psmt'] eqn:Hs; [by gstep|]. gstep. apply (wpg_call M (XUpdateTriggerStatus _)); [by exists psmt, pod, psp|].
  intros [err|] _; [by gstep|]. gstep. apply HQ. eauto with history.
Qed.

Lemma wpg_handOver h s (Qr : xhistory -> unit -> res Result -> Prop) Q :
  judged h -> snapshot_exists h pod -> (forall h' r, Q h' s r) ->
  wpg M (handOver now hasCheckpointer ns pod (PodSnapshotName (p_name pod) (p_uid pod)) refusal storage) h s Qr Q.
Proof.
  intros (Ht & Hel & Hst) He HQ. unfold handOver, only_error, xcall. gstep.
  { gstep. eapply wpg_terminal; [exact Ht|by left|]. intros h' e _. by gstep. }
  destruct storage as [err|[bucket path]].
  { gstep. eapply wpg_terminal; [exact Ht|by right|]. intros h' e _. by gstep. }
  bool_props. destruct hasCheckpointer.
  - gstep. apply (wpg_call M (XDirectCheckpoint _)); [exists psmt, pod, psp; by auto 10|]. intros [err|] _; [|by gstep].
    gstep. eapply wpg_terminal; [eapply stays_triggered; [|exact Ht]; eauto with history|by right|]. intros h' e _. by gstep.
  - gstep. unfold setSnapshotPending. eapply wpg_patch; [exact Ht|intros l l' Hu Hl; exact (step_pending now l l' _ Hu Hl)|].
    intros h' [err|] _; by gstep.
Qed.
End Ordered.

Lemma wpf_ReconcileTrigger s : wpf M (ReconcileTrigger now hasCheckpointer ns name) [] s (fun _ _ _ => True).
Proof.
  unfold ReconcileTrigger, xcall. gstep. gstep. apply (wpg_call M (XGetTrigger _ _)); [exact I|]. intros [err|psmt] _; [by gstep|].
  destruct (TriggerTargetPod psmt) as [podName|] eqn:Hpod; [|by gstep]. gstep. apply (wpg_call M (XGetPod _ _)); [exact I|].
  intros [err|pod] _; [by gstep|]. gstep. apply wpg_matching. intros h1 [err|[psp|]] Hh1 Hpsp; [by gstep| |by gstep].
  destruct (Hpsp psp eq_refl) as (items & Hlist & Hin & Hserves).
  assert (triggered h1 psmt pod psp) as Ht by (exists podName, items; eauto 10 with history). cbv zeta.
  gstep. apply wpg_refusalReason. intros h2 refusal Hh2 Hel. gstep. apply wpg_storageFor. intros h3 storage Hh3 Hst. gstep.
  assert (judged psmt pod psp refusal storage h3) as Hj.
  { split; [eapply stays_triggered; [|exact Ht]; by eapply continues_trans|]. split; [|done]. intros Hr. exact (stays_eligible _ _ _ Hh3 (Hel Hr)). }
  apply (wpg_materialize psmt pod psp); [done|done|]. intros h4 Hh4 Hex. assert (judged psmt pod psp refusal storage h4) as Hj4 by exact (stays_judged _ _ _ _ _ _ _ Hh4 Hj).
  gstep. apply (wpg_answer psmt pod psp refusal storage); [done|done|done|]. intros h5 Hh5.
  apply (wpg_handOver psmt pod psp); [exact (stays_judged _ _ _ _ _ _ _ Hh5 Hj4)|exact (stays_exists _ _ _ Hh5 Hex)|done].
Qed.

(** A node is ordered to checkpoint only a pod that may be migrated.  Whatever the
    API server answers: a snapshot that the trigger's reconciler creates can be read
    as a work order only if a Ready policy of this engine selects the pod that the
    trigger names, the pod opted in, has one container and is scheduled on a node
    that is ready for CRIU, and the bucket is the one of the policy's storage; the
    order names that pod, that container and that node.  A refused pod gets an order
    that no node can act on. *)
Theorem work_orders_only_eligible s t s' r t1 ps x t2 :
  exec (ReconcileTrigger now hasCheckpointer ns name s) t (s', r) -> t = t1 ++ existT (XCreateSnapshot ps) x :: t2 ->
  exists psmt pod psp refusal storage,
    triggered (rev t1) psmt pod psp /\ ps = workOrder ns pod refusal storage /\
    forall spec, readSnapshotSpec ps = inr spec ->
      eligible (rev t1) pod /\ stored_at (rev t1) psp (sp_bucket spec) (sp_path spec) /\
      sp_sourcePod spec = p_name pod /\ sp_sourcePodUID spec = p_uid pod /\
      sp_nodeName spec = p_nodeName pod /\ map ct_name (p_containers pod) = [sp_container spec].
Proof.
  intros Hx ->. destruct (wpf_exec M _ _ _ _ _ _ (wpf_ReconcileTrigger s) Hx (fair_open _ _)) as [Ho _]. exact (obeys_at _ _ _ _ Ho).
Qed.

(** The trigger is answered with a snapshot that exists, and a decided snapshot is
    left alone.  [status.snapshotCreated] is set to the pod's snapshot only after
    that was read or created; every status the reconciler writes to a snapshot is
    one step, refused, failed or pending, over conditions it read that were neither
    ready nor failed nor refused. *)
Theorem trigger_keeps_decisions s t s' r :
  exec (ReconcileTrigger now hasCheckpointer ns name s) t (s', r) ->
  (forall t1 psmt' x t2, t = t1 ++ existT (XUpdateTriggerStatus psmt') x :: t2 ->
     exists psmt pod psp, triggered (rev t1) psmt pod psp /\ snapshot_exists (rev t1) pod /\
       SetTriggerSnapshotCreated psmt (PodSnapshotName (p_name pod) (p_uid pod)) = inr psmt') /\
  (forall t1 ps' x t2, t = t1 ++ existT (XUpdateSnapshotStatus ps') x :: t2 ->
     exists psmt pod psp ps, triggered (rev t1) psmt pod psp /\
       seen (rev t1) (XGetSnapshot ns (PodSnapshotName (p_name pod) (p_uid pod))) (inr ps) /\
       exists l l', xs_conditions ps = Some l /\ ps' = with_snapshot_conditions (Some l') ps /\ undecided l /\ status_step l l').
Proof.
  intros Hx. destruct (wpf_exec M _ _ _ _ _ _ (wpf_ReconcileTrigger s) Hx (fair_open _ _)) as [Ho _].
  split; intros t1 y x t2 ->; exact (obeys_at _ _ _ _ Ho).
Qed.
End Trigger.

(** ** A refusal that the node agent overtakes *)

Section Overtaken.
Context `{KubeLib}.

Lemma workOrder_refused ns pod refusal storage : refusal <> "" -> exists err, readSnapshotSpec (workOrder ns pod refusal storage) = inl err.
Proof.
  intros Hr. destruct (readSnapshotSpec (workOrder ns pod refusal storage)) as [err|spec] eqn:Hs; [by exists err|].
  apply workOrder_spec in Hs as (? & _). done.
Qed.

(** Every read of the snapshot finds [ps]. *)
Definition reads_snapshot (ps : CriuSnapshot) (e : XEv) : xresp e -> Prop :=
  match e with XGetSnapshot _ _ => fun x => x = inr ps | _ => fun _ => True end.

End Overtaken.

(** ** Concrete runs *)

Lemma engine_status_refines_witness : exists l,
  ss_phase (snapshotStatus 0 "snap" 0 (map raw_of l) None) = PhaseReady <-> True.
Proof.
  destruct (SetConditions 1000 (Some []) (outcome_conditions "Succeeded" "done")) as [err|[l|]] eqn:Hl; [discriminate Hl| |discriminate Hl].
  pose (ps := sample_snapshot (Some l)). exists l.
  destruct (engine_status_refines 0 "snap" 0 l ps) as [Hready _]; [|reflexivity|].
  - apply rtc_once. exact (step_outcome 1000 [] l "Succeeded" "done" (or_introl eq_refl) Hl).
  - rewrite Hready. split; [done|]. intros _. unfold ps. injection Hl as <-. vm_compute. reflexivity.
Defined.

(** A pod that opted in, a Ready policy that selects it, and no snapshot yet. *)
Definition trigger_world : World :=
  mkWorld (inl (mkErr NotFound "not found"))
    (mkPod (with_labels {[ LabelEnabled := "true" ]} (p_meta sample_pod)) "node-a" None [mkContainer "app" None None None] [] [] [] [] PodRunning "" "" [] [] [])
    (w_job (sample_world None)) (w_node (sample_world None))
    [mkCriuPolicy "psp" 1 {[ LabelEngine := EngineCRIU ]} (NFound "manual") (NFound "stop") (inr []) (NFound "sc") (Some [mkCond "Ready" "True" "" "" 0 0])]
    (w_trigger (sample_world None)) (w_storage (sample_world None)) [] (fun _ => []).

Abbreviation trigger_pass := (criu_run trigger_world (ReconcileTrigger (1000 * Second) false "shop" "t" tt)).

Lemma trigger_pass_exec :
  exec (ReconcileTrigger (1000 * Second) false "shop" "t" tt) (snd (fst trigger_pass)) (tt, inl (mkErr NotFound "not found")).
Proof. refine (eq_rect _ (exec _ _) (criu_exec _ _) _ _). vm_compute. reflexivity. Qed.

Lemma work_orders_only_eligible_witness : exists pod h spec, eligible h pod /\ sp_sourcePod spec = p_name pod /\ sp_bucket spec = "archives".
Proof.
  assert (exists ps x spec, nth_error (snd (fst trigger_pass)) 6 = Some (existT (XCreateSnapshot ps) x) /\
    readSnapshotSpec ps = inr spec /\ sp_bucket spec = "archives") as (ps & x & spec & He & Hs & Hb)
    by (eexists _, _, _; split; [vm_compute; reflexivity|split; vm_compute; reflexivity]).
  apply nth_error_split in He as (t1 & t2 & Ht & _).
  destruct (work_orders_only_eligible (1000 * Second) false "shop" "t" tt _ _ _ t1 ps x t2 trigger_pass_exec Ht)
    as (psmt & pod & psp & refusal & storage & _ & _ & Hspec).
  destruct (Hspec spec Hs) as (Hel & _ & Hp & _). by exists pod, (rev t1), spec.
Defined.

Lemma trigger_keeps_decisions_witness : exists psmt pod psp h, triggered "shop" "t" h psmt pod psp /\ snapshot_exists "shop" h pod.
Proof.
  destruct (trigger_keeps_decisions (1000 * Second) false "shop" "t" tt _ _ _ trigger_pass_exec) as [Hu _].
  assert (exists psmt' x, nth_error (snd (fst trigger_pass)) 7 = Some (existT (XUpdateTriggerStatus psmt') x)) as (psmt' & x & He)
    by (eexists _, _; vm_compute; reflexivity).
  apply nth_error_split in He as (t1 & t2 & Ht & _). destruct (Hu t1 psmt' x t2 Ht) as (psmt & pod & psp & H1 & H2 & _).
  by exists psmt, pod, psp, (rev t1).
Defined.

Definition refused_order : CriuSnapshot := workOrder "shop" sample_pod "node node-a is not criu-ready" (inr ("archives", "prod")).
Abbreviation overtaking_pass := (criu_run (mkWorld (inr refused_order) sample_pod (w_job (sample_world None)) (w_node (sample_world None)) []
  (w_trigger (sample_world None)) (w_storage (sample_world None)) [] (fun _ => []))
  (ReconcileSnapshot (1000 * Second) (mkNodeAgent "node-z" "" "") "shop" "ps-web-0-uid-pod" ∅)).

