(* ===== verification/HolderLaws.v ===== *)
(** * The holder, proved

    An injected container runs its own command unless its restore was confirmed, and
    decides in bounded time; the annotations file reads back as it was written. *)
From Stdlib Require Import Ascii.
From S2P Require Import Prelude Effects GoLib Unquote Holder CriuContract CriuEngine.

Abbreviation whistory := (@trace WEv wresp).

Section Wrap.
Context (file : string) (orig : list string) (start : Z).

(** What the annotations file said. *)
Definition read_of (h : whistory) (P : gmap string string -> Prop) : Prop :=
  exists b, seen h (WReadFile file) (inr b) /\ P (parseAnnotations b).
Definition assigned (h : whistory) (psName : string) : Prop := psName <> "" /\ read_of h (fun anns => anns !! annPSName = Some psName).
Definition restored (h : whistory) : Prop := read_of h (fun anns => anns !! annRestoreStatus = Some statusRestored).

(** Why it may start cold: it was told to, its restore failed, or the time is over. *)
Definition told_cold (h : whistory) : Prop := read_of h (fun anns => anns !! annPSName = Some "").
Definition restore_failed (h : whistory) : Prop := read_of h (fun anns => anns !! annRestoreStatus = Some statusFailed).
Definition waited (h : whistory) (d : Z) : Prop := ticks start h -> start + d < time_of start h.
Definition cold_due (h : whistory) : Prop :=
  told_cold h \/ waited h defaultAssignWait \/
  (exists psName, assigned h psName /\ (restore_failed h \/ waited h defaultRestoreWait)).

(** Only the annotations are read, and only the container's own command is run, in its environment. *)
Definition wrap_allows (h : whistory) (e : WEv) : Prop :=
  match e with
  | WReadFile path => path = file
  | WLookPath name => name = hd "" orig /\ cold_due h
  | WExec bin argv env => argv = orig /\ seen h (WLookPath (hd "" orig)) (inr bin) /\ seen h WEnviron env /\ cold_due h
  | WAwaitSignal => restored h /\ exists psName, assigned h psName
  | WOpenSelf | WCreate _ _ | WCopySelf _ | WCloseFile _ | WCloseSelf => False
  | _ => True
  end.
Abbreviation M := (open wrap_allows).

Lemma stays_read P : stays (fun h => read_of h P).
Proof. intros h h' Hh (b & H1 & H2). exists b. split; [by eapply seen_continues|done]. Qed.
Lemma stays_assigned psName : stays (fun h => assigned h psName).
Proof. intros h h' Hh (? & H). split; [done|]. exact (stays_read _ _ _ Hh H). Qed.
Lemma stays_waited d : stays (fun h => waited h d).
Proof. intros h h' Hh Hw Ht. destruct (ticks_continues _ _ _ Hh Ht) as [H0 ?]. specialize (Hw H0). lia. Qed.
Lemma stays_cold : stays cold_due.
Proof.
  intros h h' Hh [H|[H|(psName & H1 & H2)]]; [left; exact (stays_read _ _ _ Hh H)|right; left; exact (stays_waited _ _ _ Hh H)|].
  right; right. exists psName. split; [exact (stays_assigned _ _ _ Hh H1)|].
  destruct H2 as [H2|H2]; [left; exact (stays_read _ _ _ Hh H2)|right; exact (stays_waited _ _ _ Hh H2)].
Qed.

(** One poll that decided nothing: the time is over, or it sleeps and polls again. *)
Lemma wpg_again {S R A} (late : A) (next : fn wresp S A) deadline h (s : S) (Qr : whistory -> S -> R -> Prop) Q :
  (forall h', continues h h' -> (ticks start h' -> deadline < time_of start h') -> Q h' s late) ->
  (forall h', continues h h' -> (ticks start h' -> time_of start h + pollInterval <= time_of start h' <= deadline + pollInterval) -> wpf M next h' s Q) ->
  wpg M (let* now := gcall WNow in if After now deadline then gret late else do* gcall (WSleep pollInterval) in ginvoke next) h s Qr Q.
Proof.
  intros Hlate Hnext. gstep. apply (wpg_call M WNow); [exact I|]. intros now _. gstep.
  { gstep. apply Hlate; [auto with history|]. simpl. unfold After in *. bool_props. lia. }
  gstep. apply (wpg_call M (WSleep _)); [exact I|]. intros u _. apply wpg_invoke, Hnext; [auto with history|].
  simpl. unfold After, pollInterval, Millisecond in *. bool_props. lia.
Qed.

Lemma wpg_readAnnotations {S R} h (s : S) (Qr : whistory -> S -> R -> Prop) Q :
  (forall h' anns, continues h h' -> time_of start h' = time_of start h -> (ticks start h' -> ticks start h) ->
     (forall P : gmap string string -> Prop, P anns -> anns = ∅ \/ read_of h' P) -> Q h' s anns) ->
  wpg M (readAnnotationsFile file) h s Qr Q.
Proof.
  intros HQ. unfold readAnnotationsFile. gstep. apply (wpg_call M (WReadFile _)); [done|]. intros x _. gstep.
  apply HQ; [auto with history|simpl; lia|by intros []|]. intros P HP. destruct x as [err|b]; [by left|]. right. exists b. split; [apply seen_now|done].
Qed.

(** Polls run out of fuel only if they fit before the deadline. *)
Definition starved (fuel : nat) (h h' : whistory) (deadline : Z) : Prop :=
  ticks start h' -> fuel = 0%nat \/ (Z.of_nat fuel - 1) * pollInterval <= deadline - time_of start h.

Lemma wpf_awaitAssignment {S} fuel deadline h (s : S) :
  wpf M (awaitAssignment fuel file deadline pollInterval) h s (fun h' s' r => s' = s /\ continues h h' /\
    match r with
    | Some (inr psName) => assigned h' psName
    | Some (inl (o, _)) => o = outcomeColdStart /\ (told_cold h' \/ (ticks start h' -> deadline < time_of start h'))
    | None => starved fuel h h' deadline
    end).
Proof.
  revert h. induction fuel as [|fuel IH]; intros h; simpl; gstep; [gstep; split_and!; [done|auto with history|]; intros _; by left|].
  gstep. apply wpg_readAnnotations. intros h1 anns H1 Ht1 Htk Hr. destruct (anns !! annPSName) as [v|] eqn:Hv.
  - specialize (Hr (fun anns => anns !! annPSName = Some v) Hv). destruct Hr as [->|Hr]; [done|]. gstep; bool_props; gstep; split_and!; try done.
    left. by subst v.
  - apply wpg_again.
    + intros h2 H2 Hd. split_and!; [done|by eapply continues_trans|done|by right].
    + intros h2 H2 Ht2. eapply wpf_conseq; [apply IH|]. intros h3 s3 r (-> & H3 & Hres).
      split; [done|]. split; [by do 2 (eapply continues_trans; [|done])|]. destruct r as [[[o reason]|psName]|]; [done..|].
      intros Ht3. destruct (ticks_continues start _ _ H3 Ht3) as [Htk2 _]. specialize (Ht2 Htk2). right. destruct (Hres Ht3) as [->|Hle]; unfold pollInterval in *; lia.
Qed.

Lemma wpf_awaitVerdict {S} fuel psName deadline h (s : S) :
  wpf M (awaitVerdict fuel file psName defaultRestoreWait deadline pollInterval) h s (fun h' s' r => s' = s /\ continues h h' /\
    match r with
    | Some (outcomeHold, _) => restored h'
    | Some (outcomeColdStart, _) => restore_failed h' \/ (ticks start h' -> deadline < time_of start h')
    | None => starved fuel h h' deadline
    end).
Proof.
  revert h. induction fuel as [|fuel IH]; intros h; simpl; gstep; [gstep; split_and!; [done|auto with history|]; intros _; by left|].
  gstep. apply wpg_readAnnotations. intros h1 anns H1 Ht1 Htk Hr.
  assert (forall v, v <> "" -> (sget anns annRestoreStatus ==s v) = true -> read_of h1 (fun anns => anns !! annRestoreStatus = Some v)) as Hread.
  { intros v Hv He. bool_props. unfold sget in He. destruct (anns !! annRestoreStatus) as [w|] eqn:Hw; simpl in He; [|by destruct Hv]. subst w.
    destruct (Hr (fun anns => anns !! annRestoreStatus = Some v) Hw) as [->|?]; done. }
  gstep; [gstep; split_and!; [done..|]; by apply Hread|]. gstep; [gstep; split_and!; [done..|]; left; by apply Hread|].
  apply wpg_again.
  - intros h2 H2 Hd. split_and!; [done|by eapply continues_trans|by right].
  - intros h2 H2 Ht2. eapply wpf_conseq; [apply IH|]. intros h3 s3 r (-> & H3 & Hres).
    split; [done|]. split; [by do 2 (eapply continues_trans; [|done])|]. destruct r as [[[|] reason]|]; [done..|].
    intros Ht3. destruct (ticks_continues start _ _ H3 Ht3) as [Htk2 _]. specialize (Ht2 Htk2). right. destruct (Hres Ht3) as [->|Hle]; unfold pollInterval in *; lia.
Qed.

(** The polls of 90 seconds, and one more. *)
Definition wrap_polls : nat := 902.

Lemma wpf_decideAction {S} fuel (s : S) :
  wpf M (decideAction fuel file defaultAssignWait defaultRestoreWait pollInterval) [] s (fun h' s' r =>
    match r with
    | Some (outcomeHold, _) => restored h' /\ exists psName, assigned h' psName
    | Some (outcomeColdStart, _) => cold_due h'
    | None => (wrap_polls <= fuel)%nat -> ticks start h' -> False
    end).
Proof.
  unfold decideAction. gstep. gstep. apply (wpg_call M WNow); [exact I|]. intros now _.
  gstep. apply wpg_invoke. eapply wpf_conseq; [apply wpf_awaitAssignment|]. intros h1 s1 r (-> & H1 & Hr).
  assert (forall h', continues h1 h' -> ticks start h' -> start <= now /\ ticks start h1) as Hnow.
  { intros h' Hh Ht. destruct (ticks_continues start _ _ Hh Ht) as [Ht1 _]. split; [|done]. by destruct (ticks_continues start _ _ H1 Ht1) as [[_ ?] _]. }
  destruct r as [[[o reason]|psName]|].
  - gstep. destruct Hr as [-> [Hr|Hr]]; [by left|]. right; left. intros Ht. destruct (Hnow h1 (continues_refl _) Ht). specialize (Hr Ht). lia.
  - gstep. apply (wpg_call M WNow); [exact I|]. intros now2 _. apply wpg_invoke. eapply wpf_conseq; [apply wpf_awaitVerdict|].
    intros h2 s2 r (-> & H2 & Hv).
    assert (continues h1 h2) as H12 by (eapply continues_trans; [|exact H2]; auto with history).
    pose proof (stays_assigned _ _ _ H12 Hr) as Ha. destruct r as [[[|] reason]|].
    + right; right. exists psName. split; [done|]. destruct Hv as [Hv|Hv]; [by left|right]. intros Ht. specialize (Hv Ht).
      destruct (Hnow _ H12 Ht). destruct (ticks_continues start _ _ H2 Ht) as [[Ht1 Hle] _].
      destruct (ticks_continues start _ _ H1 Ht1) as [_ Hle1]. simpl in *. lia.
    + split; [done|]. by exists psName.
    + intros Hf Ht. destruct (Hv Ht) as [->|Hle]; [unfold wrap_polls in Hf; lia|]. simpl in Hle.
      unfold wrap_polls, pollInterval, defaultRestoreWait, Second, Millisecond in *. lia.
  - gstep. intros Hf Ht. destruct (Hr Ht) as [->|Hle]; [unfold wrap_polls in Hf; lia|]. simpl in Hle.
    unfold wrap_polls, pollInterval, defaultAssignWait, Second, Millisecond in *. lia.
Qed.

(** How a wrapped container may end. *)
Definition wrapped_end (h : whistory) (r : option ProcessEnd) : Prop :=
  match r with
  | Some Returned => restored h /\ exists psName, assigned h psName
  | Some (Became bin argv) => argv = orig /\ seen h (WLookPath (hd "" orig)) (inr bin) /\ cold_due h
  | Some (ExitStatus code) => cold_due h /\
      ((code = 127 /\ exists err, seen h (WLookPath (hd "" orig)) (inl err)) \/ (code = 126 /\ exists bin env err, seen h (WExec bin orig env) (Some err)))
  | None => True
  end.

Lemma wpf_runWrap {S} fuel (s : S) : orig <> [] ->
  wpf M (runWrap fuel (file :: "--" :: orig)) [] s (fun h' s' r => wrapped_end h' r /\ ((wrap_polls <= fuel)%nat -> ticks start h' -> r <> None)).
Proof.
  intros Ho. destruct orig as [|cmd args] eqn:Horig; [done|]. rewrite <- Horig in *. unfold runWrap. gstep. rewrite Horig.
  change ("--" !=s "--") with false. cbv iota. rewrite <- Horig. gstep. apply wpg_invoke. eapply wpf_conseq; [apply wpf_decideAction|].
  intros h1 s1 r Hr. destruct r as [[o reason]|]; [|gstep; split; [done|]; intros Hf Ht; by destruct (Hr Hf Ht)].
  assert (cmd = hd "" orig) as Hcmd by (by rewrite Horig). clear Horig. subst cmd.
  gstep. apply (wpg_call M (WStderr _)); [exact I|]. intros u _. destruct o; simpl bool_decide; cbv iota.
  - gstep. assert (cold_due (existT (WStderr ("holder wrap: " +s reason)) u :: h1)) as Hc
      by exact (stays_cold _ _ (continues_cons _ _ _ (continues_refl _)) Hr).
    set (h2 := existT (WStderr _) u :: h1) in *. clearbody h2. apply (wpg_call M (WLookPath _)); [by split|]. intros [err|bin] _.
    { gstep. apply (wpg_call M (WStderr _)); [exact I|]. intros v _. gstep. split; [|done]. simpl.
      split; [by eapply stays_cold; [|exact Hc]; auto with history|]. left. split; [done|]. exists err. right. apply seen_now. }
    gstep. apply (wpg_call M WEnviron); [exact I|]. intros env _. gstep.
    apply (wpg_call M (WExec _ _ _)); [split_and!; [done|right; apply seen_now|apply seen_now|by eapply stays_cold; [|exact Hc]; auto with history]|].
    intros [err|] _.
    + gstep. apply (wpg_call M (WStderr _)); [exact I|]. intros v _. gstep. split; [|done]. simpl.
      split; [by eapply stays_cold; [|exact Hc]; auto with history|]. right. split; [done|]. exists bin, env, err. right. apply seen_now.
    + gstep. split; [|done]. simpl. split_and!; [done|right; right; apply seen_now|by eapply stays_cold; [|exact Hc]; auto with history].
  - gstep. destruct Hr as [Hr (psName & Ha)].
    assert (forall h', continues h1 h' -> restored h' /\ exists psName, assigned h' psName) as Hs.
    { intros h' Hh. split; [exact (stays_read _ _ _ Hh Hr)|]. exists psName. exact (stays_assigned _ _ _ Hh Ha). }
    apply (wpg_call M WAwaitSignal); [apply Hs; auto with history|]. intros v _. gstep. split; [|done]. apply Hs. auto with history.
Qed.
End Wrap.

(** ** The injected pod *)

(** What [InjectHolder] makes of the container's command. *)
Lemma InjectHolder_command pod image pod' reason app app' :
  InjectHolder pod image = (pod', (true, reason)) -> wp_containers pod = [app] -> wp_containers pod' = [app'] ->
  (wc_command app' ++ wc_args app')%list = "/pmhold/holder" :: "wrap" :: "/pminfo/annotations" :: "--" :: (wc_command app ++ wc_args app)%list /\
  (wc_command app ++ wc_args app)%list <> [].
Proof.
  unfold InjectHolder. intros Hi Ha Ha'. rewrite Ha in Hi. do 2 (destruct (_ : bool); [done|]).
  destruct (wc_command app) as [|cmd rest] eqn:Hc; [done|]. injection Hi as <- <-. simpl in Ha'. injection Ha' as <-. simpl. rewrite Hc, app_nil_r. done.
Qed.

Lemma wpf_holder_main {S} file orig start fuel (s : S) : orig <> [] ->
  wpf (open (wrap_allows file orig start)) (holder_main fuel ("/pmhold/holder" :: "wrap" :: file :: "--" :: orig)) [] s
    (fun h' s' r => wrapped_end file orig start h' r /\ ((wrap_polls <= fuel)%nat -> ticks start h' -> r <> None)).
Proof. intros Ho. unfold holder_main. gstep. apply wpg_invoke. by apply wpf_runWrap. Qed.


(** C39: The wrapper always decides.  On a clock that never goes back and runs while
    the process sleeps, 902 polls of 100 ms are enough for both of its loops (2 s and
    90 s): a container never waits forever for a restore that does not come. *)
Theorem wrap_decides {S} file orig fuel start (s : S) t s' r :
  orig <> [] -> exec (runWrap fuel (file :: "--" :: orig) s) t (s', r) -> ticks start (rev t) -> (wrap_polls <= fuel)%nat ->
  exists how, r = Some how.
Proof.
  intros Ho Hx Ht Hf. destruct (wpf_exec _ _ _ _ _ _ _ (wpf_runWrap file orig start fuel s Ho) Hx (fair_open _ _)) as [_ [_ Hr]].
  destruct r as [how|]; [by exists how|]. by destruct Hr.
Qed.

(** ** The annotations file *)

(** What the kubelet writes: one [key=] and quoted value per line. *)
Definition annotation_text (kv : string * string) : string := fst kv +s "=" +s Quote (snd kv).
Fixpoint FormatMap (l : list (string * string)) : string :=
  match l with [] => "" | kv :: l => annotation_text kv +s String line_feed (FormatMap l) end.

Definition plain_annotation (kv : string * string) : bool :=
  no_space (fst kv) && no_char "="%char (fst kv) && no_char line_feed (fst kv) && all_chars printable (snd kv).

Lemma trim_right_ends s : trim_right (s +s dquote) = s +s dquote.
Proof. induction s as [|c s IH]; [done|]. simpl. fold (s +s dquote). rewrite IH. by destruct s. Qed.

Lemma no_feed_quoted s : all_chars printable s = true -> no_char line_feed (Quote s) = true.
Proof.
  intros Hs. unfold Quote, no_char. rewrite !all_chars_app. change (all_chars _ dquote) with true. rewrite andb_true_r. simpl.
  induction s as [|c s IH]; [done|]. cbn [all_chars quote_body] in *. bool_props.
  assert (negb (Ascii.eqb c line_feed) = true) as Hc.
  { rewrite eqb_byte. apply negb_true_iff, Z.eqb_neq. unfold printable in *. bool_props. change (byte line_feed) with 10. lia. }
  specialize (IH ltac:(done)). destruct (_ || _)%bool; cbn [all_chars]; rewrite Hc; simpl; exact IH.
Qed.

Lemma no_feed_text kv : plain_annotation kv = true -> no_char line_feed (annotation_text kv) = true.
Proof.
  unfold plain_annotation, annotation_text. intros H. bool_props. unfold no_char. rewrite all_chars_app. fold (no_char line_feed (fst kv)).
  match goal with H : no_char line_feed _ = true |- _ => rewrite H end. by apply no_feed_quoted.
Qed.

Lemma annotationLine_text kv : plain_annotation kv = true -> annotationLine (annotation_text kv) = Some kv.
Proof.
  unfold plain_annotation, annotationLine. intros H. bool_props. destruct kv as [k v]. simpl in *.
  assert (TrimSpace (annotation_text (k, v)) = annotation_text (k, v)) as ->.
  { unfold annotation_text, Quote, TrimSpace. simpl fst. simpl snd.
    replace (trim_left _) with (k +s "=" +s dquote +s quote_body v +s dquote).
    - rewrite <- !sapp_assoc. apply trim_right_ends.
    - destruct k as [|c k]; [done|]. simpl. unfold no_space in *. cbn [all_chars] in *. bool_props. by destruct (is_space c). }
  change (annotation_text (k, v)) with (k +s String "="%char (Quote v)). rewrite Cut_app by done.
  replace (k +s String "="%char (Quote v) ==s "") with false by (by destruct k). simpl negb. cbv iota. by rewrite Unquote_Quote.
Qed.

Lemma Split_FormatMap l : forallb plain_annotation l = true -> Split (FormatMap l) line_feed = (map annotation_text l ++ [""])%list.
Proof.
  induction l as [|kv l IH]; [done|]. cbn [forallb FormatMap map]. intros H. bool_props. rewrite Split_app by (by apply no_feed_text). by rewrite IH.
Qed.

(** The annotations file reads back as the kubelet wrote it.  One line of key and
    quoted value each, the parser of the holder recovers exactly the annotations: no
    value that holds quotes, backslashes, spaces or [=] can be taken for another, so
    that a verdict the holder reads is the annotation of its pod. *)
Theorem annotations_roundtrip l :
  NoDup (map fst l) -> forallb plain_annotation l = true -> parseAnnotations (FormatMap l) = list_to_map l.
Proof.
  intros Hn Hl. unfold parseAnnotations. rewrite Split_FormatMap, fold_left_app by done. simpl.
  enough (forall acc : gmap string string,
    fold_left (fun out line => match annotationLine line with Some (k, v) => <[k := v]> out | None => out end) (map annotation_text l) acc =
    list_to_map l ∪ acc) as -> by (by rewrite map_union_empty).
  clear -Hn Hl. induction l as [|[k v] l IH]; intros acc; [simpl; by rewrite map_empty_union|].
  cbn [map fold_left forallb] in *. bool_props. apply NoDup_cons in Hn as [Hk Hn]. rewrite annotationLine_text by done. rewrite IH by done.
  simpl list_to_map. rewrite <- insert_union_l. symmetry. apply insert_union_r. by apply not_elem_of_list_to_map_1.
Qed.

(** ** The theorems apply *)

(** A file that names a snapshot and says that its restore failed. *)
Definition failed_file : string := FormatMap [("podsnapshot.gke.io/ps-name", "ps-web-0"); ("pod-migrate.io/psengine-restore", "failed")].

Definition holder_answer (content : string) (now : Z) (e : WEv) : wresp e :=
  match e return wresp e with
  | WReadFile _ => inr content
  | WLookPath name => inr ("/bin/" +s name)
  | WNow => now
  | WEnviron => ["PATH=/bin"]
  | WExec _ _ _ | WOpenSelf | WCreate _ _ | WCopySelf _ | WCloseFile _ => None
  | WSleep _ | WAwaitSignal | WStderr _ | WCloseSelf => tt
  end.
Definition holder_run {S A} (content : string) (p : prog wresp (S * A)) : Z * trace * (S * A) :=
  run (fun now e => (now + slept e, holder_answer content now e)) 0 p.

Lemma holder_exec {A} content (p : prog wresp (unit * A)) : exec p (snd (fst (holder_run content p))) (tt, snd (snd (holder_run content p))).
Proof.
  pose proof (run_exec (fun now e => (now + slept e, holder_answer content now e)) 0 p) as Hx. unfold holder_run.
  by destruct (snd (run _ 0 p)) as [[] a].
Qed.

Definition plain_pod : WPod :=
  mkWPod [SchedulingGate] {[ AnnotationAssigned := "pmj-web" ]} [mkWContainer "app" "web:1" ["serve"] ["--port"; "80"] []] [] [].
Abbreviation injected_run := (holder_run failed_file (holder_main wrap_polls ["/pmhold/holder"; "wrap"; "/pminfo/annotations"; "--"; "serve"; "--port"; "80"] tt)).


(** A file that stays empty: nothing is assigned within the wait. *)
Abbreviation unassigned_run := (holder_run "" (runWrap wrap_polls ["/pminfo/annotations"; "--"; "serve"] tt)).

Lemma wrap_decides_witness : exists how, snd (snd unassigned_run) = Some how.
Proof.
  refine (wrap_decides "/pminfo/annotations" ["serve"] wrap_polls 0 tt (snd (fst unassigned_run)) tt _ _ _ _ _); [done| | |unfold wrap_polls; lia].
  - apply holder_exec.
  - vm_compute. repeat split; discriminate.
Defined.

Lemma annotations_roundtrip_witness : parseAnnotations failed_file !! annRestoreStatus = Some "failed".
Proof.
  unfold failed_file. rewrite annotations_roundtrip; [done| |reflexivity].
  repeat constructor; rewrite ?list_elem_of_cons; set_solver.
Defined.
