(* ===== verification/Continuity.v ===== *)
(** * The write-continuity check (src/tools/pmprofiler/internal/continuity)

    [Analyze] reads the samples of a probe that writes growing sequence numbers
    through a migration, and flags lost writes, empty sources and rollbacks;
    [probeOneStep] takes a sample and [RunLiveProbe] the loop around it, as programs
    over the calls of the process.  Decoding a trace is an input. *)
From Stdlib Require Import Ascii.
From S2P Require Import Prelude Effects GoLib Unquote Json Gcs.

(** ** Samples and results *)

Record Sample := mkSample {
  sa_ts : string; sa_op : string; sa_pod : string; sa_instanceID : string; sa_ackedSeq : Z; sa_observedMaxSeq : Z;
  sa_missingSeqs : list Z; sa_phase : string; sa_error : string }.

Record Result := mkResult {
  re_group : string; re_totalSamples : Z; re_successfulSamples : Z; re_ackedWrites : Z; re_maxAckedSeq : Z; re_finalObservedMaxSeq : Z;
  re_distinctInstances : list string; re_lostAckedWrites : list Z; re_emptySourceReads : Z; re_sequenceRollbacks : Z;
  re_doubleRestoreCount : Z; re_violations : list string; re_pass : bool; re_detail : string }.

(** The JSON of a sample, as it is read and as it is appended to the trace. *)
Definition sample_fields : list (string * Decode Sample) := [
  ("ts", fun v '(mkSample t o p i a m q h e) => t ← into_string v t; Some (mkSample t o p i a m q h e));
  ("op", fun v '(mkSample t o p i a m q h e) => o ← into_string v o; Some (mkSample t o p i a m q h e));
  ("pod", fun v '(mkSample t o p i a m q h e) => p ← into_string v p; Some (mkSample t o p i a m q h e));
  ("instanceId", fun v '(mkSample t o p i a m q h e) => i ← into_string v i; Some (mkSample t o p i a m q h e));
  ("ackedSeq", fun v '(mkSample t o p i a m q h e) => a ← into_int64 v a; Some (mkSample t o p i a m q h e));
  ("observedMaxSeq", fun v '(mkSample t o p i a m q h e) => m ← into_int64 v m; Some (mkSample t o p i a m q h e));
  ("missingSeqs", fun v '(mkSample t o p i a m q h e) => s ← into_slice 0 into_int64 v (mkSlice q (length q)); Some (mkSample t o p i a m (slice_contents s) h e));
  ("phase", fun v '(mkSample t o p i a m q h e) => h ← into_string v h; Some (mkSample t o p i a m q h e));
  ("error", fun v '(mkSample t o p i a m q h e) => e ← into_string v e; Some (mkSample t o p i a m q h e))].
Definition no_sample : Sample := mkSample "" "" "" "" 0 0 [] "" "".

Definition unless_empty (key s : string) : list (string * Value) := if s ==s "" then [] else [(key, of_string s)].
Definition unless_zero (key : string) (n : Z) : list (string * Value) := if n =? 0 then [] else [(key, of_int n)].
Definition sample_value (s : Sample) : Value := VObject
  ([("ts", of_string (sa_ts s))] ++ unless_empty "op" (sa_op s) ++ unless_empty "pod" (sa_pod s) ++ unless_empty "instanceId" (sa_instanceID s) ++
   unless_zero "ackedSeq" (sa_ackedSeq s) ++ [("observedMaxSeq", of_int (sa_observedMaxSeq s))] ++
   (match sa_missingSeqs s with [] => [] | l => [("missingSeqs", VArray (map of_int l))] end) ++
   unless_empty "phase" (sa_phase s) ++ unless_empty "error" (sa_error s)).
Definition sample_line (s : Sample) : string := compact_json (sample_value s) +s String line_feed "".

(** [LoadSamples] on the lines of the trace: [None] is its error. *)
Fixpoint LoadSamples (lines : list string) : option (list Sample) :=
  match lines with
  | [] => Some []
  | line :: lines =>
      let line := TrimSpace line in
      if line ==s "" then LoadSamples lines
      else s ← unmarshal (into_struct sample_fields) no_sample line; rest ← LoadSamples lines; Some (s :: rest)
  end.

(** ** The analysis *)

(** What the loop has seen: the phases; the instances in the order they appeared,
    the last one and how often it changed; the highest sequences, over all and
    before and after the restore; the acknowledged writes; what was flagged. *)
Record Phases := mkPhases { ph_pre : bool; ph_post : bool; ph_migrating : Z }.
Record Instances := mkInstances { in_seen : list string; in_last : string; in_transitions : Z }.
Record Marks := mkMarks { mk_high : Z; mk_preHigh : Z; mk_baseline : Z; mk_postHigh : Z; mk_advanced : bool }.
Record Acks := mkAcks { ac_set : gset Z; ac_count : Z; ac_max : Z }.
Record Flags := mkFlags { fl_empty : Z; fl_rollbacks : Z; fl_doubles : Z; fl_violations : list string }.
Record Loop := mkLoop {
  lo_phases : Phases; lo_success : Z; lo_instances : Instances; lo_marks : Marks; lo_acks : Acks; lo_flags : Flags; lo_last : option Sample }.

Definition loop_start : Loop :=
  mkLoop (mkPhases false false 0) 0 (mkInstances [] "" 0) (mkMarks 0 0 0 0 false) (mkAcks ∅ 0 0) (mkFlags 0 0 0 []) None.

Definition see_phase (s : Sample) (p : Phases) : Phases :=
  if sa_phase s ==s "pre-checkpoint" then mkPhases true (ph_post p) (ph_migrating p)
  else if sa_phase s ==s "migrating" then mkPhases (ph_pre p) (ph_post p) (ph_migrating p + 1)
  else if sa_phase s ==s "post-restore" then mkPhases (ph_pre p) true (ph_migrating p)
  else p.

Definition see_instance (s : Sample) (i : Instances) : Instances :=
  let id := sa_instanceID s in
  if id ==s "" then i
  else
    mkInstances (if existsb (String.eqb id) (in_seen i) then in_seen i else in_seen i ++ [id]) id
      (in_transitions i + (if (in_last i !=s "") && (id !=s in_last i) then 1 else 0)).

Definition is_post (s : Sample) : bool := sa_phase s ==s "post-restore".
Definition sample_max (s : Sample) : Z := Z.max (sa_observedMaxSeq s) (sa_ackedSeq s).

Definition where_ (s : Sample) : string := " at " +s sa_ts s +s " (pod=" +s sa_pod s +s ", instanceId=" +s sa_instanceID s +s "): ".
Definition regressed (s : Sample) (from : Z) : string := "observedMaxSeq regressed " +s pretty from +s " -> " +s pretty (sa_observedMaxSeq s).

Definition flag_empty (s : Sample) (acked : Z) (f : Flags) : Flags :=
  mkFlags (fl_empty f + 1) (fl_rollbacks f) (fl_doubles f)
    (fl_violations f ++ ["empty-source serving" +s where_ s +s "observedMaxSeq=0 after seq=" +s pretty acked +s " was already acknowledged"]).
Definition flag_rollback (double : bool) (text : string) (f : Flags) : Flags :=
  mkFlags (fl_empty f) (fl_rollbacks f + 1) (fl_doubles f + (if double then 1 else 0)) (fl_violations f ++ [text]).

(** What the sample itself violates, before it counts. *)
Definition check_sample (s : Sample) (transitions : Z) (m : Marks) (a : Acks) (f : Flags) : Flags :=
  let obs := sa_observedMaxSeq s in
  if ((0 <? ac_max a) || (0 <? mk_high m)) && (obs =? 0) then flag_empty s (Z.max (ac_max a) (mk_high m)) f
  else if 0 <? obs then
    if is_post s then
      if (0 <? mk_postHigh m) && (obs <? mk_postHigh m) then
        if mk_advanced m || (2 <=? transitions) then
          flag_rollback true ("double-restore sequence rollback" +s where_ s +s regressed s (mk_postHigh m)) f
        else flag_rollback false ("sequence rollback" +s where_ s +s regressed s (mk_postHigh m)) f
      else if (mk_postHigh m =? 0) && (2 <=? transitions) && (obs <? mk_high m) then
        flag_rollback true ("double-restore sequence rollback" +s where_ s +s regressed s (mk_high m) +s " across " +s pretty transitions +s " instance transitions") f
      else f
    else if obs <? mk_high m then
      if 2 <=? transitions then flag_rollback true ("double-restore sequence rollback" +s where_ s +s regressed s (mk_high m)) f
      else flag_rollback false ("sequence rollback" +s where_ s +s regressed s (mk_high m)) f
    else f
  else f.

Definition see_marks (s : Sample) (m : Marks) : Marks :=
  let top := sample_max s in
  let m :=
    if is_post s then
      let '(baseline, advanced) :=
        if (mk_baseline m =? 0) && (0 <? top) then
          (top, mk_advanced m || ((0 <? mk_preHigh m) && (mk_preHigh m <? top)))
        else (mk_baseline m, mk_advanced m || ((0 <? mk_baseline m) && (mk_baseline m <? top))) in
      mkMarks (mk_high m) (mk_preHigh m) baseline (Z.max (mk_postHigh m) top) advanced
    else mkMarks (mk_high m) (Z.max (mk_preHigh m) top) (mk_baseline m) (mk_postHigh m) (mk_advanced m) in
  let high := Z.max (mk_high m) (sa_observedMaxSeq s) in
  mkMarks (if 0 <? sa_ackedSeq s then Z.max high (sa_ackedSeq s) else high) (mk_preHigh m) (mk_baseline m) (mk_postHigh m) (mk_advanced m).

Definition see_ack (s : Sample) (a : Acks) : Acks :=
  let seq := sa_ackedSeq s in
  if 0 <? seq then
    mkAcks ({[ seq ]} ∪ ac_set a) (if bool_decide (seq ∈ ac_set a) then ac_count a else ac_count a + 1) (Z.max (ac_max a) seq)
  else a.

(** One sample. *)
Definition analyze_step (l : Loop) (s : Sample) : Loop :=
  let phases := see_phase s (lo_phases l) in
  if sa_error s !=s "" then mkLoop phases (lo_success l) (lo_instances l) (lo_marks l) (lo_acks l) (lo_flags l) (lo_last l)
  else
    let instances := see_instance s (lo_instances l) in
    mkLoop phases (lo_success l + 1) instances (see_marks s (lo_marks l)) (see_ack s (lo_acks l))
      (check_sample s (in_transitions instances) (lo_marks l) (lo_acks l) (lo_flags l)) (Some s).

Definition bracketed (l : list string) : string := "[" +s Join l " " +s "]".

(** The acknowledged writes that the last good sample does not have, in order. *)
Definition lost_writes (a : Acks) (last : Sample) : list Z :=
  SliceStable Z.ltb (elements (
    filter (fun seq => sa_observedMaxSeq last < seq) (ac_set a) ∪
    filter (fun m => m ∈ ac_set a \/ m <= ac_max a) (list_to_set (sa_missingSeqs last) : gset Z))).

Definition gap_violation (p : Phases) : list string :=
  if ph_pre p && ph_post p && (ph_migrating p =? 0) then
    ["missing migrating-phase continuity samples: pre-checkpoint and post-restore phases present but 0 migrating samples recorded"]
  else [].

Definition lost_violation (a : Acks) (last : Sample) : list string :=
  match lost_writes a last with
  | [] => []
  | lost => ["lost acknowledged writes: " +s pretty (length lost) +s " acked write(s) missing after restore (maxAckedSeq=" +s pretty (ac_max a) +s
             ", finalObservedMaxSeq=" +s pretty (sa_observedMaxSeq last) +s ", missing=" +s bracketed (map pretty lost) +s ")"]
  end.

Definition Analyze (group : string) (samples : list Sample) : Result :=
  let total := Z.of_nat (length samples) in
  match samples with
  | [] => mkResult group total 0 0 0 0 [] [] 0 0 0 ["no continuity samples recorded"] false "no continuity samples recorded"
  | _ =>
      let l := fold_left analyze_step samples loop_start in
      let i := lo_instances l in let a := lo_acks l in let f := lo_flags l in
      match lo_last l with
      | None =>
          let violations := fl_violations f ++ ["0 successful continuity samples recorded"] in
          mkResult group total (lo_success l) (ac_count a) (ac_max a) 0 (in_seen i) [] (fl_empty f) (fl_rollbacks f) (fl_doubles f)
            violations false (Join violations "; ")
      | Some last =>
          let violations := fl_violations f ++ gap_violation (lo_phases l) ++ lost_violation a last in
          let pass := match violations with [] => true | _ => false end in
          mkResult group total (lo_success l) (ac_count a) (ac_max a) (sa_observedMaxSeq last) (in_seen i) (lost_writes a last)
            (fl_empty f) (fl_rollbacks f) (fl_doubles f) violations pass
            (if pass then "ackedWrites=" +s pretty (ac_count a) +s " (1.." +s pretty (ac_max a) +s "), finalObservedMaxSeq=" +s
               pretty (sa_observedMaxSeq last) +s ", instances=" +s bracketed (in_seen i) +s ", lostAcked=0, emptySource=0, rollbacks=0"
             else Join violations "; ")
      end
  end.

(** The record of a run's checks (internal/analyze): whole numbers stand for their float64. *)
Record Check := mkCheck {
  ck_ts : string; ck_name : string; ck_group : string; ck_pass : bool; ck_detail : string; ck_value : Z; ck_total : Z; ck_unit : string }.

Definition ToCheck (now : Z) (r : Result) (customName : string) : Check :=
  let name := if customName ==s "" then "write continuity (no lost acks, empty-source, or rollback)" else customName in
  let value := if re_pass r then re_ackedWrites r - Z.of_nat (length (re_lostAckedWrites r)) else 0 in
  let none := re_ackedWrites r <=? 0 in
  mkCheck (FormatRFC3339 now) name (re_group r) (re_pass r) (re_detail r)
    (if none && re_pass r then 1 else value) (if none then 1 else re_ackedWrites r) "".

(** ** The probe *)

(** How a process ended: its error, if it failed, and what it printed. *)
Record RunEnd := mkRunEnd { rn_err : option string; rn_stdout : string; rn_stderr : string }.

Inductive KEv :=
| KNow
(** A command with its arguments, killed after five seconds or with the context. *)
| KRun (bin : string) (args : list string)
(** The directory of a path and its parents are made. *)
| KMkdirDirOf (path : string)
(** The lines of a file; [None]: it could not be opened or read. *)
| KReadLines (path : string)
| KOpenAppend (path : string)
| KAppend (line : string)
(** Whether the context is done; waiting ends early when it is. *)
| KDone
| KWait (d : Z).

Definition kresp (e : KEv) : Type :=
  match e with
  | KNow => Z
  | KRun _ _ => RunEnd
  | KMkdirDirOf _ | KOpenAppend _ | KAppend _ => option string
  | KReadLines _ => option (list string)
  | KDone | KWait _ => bool
  end.

Definition kcall {S R} (e : KEv) : gom kresp S R (kresp e) := gcall e.

Definition execKubectl {S} (bin : string) (args : list string) : fn kresp S (string + string) := gfun (
  let* r := kcall (KRun bin args) in
  match rn_err r with
  | Some err => gret (inl (err +s " (" +s TrimSpace (rn_stderr r) +s ")"))
  | None => gret (inr (rn_stdout r))
  end).

Record LiveProbeOptions := mkProbe {
  lp_kubectlBin : string; lp_namespace : string; lp_workload : string; lp_podSelector : string; lp_podName : string; lp_outPath : string;
  lp_interval : Z; lp_steps : Z; lp_phase : string; lp_startSeq : Z }.

(** A line of a script; a backquote stands for a double quote. *)
Fixpoint sh (s : string) : string :=
  match s with
  | EmptyString => String line_feed ""
  | String c s => String (if Ascii.eqb c "`" then double_quote else c) (sh s)
  end.

Definition counter_script (n : string) : string :=
  String line_feed "" +s
  sh "if [ ! -f /tmp/counter.state ]; then" +s
  sh "  echo `EMPTY|0|0`" +s
  sh "  exit 0" +s
  sh "fi" +s
  sh "STATE=$(cat /tmp/counter.state | tr -d '[:space:]')" +s
  sh "INST=${STATE%%|*}" +s
  sh "PREV=0" +s
  sh "if [ -f /tmp/continuity.seq ]; then" +s
  sh "  PREV=$(cat /tmp/continuity.seq | tr -d '[:space:]')" +s
  sh "fi" +s
  sh ("echo `" +s n +s "` > /tmp/continuity.seq.tmp && mv /tmp/continuity.seq.tmp /tmp/continuity.seq") +s
  sh ("echo `${INST}|${PREV}|" +s n +s "`").

Definition redis_script (n : string) : string :=
  String line_feed "" +s
  sh "RUN_ID=$(redis-cli INFO server 2>/dev/null | grep '^run_id:' | cut -d: -f2 | tr -d '[:space:]')" +s
  sh "DBSZ=$(redis-cli DBSIZE 2>/dev/null | tr -dc '0-9')" +s
  sh "if [ `${DBSZ:-0}` -eq 0 ]; then" +s
  sh "  echo `${RUN_ID}|0|0`" +s
  sh "  exit 0" +s
  sh "fi" +s
  sh "PREV=$(redis-cli GET mig_continuity_seq 2>/dev/null | tr -dc '0-9')" +s
  sh "PREV=${PREV:-0}" +s
  sh ("redis-cli SET mig_continuity_seq " +s n +s " >/dev/null 2>&1 || exit 1") +s
  sh ("echo `${RUN_ID}|${PREV}|" +s n +s "`").

Definition psql (query : string) : string := "psql -U postgres -d postgres -tAc `" +s query +s "`".
Definition read_psql (query : string) : string := "$(" +s psql query +s " 2>/dev/null | tr -d '[:space:]')".
Definition max_seq : string := "SELECT COALESCE((SELECT MAX(seq) FROM mig_continuity_seq), 0);".

Definition postgres_script (n : string) : string :=
  String line_feed "" +s
  sh ("INST=" +s read_psql "SELECT COALESCE(CAST(EXTRACT(EPOCH FROM pg_postmaster_start_time()) AS BIGINT)::TEXT, 'pg');") +s
  sh "if [ -z `${INST}` ]; then" +s
  sh "  exit 1" +s
  sh "fi" +s
  sh ("HAS_CONT=" +s read_psql "SELECT CASE WHEN to_regclass('public.mig_continuity_seq') IS NULL THEN 0 ELSE 1 END;") +s
  sh "if [ `${HAS_CONT:-0}` -eq 0 ]; then" +s
  sh ("  HAS_SEED=" +s read_psql ("SELECT CASE WHEN to_regclass('public.mig_seq') IS NULL THEN 0 ELSE COALESCE((SELECT COUNT(" +s "*" +s ") FROM mig_seq), 0) END;")) +s
  sh ("  if [ `" +s n +s "` -gt 1 ] || [ `${HAS_SEED:-0}` -le 0 ]; then") +s
  sh "    echo `${INST}|0|0`" +s
  sh "    exit 0" +s
  sh "  fi" +s
  sh ("  " +s psql "CREATE TABLE IF NOT EXISTS mig_continuity_seq (seq BIGINT PRIMARY KEY, instance TEXT NOT NULL, ts TIMESTAMPTZ DEFAULT now());" +s
      " >/dev/null 2>&1 || exit 1") +s
  sh "fi" +s
  sh ("PREV=" +s read_psql max_seq) +s
  sh "PREV=${PREV:-0}" +s
  sh ("if [ `" +s n +s "` -gt 1 ] && [ `${PREV}` -le 0 ]; then") +s
  sh "  echo `${INST}|0|0`" +s
  sh "  exit 0" +s
  sh "fi" +s
  sh (psql ("INSERT INTO mig_continuity_seq (seq, instance) VALUES (" +s n +s ", '${INST}') ON CONFLICT (seq) DO NOTHING;") +s " >/dev/null 2>&1 || exit 1") +s
  sh ("POST=" +s read_psql max_seq) +s
  sh "echo `${INST}|${PREV}|${POST:-0}`".

(** The sample of an answer [instance|previous|last] of the script. *)
Definition answer_sample (now : string) (o : LiveProbeOptions) (pod : string) (nextSeq : Z) (out : string) : Sample :=
  let failed err := mkSample now "step" pod "" 0 0 [] (lp_phase o) err in
  let empty inst := mkSample now "step" pod inst 0 0 [] (lp_phase o) "" in
  match Split (TrimSpace out) "|" with
  | [inst; prev; last] =>
      let prev := ParseInt_value prev in
      let last := ParseInt_value last in
      if lp_workload o ==s "postgres" then
        if last =? 0 then empty inst
        else mkSample now "step" pod inst nextSeq (if (0 <? prev) && (i64 (prev + 1) <? nextSeq) then prev else last) [] (lp_phase o) ""
      else
        if (lp_workload o ==s "counter") && (inst ==s "EMPTY") then empty "empty"
        else if (lp_workload o ==s "redis") && (last =? 0) then empty inst
        else mkSample now "step" pod inst last (if (0 <? prev) && (i64 (prev + 1) <? last) then prev else last) [] (lp_phase o) ""
  | _ => failed ("malformed " +s lp_workload o +s " probe output")
  end.

Definition workload_script (o : LiveProbeOptions) (nextSeq : Z) : option string :=
  let n := pretty nextSeq in
  if lp_workload o ==s "counter" then Some (counter_script n)
  else if lp_workload o ==s "redis" then Some (redis_script n)
  else if lp_workload o ==s "postgres" then Some (postgres_script n)
  else None.

Definition probeOneStep {S} (o : LiveProbeOptions) (nextSeq : Z) : fn kresp S Sample := gfun (
  let* t := kcall KNow in
  let now := FormatRFC3339Nano t in
  let failed pod err := mkSample now "step" pod "" 0 0 [] (lp_phase o) err in
  let* pod :=
    (if (lp_podName o ==s "") && (lp_podSelector o !=s "") then
       let* out := ginvoke (execKubectl (lp_kubectlBin o) ["get"; "pods"; "-n"; lp_namespace o;
         "-l"; lp_podSelector o; "--field-selector=status.phase=Running"; "-o"; "jsonpath={.items[0].metadata.name}"]) in
       match out with
       | inl _ => greturn (failed "" "no active Running pod")
       | inr out => if TrimSpace out ==s "" then greturn (failed "" "no active Running pod") else gret (TrimSpace out)
       end
     else gret (lp_podName o)) in
  match workload_script o nextSeq with
  | None => gret (failed pod ("unsupported workload " +s lp_workload o))
  | Some script =>
      let* out := ginvoke (execKubectl (lp_kubectlBin o) ["exec"; "-n"; lp_namespace o; pod; "--"; "sh"; "-c"; script]) in
      match out with
      | inl err => gret (failed pod err)
      | inr out => gret (answer_sample now o pod nextSeq out)
      end
  end).

(** The probe loop: [None] when [fuel] steps were not enough. *)
Fixpoint probe_loop {S} (fuel : nat) (o : LiveProbeOptions) (stepCount nextSeq : Z) : fn kresp S (option unit) :=
  match fuel with
  | O => gfun (gret None)
  | S fuel => gfun (
      if (0 <? lp_steps o) && (lp_steps o <=? stepCount) then gret (Some tt)
      else
        let* done := kcall KDone in
        if done then gret (Some tt)
        else
          let stepCount := stepCount + 1 in
          let* s := ginvoke (probeOneStep o (i64 (nextSeq + 1))) in
          let nextSeq := if (sa_error s ==s "") && (nextSeq <? sa_ackedSeq s) then sa_ackedSeq s else nextSeq in
          let* _ := kcall (KAppend (sample_line s)) in
          if (0 <? lp_steps o) && (lp_steps o <=? stepCount) then gret (Some tt)
          else
            let* done := kcall (KWait (lp_interval o)) in
            if done then gret (Some tt) else ginvoke (probe_loop fuel o stepCount nextSeq))
  end.

Definition probe_defaults (o : LiveProbeOptions) : LiveProbeOptions :=
  mkProbe (if lp_kubectlBin o ==s "" then "kubectl" else lp_kubectlBin o) (if lp_namespace o ==s "" then "default" else lp_namespace o)
    (lp_workload o) (lp_podSelector o) (lp_podName o) (lp_outPath o)
    (if lp_interval o <=? 0 then 250 * Millisecond else lp_interval o) (lp_steps o) (lp_phase o) (lp_startSeq o).

(** The highest sequence of the samples, from [n] on. *)
Definition resume_seq (n : Z) (l : list Sample) : Z := fold_left (fun n s => Z.max (Z.max n (sa_ackedSeq s)) (sa_observedMaxSeq s)) l n.

Definition RunLiveProbe {S} (fuel : nat) (o : LiveProbeOptions) : fn kresp S (option (option string)) := gfun (
  let o := probe_defaults o in
  if lp_outPath o ==s "" then gret (Some (Some "--trace output path is required"))
  else
    let* err := kcall (KMkdirDirOf (lp_outPath o)) in
    match err with
    | Some err => gret (Some (Some err))
    | None =>
        let* nextSeq :=
          (if lp_startSeq o <=? 0 then
             let* lines := kcall (KReadLines (lp_outPath o)) in
             gret (match l ← lines; LoadSamples l with Some existing => resume_seq (lp_startSeq o) existing | None => lp_startSeq o end)
           else gret (lp_startSeq o)) in
        let* err := kcall (KOpenAppend (lp_outPath o)) in
        match err with
        | Some err => gret (Some (Some err))
        | None =>
            let* r := ginvoke (probe_loop fuel o 0 nextSeq) in
            gret (match r with Some _ => Some None | None => None end)
        end
    end).

(** A check, as a line of the run's [checks.ndjson]. *)
Definition check_value (c : Check) : Value := VObject
  ([("kind", of_string "check"); ("ts", of_string (ck_ts c)); ("name", of_string (ck_name c))] ++ unless_empty "group" (ck_group c) ++
   [("pass", VBool (ck_pass c))] ++ unless_empty "detail" (ck_detail c) ++ unless_zero "value" (ck_value c) ++ unless_zero "total" (ck_total c) ++ unless_empty "unit" (ck_unit c)).

(** [AppendCheckToRun]; [checks] is the path of the run's [checks.ndjson]. *)
Definition AppendCheckToRun {S} (checks : string) (c : Check) : fn kresp S (option string) := gfun (
  let* err := kcall (KOpenAppend checks) in
  match err with
  | Some err => gret (Some err)
  | None => kcall (KAppend (compact_json (check_value c) +s String line_feed ""))
  end).
