(* ===== verification/ContinuityLaws.v ===== *)
(** * The write-continuity check, proved

    [Analyze] passes a trace exactly when it is [healthy]: a condition on the good
    samples and those before each of them, without the analysis' counters. *)
From Stdlib Require Import Ascii.
From S2P Require Import Prelude Effects GoLib Unquote Json Gcs Continuity.

(** ** What a healthy trace is *)

Definition good (s : Sample) : bool := sa_error s ==s "".
Definition goods (l : list Sample) : list Sample := List.filter good l.

(** The largest of [f] over the samples, and zero. *)
Definition top (f : Sample -> Z) (l : list Sample) : Z := fold_right (fun s m => Z.max (f s) m) 0 l.
Definition highest : list Sample -> Z := top sample_max.
Definition post_highest (l : list Sample) : Z := highest (List.filter is_post l).

(** The known instances in the order they answered, and how often the next was another one. *)
Definition ids (l : list Sample) : list string := List.filter (fun id => id !=s "") (map sa_instanceID l).
Fixpoint changes (l : list string) : Z :=
  match l with
  | a :: ((b :: _) as t) => (if b !=s a then 1 else 0) + changes t
  | _ => 0
  end.

(** A sample keeps what the good samples [before] it had shown or acknowledged:
    it is not empty; before the restore, nothing is missing at its end; after it,
    nothing that was there since the restore, and after two changes of the instance
    nothing at all. *)
Definition keeps (before : list Sample) (s : Sample) : Prop :=
  (0 < highest before -> sa_observedMaxSeq s <> 0) /\
  (0 < sa_observedMaxSeq s ->
     if is_post s then
       post_highest before <= sa_observedMaxSeq s /\
       (post_highest before = 0 -> 2 <= changes (ids (before ++ [s])) -> highest before <= sa_observedMaxSeq s)
     else highest before <= sa_observedMaxSeq s).
Definition all_keep (l : list Sample) : Prop := forall before s after, l = before ++ s :: after -> keeps before s.

Definition has_phase (phase : string) (l : list Sample) : Prop := exists s, In s l /\ sa_phase s = phase.

Record healthy (l : list Sample) (final : Sample) : Prop := {
  (** No sample shows less than it must. *)
  hl_keep : all_keep (goods l);
  (** The migration itself was sampled. *)
  hl_watched : has_phase "pre-checkpoint" l -> has_phase "post-restore" l -> has_phase "migrating" l;
  (** The final sample has every acknowledged write, *)
  hl_final : last (goods l) = Some final;
  hl_reached : forall s, In s (goods l) -> 0 < sa_ackedSeq s -> sa_ackedSeq s <= sa_observedMaxSeq final;
  (** and reports none of them as missing. *)
  hl_present : forall m, In m (sa_missingSeqs final) -> top sa_ackedSeq (goods l) < m }.

(** ** Snoc lemmas *)

Lemma top_snoc f l s : top f (l ++ [s]) = Z.max (top f l) (Z.max (f s) 0).
Proof. unfold top. rewrite fold_right_app. simpl. induction l as [|a l IH]; simpl; [lia|]. rewrite IH. lia. Qed.
Lemma top_nonneg f l : 0 <= top f l.
Proof. induction l; simpl; lia. Qed.
Lemma top_In f l s : In s l -> f s <= top f l.
Proof. induction l as [|a l IH]; simpl; [done|]. intros [->|H]; [|specialize (IH H)]; lia. Qed.
Lemma top_le f l n : 0 <= n -> (forall s, In s l -> f s <= n) -> top f l <= n.
Proof. intros Hn. induction l as [|a l IH]; simpl; intros H; [done|]. pose proof (H a (or_introl eq_refl)). specialize (IH (fun s Hs => H s (or_intror Hs))). lia. Qed.

Lemma acked_highest l : top sa_ackedSeq l <= highest l.
Proof. apply top_le; [apply top_nonneg|]. intros s Hs. pose proof (top_In sample_max _ _ Hs). unfold highest, sample_max in *. lia. Qed.

Lemma ids_snoc l s : ids (l ++ [s]) = if sa_instanceID s ==s "" then ids l else ids l ++ [sa_instanceID s].
Proof. unfold ids. rewrite map_app, List.filter_app. simpl. destruct (sa_instanceID s ==s ""); simpl; [apply app_nil_r|done]. Qed.
Lemma ids_nonempty l : Forall (fun id => id <> "") (ids l).
Proof. unfold ids. apply List.Forall_forall. intros x [_ Hx]%List.filter_In. bool_props. done. Qed.

Definition last_id (l : list string) : string := default "" (last l).
Lemma changes_snoc l x : Forall (fun id => id <> "") l ->
  changes (l ++ [x]) = changes l + (if (last_id l !=s "") && (x !=s last_id l) then 1 else 0).
Proof.
  unfold last_id. induction l as [|a l IH]; [done|]. intros [Ha Hl]%Forall_cons. destruct l as [|b l].
  - simpl. destruct (a ==s "") eqn:E; [by bool_props|]. simpl. destruct (x ==s a); done.
  - change (changes ((a :: b :: l) ++ [x])) with ((if b !=s a then 1 else 0) + changes ((b :: l) ++ [x])).
    rewrite (IH Hl). change (last (a :: b :: l)) with (last (b :: l)). cbn [changes]. lia.
Qed.

Lemma goods_snoc l s : goods (l ++ [s]) = if good s then goods l ++ [s] else goods l.
Proof. unfold goods. rewrite List.filter_app. simpl. destruct (good s); [done|]. apply app_nil_r. Qed.

Lemma all_keep_nil : all_keep [].
Proof. intros [|y l] s after H; done. Qed.
Lemma all_keep_snoc l s : all_keep (l ++ [s]) <-> all_keep l /\ keeps l s.
Proof.
  split.
  - intros H. split; [|by apply (H l s [])]. intros before x after ->. apply (H before x (after ++ [s])). by rewrite <- app_assoc.
  - intros [H Hs] before x after He. induction after as [|y after _] using rev_ind.
    + apply app_inj_tail in He as [-> ->]. done.
    + change (x :: after ++ [y]) with ((x :: after) ++ [y]) in He. rewrite app_assoc in He. apply app_inj_tail in He as [-> ->]. by apply (H before x after).
Qed.

(** ** What the loop knows *)

Record phases_of (l : list Sample) (p : Phases) : Prop := {
  pf_pre : ph_pre p = true <-> has_phase "pre-checkpoint" l;
  pf_post : ph_post p = true <-> has_phase "post-restore" l;
  pf_migrating : 0 <= ph_migrating p /\ (0 < ph_migrating p <-> has_phase "migrating" l) }.
Record instances_of (g : list Sample) (i : Instances) : Prop := {
  io_last : in_last i = last_id (ids g); io_transitions : in_transitions i = changes (ids g) }.
Record marks_of (g : list Sample) (m : Marks) : Prop := { mo_high : mk_high m = highest g; mo_postHigh : mk_postHigh m = post_highest g }.
Record acks_of (g : list Sample) (a : Acks) : Prop := {
  ao_max : ac_max a = top sa_ackedSeq g;
  ao_set : forall n, n ∈ ac_set a <-> 0 < n /\ exists s, In s g /\ sa_ackedSeq s = n }.

Record knows (l : list Sample) (st : Loop) : Prop := {
  kn_phases : phases_of l (lo_phases st);
  kn_instances : instances_of (goods l) (lo_instances st);
  kn_marks : marks_of (goods l) (lo_marks st);
  kn_acks : acks_of (goods l) (lo_acks st);
  kn_flags : fl_violations (lo_flags st) = [] <-> all_keep (goods l);
  kn_last : lo_last st = last (goods l) }.

Lemma has_phase_snoc phase l s : has_phase phase (l ++ [s]) <-> has_phase phase l \/ sa_phase s = phase.
Proof.
  unfold has_phase. split.
  - intros (x & Hx & Hp). apply in_app_or in Hx as [Hx|[<-|[]]]; [left; by exists x|by right].
  - intros [(x & Hx & Hp)|Hp]; [exists x|exists s]; (split; [apply in_or_app; simpl; auto|done]).
Qed.

Lemma see_phase_knows l s p : phases_of l p -> phases_of (l ++ [s]) (see_phase s p).
Proof.
  intros [H1 H2 [H3 H4]]. unfold see_phase.
  repeat (destruct (sa_phase s ==s _) eqn:?; bool_props); constructor; simpl; rewrite !has_phase_snoc; intuition (congruence || lia).
Qed.

Lemma see_instance_knows g s i : instances_of g i -> instances_of (g ++ [s]) (see_instance s i).
Proof.
  intros [H1 H2]. unfold see_instance. destruct (sa_instanceID s ==s "") eqn:He.
  - constructor; rewrite ids_snoc, He; done.
  - constructor; rewrite ids_snoc, He; simpl; [unfold last_id; by rewrite last_snoc|].
    rewrite changes_snoc by apply ids_nonempty. by rewrite H1, H2.
Qed.

Lemma see_marks_knows g s m : marks_of g m -> marks_of (g ++ [s]) (see_marks s m).
Proof.
  intros [H1 H2]. pose proof (top_nonneg sample_max g) as Hg. pose proof (top_nonneg sample_max (List.filter is_post g)) as Hp.
  assert (post_highest (g ++ [s]) = if is_post s then Z.max (post_highest g) (Z.max (sample_max s) 0) else post_highest g) as Hpost.
  { unfold post_highest, highest. rewrite List.filter_app. simpl. destruct (is_post s); [apply top_snoc|by rewrite app_nil_r]. }
  fold (highest g) in Hg. fold (highest (List.filter is_post g)) in Hp. fold (post_highest g) in Hp.
  assert (highest (g ++ [s]) = Z.max (highest g) (Z.max (sample_max s) 0)) as Hhigh by apply top_snoc.
  unfold see_marks. destruct (is_post s); [destruct ((mk_baseline m =? 0) && (0 <? sample_max s))|];
    constructor; simpl; rewrite ?Hpost, ?Hhigh, ?H1, ?H2; unfold sample_max; destruct (0 <? sa_ackedSeq s) eqn:?; bool_props; lia.
Qed.

Lemma see_ack_knows g s a : acks_of g a -> acks_of (g ++ [s]) (see_ack s a).
Proof.
  intros [H1 H2]. pose proof (top_nonneg sa_ackedSeq g) as Hg. unfold see_ack. destruct (0 <? sa_ackedSeq s) eqn:Hs; bool_props; constructor; simpl; rewrite ?top_snoc.
  1,3: lia.
  - intros n. rewrite elem_of_union, elem_of_singleton, H2. setoid_rewrite in_app_iff. simpl. naive_solver.
  - intros n. rewrite H2. setoid_rewrite in_app_iff. simpl. naive_solver lia.
Qed.

Lemma flag_empty_flags s n f : fl_violations (flag_empty s n f) <> [].
Proof. simpl. by intros [_ ?]%app_eq_nil. Qed.
Lemma flag_rollback_flags double text f : fl_violations (flag_rollback double text f) <> [].
Proof. simpl. by intros [_ ?]%app_eq_nil. Qed.

(** [check_sample] flags exactly what does not keep. *)
Lemma check_sample_keeps g s m a f transitions :
  marks_of g m -> acks_of g a -> transitions = changes (ids (g ++ [s])) ->
  fl_violations (check_sample s transitions m a f) = [] <-> fl_violations f = [] /\ keeps g s.
Proof.
  intros [H1 H2] [H3 _] Ht. pose proof (acked_highest g). pose proof (top_nonneg sample_max (List.filter is_post g)) as Hp.
  fold (highest (List.filter is_post g)) in Hp. fold (post_highest g) in Hp.
  unfold check_sample, keeps. rewrite H1, H2, H3, Ht. clear H1 H2 H3 Ht.
  repeat case_match; bool_props;
    first [ split; [by intros ?%flag_empty_flags|intros (_ & Hk & _); lia]
          | split; [by intros ?%flag_rollback_flags|intros (_ & Hk1 & Hk2); lia]
          | split; [intros ->; split; [done|]; split; intros; lia|by intros [-> _]] ].
Qed.

Lemma analyze_step_knows l st s : knows l st -> knows (l ++ [s]) (analyze_step st s).
Proof.
  intros [Hp Hi Hm Ha Hf Hl]. pose proof (see_phase_knows _ s _ Hp) as Hp'. unfold analyze_step.
  assert (goods (l ++ [s]) = if sa_error s !=s "" then goods l else goods l ++ [s]) as Hg.
  { rewrite goods_snoc. unfold good. by destruct (sa_error s ==s ""). }
  destruct (sa_error s !=s ""); constructor; simpl; rewrite ?Hg; try done.
  - by apply see_instance_knows.
  - by apply see_marks_knows.
  - by apply see_ack_knows.
  - pose proof (see_instance_knows _ s _ Hi) as [_ Ht]. rewrite (check_sample_keeps (goods l)) by done. by rewrite Hf, all_keep_snoc.
  - by rewrite last_snoc.
Qed.

Lemma loop_knows l : knows l (fold_left analyze_step l loop_start).
Proof.
  induction l as [|s l IH] using rev_ind; [|rewrite fold_left_app; by apply analyze_step_knows].
  assert (forall phase, ~ has_phase phase []) as Hn by (intros phase (? & [] & _)).
  constructor; simpl; [constructor|constructor|constructor|constructor| |]; simpl; try done.
  - split; [done|]. by intros ?%Hn.
  - split; [done|]. by intros ?%Hn.
  - split; [done|]. split; [done|]. by intros ?%Hn.
  - intros n. split; [by intros ?%not_elem_of_empty|]. by intros (_ & ? & [] & _).
  - split; [intros _; exact all_keep_nil|done].
Qed.

(** The violations of the whole trace. *)
Lemma gap_violation_none l p : phases_of l p ->
  gap_violation p = [] <-> (has_phase "pre-checkpoint" l -> has_phase "post-restore" l -> has_phase "migrating" l).
Proof.
  intros [H1 H2 [H3 H4]]. rewrite <- H1, <- H2, <- H4. unfold gap_violation.
  destruct (ph_pre p), (ph_post p), (ph_migrating p =? 0) eqn:?; bool_props; simpl; intuition (congruence || lia).
Qed.

Lemma In_lost_writes a final n :
  In n (lost_writes a final) <-> (n ∈ ac_set a /\ sa_observedMaxSeq final < n) \/ (In n (sa_missingSeqs final) /\ (n ∈ ac_set a \/ n <= ac_max a)).
Proof.
  unfold lost_writes. rewrite SliceStable_In, <- list_elem_of_In, elem_of_elements, elem_of_union, !elem_of_filter, elem_of_list_to_set, list_elem_of_In. tauto.
Qed.

Lemma lost_none l a final : acks_of (goods l) a ->
  lost_writes a final = [] <->
  (forall s, In s (goods l) -> 0 < sa_ackedSeq s -> sa_ackedSeq s <= sa_observedMaxSeq final) /\
  (forall m, In m (sa_missingSeqs final) -> top sa_ackedSeq (goods l) < m).
Proof.
  intros [Hmax Hset]. rewrite <- Hmax. transitivity (forall n, ~ In n (lost_writes a final)).
  { split; [intros -> n []|]. destruct (lost_writes a final) as [|n t]; [done|]. intros H. destruct (H n). by left. }
  setoid_rewrite In_lost_writes. setoid_rewrite Hset. split.
  - intros H. split; [intros s Hs H0; apply Z.nlt_ge; intros Hlt|intros m Hm; apply Z.nle_gt; intros Hle].
    + apply (H (sa_ackedSeq s)). left. split; [|done]. split; [done|]. by exists s.
    + apply (H m). right. split; [done|]. by right.
  - intros [H1 H2] n [[[H0 (s & Hs & <-)] Hlt]|[Hm Hn]]; [specialize (H1 s Hs H0); lia|]. specialize (H2 n Hm).
    destruct Hn as [[H0 (s & Hs & <-)]|Hn]; [|lia]. pose proof (top_In sa_ackedSeq _ _ Hs). lia.
Qed.

Lemma Analyze_passes group l : re_pass (Analyze group l) = true <-> exists final, healthy l final.
Proof.
  destruct (loop_knows l) as [Hp Hi Hm Ha Hf Hl]. unfold Analyze. destruct l as [|s l].
  { split; [done|]. by intros [final [_ _ Hfin _ _]]. }
  rewrite Hl. destruct (last (goods (s :: l))) as [final|] eqn:Hfin; [|split; [done|]; intros [final [_ _ H _ _]]; congruence].
  set (st := fold_left analyze_step (s :: l) loop_start) in *. cbn [re_pass].
  transitivity (fl_violations (lo_flags st) = [] /\ gap_violation (lo_phases st) = [] /\ lost_writes (lo_acks st) final = []).
  { unfold lost_violation. destruct (fl_violations _), (gap_violation _), (lost_writes _ _); simpl; naive_solver. }
  rewrite Hf, (gap_violation_none (s :: l)), (lost_none (s :: l)) by done. split.
  - intros (H1 & H2 & H3 & H4). by exists final.
  - intros [final' [H1 H2 H3 H4 H5]]. rewrite Hfin in H3. by injection H3 as <-.
Qed.

(** ** The probe and the check *)

(** An answer [instance|previous|last] with a gap between what was there and what was
    just written: the sample shows the previous sequence. *)
Lemma gap_shown now o pod n out inst p a :
  Split (TrimSpace out) "|" = [inst; p; a] -> inst <> "EMPTY" -> is_Some (workload_script o n) ->
  0 < ParseInt_value p < n - 1 -> n <= int64_max -> (lp_workload o = "postgres" \/ ParseInt_value a = n) -> ParseInt_value a <> 0 ->
  answer_sample now o pod n out = mkSample now "step" pod inst n (ParseInt_value p) [] (lp_phase o) "".
Proof.
  intros Hs Hi Hw Hp Hn Ha Ha0. unfold answer_sample, workload_script in *. rewrite Hs.
  rewrite (i64_id (ParseInt_value p + 1)) by (unfold is_int64, int64_min, int64_max in *; lia).
  assert ((ParseInt_value a =? 0) = false) as -> by lia. assert ((inst ==s "EMPTY") = false) as -> by (by apply seqb_false).
  assert ((0 <? ParseInt_value p) && (ParseInt_value p + 1 <? n) = true) as Hg by (apply andb_true_intro; lia).
  rewrite !andb_false_r. destruct (lp_workload o ==s "postgres") eqn:He; [by rewrite Hg|].
  destruct Ha as [Ha|Ha]; [bool_props; done|]. by rewrite Ha, Hg.
Qed.


(** A pod that lost a part of the writes, and shows it to a probe before the restore, or
    after it once the trace had its highest sequence there, is never passed, whatever
    is sampled later: not even when the writes go on past what was lost. *)
Theorem rolled_back_state_flagged group l rest now o pod n out inst p a
  (Hout : Split (TrimSpace out) "|" = [inst; p; a]) (Hinst : inst <> "EMPTY") (Hload : is_Some (workload_script o n))
  (Hlost : 0 < ParseInt_value p < n - 1) (Hn : n <= int64_max)
  (Hwrote : lp_workload o = "postgres" \/ ParseInt_value a = n) (Hlast : ParseInt_value a <> 0)
  (Hseen : n = highest (goods l) + 1) (Hphase : lp_phase o = "post-restore" -> post_highest (goods l) = highest (goods l)) :
  re_pass (Analyze group (l ++ answer_sample now o pod n out :: rest)) = false.
Proof.
  rewrite (gap_shown now o pod n out inst p a) by done. apply not_true_iff_false.
  intros [final [Hkeep _ _ _ _]]%Analyze_passes. unfold goods in Hkeep. rewrite List.filter_app in Hkeep.
  destruct (Hkeep _ _ _ eq_refl) as [_ Hk]. fold (goods l) in Hk. cbn [sa_observedMaxSeq] in Hk. specialize (Hk ltac:(lia)).
  unfold is_post in Hk. cbn [sa_phase] in Hk. destruct (lp_phase o ==s "post-restore") eqn:He; bool_props; [|lia].
  rewrite (Hphase He) in Hk. lia.
Qed.

(** What the probe's own trace does not show.  A counter that was started cold has a new
    [counter.state] and no [continuity.seq]: the previous sequence of its answer is 0, the
    sample shows the new one, and the check passes with every write lost. *)
Definition probe_of (workload phase : string) : LiveProbeOptions := mkProbe "kubectl" "default" workload "" "t2-0" "trace" 250000000 2 phase 0.
Definition answers (workload : string) (l : list (string * Z * string)) : list Sample :=
  map (fun '(phase, n, out) => answer_sample "" (probe_of workload phase) "t2-0" n out) l.

Example counter_cold_start_passes :
  re_pass (Analyze "counter" (answers "counter"
    [("pre-checkpoint", 1, "a|0|1"); ("pre-checkpoint", 2, "a|1|2"); ("migrating", 3, "a|2|3"); ("post-restore", 4, "b|0|4"); ("post-restore", 5, "b|4|5")])) = true.
Proof. vm_compute. reflexivity. Qed.

(** The first good sample since the restore may fall back to the checkpoint, for the final
    sample to report what was lost.  The next write of the probe takes the final sample past
    it: a pod restored without the writes 3 and 4 passes. *)
Example overtaken_writes_pass :
  re_pass (Analyze "redis" (answers "redis"
    [("pre-checkpoint", 1, "a|0|1"); ("pre-checkpoint", 2, "a|1|2"); ("migrating", 3, "a|2|3"); ("migrating", 4, "a|3|4");
     ("post-restore", 5, "a|2|5"); ("post-restore", 6, "a|5|6")])) = true.
Proof. vm_compute. reflexivity. Qed.
