(* ===== verification/Profiler.v ===== *)
(** * The profiler's records (src/tools/pmprofiler/internal/analyze)

    What a run's records say of jobs, pods, snapshots and events, state by state as
    [Analyze] reads them.  The objects are seen through the accessors of the
    unstructured package: a view has their answers, [None] for a field that is absent
    or of another type, and the empty string where the code ignores the difference. *)
From Stdlib Require Import SpecFloat.
From S2P Require Import Prelude GoLib.

(** ** Times *)

Definition parseTime (s : string) : Z := default zero_time (ParseRFC3339 s).
Definition fmtTime (t : Z) : string := if IsZero t then "" else FormatRFC3339Nano t.

(** ** Views of the objects *)

Record CondView := mkCondView { cv_type : string; cv_status : string; cv_reason : string; cv_lastTransitionTime : string }.

Record JobView := mkJobView {
  jv_name : string; jv_uid : string; jv_created : Z; jv_podName : option string; jv_targetPodUID : option string; jv_phase : option string;
  jv_snapshotRef : option string; jv_restoredPodName : option string; jv_restoredPodUID : option string; jv_evictingStartTime : option string;
  jv_restoringStartTime : option string; jv_gateReleased : option bool; jv_completionTime : option string; jv_conditions : list CondView }.

(** [sv_podNames]: the fields that may name the pod, in the order they are tried. *)
Record SnapView := mkSnapView {
  sv_name : string; sv_created : Z; sv_labels : gmap string string; sv_podNames : list (option string); sv_phase : option string; sv_conditions : list CondView }.

Record PodView := mkPodView {
  pv_name : string; pv_uid : string; pv_created : Z; pv_labels : gmap string string; pv_annotations : gmap string string; pv_nodeName : option string;
  pv_schedulingGates : list string; pv_deletion : option Z; pv_conditions : list CondView }.

Record EventView := mkEventView {
  ev_type : string; ev_reason : string; ev_message : string; ev_kind : string; ev_name : string; ev_lastTimestamp : option string }.

(** Of this operator's own migration object: its timing strings and numbers. *)
Record MigrationView := mkMigrationView {
  mv_name : string; mv_created : Z; mv_hasStatus : bool; mv_podName : string; mv_phase : string; mv_sourceNode : string; mv_targetNode : string;
  mv_startedAt : string; mv_completedAt : string; mv_checkpointedAt : string; mv_windowStartedAt : string; mv_windowEndedAt : string;
  mv_unavailableMs : option Z; mv_checkpointTarBytes : option Z; mv_warmStateVerified : option bool; mv_message : string }.

(** ** States *)

Record pmjState := mkPmj {
  js_name : string; js_created : Z; js_pod : string; js_targetUID : string; js_lastPhase : string; js_phaseFirst : gmap string Z;
  js_lastProgress : Z; js_completion : Z; js_evictingStart : Z; js_restoringStart : Z; js_gateReleased : bool; js_snapshot : string;
  js_restoredPodName : string; js_restoredPodUID : string; js_restoredCondStatus : string; js_restoredCondReason : string }.

Record podInc := mkInc {
  pi_name : string; pi_uid : string; pi_app : string; pi_jobIdx : string; pi_created : Z; pi_node : string; pi_wasGated : bool;
  pi_gateReleasedAt : Z; pi_scheduledLTT : Z; pi_readyLTT : Z; pi_deletion : Z; pi_deleteSeen : Z; pi_psRestore : string }.

Record snapState := mkSnap { ss_created : Z; ss_readyAt : Z; ss_podName : string; ss_lastPhase : string; ss_engine : string }.
Record eventRec := mkEvent { er_ts : Z; er_typ : string; er_reason : string; er_kind : string; er_name : string; er_message : string }.
Record pmState := mkPm { ps_obj : MigrationView; ps_lastTS : Z; ps_created : Z }.

(** A field that is there and not empty replaces what was known. *)
Definition unless_blank (field : option string) (old : string) : string :=
  match field with Some v => if v ==s "" then old else v | None => old end.
(** A time that is there, not empty and readable. *)
Definition unless_zero_time (field : option string) (old : Z) : Z :=
  match field with
  | Some v => if v ==s "" then old else if IsZero (parseTime v) then old else parseTime v
  | None => old
  end.

(** ** Jobs *)

Definition nul : string := String (Ascii.ascii_of_nat 0) "".
Definition incarnation (u : JobView) : string :=
  jv_name u +s nul +s (if jv_uid u ==s "" then FormatRFC3339Nano (jv_created u) else jv_uid u).

Definition first_job (u : JobView) : pmjState :=
  mkPmj (jv_name u) (jv_created u) "" "" "" ∅ zero_time zero_time zero_time zero_time false "" "" "" "" "".

Definition see_job_phase (u : JobView) (ts : Z) (j : pmjState) : string * Z * gmap string Z :=
  match jv_phase u with
  | Some phase =>
      if phase ==s "" then (js_lastPhase j, js_lastProgress j, js_phaseFirst j)
      else
        let '(last, progress) := if phase !=s js_lastPhase j then (phase, ts) else (js_lastPhase j, js_lastProgress j) in
        (last, progress, match js_phaseFirst j !! phase with Some _ => js_phaseFirst j | None => <[phase := ts]> (js_phaseFirst j) end)
  | None => (js_lastPhase j, js_lastProgress j, js_phaseFirst j)
  end.

Definition see_restored (conds : list CondView) (status reason : string) : string * string :=
  fold_left (fun '(status, reason) c =>
    if cv_type c ==s "Restored" then
      (if cv_status c ==s "" then status else cv_status c, if cv_reason c ==s "" then reason else cv_reason c)
    else (status, reason)) conds (status, reason).

Definition see_job (u : JobView) (ts : Z) (j : pmjState) : pmjState :=
  let '(lastPhase, lastProgress, phaseFirst) := see_job_phase u ts j in
  let '(status, reason) := see_restored (jv_conditions u) (js_restoredCondStatus j) (js_restoredCondReason j) in
  mkPmj (js_name j) (js_created j) (default (js_pod j) (jv_podName u)) (default (js_targetUID j) (jv_targetPodUID u)) lastPhase phaseFirst lastProgress
    (match jv_completionTime u with Some ct => if ct ==s "" then js_completion j else parseTime ct | None => js_completion j end)
    (unless_zero_time (jv_evictingStartTime u) (js_evictingStart j)) (unless_zero_time (jv_restoringStartTime u) (js_restoringStart j))
    (js_gateReleased j || default false (jv_gateReleased u)) (unless_blank (jv_snapshotRef u) (js_snapshot j))
    (unless_blank (jv_restoredPodName u) (js_restoredPodName j)) (unless_blank (jv_restoredPodUID u) (js_restoredPodUID j)) status reason.

Definition ingestPMJ (u : JobView) (ts : Z) (pmjs : gmap string pmjState) : gmap string pmjState :=
  <[incarnation u := see_job u ts (default (first_job u) (pmjs !! incarnation u))]> pmjs.

(** ** Migration objects *)

Definition ingestPM (u : MigrationView) (ts : Z) (pms : gmap string pmState) : gmap string pmState :=
  <[mv_name u := mkPm u ts (match pms !! mv_name u with Some s => ps_created s | None => mv_created u end)]> pms.

(** ** Snapshots *)

Fixpoint first_name (l : list (option string)) (old : string) : string :=
  match l with
  | [] => old
  | Some pod :: l => if pod ==s "" then first_name l old else pod
  | None :: l => first_name l old
  end.

(** Whether a condition says the snapshot is ready, and the last time one did. *)
Definition see_ready (conds : list CondView) (ready : bool) : bool * Z :=
  fold_left (fun '(ready, best) c =>
    if ((cv_type c ==s "Ready") || (cv_type c ==s "Uploaded") || (cv_type c ==s "Finalized")) && (cv_status c ==s "True") then
      (true, if (cv_lastTransitionTime c !=s "") && After (parseTime (cv_lastTransitionTime c)) best then parseTime (cv_lastTransitionTime c) else best)
    else (ready, best)) conds (ready, zero_time).

Definition see_snap (u : SnapView) (ts : Z) (s : snapState) : snapState :=
  let engine := match sv_labels u !! "pod-migrate.io/engine" with Some e => if e ==s "" then ss_engine s else e | None => ss_engine s end in
  let lastPhase := default (ss_lastPhase s) (sv_phase u) in
  let '(ready, best) := see_ready (sv_conditions u) ((lastPhase ==s "Ready") || (lastPhase ==s "Succeeded")) in
  mkSnap (ss_created s) (if ready && IsZero (ss_readyAt s) then if IsZero best then ts else best else ss_readyAt s)
    (first_name (sv_podNames u) (ss_podName s)) lastPhase engine.

Definition ingestSnap (u : SnapView) (ts : Z) (snaps : gmap string snapState) : gmap string snapState :=
  <[sv_name u := see_snap u ts (default (mkSnap (sv_created u) zero_time "" "" "") (snaps !! sv_name u))]> snaps.

(** ** Pods *)

Definition migration_gate (gn : string) : bool :=
  (gn ==s "gke.io/pod-migration-gate") || Contains gn "migration" || Contains gn "restoring".

(** The last time of a condition of the type that is True. *)
Definition true_since (type : string) (conds : list CondView) (old : Z) : Z :=
  fold_left (fun t c =>
    if (cv_type c ==s type) && (cv_status c ==s "True") && (cv_lastTransitionTime c !=s "") then parseTime (cv_lastTransitionTime c) else t) conds old.

Definition new_inc (u : PodView) : podInc :=
  mkInc (pv_name u) (pv_uid u) (sget (pv_labels u) "app") (sget (pv_labels u) "job-idx") (pv_created u) "" false
    zero_time zero_time zero_time zero_time zero_time "".

Definition see_pod (u : PodView) (ts : Z) (recType : string) (p : podInc) : podInc :=
  let gated := existsb migration_gate (pv_schedulingGates u) in
  mkInc (pi_name p) (pi_uid p) (pi_app p) (pi_jobIdx p) (pi_created p) (unless_blank (pv_nodeName u) (pi_node p)) (pi_wasGated p || gated)
    (if negb gated && pi_wasGated p && IsZero (pi_gateReleasedAt p) && negb (IsZero ts) then ts else pi_gateReleasedAt p)
    (true_since "PodScheduled" (pv_conditions u) (pi_scheduledLTT p)) (true_since "Ready" (pv_conditions u) (pi_readyLTT p))
    (default (pi_deletion p) (pv_deletion u)) (if (recType ==s "delete") && IsZero (pi_deleteSeen p) then ts else pi_deleteSeen p)
    (default (pi_psRestore p) (pv_annotations u !! "pod-migrate.io/psengine-restore")).

Definition ingestPod (u : PodView) (ts : Z) (recType : string) (pods : gmap string (gmap string podInc)) : gmap string (gmap string podInc) :=
  let incs := default ∅ (pods !! pv_name u) in
  <[pv_name u := <[pv_uid u := see_pod u ts recType (default (new_inc u) (incs !! pv_uid u))]> incs]> pods.

(** ** Events *)

Definition ingestEvent (u : EventView) (ts : Z) : option eventRec :=
  if (ev_kind u ==s "") && (ev_name u ==s "") then None
  else Some (mkEvent
    (match ev_lastTimestamp u with Some lt => if lt ==s "" then ts else parseTime lt | None => ts end)
    (ev_type u) (ev_reason u) (ev_kind u) (ev_name u) (ev_message u)).
