(* ===== verification/Reconstruct.v ===== *)
(** * The profiler's migrations (src/tools/pmprofiler/internal/analyze)

    [reconstruct] turns a job's state, with the pods, snapshots and events seen, into
    one migration; [reconstructPM] does so for this operator's own objects.  Go ranges
    over a map in any order: [ord] says in which, loop by loop ([site]). *)
From Stdlib Require Import SpecFloat.
From S2P Require Import Prelude GoLib Profiler.

(** ** float64 *)

Definition f64_add := SFadd 53 1024.
Definition f64_zero : spec_float := f64_of_Z 0.
(** -1 stands for an unknown duration. *)
Definition unknown : spec_float := f64_of_Z (-1).
Definition known (x : spec_float) : bool := SFleb f64_zero x.

(** [Duration.Seconds]. *)
Definition Seconds (d : Z) : spec_float := f64_add (f64_of_Z (Z.quot d Second)) (f64_div (f64_of_Z (Z.rem d Second)) (f64_of_Z Second)).
Definition not_negative (x : spec_float) : spec_float := if SFltb x f64_zero then f64_zero else x.

(** ** A migration *)

Definition OutcomeRestored := "restored".
Definition OutcomeColdStart := "cold-start".
Definition OutcomeReplaced := "replaced".
Definition OutcomeFailed := "failed".
Definition OutcomeWedged := "wedged".
Definition OutcomeNoDst := "no-replacement".
Definition OutcomeInFlight := "in-flight".
Definition OutcomeRefused := "refused".

Definition EvidenceEngine := "engine".
Definition EvidenceConfirmed := "confirmed".
Definition EvidenceInferred := "inferred".
Definition EvidenceJob := "job".

Record Migration := mkMigration {
  mi_pmj : string; mi_pod : string; mi_app : string; mi_dstPod : string; mi_srcNode : string; mi_dstNode : string;
  mi_t0 : string; mi_tSnapshotting : string; mi_tSnapReady : string; mi_tEvicting : string; mi_tSrcDeleted : string;
  mi_tDstCreated : string; mi_tGateReleased : string; mi_tDstReady : string; mi_tTerminal : string;
  mi_snapReadyS : spec_float; mi_evictedS : spec_float; mi_e2eS : spec_float; mi_downtimeS : spec_float; mi_gateHoldS : spec_float;
  mi_phase : string; mi_outcome : string; mi_restored : bool; mi_restoreSignal : string; mi_restoreEvidence : string; mi_population : string;
  mi_snapshotName : string; mi_snapshotBytes : Z; mi_warnings : list string; mi_engine : string; mi_checkpointUploadS : spec_float;
  mi_restoreOutcome : string }.

(** ** The job's times *)

Definition first_in (j : pmjState) (phase : string) : option Z := js_phaseFirst j !! phase.
Definition firsts (j : pmjState) (phases : list string) : option Z := head (omap (first_in j) phases).
Definition terminals : list string := ["Succeeded"; "SucceededWithoutRestore"; "Failed"].

Definition term_of (j : pmjState) : Z :=
  if IsZero (js_completion j) then default zero_time (firsts j terminals) else js_completion j.

(** Pod links count only around the job's life. *)
Definition inWindow (j : pmjState) (wedge t : Z) : bool :=
  let term := term_of j in
  negb (IsZero t) && negb (Before t (js_created j - Second)) &&
  negb (After t (if IsZero term then js_created j + wedge else term + 2 * Minute)).

Definition evicting_of (j : pmjState) : option Z :=
  if IsZero (js_evictingStart j) then first_in j "Evicting" else Some (js_evictingStart j).

Section Links.
Context (ord : forall A, nat -> list A -> list A) (j : pmjState) (wedge : Z) (pods : gmap string (gmap string podInc)).

Definition incarnations (site : nat) (name : string) : list podInc :=
  match pods !! name with Some incs => ord _ site (map snd (map_to_list incs)) | None => [] end.
Definition all_incarnations (site : nat) : list podInc :=
  flat_map (fun incs => ord _ site (map snd (map_to_list incs))) (ord _ site (map snd (map_to_list pods))).

Definition created_less (a b : podInc) : bool := Before (pi_created a) (pi_created b).

(** The source is the incarnation the job names; the replacement a later one of the same name. *)
Definition same_name (ordered : list podInc) : option podInc * option podInc :=
  fold_left (fun '(src, dst) i =>
    if pi_uid i ==s js_targetUID j then (Some i, dst)
    else if bool_decide (is_Some src) && inWindow j wedge (pi_created i) then
      match dst with
      | None => (src, Some i)
      | Some d => (src, if IsZero (pi_readyLTT d) && negb (IsZero (pi_readyLTT i)) then Some i else dst)
      end
    else (src, dst)) ordered (None, None).

Definition last_before (ordered : list podInc) : option podInc :=
  fold_left (fun src i => if After (pi_created i) (js_created j) then src else Some i) ordered None.

Definition by_name : option podInc * option podInc :=
  let ordered := SliceStable created_less (incarnations 0 (js_pod j)) in
  let '(src, dst) := same_name ordered in
  (match src with Some _ => src | None => last_before ordered end, dst).

Definition other_than (src : option podInc) (i : podInc) : bool :=
  match src with Some s => pi_uid i !=s pi_uid s | None => true end.

(** The replacement that the job's status names. *)
Definition by_status (src : option podInc) : option podInc :=
  if js_restoredPodName j ==s "" then None
  else
    match (if js_restoredPodUID j ==s "" then None else incs ← pods !! js_restoredPodName j; incs !! js_restoredPodUID j) with
    | Some p => Some p
    | None =>
        fold_left (fun dst i =>
          if other_than src i && (match dst with Some d => After (pi_created i) (pi_created d) | None => true end) then Some i else dst)
          (incarnations 1 (js_restoredPodName j)) None
    end.

(** The earliest pod of the window that shares a label with the source. *)
Definition by_label (site : nat) (label : podInc -> string) (src : option podInc) : option podInc :=
  match src with
  | Some s =>
      if label s ==s "" then None
      else
        fold_left (fun dst i =>
          if (label i ==s label s) && (pi_uid i !=s pi_uid s) && inWindow j wedge (pi_created i) &&
             (match dst with Some d => Before (pi_created i) (pi_created d) | None => true end) then Some i else dst)
          (all_incarnations site) None
  | None => None
  end.

(** A crashed replacement gives way to a later Ready pod of the application. *)
Definition after_crash (src dst : option podInc) : option podInc :=
  match src, dst with
  | Some s, Some d =>
      if IsZero (pi_readyLTT d) && (js_restoredCondReason j ==s "RestoreCrashFallback") && (pi_app s !=s "") then
        fold_left (fun dst i =>
          match dst with
          | Some d =>
              if (pi_app i ==s pi_app s) && (pi_uid i !=s pi_uid s) && (pi_uid i !=s pi_uid d) && After (pi_created i) (pi_created d) &&
                 inWindow j wedge (pi_created i) && negb (IsZero (pi_readyLTT i)) then Some i else dst
          | None => None
          end) (all_incarnations 4) dst
      else dst
  | _, _ => dst
  end.

Definition or_else {A} (x : option A) (y : option A) : option A := match x with Some _ => x | None => y end.

Definition source_and_replacement : option podInc * option podInc :=
  let '(src, dst) := by_name in
  let dst := or_else dst (by_status src) in
  let dst := or_else dst (by_label 2 pi_jobIdx src) in
  let dst := or_else dst (by_label 3 pi_app src) in
  (src, after_crash src dst).

End Links.

(** ** The replacement's gate *)

Definition release_event (events : list eventRec) (d : podInc) : Z :=
  match List.find (fun ev => (er_kind ev ==s "Pod") && (er_name ev ==s pi_name d) && (er_reason ev ==s "MigrationRestoreReleased") &&
                             negb (Before (er_ts ev) (pi_created d))) events with
  | Some ev => er_ts ev
  | None => zero_time
  end.

Definition gate_released (events : list eventRec) (j : pmjState) (d : podInc) : Z :=
  let usable t := negb (IsZero t) && negb (Before t (pi_created d)) in
  let rel := release_event events d in
  let rel := if IsZero rel && usable (pi_gateReleasedAt d) then pi_gateReleasedAt d else rel in
  let rel := if IsZero rel && (pi_wasGated d || js_gateReleased j) && usable (pi_scheduledLTT d) then pi_scheduledLTT d else rel in
  if IsZero rel && js_gateReleased j && usable (js_restoringStart j) then js_restoringStart j else rel.

(** ** The verdict *)

Definition jobRestoreEvidence (reason : string) : string :=
  if reason ==s "RestoreVerified" then EvidenceConfirmed
  else if reason ==s "RestoreInferred" then EvidenceInferred
  else EvidenceJob.

Record RestoreWord := mkWord { vd_outcome : string; vd_restored : bool; vd_signal : string; vd_evidence : string }.

(** The engine's word on the replacement, else the job's condition; nothing is inferred. *)
Definition restore_verdict (j : pmjState) (dst : option podInc) : RestoreWord :=
  match dst with
  | None => mkWord "" false "" ""
  | Some d =>
      if pi_psRestore d !=s "" then
        mkWord (pi_psRestore d) (pi_psRestore d ==s "restored") ("psengine-restore:" +s pi_psRestore d) EvidenceEngine
      else if js_restoredCondStatus j ==s "True" then
        let reason := if js_restoredCondReason j ==s "" then "RestoreVerified" else js_restoredCondReason j in
        mkWord "restored" true ("pmj:" +s reason) (jobRestoreEvidence reason)
      else if (js_lastPhase j ==s "SucceededWithoutRestore") || (js_restoredCondStatus j ==s "False") then
        let reason := if js_restoredCondReason j ==s "" then "FallbackToColdStart" else js_restoredCondReason j in
        mkWord "failed" false ("pmj:" +s reason) EvidenceJob
      else mkWord "" false "absent" ""
  end.

Definition outcome_of (j : pmjState) (dst : option podInc) (v : RestoreWord) (lastTS wedge : Z) : string :=
  let phase := js_lastPhase j in
  if phase ==s "Succeeded" then
    match dst with
    | None => OutcomeNoDst
    | Some _ => if vd_restored v then OutcomeRestored else if vd_outcome v ==s "failed" then OutcomeColdStart else OutcomeReplaced
    end
  else if phase ==s "SucceededWithoutRestore" then
    match dst with None => OutcomeNoDst | Some _ => OutcomeColdStart end
  else if phase ==s "Failed" then
    if ((js_restoredCondReason j ==s "RestoreCrashFallback") || (js_restoredCondReason j ==s "FallbackToColdStart")) && bool_decide (is_Some dst)
    then OutcomeColdStart else OutcomeFailed
  else
    let progress := if IsZero (js_lastProgress j) then js_created j else js_lastProgress j in
    if wedge <? Sub lastTS progress then OutcomeWedged else OutcomeInFlight.

(** ** [reconstruct] *)

Definition find_snapshot (ord : forall A, nat -> list A -> list A) (j : pmjState) (snaps : gmap string snapState) : string * option snapState :=
  match (if js_snapshot j ==s "" then None else snaps !! js_snapshot j) with
  | Some s => (js_snapshot j, Some s)
  | None =>
      match List.find (fun '(sn, s) => (ss_podName s ==s js_pod j) || Contains sn (js_pod j)) (ord _ 5%nat (map_to_list snaps)) with
      | Some (sn, s) => (sn, Some s)
      | None => (js_snapshot j, None)
      end
  end.

Definition snapshot_bytes (name : string) (gcsObjects : gmap string Z) : Z :=
  if name ==s "" then 0
  else fold_left (fun bytes '(path, size) => if Contains path name && (bytes <? size) then size else bytes) (map_to_list gcsObjects) 0.

Definition warnings_of (j : pmjState) (wedge : Z) (dstPod : string) (events : list eventRec) : list string :=
  flat_map (fun ev =>
    if (er_typ ev !=s "Warning") || negb (inWindow j wedge (er_ts ev)) then []
    else if ((er_kind ev ==s "Pod") && ((er_name ev ==s js_pod j) || ((dstPod !=s "") && (er_name ev ==s dstPod)))) ||
            ((er_kind ev ==s "PodMigrationJob") && (er_name ev ==s js_name j)) then
      [FormatRFC3339 (er_ts ev) +s " " +s er_reason ev +s ": " +s er_message ev]
    else []) events.

(** The time from the source's deletion to the replacement's Ready. *)
Definition downtime (created : Z) (evictedS : spec_float) (ready : Z) : spec_float :=
  not_negative (Seconds (Sub ready (created + i64 (f64_trunc (f64_mul evictedS (f64_of_Z Second)))))).

Definition reconstruct (ord : forall A, nat -> list A -> list A) (j : pmjState) (pods : gmap string (gmap string podInc)) (snaps : gmap string snapState)
    (gcsObjects : gmap string Z) (events : list eventRec) (lastTS wedge : Z) : Migration :=
  let created := js_created j in
  let since t := Seconds (Sub t created) in
  let '(src, dst) := source_and_replacement ord j wedge pods in
  (* the source *)
  let del := match src with Some s => if IsZero (pi_deletion s) then pi_deleteSeen s else pi_deletion s | None => zero_time end in
  let deleted := bool_decide (is_Some src) && inWindow j wedge del in
  let evictedS := if deleted then since del else unknown in
  let app := match src with Some s => pi_app s | None => "" end in
  (* the replacement *)
  let dstPod := match dst with Some d => pi_name d | None => "" end in
  let gateRel := match dst with Some d => if IsZero (pi_created d) then zero_time else gate_released events j d | None => zero_time end in
  let ready := match dst with Some d => pi_readyLTT d | None => zero_time end in
  (* the snapshot *)
  let '(snapshotName, snap) := find_snapshot ord j snaps in
  let snapReady := match snap with Some s => ss_readyAt s | None => zero_time end in
  let engine := match snap with Some s => ss_engine s | None => "" end in
  let verdict := restore_verdict j dst in
  mkMigration (js_name j) (js_pod j) (match dst with Some d => if app ==s "" then pi_app d else app | None => app end) dstPod
    (match src with Some s => pi_node s | None => "" end) (match dst with Some d => pi_node d | None => "" end)
    (fmtTime created) (match first_in j "Snapshotting" with Some t => fmtTime t | None => "" end) (fmtTime snapReady)
    (match evicting_of j with Some t => fmtTime t | None => "" end) (if deleted then fmtTime del else "")
    (match dst with Some d => fmtTime (pi_created d) | None => "" end) (fmtTime gateRel) (fmtTime ready) (fmtTime (term_of j))
    (if IsZero snapReady then match evicting_of j with Some t => since t | None => unknown end else since snapReady)
    evictedS (if IsZero ready then unknown else since ready)
    (if IsZero ready then unknown else if known evictedS then downtime created evictedS ready else unknown)
    (match dst with Some d => if IsZero gateRel then unknown else not_negative (Seconds (Sub gateRel (pi_created d))) | None => unknown end)
    (js_lastPhase j) (outcome_of j dst verdict lastTS wedge) (vd_restored verdict) (vd_signal verdict) (vd_evidence verdict) ""
    snapshotName (snapshot_bytes snapshotName gcsObjects) (warnings_of j wedge dstPod events) engine
    (match snap with
     | Some s => if (ss_engine s !=s "") && negb (IsZero (ss_readyAt s)) && negb (IsZero (ss_created s)) then Seconds (Sub (ss_readyAt s) (ss_created s)) else f64_zero
     | None => f64_zero
     end) (vd_outcome verdict).

(** ** [reconstructPM] *)

Definition secsBetween (a b : string) : spec_float :=
  if IsZero (parseTime a) || IsZero (parseTime b) then unknown else Seconds (Sub (parseTime b) (parseTime a)).

Definition reconstructPM (name : string) (s : pmState) (lastTS wedge : Z) : Migration :=
  let u := ps_obj s in
  let started := if mv_startedAt u ==s "" then fmtTime (ps_created s) else mv_startedAt u in
  let outcome :=
    if mv_phase u ==s "Succeeded" then OutcomeRestored
    else if (mv_phase u ==s "Failed") || (mv_phase u ==s "Aborted") then OutcomeFailed
    else if mv_phase u ==s "Rejected" then OutcomeRefused
    else if negb (IsZero (ps_lastTS s)) && (wedge <? Sub lastTS (ps_created s)) then OutcomeWedged
    else OutcomeInFlight in
  mkMigration name (mv_podName u) "" "" (mv_sourceNode u) (mv_targetNode u) started "" (mv_checkpointedAt u) (mv_windowStartedAt u) "" "" ""
    (mv_windowEndedAt u) (mv_completedAt u) (secsBetween started (mv_checkpointedAt u)) (secsBetween started (mv_windowStartedAt u))
    (secsBetween started (mv_completedAt u))
    (match mv_unavailableMs u with Some ms => f64_div (f64_of_Z ms) (f64_of_Z 1000) | None => unknown end) unknown (mv_phase u) outcome
    (default false (mv_warmStateVerified u))
    (match mv_warmStateVerified u with Some wv => "agent.warmStateVerified:" +s (if wv then "true" else "false") | None => "absent" end)
    (match mv_warmStateVerified u with Some _ => EvidenceEngine | None => "" end) "" "" (default 0 (mv_checkpointTarBytes u))
    (if (mv_message u !=s "") && (outcome !=s OutcomeRestored) then [mv_message u] else []) "" f64_zero "".
