(* ===== verification/ProfilerRun.v ===== *)
(** * The profiler's run and its assertions (src/tools/pmprofiler/internal/analyze)

    [Analyze] reads the records of a run, reconstructs its migrations, counts their
    outcomes and summarizes their durations; the [Verify] functions judge the result.
    The lines come decoded, with what each decoder makes of a record's object; the
    checks of the scenario drivers too (a [Check] is Continuity's).  The invariants' counters are left out. *)
From Stdlib Require Import SpecFloat.
From S2P Require Import Prelude GoLib Continuity Profiler Reconstruct.

(** ** Records *)

(** Containers' usage, as the quantity parser reads it: thousandths of a core, bytes. *)
Record PodMetrics := mkPodMetrics { px_namespace : string; px_containers : list (option Z * option Z) }.

Record ObjView := mkObj { ov_job : JobView; ov_migration : MigrationView; ov_snap : SnapView; ov_pod : PodView; ov_event : EventView }.

Record Rec := mkRec {
  rc_ts : string; rc_type : string; rc_gvr : string; rc_gcs : option (Z * gmap string Z); rc_podMetrics : option PodMetrics; rc_object : option ObjView }.

(** Without the paths of the inputs. *)
Record Options := mkOptions { op_scenario : string; op_wedgeThreshold : Z; op_controllerNS : string; op_podPrefix : string }.

Definition podMetrics (m : option PodMetrics) : Z * Z * string :=
  match m with
  | None => (0, 0, "")
  | Some m =>
      (fold_left (fun cpu '(c, _) => i64 (cpu + default 0 c)) (px_containers m) 0,
       fold_left (fun mem '(_, b) => i64 (mem + default 0 b)) (px_containers m) 0, px_namespace m)
  end.

Abbreviation timePoint := (Z * spec_float)%type.

Record Seen := mkSeen {
  se_pmjs : gmap string pmjState; se_pms : gmap string pmState; se_pods : gmap string (gmap string podInc); se_snaps : gmap string snapState;
  se_events : list eventRec; se_lastTS : Z; se_gcsObjects : gmap string Z; se_gcsTotal : list timePoint;
  se_ctrlCPU : list timePoint; se_ctrlMem : list timePoint; se_maxCPU : Z; se_maxMem : Z }.
Definition nothing_seen : Seen := mkSeen ∅ ∅ ∅ ∅ [] zero_time ∅ [] [] [] 0 0.

Definition HasSuffix (s p : string) : bool :=
  (String.length p <=? String.length s)%nat && (drop_str (String.length s - String.length p) s ==s p).

Definition larger (new old : gmap string Z) : gmap string Z :=
  map_fold (fun k v out => if default 0 (out !! k) <? v then <[k := v]> out else out) old new.

Definition see_object (gvr type : string) (ts : Z) (u : ObjView) (s : Seen) : Seen :=
  let '(mkSeen pmjs pms pods snaps events last objects total cpu mem maxCPU maxMem) := s in
  if HasPrefix gvr "podmigrationjobs." then mkSeen (ingestPMJ (ov_job u) ts pmjs) pms pods snaps events last objects total cpu mem maxCPU maxMem
  else if HasPrefix gvr "podmigrations." && HasSuffix gvr ".pod-migrate.io" then
    mkSeen pmjs (ingestPM (ov_migration u) ts pms) pods snaps events last objects total cpu mem maxCPU maxMem
  else if HasPrefix gvr "podsnapshots." then mkSeen pmjs pms pods (ingestSnap (ov_snap u) ts snaps) events last objects total cpu mem maxCPU maxMem
  else if HasPrefix gvr "pods.v1" then mkSeen pmjs pms (ingestPod (ov_pod u) ts type pods) snaps events last objects total cpu mem maxCPU maxMem
  else if HasPrefix gvr "events." then
    mkSeen pmjs pms pods snaps (match ingestEvent (ov_event u) ts with Some ev => events ++ [ev] | None => events end) last objects total cpu mem maxCPU maxMem
  else s.

(** A line of the records; [None]: it does not decode. *)
Definition see_record (o : Options) (s : Seen) (line : option Rec) : Seen :=
  match line with
  | None => s
  | Some rec =>
      let ts := parseTime (rc_ts rec) in
      let '(mkSeen pmjs pms pods snaps events last objects total cpu mem maxCPU maxMem) := s in
      let last := if After ts last then ts else last in
      let s := mkSeen pmjs pms pods snaps events last objects total cpu mem maxCPU maxMem in
      if rc_type rec ==s "gcs" then
        match rc_gcs rec with
        | Some (bytes, sizes) => mkSeen pmjs pms pods snaps events last (larger sizes objects) (total ++ [(ts, f64_of_Z bytes)]) cpu mem maxCPU maxMem
        | None => s
        end
      else if rc_type rec ==s "prommetrics" then s
      else if rc_type rec ==s "podmetrics" then
        let '(c, m, ns) := podMetrics (rc_podMetrics rec) in
        if (op_controllerNS o !=s "") && (ns ==s op_controllerNS o) then
          mkSeen pmjs pms pods snaps events last objects total (cpu ++ [(ts, f64_of_Z c)]) (mem ++ [(ts, f64_of_Z m)]) (Z.max maxCPU c) (Z.max maxMem m)
        else s
      else if (rc_type rec ==s "nodemetrics") || (rc_type rec ==s "meta") || (rc_type rec ==s "error") then s
      else match rc_object rec with Some u => see_object (rc_gvr rec) (rc_type rec) ts u s | None => s end
  end.

(** ** The run *)

Record Stats := mkStats { st_n : Z; st_p50 : spec_float; st_p90 : spec_float; st_p95 : spec_float; st_p99 : spec_float; st_max : spec_float; st_mean : spec_float }.
Record Series := mkSeries { sr_name : string; sr_unit : string; sr_points : list (spec_float * spec_float) }.
Record Failure := mkFailure { fa_pmj : string; fa_pod : string; fa_kind : string; fa_phase : string; fa_detail : string; fa_events : list string }.
Record ControllerUsage := mkUsage { cu_maxCPUMilli : Z; cu_maxMemBytes : Z; cu_logErrors : Z; cu_logRetries : Z }.

(** Without the metadata and the invariants' counters. *)
Record Run := mkRun {
  ru_scenario : string; ru_migrations : list Migration; ru_stats : gmap string Stats; ru_outcomes : gmap string Z; ru_populations : gmap string Z;
  ru_checks : list Check; ru_series : list Series; ru_controller : ControllerUsage; ru_failures : list Failure }.

Definition PopPreCollection := "pre-collection".
Definition PopStaleCR := "stale-cr".

Definition bump (k : string) (m : gmap string Z) : gmap string Z := <[k := default 0 (m !! k) + 1]> m.

Definition with_population (population : string) (m : Migration) : Migration :=
  let '(mkMigration a b c d e f g h i j k l n o p q r s t u v w x y z _ aa ab ac ad ae af) := m in
  mkMigration a b c d e f g h i j k l n o p q r s t u v w x y z population aa ab ac ad ae af.

Definition not_failed (outcome : string) : bool :=
  (outcome ==s OutcomeRestored) || (outcome ==s OutcomeReplaced) || (outcome ==s OutcomeInFlight) || (outcome ==s OutcomeRefused).

(** The migrations so far, with their outcomes, populations and failures. *)
Record Tally := mkTally { ta_migrations : list Migration; ta_outcomes : gmap string Z; ta_populations : gmap string Z; ta_failures : list Failure }.

Definition population_of (collStart : Z) (m : Migration) (statusless : bool) : string :=
  let t0 := parseTime (mi_t0 m) in
  if statusless then PopStaleCR
  else if negb (IsZero collStart) && negb (IsZero t0) && Before t0 collStart then PopPreCollection
  else mi_population m.

Definition add_migration (collStart : Z) (m : Migration) (statusless : bool) (t : Tally) : Tally :=
  let m := with_population (population_of collStart m statusless) m in
  if mi_population m !=s "" then
    mkTally (ta_migrations t ++ [m]) (ta_outcomes t) (bump (mi_population m) (ta_populations t)) (ta_failures t)
  else
    mkTally (ta_migrations t ++ [m]) (bump (mi_outcome m) (ta_outcomes t)) (bump "measured" (ta_populations t))
      (if not_failed (mi_outcome m) then ta_failures t
       else ta_failures t ++ [mkFailure (mi_pmj m) (mi_pod m) (mi_outcome m) (mi_phase m) "" (mi_warnings m)]).

(** ** Durations *)

(** [ceil(p*n)-1], kept within the values. *)
Definition f64_ceil (x : spec_float) : Z :=
  match x with
  | S754_finite s m e =>
      if e <? 0 then if s then - (Z.pos m / 2 ^ (- e)) else - (- Z.pos m / 2 ^ (- e))
      else if s then - (Z.pos m * 2 ^ e) else Z.pos m * 2 ^ e
  | _ => 0
  end.
(** The constants [0.50], [0.90], [0.95] and [0.99]. *)
Definition hundredths (k : Z) : spec_float := f64_div (f64_of_Z k) (f64_of_Z 100).

Definition rank (k n : Z) : Z := Z.max 0 (Z.min (n - 1) (f64_ceil (f64_mul (hundredths k) (f64_of_Z n)) - 1)).
Definition pct (k : Z) (vals : list spec_float) : spec_float := nth (Z.to_nat (rank k (Z.of_nat (length vals)))) vals f64_zero.

Definition completed (m : Migration) : bool :=
  (mi_population m ==s "") &&
  ((mi_outcome m ==s OutcomeRestored) || (mi_outcome m ==s OutcomeReplaced) || (mi_outcome m ==s OutcomeColdStart)).

Definition distribution (ms : list Migration) (get : Migration -> spec_float) : Stats :=
  match SliceStable SFltb (List.filter known (map get (List.filter completed ms))) with
  | [] => mkStats 0 f64_zero f64_zero f64_zero f64_zero f64_zero f64_zero
  | vals =>
      mkStats (Z.of_nat (length vals)) (pct 50 vals) (pct 90 vals) (pct 95 vals) (pct 99 vals) (List.last vals f64_zero)
        (f64_div (fold_left f64_add vals f64_zero) (f64_of_Z (Z.of_nat (length vals))))
  end.

Definition stats_of (ms : list Migration) : gmap string Stats := list_to_map [
  ("snapReadyS", distribution ms mi_snapReadyS); ("evictedS", distribution ms mi_evictedS); ("e2eS", distribution ms mi_e2eS);
  ("downtimeS", distribution ms mi_downtimeS); ("gateHoldS", distribution ms mi_gateHoldS);
  ("checkpointUploadS", distribution ms (fun m => if SFleb (mi_checkpointUploadS m) f64_zero then unknown else mi_checkpointUploadS m))].

Definition toSeries (name unit : string) (pts : list timePoint) : Series :=
  mkSeries name unit (map (fun '(t, v) => (f64_of_Z (t / Second), v)) pts).

(** The lines of the controllers' logs that name an error, and those that name a retry. *)
Definition scanControllerLogs (logs : list string) : Z * Z :=
  fold_left (fun '(errors, retries) text =>
    let line := ToLower text in
    (if Contains line "error" then errors + 1 else errors, if Contains line "requeue" || Contains line "retry" then retries + 1 else retries)) logs (0, 0).

(** ** [Analyze] *)

Definition job_less (a b : pmjState) : bool :=
  if js_name a !=s js_name b then String.ltb (js_name a) (js_name b) else Before (js_created a) (js_created b).

Definition selected (o : Options) (pod : string) : bool := (op_podPrefix o ==s "") || HasPrefix pod (op_podPrefix o).

Definition Analyze (ord : forall A, nat -> list A -> list A) (o : Options) (records : list (option Rec)) (startedAt : string)
    (checks : list Check) (series : list Series) (logs : list string) : Run :=
  let wedge := if op_wedgeThreshold o <=? 0 then 10 * Minute else op_wedgeThreshold o in
  let s := fold_left (see_record o) records nothing_seen in
  let collStart := if startedAt ==s "" then zero_time else parseTime startedAt in
  let add_pm t name :=
    match se_pms s !! name with
    | Some st =>
        if selected o (mv_podName (ps_obj st)) then
          add_migration collStart (reconstructPM name st (se_lastTS s) wedge) (negb (mv_hasStatus (ps_obj st))) t
        else t
    | None => t
    end in
  let add_job t j :=
    if selected o (js_pod j) then
      add_migration collStart (reconstruct ord j (se_pods s) (se_snaps s) (se_gcsObjects s) (se_events s) (se_lastTS s) wedge) false t
    else t in
  let t := fold_left add_pm (SortStrings (map fst (map_to_list (se_pms s)))) (mkTally [] ∅ ∅ []) in
  let t := fold_left add_job (SliceStable job_less (ord _ 6%nat (map snd (map_to_list (se_pmjs s))))) t in
  let '(errors, retries) := scanControllerLogs logs in
  mkRun (op_scenario o) (ta_migrations t) (stats_of (ta_migrations t)) (ta_outcomes t) (ta_populations t) checks
    (series ++ (match se_gcsTotal s with [] => [] | pts => [toSeries "gcs-total-bytes" "bytes" pts] end) ++
     (match se_ctrlCPU s with [] => [] | pts => [toSeries "controller-cpu" "millicores" pts; toSeries "controller-mem" "bytes" (se_ctrlMem s)] end))
    (mkUsage (se_maxCPU s) (se_maxMem s) errors retries) (ta_failures t).

(** ** Assertions *)

Inductive VerifyError :=
| OutcomeAsserted (kind : string) (n : Z)
| DriverCheckFailed (c : Check)
| MigratedTooOften (pod : string) (pmjs : list string)
| ChainTooLong (pods pmjs : list string)
| NothingMeasured
| NoStateCheck
| RestoredButFailed (m : Migration) (c : Check)
| NotRestoredButPassed (m : Migration) (c : Check)
| NoSamples (metric : string)
| TooSlow (metric : string) (p95 limit : spec_float).

Definition count_of (r : Run) (outcome : string) : Z := default 0 (ru_outcomes r !! outcome).

Definition isStateSurvivalCheck (name : string) : bool :=
  Contains (ToLower name) "state survived" || Contains (ToLower name) "write continuity".

Definition excused (r : Run) (allowColdStart : bool) (c : Check) : bool :=
  allowColdStart && isStateSurvivalCheck (ck_name c) && (0 <? count_of r OutcomeColdStart) && (count_of r OutcomeRestored =? 0).

Definition VerifyOutcomes (r : Run) (allowColdStart : bool) : option VerifyError :=
  if 0 <? count_of r OutcomeWedged then Some (OutcomeAsserted OutcomeWedged (count_of r OutcomeWedged))
  else if 0 <? count_of r OutcomeFailed then Some (OutcomeAsserted OutcomeFailed (count_of r OutcomeFailed))
  else if 0 <? count_of r OutcomeNoDst then Some (OutcomeAsserted OutcomeNoDst (count_of r OutcomeNoDst))
  else if negb allowColdStart && (0 <? count_of r OutcomeColdStart) then Some (OutcomeAsserted OutcomeColdStart (count_of r OutcomeColdStart))
  else option_map DriverCheckFailed (List.find (fun c => negb (ck_pass c) && negb (excused r allowColdStart c)) (ru_checks r)).

Definition measured (r : Run) : list Migration :=
  List.filter (fun m => (mi_population m ==s "") || (mi_population m ==s "measured")) (ru_migrations r).

Definition jobs_of (ms : list Migration) (pod : string) : list string := map mi_pmj (List.filter (fun m => mi_pod m ==s pod) ms).
Definition pod_names (ms : list Migration) : list string := SortStrings (elements (list_to_set (List.filter (fun p => p !=s "") (map mi_pod ms)) : gset string)).
(** The last migration of a pod. *)
Definition last_move (ms : list Migration) (pod : string) : option Migration :=
  if pod ==s "" then None else last (List.filter (fun m => mi_pod m ==s pod) ms).

(** The chain of replacements from [curr] on; [None] when [fuel] hops were not enough. *)
Fixpoint walk_chain (fuel : nat) (ms : list Migration) (visited : gset string) (curr : string) : option (list string * list string) :=
  match last_move ms curr with
  | None => Some ([], [])
  | Some next =>
      if mi_pmj next ==s "" then Some ([], [])
      else if (mi_dstPod next ==s "") || bool_decide (mi_dstPod next ∈ visited) then Some ([], [mi_pmj next])
      else
        match fuel with
        | O => None
        | S fuel =>
            '(pods, pmjs) ← walk_chain fuel ms ({[ mi_dstPod next ]} ∪ visited) (mi_dstPod next);
            Some (mi_dstPod next :: pods, mi_pmj next :: pmjs)
        end
  end.

Definition chain_of (fuel : nat) (ms : list Migration) (m : Migration) : option (list string * list string) :=
  '(pods, pmjs) ← walk_chain fuel ms {[ mi_pod m; mi_dstPod m ]} (mi_dstPod m);
  Some (mi_pod m :: mi_dstPod m :: pods, mi_pmj m :: pmjs).

(** The first chain that is too long; [None]: out of fuel. *)
Fixpoint first_long_chain (fuel : nat) (ms todo : list Migration) (maxPerPod : Z) : option (option VerifyError) :=
  match todo with
  | [] => Some None
  | m :: todo =>
      if (mi_pod m ==s "") || (mi_dstPod m ==s "") || (mi_dstPod m ==s mi_pod m) then first_long_chain fuel ms todo maxPerPod
      else
        '(pods, pmjs) ← chain_of fuel ms m;
        if maxPerPod <? Z.of_nat (length pmjs) then Some (Some (ChainTooLong pods pmjs)) else first_long_chain fuel ms todo maxPerPod
  end.

(** As many hops as there are migrations are enough. *)
Definition VerifyMaxMigrationsPerPod (r : Run) (maxPerPod : Z) : option (option VerifyError) :=
  if maxPerPod <=? 0 then Some None
  else
    let ms := measured r in
    match List.find (fun pod => maxPerPod <? Z.of_nat (length (jobs_of ms pod))) (pod_names ms) with
    | Some pod => Some (Some (MigratedTooOften pod (jobs_of ms pod)))
    | None => first_long_chain (length ms) ms ms maxPerPod
    end.

(** Whether a migration reports a restore. *)
Definition reports_restored (m : Migration) : bool :=
  mi_restored m || (mi_outcome m ==s OutcomeRestored) || HasSuffix (mi_restoreSignal m) ":RestoreVerified" ||
  HasSuffix (mi_restoreSignal m) ":RestoreInferred" || (mi_restoreSignal m ==s "psengine-restore:restored").

(** The migrations a check is held against: its group's, or all of them. *)
Definition matched (ms : list Migration) (c : Check) : list Migration :=
  match (if ck_group c ==s "" then [] else List.filter (fun m => Contains (mi_pod m) (ck_group c) || Contains (mi_pmj m) (ck_group c)) ms) with
  | [] => ms
  | l => l
  end.

Definition mismatch (c : Check) (m : Migration) : option VerifyError :=
  if reports_restored m && negb (ck_pass c) then Some (RestoredButFailed m c)
  else if negb (reports_restored m) && ck_pass c then Some (NotRestoredButPassed m c)
  else None.

Definition VerifyVerdictMatchesData (r : Run) : option VerifyError :=
  match measured r with
  | [] => Some NothingMeasured
  | ms =>
      match List.filter (fun c => isStateSurvivalCheck (ck_name c)) (ru_checks r) with
      | [] => Some NoStateCheck
      | checks => head (flat_map (fun c => omap (mismatch c) (matched ms c)) checks)
      end
  end.

Record SLOThresholds := mkSLO { sl_gateHoldP95 : Z; sl_downtimeP95 : Z; sl_e2eP95 : Z }.
Definition DefaultSLOThresholds : SLOThresholds := mkSLO (60 * Second) (60 * Second) (180 * Second).

Definition verify_metric (r : Run) (metric : string) (limit : Z) : option VerifyError :=
  if limit <=? 0 then None
  else
    let s := default (mkStats 0 f64_zero f64_zero f64_zero f64_zero f64_zero f64_zero) (ru_stats r !! metric) in
    if st_n s =? 0 then Some (NoSamples metric)
    else if SFltb (Seconds limit) (st_p95 s) then Some (TooSlow metric (st_p95 s) (Seconds limit)) else None.

Definition VerifySLO (r : Run) (slo : SLOThresholds) : option VerifyError :=
  if default 0 (ru_populations r !! "measured") =? 0 then Some NothingMeasured
  else
    match verify_metric r "gateHoldS" (sl_gateHoldP95 slo) with
    | Some err => Some err
    | None =>
        match verify_metric r "downtimeS" (sl_downtimeP95 slo) with
        | Some err => Some err
        | None => verify_metric r "e2eS" (sl_e2eP95 slo)
        end
    end.
