(* ===== verification/ProfilerLaws.v ===== *)
(** * The profiler, proved

    Percentiles and thresholds, the tally of a run, the verdict on a restore, and the
    search for replacement chains. *)
From Stdlib Require Import SpecFloat Sorting.Sorted.
From S2P Require Import Prelude GoLib Continuity Profiler Reconstruct ProfilerRun.

(** ** The order of durations *)

(** Known durations, as triples that are ordered as they are. *)
Definition key (x : spec_float) : Z * Z * Z :=
  match x with
  | S754_zero _ => (0, 0, 0)
  | S754_finite false m e => (1, e, Z.pos m)
  | S754_infinity false => (2, 0, 0)
  | _ => (3, 0, 0)
  end.
Definition key_ltb (x y : spec_float) : bool :=
  let '(a, b, c) := key x in let '(a', b', c') := key y in
  (a <? a') || ((a =? a') && ((b <? b') || ((b =? b') && (c <? c')))).

Lemma key_asym x y : key_ltb x y = true -> key_ltb y x = false.
Proof. unfold key_ltb. destruct (key x) as [[a b] c], (key y) as [[a' b'] c']. lia. Qed.
Lemma key_le_trans x y z : key_ltb y x = false -> key_ltb z y = false -> key_ltb z x = false.
Proof. unfold key_ltb. destruct (key x) as [[a b] c], (key y) as [[a' b'] c'], (key z) as [[a'' b''] c'']. lia. Qed.

Lemma known_key x y : known x = true -> known y = true -> SFltb x y = key_ltb x y.
Proof.
  unfold known, SFltb, SFleb, key_ltb. destruct x as [|[]| |[] m e], y as [|[]| |[] m' e']; simpl; try done. intros _ _.
  change (Pos.compare_cont Eq m m') with (Pos.compare m m'). 
  destruct (Z.compare_spec e e'); [subst; destruct (Pos.compare_spec m m')| |]; lia.
Qed.

Lemma limit_mono lim x y : known x = true -> known y = true -> key_ltb y x = false -> SFltb lim y = false -> SFltb lim x = false.
Proof.
  unfold known, SFltb, SFleb, key_ltb. destruct x as [|[]| |[] m e], y as [|[]| |[] m' e'], lim as [|[]| |[] m'' e'']; simpl; try done.
  all: intros _ _.
  change (Pos.compare_cont Eq m'' m) with (Pos.compare m'' m). change (Pos.compare_cont Eq m'' m') with (Pos.compare m'' m').
  destruct (Z.compare_spec e'' e), (Z.compare_spec e'' e'); try done; try lia; subst; try lia.
  destruct (Pos.compare_spec m'' m), (Pos.compare_spec m'' m'); try done; lia.
Qed.

Lemma SliceStable_ext {A} (f g : A -> A -> bool) l : (forall x y, In x l -> In y l -> f x y = g x y) -> SliceStable f l = SliceStable g l.
Proof.
  assert (forall x k, (forall y, In y k -> f y x = g y x) -> insert_stable f x k = insert_stable g x k) as Hins.
  { intros x k. induction k as [|y k IH]; intros H; simpl; [done|]. rewrite (H y) by (by left). destruct (g y x); [|done].
    rewrite IH; [done|]. intros z Hz. apply H. by right. }
  induction l as [|x l IH]; intros H; simpl; [done|]. rewrite IH by (intros; apply H; by right). apply Hins.
  intros y Hy%SliceStable_In. apply H; [by right|by left].
Qed.

(** Sorting known durations. *)
Lemma durations_sorted l : Forall (fun x => known x = true) l -> StronglySorted (not_after key_ltb) (SliceStable SFltb l).
Proof.
  intros Hl. rewrite (SliceStable_ext SFltb key_ltb).
  - apply SliceStable_sorted; [apply key_asym|apply key_le_trans].
  - rewrite List.Forall_forall in Hl. intros x y Hx Hy. apply known_key; auto.
Qed.

(** ** Percentiles *)

(** Nearest rank, for up to 500 values: [ceil(p*n)] of float64 is that of the numbers. *)
Definition most_values : Z := 500.
Lemma ranks_exact : forallb (fun n => forallb (fun k => rank k (Z.of_nat n) =? (k * Z.of_nat n + 99) / 100 - 1) [50; 90; 95; 99]) (seq 1 (Z.to_nat most_values)) = true.
Proof. vm_compute. reflexivity. Qed.

Lemma rank_covers k n : In k [50; 90; 95; 99] -> 0 < n <= most_values -> 0 <= rank k n < n /\ k * n <= 100 * (rank k n + 1).
Proof.
  intros Hk Hn. pose proof ranks_exact as H. rewrite forallb_forall in H. specialize (H (Z.to_nat n)).
  rewrite forallb_forall in H. specialize (fun Hin => H Hin k Hk). cbv beta in H. rewrite Z2Nat.id in H by lia.
  assert (rank k n = (k * n + 99) / 100 - 1) as Hr by (apply Z.eqb_eq, H, in_seq; unfold most_values in *; lia).
  rewrite Hr. pose proof (Z.div_mod (k * n + 99) 100 ltac:(lia)). pose proof (Z.mod_pos_bound (k * n + 99) 100 ltac:(lia)).
  assert (50 <= k <= 99) by (simpl in Hk; lia). nia.
Qed.

(** What holds of a value and is inherited by those before it holds of as many as its position. *)
Lemma sorted_count {A} (R : A -> A -> Prop) (f : A -> bool) d l i :
  StronglySorted R l -> (forall x y, In x l -> In y l -> R x y -> f y = true -> f x = true) ->
  (i < length l)%nat -> f (nth i l d) = true -> (i < length (List.filter f l))%nat.
Proof.
  intros Hs. revert i. induction Hs as [|x l Hs IH Hall]; intros i Hf Hi Hv; simpl in *; [lia|].
  rewrite List.Forall_forall in Hall. destruct i as [|i].
  - rewrite Hv. simpl. lia.
  - assert (In (nth i l d) l) as Hin by (apply nth_In; lia).
    rewrite (Hf x (nth i l d)) by auto. simpl. specialize (IH i (fun a b Ha Hb => Hf a b (or_intror Ha) (or_intror Hb)) ltac:(lia) Hv). lia.
Qed.

(** The known durations of the completed migrations, and those that do not exceed a limit. *)
Definition durations (ms : list Migration) (get : Migration -> spec_float) : list spec_float := List.filter known (map get (List.filter completed ms)).
Definition within (limit : Z) (vals : list spec_float) : list spec_float := List.filter (fun v => negb (SFltb (Seconds limit) v)) vals.

Lemma pct_covers k limit ms get :
  let vals := durations ms get in let n := Z.of_nat (length vals) in
  In k [50; 90; 95; 99] -> 0 < n <= most_values -> SFltb (Seconds limit) (pct k (SliceStable SFltb vals)) = false ->
  k * n <= 100 * Z.of_nat (length (within limit vals)).
Proof.
  intros vals n Hk Hn Hp. pose proof (rank_covers k n Hk Hn) as [Hr Hc].
  pose proof (Permutation_length (SliceStable_perm SFltb vals)) as Hlen.
  assert (Forall (fun x => known x = true) vals) as Hkn by (apply List.Forall_forall; intros x [_ Hx]%filter_In; done).
  unfold within. rewrite (Permutation_length (filter_perm _ _ _ (SliceStable_perm SFltb vals))).
  enough (Z.to_nat (rank k n) < length (List.filter (fun v => negb (SFltb (Seconds limit) v)) (SliceStable SFltb vals)))%nat by lia.
  apply sorted_count with (R := not_after key_ltb) (d := f64_zero).
  - by apply durations_sorted.
  - rewrite List.Forall_forall in Hkn. intros x y Hx%SliceStable_In Hy%SliceStable_In Hle Hf. unfold not_after in Hle.
    rewrite negb_true_iff in *. by apply (limit_mono _ x y); auto.
  - lia.
  - unfold pct in Hp. rewrite <- Hlen in Hp. fold n in Hp. by rewrite Hp.
Qed.

Lemma distribution_passes ms get limit metric stats :
  stats !! metric = Some (distribution ms get) -> (length ms <= Z.to_nat most_values)%nat ->
  forall r, ru_stats r = stats -> verify_metric r metric limit = None -> 0 < limit ->
  durations ms get <> [] /\ 95 * Z.of_nat (length (durations ms get)) <= 100 * Z.of_nat (length (within limit (durations ms get))).
Proof.
  intros Hs Hms r Hr Hv Hl. unfold verify_metric in Hv. assert ((limit <=? 0) = false) as Hl0 by lia. rewrite Hl0, Hr, Hs in Hv. cbn [default] in Hv.
  pose proof (Permutation_length (SliceStable_perm SFltb (durations ms get))) as Hlen.
  unfold distribution in Hv. fold (durations ms get) in Hv. destruct (SliceStable SFltb (durations ms get)) as [|x vals] eqn:Hd; [done|].
  cbn [st_n st_p95] in Hv. destruct (_ =? 0); [done|]. destruct (SFltb _ _) eqn:Hp; [done|]. clear Hv.
  split; [intros He; by rewrite He in Hlen|]. apply pct_covers; [by repeat (first [by left|right])| |by rewrite Hd].
  assert (length (durations ms get) <= length ms)%nat.
  { unfold durations. etransitivity; [apply filter_length_le|]. rewrite length_map. apply filter_length_le. }
  simpl in Hlen. unfold most_values in *. lia.
Qed.

(** ** The tally *)

Definition counted (m : Migration) : bool := mi_population m ==s "".
Definition failure_of (m : Migration) : Failure := mkFailure (mi_pmj m) (mi_pod m) (mi_outcome m) (mi_phase m) "" (mi_warnings m).
Definition with_outcome (outcome : string) (ms : list Migration) : list Migration := List.filter (fun m => counted m && (mi_outcome m ==s outcome)) ms.

Record tallied (t : Tally) : Prop := {
  tl_outcomes : forall outcome, default 0 (ta_outcomes t !! outcome) = Z.of_nat (length (with_outcome outcome (ta_migrations t)));
  tl_measured : default 0 (ta_populations t !! "measured") = Z.of_nat (length (List.filter counted (ta_migrations t)));
  tl_populations : forall p, p <> "" -> p <> "measured" ->
    default 0 (ta_populations t !! p) = Z.of_nat (length (List.filter (fun m => mi_population m ==s p) (ta_migrations t)));
  tl_failures : ta_failures t = map failure_of (List.filter (fun m => counted m && negb (not_failed (mi_outcome m))) (ta_migrations t));
  tl_labels : Forall (fun m => mi_population m <> "measured") (ta_migrations t) }.

Lemma bump_lookup k k' m : default 0 (bump k m !! k') = default 0 (m !! k') + (if k ==s k' then 1 else 0).
Proof.
  unfold bump. destruct (k ==s k') eqn:He; bool_props; [subst; by rewrite lookup_insert_eq|]. rewrite lookup_insert_ne by done. lia.
Qed.

Lemma filter_snoc {A} (f : A -> bool) l x : List.filter f (l ++ [x]) = List.filter f l ++ (if f x then [x] else []).
Proof. rewrite List.filter_app. done. Qed.

Lemma with_population_fields p m : mi_population (with_population p m) = p /\ mi_outcome (with_population p m) = mi_outcome m.
Proof. by destruct m. Qed.

Lemma add_tallied collStart m statusless t : mi_population m = "" -> tallied t -> tallied (add_migration collStart m statusless t).
Proof.
  intros Hm [H1 H2 H3 H4 H5]. unfold add_migration. set (p := population_of collStart m statusless).
  assert (p <> "measured") as Hp.
  { unfold p, population_of. destruct statusless; [done|]. destruct (_ && _); [done|]. by rewrite Hm. }
  destruct (with_population_fields p m) as [Ep _]. set (m' := with_population p m) in *. clearbody m' p. subst p.
  unfold counted in *. destruct (mi_population m' ==s "") eqn:He; cbn [negb]; constructor; simpl;
    intros; unfold with_outcome, counted in *; rewrite ?bump_lookup, ?filter_snoc, ?length_app, ?map_app; rewrite ?He; cbn [andb];
    rewrite ?H1, ?H2, ?H3, ?H4 by done; try (apply Forall_app; split; [done|by constructor]).
  - destruct (mi_outcome m' ==s outcome); simpl; lia.
  - simpl. lia.
  - assert (("measured" ==s p) = false) as -> by (apply seqb_false; congruence). bool_props. rewrite He.
    assert (("" ==s p) = false) as -> by (apply seqb_false; congruence). simpl. lia.
  - destruct (not_failed (mi_outcome m')); simpl; [by rewrite app_nil_r|done].
  - simpl. lia.
  - assert ((mi_population m' ==s "measured") = false) as -> by (by apply seqb_false). simpl. lia.
  - destruct (mi_population m' ==s p); simpl; lia.
  - simpl. by rewrite app_nil_r.
Qed.

Lemma fold_tallied {A} (f : Tally -> A -> Tally) l t : (forall t x, tallied t -> tallied (f t x)) -> tallied t -> tallied (fold_left f l t).
Proof. intros Hf. revert t. induction l as [|x l IH]; simpl; auto. Qed.

Lemma reconstruct_population ord j pods snaps objects events lastTS wedge : mi_population (reconstruct ord j pods snaps objects events lastTS wedge) = "".
Proof. unfold reconstruct. by destruct (source_and_replacement ord j wedge pods), (find_snapshot ord j snaps). Qed.

Lemma no_migrations_tallied : tallied (mkTally [] ∅ ∅ []).
Proof. constructor; simpl; intros; rewrite ?lookup_empty; done. Qed.

Lemma Analyze_tallied ord o records startedAt checks series logs :
  exists t, tallied t /\ ru_migrations (Analyze ord o records startedAt checks series logs) = ta_migrations t /\
    ru_outcomes (Analyze ord o records startedAt checks series logs) = ta_outcomes t /\
    ru_populations (Analyze ord o records startedAt checks series logs) = ta_populations t /\
    ru_failures (Analyze ord o records startedAt checks series logs) = ta_failures t /\
    ru_stats (Analyze ord o records startedAt checks series logs) = stats_of (ta_migrations t).
Proof.
  unfold Analyze. destruct (scanControllerLogs logs) as [errors retries]. eexists. split; [|simpl; done].
  apply fold_tallied; [|apply fold_tallied; [|exact no_migrations_tallied]].
  - intros t j Ht. destruct (selected _ _); [|done]. apply add_tallied; [|done]. apply reconstruct_population.
  - intros t name Ht. destruct (_ !! name); [|done]. destruct (selected _ _); [|done]. by apply add_tallied.
Qed.

(** C29: A run's numbers are those of its migrations: every outcome is counted once for each
    measured migration that has it, the populations partition the migrations, and the
    failures are the measured migrations that neither went well nor were refused. *)
Theorem run_tally_exact ord o records startedAt checks series logs r :
  r = Analyze ord o records startedAt checks series logs ->
  (forall outcome, count_of r outcome = Z.of_nat (length (with_outcome outcome (ru_migrations r)))) /\
  (forall population, population <> "" ->
     default 0 (ru_populations r !! population) =
     Z.of_nat (length (List.filter (fun m => if population ==s "measured" then counted m else mi_population m ==s population) (ru_migrations r)))) /\
  ru_failures r = map failure_of (List.filter (fun m => counted m && negb (not_failed (mi_outcome m))) (ru_migrations r)).
Proof.
  intros ->. destruct (Analyze_tallied ord o records startedAt checks series logs) as (t & [H1 H2 H3 H4 H5] & Hm & Ho & Hp & Hf & _).
  unfold count_of. rewrite Hm, Ho, Hp, Hf. split; [done|]. split; [|done].
  intros p Hne. destruct (p ==s "measured") eqn:He; bool_props; [by subst|by apply H3].
Qed.

(** C33: The latency assertion means what it says.  When it passes, then for each metric with a
    threshold there are measured, completed migrations whose duration is known, and at least
    95 of 100 of those durations do not exceed the threshold (runs of up to 500 migrations). *)
Theorem slo_passed_holds ord o records startedAt checks series logs slo r get limit :
  r = Analyze ord o records startedAt checks series logs -> VerifySLO r slo = None -> (length (ru_migrations r) <= Z.to_nat most_values)%nat ->
  In (get, limit) [(mi_gateHoldS, sl_gateHoldP95 slo); (mi_downtimeS, sl_downtimeP95 slo); (mi_e2eS, sl_e2eP95 slo)] -> 0 < limit ->
  durations (ru_migrations r) get <> [] /\
  95 * Z.of_nat (length (durations (ru_migrations r) get)) <= 100 * Z.of_nat (length (within limit (durations (ru_migrations r) get))).
Proof.
  intros -> Hv Hms Hin Hl. destruct (Analyze_tallied ord o records startedAt checks series logs) as (t & _ & Hm & _ & _ & _ & Hst).
  revert Hv Hms Hm Hst. generalize (Analyze ord o records startedAt checks series logs). intros r Hv Hms Hm Hst. rewrite <- Hm in Hst. clear Hm.
  unfold VerifySLO in Hv. destruct (_ =? 0); [done|].
  destruct (verify_metric r "gateHoldS" _) eqn:H1; [done|]. destruct (verify_metric r "downtimeS" _) eqn:H2; [done|].
  destruct Hin as [[= <- <-]|[[= <- <-]|[[= <- <-]|[]]]]; (eapply distribution_passes; [|exact Hms|exact Hst|eassumption|exact Hl]); reflexivity.
Qed.

(** ** The verdict on a restore *)

Section Verdicts.
Context (ord : forall A, nat -> list A -> list A) (ord_perm : forall A site (l : list A), Permutation (ord A site l) l).
Context (j : pmjState) (wedge : Z) (pods : gmap string (gmap string podInc)).

(** A pod that the records showed. *)
Definition observed (d : podInc) : Prop := exists name uid incs, pods !! name = Some incs /\ incs !! uid = Some d.

Lemma In_values {A} (m : gmap string A) site x : In x (ord _ site (map snd (map_to_list m))) -> exists k, m !! k = Some x.
Proof.
  intros Hx. apply (Permutation_in _ (ord_perm _ _ _)) in Hx. apply in_map_iff in Hx as ([k y] & <- & Hy).
  exists k. by apply elem_of_map_to_list, list_elem_of_In.
Qed.
Lemma incarnations_observed site name d : In d (incarnations ord pods site name) -> observed d.
Proof. unfold incarnations. destruct (pods !! name) as [incs|] eqn:Hn; [|done]. intros [uid Hd]%In_values. by exists name, uid, incs. Qed.
Lemma all_incarnations_observed site d : In d (all_incarnations ord pods site) -> observed d.
Proof. unfold all_incarnations. intros (incs & [name Hn]%In_values & [uid Hd]%In_values)%in_flat_map. by exists name, uid, incs. Qed.

(** A loop that keeps its choice or takes the element at hand. *)
Lemma fold_choice (P : podInc -> Prop) (f : option podInc -> podInc -> option podInc) l :
  (forall c i, f c i = c \/ f c i = Some i) -> (forall i, In i l -> P i) -> forall c d, (forall d, c = Some d -> P d) -> fold_left f l c = Some d -> P d.
Proof.
  intros Hf. induction l as [|i l IH]; simpl; intros Hl c d Hc; [apply Hc|]. apply IH; [auto|].
  intros d' Hd'. destruct (Hf c i) as [He|He]; rewrite He in Hd'; [by apply Hc|]. injection Hd' as <-. auto.
Qed.

Ltac choose_one := intros ? ?; repeat case_match; auto.

Lemma same_name_observed l src dst : (forall i, In i l -> observed i) -> (forall d, dst = Some d -> observed d) ->
  forall d, snd (fold_left (fun '(src, dst) i =>
    if pi_uid i ==s js_targetUID j then (Some i, dst)
    else if bool_decide (is_Some src) && inWindow j wedge (pi_created i) then
      match dst with
      | None => (src, Some i)
      | Some d => (src, if IsZero (pi_readyLTT d) && negb (IsZero (pi_readyLTT i)) then Some i else dst)
      end
    else (src, dst)) l (src, dst)) = Some d -> observed d.
Proof.
  revert src dst. induction l as [|i l IH]; intros src dst Hl Hdst; [exact Hdst|]. cbn [fold_left].
  assert (observed i) as Hi by (apply Hl; by left). assert (forall k, In k l -> observed k) as Hl' by (intros; apply Hl; by right).
  destruct (pi_uid i ==s js_targetUID j); [by apply IH|]. destruct (_ && _); [|by apply IH].
  destruct dst as [d|]; [|apply IH; [done|by intros ? [= <-]]].
  destruct (_ && _); apply IH; try done. by intros ? [= <-].
Qed.

Lemma replacement_observed d : snd (source_and_replacement ord j wedge pods) = Some d -> observed d.
Proof.
  unfold source_and_replacement. destruct (by_name ord j wedge pods) as [src dst] eqn:Hn. cbn [snd].
  assert (forall d, dst = Some d -> observed d) as H0.
  { unfold by_name in Hn. destruct (same_name _ _ _) as [s x] eqn:Hs. injection Hn as _ <-. intros d' ->.
    eapply (same_name_observed _ None None); [| |unfold same_name in Hs; rewrite Hs; done]; [|done].
    intros i Hi%SliceStable_In. by eapply incarnations_observed. }
  assert (forall d, by_status ord j pods src = Some d -> observed d) as H1.
  { intros d'. unfold by_status. destruct (_ ==s ""); [done|].
    destruct (if _ ==s "" then None else _) as [p|] eqn:Hp.
    - intros [= <-]. destruct (_ ==s ""); [done|]. destruct (pods !! _) as [incs|] eqn:Hi; [|done]. by eexists _, _, incs.
    - apply fold_choice; [choose_one| |done]. intros i. apply incarnations_observed. }
  assert (forall site label d, by_label ord j wedge pods site label src = Some d -> observed d) as H2.
  { intros site label d'. unfold by_label. destruct src as [s|]; [|done]. destruct (_ ==s ""); [done|].
    apply fold_choice; [choose_one| |done]. intros i. apply all_incarnations_observed. }
  set (dst' := or_else _ _). assert (forall d, dst' = Some d -> observed d) as H3.
  { intros d'. unfold dst', or_else. repeat case_match; naive_solver. }
  clearbody dst'. unfold after_crash. destruct src as [s|], dst' as [d'|]; try (by apply H3). destruct (_ && _ && _); [|by apply H3].
  apply fold_choice; [choose_one| |exact H3]. intros i. apply all_incarnations_observed.
Qed.

End Verdicts.

(** The profiler never claims a restore that nobody stated.  A job's migration counts as
    restored only if the job Succeeded and a pod the records showed, its replacement, carries the
    engine's word that it was restored, or carries no word at all while the job's own Restored
    condition is True; and the evidence recorded says which. *)
Theorem restored_only_signalled ord j pods snaps objects events lastTS wedge m :
  (forall A site (l : list A), Permutation (ord A site l) l) -> m = reconstruct ord j pods snaps objects events lastTS wedge ->
  (mi_outcome m = OutcomeRestored -> mi_restored m = true /\ js_lastPhase j = "Succeeded") /\
  (mi_restored m = true -> exists d, observed pods d /\ mi_dstPod m = pi_name d /\
     ((pi_psRestore d = "restored" /\ mi_restoreEvidence m = EvidenceEngine) \/
      (pi_psRestore d = "" /\ js_restoredCondStatus j = "True" /\ mi_restoreEvidence m <> EvidenceEngine))).
Proof.
  intros Hord ->. pose proof (replacement_observed ord Hord j wedge pods) as Hd. unfold reconstruct.
  destruct (source_and_replacement ord j wedge pods) as [src dst], (find_snapshot ord j snaps) as [sn snap]. cbn [mi_outcome mi_restored mi_dstPod mi_restoreEvidence snd] in *.
  split.
  - unfold outcome_of. destruct (js_lastPhase j ==s "Succeeded") eqn:Hp; [|repeat case_match; done]. bool_props.
    destruct dst as [d|]; [|done]. destruct (vd_restored _); [done|]. destruct (_ ==s "failed"); done.
  - destruct dst as [d|]; [|done]. intros Hr. exists d. split; [by apply Hd|]. split; [done|]. unfold restore_verdict in *.
    destruct (pi_psRestore d !=s "") eqn:Hps; cbn [vd_restored vd_evidence] in *; bool_props; [by left|]. right.
    destruct (js_restoredCondStatus j ==s "True") eqn:Hc; cbn [vd_restored vd_evidence] in *; bool_props; [|by destruct (_ || _)].
    split_and!; [done..|]. unfold jobRestoreEvidence. repeat case_match; done.
Qed.

(** ** Chains of replacements *)

Lemma size_list_to_set_le (l : list string) : (size (list_to_set l : gset string) <= length l)%nat.
Proof.
  induction l as [|x l IH]; [by rewrite list_to_set_nil, size_empty|]. rewrite list_to_set_cons, size_union_alt, size_singleton.
  assert (size ((list_to_set l : gset string) ∖ {[x]}) <= size (list_to_set l : gset string))%nat by (apply subseteq_size; set_solver). simpl. lia.
Qed.

Definition pods_of (ms : list Migration) : gset string := list_to_set (map mi_pod ms).

Lemma last_move_pod ms curr m : last_move ms curr = Some m -> curr ∈ pods_of ms /\ In m ms.
Proof.
  unfold last_move. destruct (curr ==s ""); [done|]. intros Hl%last_Some. destruct Hl as [l' Hl].
  assert (In m (List.filter (fun m => mi_pod m ==s curr) ms)) as [Hin He]%filter_In by (rewrite Hl; apply in_or_app; right; by left).
  bool_props. split; [|done]. unfold pods_of. apply elem_of_list_to_set, list_elem_of_In, in_map_iff. by exists m.
Qed.

Lemma walk_ends fuel ms visited curr : (size (pods_of ms ∖ visited) < fuel)%nat -> walk_chain fuel ms visited curr <> None.
Proof.
  revert visited curr. induction fuel as [|fuel IH]; intros visited curr Hf; [lia|]. cbn [walk_chain].
  destruct (last_move ms curr) as [next|] eqn:Hn; [|done]. destruct (mi_pmj next ==s ""); [done|].
  destruct (mi_dstPod next ==s ""); [done|]. cbn [orb]. destruct (bool_decide _) eqn:Hv; [done|]. apply bool_decide_eq_false in Hv.
  set (dst := mi_dstPod next) in *. enough (walk_chain fuel ms ({[dst]} ∪ visited) dst <> None) as He.
  { destruct (walk_chain fuel ms ({[dst]} ∪ visited) dst) as [[? ?]|]; done. }
  destruct (decide (dst ∈ pods_of ms)) as [Hd|Hd].
  - apply IH. assert (size (pods_of ms ∖ ({[dst]} ∪ visited)) < size (pods_of ms ∖ visited))%nat; [|lia].
    apply subset_size. set_solver.
  - assert (last_move ms dst = None) as He.
    { destruct (last_move ms dst) eqn:He; [|done]. by apply last_move_pod in He as [? _]. }
    destruct fuel; cbn [walk_chain]; by rewrite He.
Qed.

Lemma chain_ends ms m : In m ms -> chain_of (length ms) ms m <> None.
Proof.
  intros Hm. unfold chain_of. enough (walk_chain (length ms) ms {[mi_pod m; mi_dstPod m]} (mi_dstPod m) <> None) as He.
  { by destruct (walk_chain _ _ _ _) as [[? ?]|]. }
  apply walk_ends. assert (mi_pod m ∈ pods_of ms) as Hp by (unfold pods_of; apply elem_of_list_to_set, list_elem_of_In, in_map_iff; by exists m).
  apply Nat.lt_le_trans with (size (pods_of ms)); [apply subset_size; set_solver|].
  unfold pods_of. rewrite <- (length_map mi_pod ms). apply size_list_to_set_le.
Qed.

(** A chain: each migration is the last one of the pod that the one before it made, and
    all but the last of them make a pod that is new to the chain. *)
Fixpoint chain (ms : list Migration) (visited : gset string) (curr : string) (l : list Migration) : Prop :=
  match l with
  | [] => True
  | next :: l =>
      last_move ms curr = Some next /\ mi_pmj next <> "" /\
      (l = [] \/ (mi_dstPod next <> "" /\ (mi_dstPod next ∉ visited) /\ chain ms ({[mi_dstPod next]} ∪ visited) (mi_dstPod next) l))
  end.

Lemma walk_covers fuel ms visited curr pods pmjs l :
  walk_chain fuel ms visited curr = Some (pods, pmjs) -> chain ms visited curr l -> (length l <= length pmjs)%nat.
Proof.
  revert visited curr pods pmjs l. induction fuel as [|fuel IH]; intros visited curr pods pmjs [|next l]; simpl; try lia.
  - intros Hw (Hn & Hp & Hl). rewrite Hn in Hw. destruct (mi_pmj next ==s "") eqn:E1; bool_props; [done|].
    destruct (_ || _) eqn:E2; [|done]. injection Hw as <- <-. simpl. destruct Hl as [->|(Hd & Hv & _)]; [simpl; lia|].
    apply orb_true_iff in E2 as [E2|E2]; [by bool_props|by apply bool_decide_eq_true in E2].
  - intros Hw (Hn & Hp & Hl). rewrite Hn in Hw. destruct (mi_pmj next ==s "") eqn:E1; bool_props; [done|].
    destruct Hl as [->|(Hd & Hv & Hl)].
    { simpl. destruct (_ || _); [injection Hw as <- <-; simpl; lia|]. destruct (walk_chain _ _ _ _) as [[? ?]|]; [|done]. injection Hw as <- <-. simpl. lia. }
    assert ((mi_dstPod next ==s "") || bool_decide (mi_dstPod next ∈ visited) = false) as E2.
    { apply orb_false_iff. split; [by apply seqb_false|by apply bool_decide_eq_false]. }
    rewrite E2 in Hw. destruct (walk_chain _ _ _ _) as [[pods' pmjs']|] eqn:Hw'; [|done]. injection Hw as <- <-.
    specialize (IH _ _ _ _ _ Hw' Hl). simpl. lia.
Qed.

Lemma first_long_chain_spec ms todo maxPerPod : incl todo ms ->
  first_long_chain (length ms) ms todo maxPerPod <> None /\
  (first_long_chain (length ms) ms todo maxPerPod = Some None ->
     forall m l, In m todo -> mi_pod m <> "" -> mi_dstPod m <> "" -> mi_dstPod m <> mi_pod m ->
       chain ms {[mi_pod m; mi_dstPod m]} (mi_dstPod m) l -> Z.of_nat (length (m :: l)) <= maxPerPod).
Proof.
  induction todo as [|x todo IH]; intros Hincl; cbn [first_long_chain]; [split; [done|by intros _ ? ? []]|].
  destruct (IH (fun y Hy => Hincl y (or_intror Hy))) as [IH1 IH2].
  destruct (_ || _) eqn:Hskip.
  { split; [done|]. intros Hn m l [->|Hm] H1 H2 H3 Hc; [|by apply IH2]. apply orb_true_iff in Hskip as [[Hs|Hs]%orb_true_iff|Hs]; by apply seqb_true in Hs. }
  pose proof (chain_ends ms x (Hincl x (or_introl eq_refl))) as He. destruct (chain_of (length ms) ms x) as [[pods pmjs]|] eqn:Hc; [|done]. simpl.
  destruct (maxPerPod <? _) eqn:Hlong; [by split|]. split; [done|]. intros Hn m l [->|Hm] H1 H2 H3 Hch; [|by apply (IH2 Hn m l)].
  unfold chain_of in Hc. destruct (walk_chain _ _ _ _) as [[pods' pmjs']|] eqn:Hw; [|done]. injection Hc as _ <-.
  pose proof (walk_covers _ _ _ _ _ _ _ Hw Hch). simpl in *. bool_props. lia.
Qed.


(** ** The verdict and the data *)

Definition state_checks (r : Run) : list Check := List.filter (fun c => isStateSurvivalCheck (ck_name c)) (ru_checks r).

(** The S7 assertion passes exactly the runs with measured migrations and with checks of the
    application's state, in which every such check agrees with each migration it is held against. *)
Theorem verdict_matches_exact r :
  VerifyVerdictMatchesData r = None <->
  measured r <> [] /\ state_checks r <> [] /\
  (forall c m, In c (state_checks r) -> In m (matched (measured r) c) -> reports_restored m = ck_pass c).
Proof.
  unfold VerifyVerdictMatchesData. fold (state_checks r). destruct (measured r) as [|m0 ms]; [naive_solver|].
  destruct (state_checks r) as [|c0 cs]; [naive_solver|].
  assert (forall c m, mismatch c m = None <-> reports_restored m = ck_pass c) as Hmis.
  { intros c m. unfold mismatch. by destruct (reports_restored m), (ck_pass c). }
  transitivity (flat_map (fun c => omap (mismatch c) (matched (m0 :: ms) c)) (c0 :: cs) = []).
  { generalize (flat_map (fun c => omap (mismatch c) (matched (m0 :: ms) c)) (c0 :: cs)). intros [|e l]; done. }
  generalize (c0 :: cs) (m0 :: ms) (not_eq_sym (nil_cons (x := c0) (l := cs))) (not_eq_sym (nil_cons (x := m0) (l := ms))).
  intros checks all Hc Ha. setoid_rewrite <- Hmis. clear Hmis. split.
  - intros He. split_and!; [done..|]. intros c m Hin Hm. destruct (mismatch c m) as [e|] eqn:Hx; [|done].
    assert (In e []) as []. rewrite <- He. apply in_flat_map. exists c. split; [done|]. apply list_elem_of_In, list_elem_of_omap. exists m. by rewrite list_elem_of_In.
  - intros (_ & _ & H). destruct (flat_map _ _) as [|e l] eqn:He; [done|].
    assert (In e (flat_map (fun c => omap (mismatch c) (matched all c)) checks)) as Hin by (rewrite He; by left).
    apply in_flat_map in Hin as (c & Hin & Hm). apply list_elem_of_In, list_elem_of_omap in Hm as (m & Hm & Hx).
    rewrite (H c m) in Hx; [done|done|by apply list_elem_of_In].
Qed.

(** The default check of Continuity is one of them. *)
Lemma continuity_is_state_check now r : isStateSurvivalCheck (ck_name (ToCheck now r "")) = true.
Proof. vm_compute. reflexivity. Qed.

(** ** A run *)

(** A StatefulSet's pod is migrated: evicted after 10 s, its replacement created 2 s
    later, held at its gate for 3 s and Ready after 20 s; the engine marks it. *)
Definition at_second (n : Z) : Z := n * Second.
Definition condition (type reason : string) (t : Z) : CondView := mkCondView type "True" reason (FormatRFC3339 t).
Definition no_job : JobView := mkJobView "" "" zero_time None None None None None None None None None None [].
Definition no_object : MigrationView := mkMigrationView "" zero_time false "" "" "" "" "" "" "" "" "" None None None "".
Definition no_snap : SnapView := mkSnapView "" zero_time ∅ [] None [].
Definition no_pod : PodView := mkPodView "" "" zero_time ∅ ∅ None [] None [].
Definition no_event : EventView := mkEventView "" "" "" "" "" None.

Definition job_record (t : Z) (phase : string) : option Rec := Some (mkRec (FormatRFC3339 (at_second t)) "update" "podmigrationjobs.v1" None None (Some (mkObj
  (mkJobView "pmj-0" "j" (at_second 100) (Some "web-0") (Some "old") (Some phase) None None None None None None None []) no_object no_snap no_pod no_event))).
Definition pod_record (t : Z) (type uid : string) (created : Z) (gates : list string) (annotations : gmap string string) (deletion : option Z) (conds : list CondView) : option Rec :=
  Some (mkRec (FormatRFC3339 (at_second t)) type "pods.v1" None None (Some (mkObj no_job no_object no_snap
    (mkPodView "web-0" uid (at_second created) {["app" := "web"]} annotations (Some "node-a") gates deletion conds) no_event))).

Definition sample_records : list (option Rec) := [
  pod_record 90 "add" "old" 50 [] ∅ None []; job_record 100 "Snapshotting"; job_record 108 "Evicting"; None;
  pod_record 110 "update" "old" 50 [] ∅ (Some (at_second 110)) []; pod_record 112 "add" "new" 112 ["gke.io/pod-migration-gate"] ∅ None [];
  pod_record 115 "update" "new" 112 [] ∅ None [];
  pod_record 130 "update" "new" 112 [] {["pod-migrate.io/psengine-restore" := "restored"]} None [condition "Ready" "" (at_second 130)];
  job_record 131 "Succeeded"].
Definition sample_run : Run := Analyze (fun _ _ l => l) (mkOptions "s1" 0 "" "") sample_records "" [] [] [].

Example sample_run_read : map mi_outcome (ru_migrations sample_run) = [OutcomeRestored] /\ map mi_gateHoldS (ru_migrations sample_run) = [f64_of_Z 3] /\
  map mi_downtimeS (ru_migrations sample_run) = [f64_of_Z 20] /\ map mi_tTerminal (ru_migrations sample_run) = ["1970-01-01T00:02:11Z"].
Proof. vm_compute. done. Qed.

Lemma slo_passed_holds_witness :
  durations (ru_migrations sample_run) mi_gateHoldS <> [] /\
  95 * Z.of_nat (length (durations (ru_migrations sample_run) mi_gateHoldS)) <=
  100 * Z.of_nat (length (within (60 * Second) (durations (ru_migrations sample_run) mi_gateHoldS))).
Proof.
  apply (slo_passed_holds (fun _ _ l => l) (mkOptions "s1" 0 "" "") sample_records "" [] [] [] DefaultSLOThresholds sample_run mi_gateHoldS (60 * Second)).
  - reflexivity.
  - vm_compute. reflexivity.
  - apply Nat.leb_le. vm_compute. reflexivity.
  - by left.
  - reflexivity.
Defined.

Lemma run_tally_exact_witness :
  (forall outcome, count_of sample_run outcome = Z.of_nat (length (with_outcome outcome (ru_migrations sample_run)))) /\
  (forall population, population <> "" ->
     default 0 (ru_populations sample_run !! population) =
     Z.of_nat (length (List.filter (fun m => if population ==s "measured" then counted m else mi_population m ==s population) (ru_migrations sample_run)))) /\
  ru_failures sample_run = map failure_of (List.filter (fun m => counted m && negb (not_failed (mi_outcome m))) (ru_migrations sample_run)).
Proof. apply (run_tally_exact (fun _ _ l => l) (mkOptions "s1" 0 "" "") sample_records "" [] [] []). reflexivity. Defined.

(** This operator's own migrations count as restored when they Succeeded, whether or not
    the agent verified the warm state. *)
Definition unverified : MigrationView := mkMigrationView "pm-0" (at_second 100) true "web-0" "Succeeded" "node-a" "node-b" "" "" "" "" "" None None None "".
Example unverified_counts_as_restored :
  mi_outcome (reconstructPM "pm-0" (mkPm unverified (at_second 130) (at_second 100)) (at_second 130) Minute) = OutcomeRestored /\
  mi_restored (reconstructPM "pm-0" (mkPm unverified (at_second 130) (at_second 100)) (at_second 130) Minute) = false.
Proof. by vm_compute. Qed.

(** Without a recorded snapshot, a job of pod web-1 is linked to a snapshot of web-1 or of
    web-10, as the iteration of the map has it. *)
Definition web_snapshot (pod : string) : snapState := mkSnap (at_second 100) (at_second 105) pod "Ready" "".
Example snapshot_link_by_chance :
  let j := first_job (mkJobView "pmj-1" "j" (at_second 100) None None None None None None None None None None []) in
  let j := see_job (mkJobView "pmj-1" "j" (at_second 100) (Some "web-1") None None None None None None None None None []) (at_second 100) j in
  let snaps := {["web-1-snap" := web_snapshot "web-1"; "web-10-snap" := web_snapshot "web-10"]} in
  fst (find_snapshot (fun _ _ l => l) j snaps) <> fst (find_snapshot (fun _ _ l => rev l) j snaps).
Proof. vm_compute. done. Qed.
